(* ===== verification/_CoqProject ===== *)
-Q . S2P
Prelude.v
PyDict.v
PyStr.v
Json.v
Regex.v
Endpoint.v
RequestStats.v
HashTrie.v
EngineStats.v
HashRing.v
Routing.v
RoutingSpec.v
Utils.v
StaticDiscovery.v
K8sDiscovery.v
K8sSpec.v
K8sServiceSpec.v
DiscoveryThreads.v
Config.v
Dynamic.v
Request.v
RequestSpec.v
Gateway.v
GatewaySpec.v
RequestOther.v
Files.v
Batch.v
SemanticCache.v
Backtrack.v
Pii.v
Main.v
ChatCache.v
Lifecycle.v
Startup.v
JsonText.v
NvLog.v
NvAnalysis.v
NvSpec.v
Decide.v
DecideSpec.v
DecideAudit.v
Bench.v
BenchSpec.v
BenchMain.v
BenchMainSpec.v
BenchData.v
VerifyInstall.v
Downloader.v
