(* ===== verification/Prelude.v ===== *)
(** * Verification of the vLLM router

    The program is the request router of the vLLM production stack, the Python
    package [src/src/vllm_router].  It discovers serving engines, keeps
    statistics about them, picks one for each request, proxies the request and
    streams the answer back.  This development models the router, and beside it
    the audited decision client [skills/jev-decide/scripts/decide.py], the log
    analyzer [debug/issue-6/analyze_nvlink_nvdbg.py], the load generator
    [benchmarks/multi-round-qa/], the installation check
    [docker/mooncake/scripts/verify-install.py] and the model downloader
    [scripts/huggingface_downloader.py], and proves what their parts promise.

    ** How the program works, and where it is modelled

    - Start-up ([app.py], [parsers/], [experimental/feature_gates.py]) turns the
      command line and a configuration file into options and creates the
      singletons: [Config], [Utils] (option parsers, URL validation, YAML
      conversion, test requests), [Startup] ([initialize_all] with every singleton
      in the order of the code and the watcher polling between its stages, [main] up
      to the web server, and the thread that logs statistics).
    - Service discovery ([service_discovery.py]) maintains the list of engines:
      [Endpoint] (the data), [StaticDiscovery] (engines from the command line
      with health checks), [K8sDiscovery] (engines from watch events on pods or
      services, one [world] per event) with its specifications in [K8sSpec] (pods)
      and [K8sServiceSpec] (services), [DiscoveryThreads] (the watcher threads, the
      event loop of the health checks and how they are closed), and the registry
      in [Dynamic].
    - Statistics ([stats/]): [RequestStats] (sliding windows, request life cycle
      and counters, one state record with every method), [EngineStats] (scraping).
    - Routing ([routers/routing_logic.py], [prefix/hashtrie.py]): [HashRing] (the
      third-party ring as an interface with laws), [HashTrie] (the prefix trie),
      [Routing] (the five routers and their registry), [RoutingSpec] (theorems).
    - Requests ([services/request_service/]): [Request] (the proxy; its state
      [gate] holds the monitor, the router, the calls made and the chunks sent),
      [RequestSpec] (theorems, against the router interface [RouterLaws]),
      [RequestOther] (disaggregated prefill, also as the branch of the proxy that leads
      to it, sleep and wake-up, transcriptions).
    - The running router: [Gateway] lets pod discovery, the proxy with its monitor
      and any number of clients, who may go away, take steps in any order;
      [GatewaySpec] has its theorems.  Callbacks and other routes are left out there.
    - Reconfiguration ([dynamic_config.py]): [Dynamic] ([watch_once] is one poll of
      the watcher, acting on discovery, routers and callbacks, each of whose stages
      may fail).
    - Batches and files ([services/batch_service], [services/files_service] and
      their routers): [Files], and [Batch], whose worker and requests are a step
      relation over the SQL statements, with restarts on the same database.
    - Semantic cache ([experimental/semantic_cache/] and its integration):
      [SemanticCache], with the vector index as an interface with laws, and
      [ChatCache], the cache in front of the request service in the chat route.
    - PII detection ([experimental/pii/]): [Backtrack] (the search of Python's [re]
      with word boundaries), [Pii].
    - HTTP surface ([routers/main_router.py], [routers/metrics_router.py],
      [stats/log_stats.py]): [Main].
    - The life of the process ([app.lifespan], [aiohttp_client.py], the threads of
      [stats/engine_stats.py] and [dynamic_config.py]): [Lifecycle], where a
      schedule interleaves the main thread with the scraper and the watcher of
      the configuration.
    - The decision client: [Decide] (one run as a function of its environment, the
      network and the state of the audit log), [DecideSpec] (validation, retries,
      addresses), [DecideAudit] (the audit log), on the JSON texts of [JsonText].
    - The log analyzer: [NvLog] (patterns and reading), [NvAnalysis] (correlation
      and report), [NvSpec] (theorems).
    - The load generator: [Bench] (sessions of simulated users and their manager; the
      callbacks of the event loop are actions between those of the main thread),
      [BenchSpec] (theorems), [BenchMain] (statistics, event loop thread, options
      and [main]), [BenchMainSpec] (theorems), [BenchData] (the preparation of
      recorded conversations, and the load generator that replays them).
    - The installation check: [VerifyInstall].  The model downloader: [Downloader],
      with the normalisation of paths of [os.path].

    [Prelude] (this file) has exceptions, the state-and-exception monad [M], the
    tactics and generic lemmas; [PyDict], [PyStr], [Json] and [Regex] model the
    Python dictionaries, strings, JSON values and regular expressions in use.  A
    Python method is a function of the monad: it returns or raises, and keeps its
    mutations either way.

    ** What the theorems show

    - Requests: a well-formed request reaches exactly one awake engine that serves
      its model, with the right headers and body, and the client receives exactly
      the engine's chunks, for every router that chooses among the endpoints it is given; missing models, unknown models and vanished engines get
      the documented error replies; prefill precedes decode; sleep labels follow
      success.  Weaker facts about broken streams and empty replies are lemmas.
    - Running router, with such a router: in every interleaving a client gets chunks
      of its own engine's answer only, and all chunks sent are accounted for; with
      unique request ids and no empty answers the monitor's counters are the numbers
      of requests on their way (plus those whose client went away); and requests go
      to engines that were discovered and not removed when they were routed.
    - Routing: round robin is fair and stays among the given engines, sessions keep
      their engine and survive the loss of others, the prefix router picks an
      engine with the longest served prefix, the load-based choice is minimal, the
      cache-aware and the prefill/decode routers decide as documented.  The
      session, prefix-aware and round-robin routers are instances of the interface
      the request theorems use.
    - Statistics: the sliding window holds exactly the points inside it, the
      counters are the numbers of requests in each phase, no sequence of calls
      raises, a scrape replaces the table by what was scraped.
    - Discovery: the last event about a pod or a service decides, over any number
      of broken streams, watcher threads survive every failure they catch, the
      table is always well-formed, static discovery offers exactly the healthy
      engines, closing it has the outcome the code gives it, seen models stay known.
    - Configuration: precedence of the sources, round trips of the option syntax,
      the language of valid URLs, what a poll of the watcher installs and how far it
      gets when a stage fails, and what is there when start-up returns.
    - Batches, files, cache, PII, metrics: table invariant over all interleavings,
      with restarts, stored files read back, cached replies are the stored answer of the most
      similar request and are found again by the next request, requests are blocked exactly when a
      pattern occurs, listings and gauges report what discovery and statistics
      hold.
    - Life cycle: a router that was started is shut down under every schedule that is
      fair and in which no close blocks for ever, and leaves no thread, client or
      router unless a close raises; an exception while endpoints are read ends the
      scraper for good.
    - Decision client: which requests are accepted, at most six attempts and bounded
      sleeps, one normal form of addresses, an audit log that is a hash chain in
      every reachable state (but for an event cut off by a short write), shows tampering unless a hash collision is exhibited,
      and has a record of every run that ends with an exit code.
    - Log analyzer: a printed log is read back, event by event with its place and
      fields, reading agrees with a line-by-line reference, correlated events and exports are the best ones, evidence quotes
      distinct lines of the log.
    - Load generator: the protocol of a session under every interleaving, that it
      completes when answers are prompt and is stuck when one is lost, that a run
      with a time limit ends, that its output file has a row for every recorded answer, and
      that replaying well-formed recorded conversations only fails when there are
      more users than conversations.
    - Helper programs: the installation check passes exactly on consistent images;
      the downloader stays below its base directory for relative paths without
      [..], and otherwise compares texts.

    ** Idealisations

    Floats are exact rationals; strings are sequences of code points below 256;
    header names compare without case.  Code outside the repository is a
    parameter: [json], aiohttp and [requests], the Kubernetes API, [uhashring],
    xxhash and MD5, LMCache, tokenizers, sentence transformers, FAISS, Presidio,
    pydantic's integer fields, Prometheus' text parser.  Interfaces with laws have
    an instance that satisfies them.  Clocks, fresh ids and random choices are
    arguments.  Coroutines are atomic between awaits; where a handler awaits
    between a read and a write of shared state and a theorem depends on it (the
    batch table) the steps are separate.  Recursion is structural except for
    cutting a text into chunks ([chunks_fuel]) and [finditer_fuel], whose fuel, the
    length of the text, is shown to be enough since every step consumes a
    character, and for the example parser of [JsonText], shown to invert printing.
    Shutting down needs at most 15 fair rounds: 7 statements and 4 turns of each of
    the two threads.

    ** Not modelled

    Sentry and uvicorn, log texts and colours, the superseded module
    [experimental/semantic_cache.py] (the package of the same name hides it, and it
    imports a module that does not exist), the abstract classes of storage, batch
    processor, vector database and callbacks (their implementations are modelled
    or user code), plots of benchmarks, TLS set-up of the decision client, tests
    and the cases of the decision client, the Go operator and gateway pickers, the
    Helm chart.
    In [Lifecycle] and [Startup] a turn says whether the discovery module that is being
    closed still blocks, has closed or raises; its threads are in
    [DiscoveryThreads].  One poll of the watcher is one step there, except that it
    may be blocked.  In the load generator a callback has two steps, before and after
    it clears the flag of its session, and a summary reads the lists of a session at
    one moment. *)
From stdpp Require Import base numbers list strings gmap sorting.
From Stdlib Require Import QArith.

(** ** Python exceptions the modelled code raises, catches or tells apart *)
Inductive exn : Type :=
| ValueError
| KeyError (key : string)
| IndexError
| TypeError
| AttributeError
| AssertionError
| ZeroDivisionError
| UnboundLocalError
| RuntimeError
| FileNotFoundError
| JSONDecodeError                                   (* json.JSONDecodeError *)
| RequestException                                  (* requests.exceptions.* *)
| ApiException                                      (* kubernetes client.rest.ApiException *)
| ClientResponseError (status : Z) (message : string)  (* aiohttp *)
| ClientError                                       (* any other aiohttp.ClientError *)
| HTTPException (status : Z)                        (* fastapi *)
| OtherError (what : string).

#[global] Instance exn_eq_dec : EqDecision exn.
Proof. solve_decision. Defined.

(** ** Results, and the state-and-exception monad of methods that mutate
    [self]: a raised exception keeps the mutations done so far. *)
Inductive outcome (A : Type) : Type :=
| Ret (a : A)
| Raise (e : exn).
Arguments Ret {A} a.
Arguments Raise {A} e.

#[global] Instance outcome_eq_dec `{EqDecision A} : EqDecision (outcome A).
Proof. solve_decision. Defined.

#[global] Instance outcome_ret : MRet outcome := @Ret.
#[global] Instance outcome_bind : MBind outcome := λ A B f o,
  match o with Ret a => f a | Raise e => Raise e end.

Definition M (S A : Type) : Type := S → outcome A * S.

#[global] Instance M_ret {S} : MRet (M S) := λ A a s, (Ret a, s).
#[global] Instance M_bind {S} : MBind (M S) := λ A B f m s,
  match m s with
  | (Ret a, s') => f a s'
  | (Raise e, s') => (Raise e, s')
  end.

Definition raise {S A} (e : exn) : M S A := λ s, (Raise e, s).
Definition gets {S A} (f : S → A) : M S A := λ s, (Ret (f s), s).
Definition modify {S} (f : S → S) : M S unit := λ s, (Ret tt, f s).
Definition lift {S A} (o : outcome A) : M S A := λ s, (o, s).

(** [d[k]] of a Python mapping: a missing key raises. *)
Definition or_raise {A} (e : exn) (o : option A) : outcome A :=
  match o with Some a => Ret a | None => Raise e end.

Create HintDb keeps_db.

(** ** Tactics *)
(** Split on the scrutinee of a [match] of the goal or of a hypothesis. *)
Ltac case_match_goal :=
  match goal with
  | |- context [match ?x with _ => _ end] => destruct x eqn:?
  | H : context [match ?x with _ => _ end] |- _ => destruct x eqn:?
  end.

(** Unfold the monad and simplify. *)
Ltac msimpl :=
  unfold mbind, mret, M_bind, M_ret, outcome_bind, outcome_ret, raise, gets,
    modify, lift, or_raise in *; simpl in *.

(** ** Preservation by methods *)
(** However the method ends *)
Definition keeps {S A} (P : S → Prop) (m : M S A) : Prop := ∀ s, P s → P (m s).2.
(** When it returns *)
Definition upholds {S A} (P : S → Prop) (m : M S A) : Prop :=
  ∀ s, P s → match m s with (Ret _, s') => P s' | (Raise _, _) => True end.

(** When it returns, and what holds of its exceptions *)
Definition guarded {S A} (P : S → Prop) (E : exn → S → Prop) (m : M S A) : Prop :=
  ∀ s, P s → match m s with (Ret _, s') => P s' | (Raise e, s') => E e s' end.

Lemma keeps_bind {S A B} (P : S → Prop) (m : M S A) (f : A → M S B) :
  keeps P m → (∀ a, keeps P (f a)) → keeps P (m ≫= f).
Proof.
  intros Hm Hf s Hs. unfold mbind, M_bind. specialize (Hm s Hs).
  destruct (m s) as [[a|e] s']; [by apply Hf|done].
Qed.

Lemma upholds_bind {S A B} (P : S → Prop) (m : M S A) (f : A → M S B) :
  upholds P m → (∀ a, upholds P (f a)) → upholds P (m ≫= f).
Proof.
  intros Hm Hf s Hs. unfold mbind, M_bind. specialize (Hm s Hs).
  destruct (m s) as [[a|e] s']; [by apply Hf|done].
Qed.

Lemma guarded_bind {S A B} (P : S → Prop) (E : exn → S → Prop) (m : M S A) (f : A → M S B) :
  guarded P E m → (∀ a, guarded P E (f a)) → guarded P E (m ≫= f).
Proof.
  intros Hm Hf s Hs. unfold mbind, M_bind. specialize (Hm s Hs).
  destruct (m s) as [[a|e] s']; [by apply Hf|done].
Qed.

Lemma keeps_lift {S A} (P : S → Prop) (o : outcome A) : keeps P (lift o).
Proof. by intros s. Qed.
Lemma keeps_gets {S A} (P : S → Prop) (f : S → A) : keeps P (gets f).
Proof. by intros s. Qed.
Lemma keeps_mret {S A} (P : S → Prop) (a : A) : keeps P (mret a).
Proof. by intros s. Qed.
Lemma keeps_upholds {S A} (P : S → Prop) (m : M S A) : keeps P m → upholds P m.
Proof. intros H s Hs. specialize (H s Hs). by destruct (m s) as [[a|e] s']. Qed.
Lemma guarded_gets {S A} (P : S → Prop) (E : exn → S → Prop) (f : S → A) : guarded P E (gets f).
Proof. by intros s. Qed.
Lemma guarded_modify {S} (P : S → Prop) (E : exn → S → Prop) (f : S → S) :
  (∀ s, P s → P (f s)) → guarded P E (modify f).
Proof. intros H s Hs. by apply H. Qed.
#[export] Hint Resolve keeps_bind keeps_lift keeps_gets keeps_mret upholds_bind : keeps_db.

(** Python numbers compared as exact rationals. *)
Definition Qltb (x y : Q) : bool := negb (Qle_bool y x).

Lemma Qltb_lt x y : Qltb x y = true ↔ (x < y)%Q.
Proof.
  unfold Qltb. rewrite negb_true_iff. split.
  - intros H. apply Qnot_le_lt. intros Hle. apply Qle_bool_iff in Hle. congruence.
  - intros H. destruct (Qle_bool y x) eqn:E; [|done].
    apply Qle_bool_iff in E. exfalso. by apply (Qlt_not_le _ _ H).
Qed.

Lemma Qltb_ge x y : Qltb x y = false ↔ (y <= x)%Q.
Proof. unfold Qltb. rewrite negb_false_iff. apply Qle_bool_iff. Qed.

(** ** Generic lemmas on lists *)
Section Lists.
Context {A : Type}.
Implicit Types (l : list A) (P : A → Prop).

Lemma list_filter_all P `{∀ x, Decision (P x)} l :
  (∀ x, x ∈ l → P x) → filter P l = l.
Proof.
  induction l as [|x l IH]; intros Hl; [done|].
  rewrite filter_cons_True by (apply Hl; left). f_equal.
  apply IH. intros y Hy. apply Hl. by right.
Qed.

Lemma list_filter_none P `{∀ x, Decision (P x)} l :
  (∀ x, x ∈ l → ¬ P x) → filter P l = [].
Proof.
  induction l as [|x l IH]; intros Hl; [done|].
  rewrite filter_cons_False by (apply Hl; left).
  apply IH. intros y Hy. apply Hl. by right.
Qed.

Lemma list_filter_not_nil P `{∀ x, Decision (P x)} l x :
  x ∈ l → P x → filter P l ≠ [].
Proof. intros Hx HP Hn. by apply (filter_nil_not_elem_of P l x Hn). Qed.

Lemma StronglySorted_filter (R : A → A → Prop) P `{∀ x, Decision (P x)} l :
  StronglySorted R l → StronglySorted R (filter P l).
Proof.
  induction 1 as [|x l Hl IH Hx]; [constructor|]. rewrite filter_cons.
  case_decide; [|done]. constructor; [done|].
  apply Forall_forall. intros y [_ Hy]%list_elem_of_filter.
  rewrite Forall_forall in Hx. by apply Hx.
Qed.

Lemma StronglySorted_snoc_inv (R : A → A → Prop) l x :
  StronglySorted R (l ++ [x]) → StronglySorted R l ∧ Forall (λ y, R y x) l.
Proof.
  induction l as [|y l IH]; simpl; intros H; [by repeat constructor|].
  apply StronglySorted_inv in H as [H1 H2]. destruct (IH H1) as [H3 H4].
  rewrite Forall_app, Forall_singleton in H2. destruct H2 as [H2 H5].
  split; by constructor.
Qed.

Lemma StronglySorted_snoc (R : A → A → Prop) l x :
  StronglySorted R l → Forall (λ y, R y x) l → StronglySorted R (l ++ [x]).
Proof.
  induction 1 as [|y l Hl IH Hy]; simpl; intros Hx; [by repeat constructor|].
  apply Forall_cons in Hx as [Hyx Hx]. constructor; [by apply IH|].
  apply Forall_app. by rewrite Forall_singleton.
Qed.

End Lists.
