(* ===== verification/PyDict.v ===== *)
(** * Python dictionaries with their insertion order

    A [dict] is an association list in insertion order: assigning to a key that
    is present overwrites in place, assigning to a new key appends, [del]
    removes the entry.  Used wherever the source iterates over a dict or takes
    [list(d.values())], where the order is observable; dicts that are only
    looked up are stdpp [gmap]s. *)
From stdpp Require Import base list strings gmap.
From S2P Require Import Prelude.

Section PyDict.
Context {K V : Type} `{EqDecision K}.
Implicit Types (k : K) (v : V) (d : list (K * V)).

Fixpoint dget k d : option V :=
  match d with
  | [] => None
  | (k', v) :: d => if decide (k = k') then Some v else dget k d
  end.

Fixpoint dset k v d : list (K * V) :=
  match d with
  | [] => [(k, v)]
  | (k', v') :: d =>
      if decide (k = k') then (k', v) :: d else (k', v') :: dset k v d
  end.

Fixpoint ddel k d : list (K * V) :=
  match d with
  | [] => []
  | (k', v') :: d => if decide (k = k') then d else (k', v') :: ddel k d
  end.

Definition dkeys d : list K := d.*1.
Definition dvals d : list V := d.*2.

(** [k in d] *)
Definition dmem k d : bool := match dget k d with Some _ => true | None => false end.

(** The representation invariant: each key once. *)
Definition dict_wf d : Prop := NoDup (dkeys d).

(** [d.update(l)], and the dict a loop of assignments builds. *)
Definition dupdate (l d : list (K * V)) : list (K * V) :=
  foldl (λ d kv, dset kv.1 kv.2 d) d l.

Lemma dget_dset_eq k v d : dget k (dset k v d) = Some v.
Proof.
  induction d as [|[k' v'] d IH]; simpl; [by rewrite decide_True|].
  case_decide; simpl; [by rewrite decide_True|by rewrite decide_False].
Qed.

Lemma dget_dset_ne k k' v d : k ≠ k' → dget k' (dset k v d) = dget k' d.
Proof.
  intros Hne. induction d as [|[k2 v2] d IH]; simpl; [by rewrite decide_False|].
  case_decide; simpl; subst.
  - by rewrite !decide_False by congruence.
  - case_decide; done.
Qed.

Lemma dget_dset k k' v d :
  dget k' (dset k v d) = if decide (k = k') then Some v else dget k' d.
Proof.
  case_decide; subst; [apply dget_dset_eq|by apply dget_dset_ne].
Qed.

Lemma dget_None k d : dget k d = None ↔ k ∉ dkeys d.
Proof.
  induction d as [|[k' v] d IH]; simpl; [set_solver|].
  rewrite not_elem_of_cons, <- IH. case_decide; subst; split; intros Hx; try done; destruct Hx; done.
Qed.

Lemma dget_is_Some k d : is_Some (dget k d) ↔ k ∈ dkeys d.
Proof.
  rewrite <- not_eq_None_Some, dget_None.
  split; [|tauto]. intros H. destruct (decide (k ∈ dkeys d)); [done|tauto].
Qed.

Lemma dmem_true k d : dmem k d = true ↔ k ∈ dkeys d.
Proof.
  rewrite <- dget_is_Some. unfold dmem.
  destruct (dget k d); [by split|]. split; [done|by intros []].
Qed.

Lemma dmem_false k d : dmem k d = false ↔ k ∉ dkeys d.
Proof. rewrite <- dmem_true. by destruct (dmem k d). Qed.

Lemma dget_elem k v d : dget k d = Some v → (k, v) ∈ d.
Proof.
  induction d as [|[k' v'] d IH]; simpl; [done|].
  case_decide; intros Hg; simplify_eq; [left|right; by apply IH].
Qed.

Lemma elem_dget k v d : dict_wf d → (k, v) ∈ d → dget k d = Some v.
Proof.
  unfold dict_wf. induction d as [|[k' v'] d IH]; simpl; [set_solver|].
  rewrite NoDup_cons. intros [Hnin Hnd] [Heq|Hin]%elem_of_cons.
  - simplify_eq. by rewrite decide_True.
  - rewrite decide_False; [by apply IH|].
    intros ->. apply Hnin, list_elem_of_fmap. by exists (k', v).
Qed.

Lemma dkeys_dset k v d :
  dkeys (dset k v d) = if decide (k ∈ dkeys d) then dkeys d else dkeys d ++ [k].
Proof.
  induction d as [|[k' v'] d IH]; simpl; [done|].
  destruct (decide (k = k')) as [->|Hne]; simpl.
  - rewrite decide_True; [done|left].
  - fold (dkeys (dset k v d)). rewrite IH. fold (dkeys d).
    case_decide; case_decide; set_solver.
Qed.

Lemma dset_wf k v d : dict_wf d → dict_wf (dset k v d).
Proof.
  unfold dict_wf. rewrite dkeys_dset. case_decide; [done|].
  intros Hnd. apply NoDup_app. split_and!; [done|set_solver|].
  apply NoDup_singleton.
Qed.

Lemma dkeys_ddel_subset k k' d : k' ∈ dkeys (ddel k d) → k' ∈ dkeys d.
Proof.
  induction d as [|[k2 v2] d IH]; simpl; [done|].
  case_decide; simpl; set_solver.
Qed.

Lemma ddel_wf k d : dict_wf d → dict_wf (ddel k d).
Proof.
  unfold dict_wf. induction d as [|[k' v'] d IH]; simpl; [done|].
  rewrite NoDup_cons. intros [Hnin Hnd]. case_decide; [done|]. simpl.
  rewrite NoDup_cons. split; [|by apply IH].
  intros Hin. by apply Hnin, (dkeys_ddel_subset k).
Qed.

Lemma dget_ddel_eq k d : dict_wf d → dget k (ddel k d) = None.
Proof.
  unfold dict_wf. induction d as [|[k' v'] d IH]; simpl; [done|].
  rewrite NoDup_cons. intros [Hnin Hnd]. case_decide; subst.
  - by apply dget_None.
  - simpl. rewrite decide_False by done. by apply IH.
Qed.

Lemma dget_ddel_ne k k' d : k ≠ k' → dget k' (ddel k d) = dget k' d.
Proof.
  intros Hne. induction d as [|[k2 v2] d IH]; simpl; [done|].
  destruct (decide (k = k2)) as [->|]; simpl.
  - by rewrite decide_False by congruence.
  - case_decide; done.
Qed.

Lemma dvals_elem v d : v ∈ dvals d ↔ ∃ k, (k, v) ∈ d.
Proof.
  unfold dvals. rewrite list_elem_of_fmap. split.
  - intros [[k v'] [-> Hin]]. by exists k.
  - intros [k Hin]. by exists (k, v).
Qed.

Lemma dget_dvals k v d : dget k d = Some v → v ∈ dvals d.
Proof. intros ?%dget_elem. apply dvals_elem. by exists k. Qed.

Lemma dvals_dget v d : dict_wf d → v ∈ dvals d → ∃ k, dget k d = Some v.
Proof.
  intros Hwf [k Hin]%dvals_elem. exists k. by apply elem_dget.
Qed.

Lemma dict_wf_nil : dict_wf [].
Proof. apply NoDup_nil_2. Qed.

Lemma dupdate_wf l d : dict_wf d → dict_wf (dupdate l d).
Proof.
  unfold dupdate. revert d. induction l as [|[k v] l IH]; intros d Hd; [done|].
  by apply IH, dset_wf.
Qed.

(** The dict of a comprehension over pairs: a repeated key keeps its first
    place and its last value. *)
Definition dict_of (l : list (K * V)) : list (K * V) := dupdate l [].

Lemma dict_of_wf l : dict_wf (dict_of l).
Proof. apply dupdate_wf, dict_wf_nil. Qed.

(** The last binding of a key wins. *)
Lemma dget_dupdate_rev l d k :
  dget k (dupdate l d) = match dget k (reverse l) with Some v => Some v | None => dget k d end.
Proof.
  unfold dupdate. induction l as [|[k' v'] l IH] using rev_ind; [done|].
  rewrite foldl_app, reverse_app. simpl. rewrite dget_dset, IH.
  case_decide; subst; [by rewrite decide_True|by rewrite decide_False by congruence].
Qed.

Lemma dget_dict_of l k : dget k (dict_of l) = dget k (reverse l).
Proof. unfold dict_of. rewrite dget_dupdate_rev. by destruct (dget k (reverse l)). Qed.

Lemma dict_of_id l : dict_wf l → dict_of l = l.
Proof.
  unfold dict_of, dupdate, dict_wf, dkeys. induction l as [|[k v] l IH] using rev_ind; [done|].
  rewrite fmap_app, NoDup_app. intros (Hl & Hd & _). rewrite foldl_app, IH by done. simpl.
  assert (k ∉ l.*1) as Hk by (intros Hk; by apply (Hd k Hk), list_elem_of_singleton).
  clear IH Hl Hd. induction l as [|[k' v'] l IH]; [done|]. simpl in *.
  rewrite decide_False by set_solver. by rewrite IH by set_solver.
Qed.

(** Updating with a well-formed dict: the new bindings win, the others stay. *)
Lemma dget_dupdate l d k :
  dict_wf l →
  dget k (dupdate l d) = match dget k l with Some v => Some v | None => dget k d end.
Proof.
  unfold dupdate, dict_wf. revert d.
  induction l as [|[k' v'] l IH]; intros d; simpl; [done|].
  rewrite NoDup_cons. intros [Hnin Hnd]. rewrite (IH _ Hnd).
  case_decide; subst.
  - apply dget_None in Hnin. rewrite Hnin. apply dget_dset_eq.
  - by rewrite dget_dset_ne.
Qed.

(** Assigning the value that is there changes nothing. *)
Lemma dset_id k v d : dget k d = Some v → dset k v d = d.
Proof.
  induction d as [|[k' v'] d IH]; simpl; [done|].
  case_decide; intros Heq; simplify_eq; [done|]. f_equal. by apply IH.
Qed.

(** Assigning twice is assigning once, and entries keep their place. *)
Lemma dset_dset k v v' d : dset k v (dset k v' d) = dset k v d.
Proof.
  induction d as [|[k2 v2] d IH]; simpl; [by rewrite decide_True|].
  case_decide; simpl; [by rewrite decide_True|].
  rewrite decide_False by done. by rewrite IH.
Qed.

(** A key that was absent is removed without a trace. *)
Lemma ddel_dset_fresh k v d : k ∉ dkeys d → ddel k (dset k v d) = d.
Proof.
  induction d as [|[k2 v2] d IH]; simpl; [by rewrite decide_True|].
  rewrite not_elem_of_cons. intros [Hne Hnin].
  rewrite decide_False by done. simpl. rewrite decide_False by done.
  f_equal. by apply IH.
Qed.
End PyDict.

Create HintDb pydict.
#[export] Hint Resolve dset_wf ddel_wf dict_wf_nil dupdate_wf : pydict.

Create Rewrite HintDb pydict_rw.
#[export] Hint Rewrite @dget_dset_eq @dset_dset : pydict_rw.
