(* ===== verification/PyStr.v ===== *)
(** * Python strings and [sorted]

    A [str] is a Rocq [string]; its characters are the code points below 256.
    [split], [join], [strip], [lower], [startswith] and [sorted(key=...)] as the
    source uses them, with the round trip between [join] and [split]. *)
From stdpp Require Import base list strings gmap sorting.
From Stdlib Require Import Ascii.
From S2P Require Import Prelude.

(** [s.split(c)] for a one-character separator. *)
Fixpoint split_on (c : ascii) (s : string) : list string :=
  match s with
  | EmptyString => [EmptyString]
  | String a s =>
      if decide (a = c) then EmptyString :: split_on c s
      else match split_on c s with
           | h :: t => String a h :: t
           | [] => [String a EmptyString]
           end
  end.

(** [sep.join(l)] *)
Fixpoint join (sep : string) (l : list string) : string :=
  match l with
  | [] => EmptyString
  | [x] => x
  | x :: l => x +:+ sep +:+ join sep l
  end.

(** [c in s] for one character, and [s.split(c, 1)] when it is there. *)
Fixpoint str_has (c : ascii) (s : string) : bool :=
  match s with
  | EmptyString => false
  | String a s => if decide (a = c) then true else str_has c s
  end.

Fixpoint split_once (c : ascii) (s : string) : option (string * string) :=
  match s with
  | EmptyString => None
  | String a s =>
      if decide (a = c) then Some (EmptyString, s)
      else match split_once c s with
           | Some (x, y) => Some (String a x, y)
           | None => None
           end
  end.

(** The white space [str.strip] removes (the code points below 256). *)
Definition is_space (a : ascii) : bool :=
  let n := nat_of_ascii a in
  ((9 <=? n) && (n <=? 13)) || ((28 <=? n) && (n <=? 32)) || (n =? 133) || (n =? 160).

Fixpoint lstrip (s : string) : string :=
  match s with
  | EmptyString => EmptyString
  | String a s' => if is_space a then lstrip s' else s
  end.

Fixpoint rstrip (s : string) : string :=
  match s with
  | EmptyString => EmptyString
  | String a s' =>
      match rstrip s' with
      | EmptyString => if is_space a then EmptyString else String a EmptyString
      | r => String a r
      end
  end.

Definition strip (s : string) : string := rstrip (lstrip s).

(** [s.lower()] on the ASCII letters. *)
Definition lower_ascii (a : ascii) : ascii :=
  let n := nat_of_ascii a in
  if (65 <=? n) && (n <=? 90) then ascii_of_nat (n + 32) else a.

Fixpoint lower (s : string) : string :=
  match s with
  | EmptyString => EmptyString
  | String a s => String (lower_ascii a) (lower s)
  end.

Definition str_empty (s : string) : bool :=
  match s with EmptyString => true | _ => false end.

(** ** Comparison of strings by code points, the order of [sorted] *)
Definition str_le (x y : string) : Prop := String.leb x y = true.

#[global] Instance str_le_dec x y : Decision (str_le x y).
Proof. unfold str_le. apply _. Defined.

Lemma ascii_compare_N x y : Ascii.compare x y = N.compare (N_of_ascii x) (N_of_ascii y).
Proof. reflexivity. Qed.

Lemma string_compare_trans x y z :
  String.compare x y ≠ Gt → String.compare y z ≠ Gt → String.compare x z ≠ Gt.
Proof.
  revert y z. induction x as [|a x IH]; intros [|b y] [|c z]; simpl; try done.
  rewrite !ascii_compare_N.
  destruct (N.compare_spec (N_of_ascii a) (N_of_ascii b)) as [E1|E1|E1];
    destruct (N.compare_spec (N_of_ascii b) (N_of_ascii c)) as [E2|E2|E2]; try done;
    intros H1 H2;
    destruct (N.compare_spec (N_of_ascii a) (N_of_ascii c)) as [E3|E3|E3]; try done; try lia.
  by apply (IH y z).
Qed.

#[global] Instance str_le_trans : Transitive str_le.
Proof.
  intros x y z. unfold str_le, String.leb.
  pose proof (string_compare_trans x y z) as H.
  destruct (String.compare x y), (String.compare y z), (String.compare x z); naive_solver.
Qed.

#[global] Instance str_le_total : Total str_le.
Proof.
  intros x y. unfold str_le. destruct (String.leb_total x y); auto.
Qed.

#[global] Instance str_le_antisymm : AntiSymm (=) str_le.
Proof. intros x y H1 H2. by apply String.leb_antisym. Qed.

#[global] Instance str_le_refl : Reflexive str_le.
Proof. intros x. by destruct (total str_le x x). Qed.

(** ** [sorted(l, key=key)]: a stable insertion sort *)
Section Sorted.
Context {A : Type} (key : A → string).

Fixpoint insert_by (x : A) (l : list A) : list A :=
  match l with
  | [] => [x]
  | y :: l => if decide (str_le (key x) (key y)) then x :: y :: l else y :: insert_by x l
  end.

Definition sorted_by (l : list A) : list A := foldr insert_by [] l.

Lemma insert_by_perm x l : insert_by x l ≡ₚ x :: l.
Proof.
  induction l as [|y l IH]; simpl; [done|]. case_decide; [done|].
  rewrite IH. apply Permutation_swap.
Qed.

Lemma sorted_by_perm l : sorted_by l ≡ₚ l.
Proof. induction l as [|x l IH]; simpl; [done|]. by rewrite insert_by_perm, IH. Qed.

Definition key_sorted (l : list A) : Prop := StronglySorted (λ x y, str_le (key x) (key y)) l.

Lemma insert_by_sorted x l : key_sorted l → key_sorted (insert_by x l).
Proof.
  unfold key_sorted. induction 1 as [|y l Hl IH Hy]; simpl; [by repeat constructor|].
  case_decide as Hle.
  - constructor; [by constructor|]. constructor; [done|].
    eapply Forall_impl; [done|]. simpl. intros z Hz. by transitivity (key y).
  - constructor; [done|]. rewrite insert_by_perm. constructor; [|done].
    by destruct (total str_le (key x) (key y)).
Qed.

Lemma sorted_by_sorted l : key_sorted (sorted_by l).
Proof.
  induction l as [|x l IH]; simpl; [constructor|]. by apply insert_by_sorted.
Qed.

(** Two sorted permutations of each other agree when the keys are distinct. *)
Lemma key_sorted_unique l1 l2 :
  key_sorted l1 → key_sorted l2 → NoDup (key <$> l1) → l1 ≡ₚ l2 → l1 = l2.
Proof.
  unfold key_sorted. intros H1. revert l2.
  induction H1 as [|x l1 Hl IH Hx]; intros l2 H2 Hnd Hp.
  - by apply Permutation_nil_l in Hp.
  - destruct H2 as [|y l2 Hl2 Hy]; [by apply Permutation_nil_r in Hp|].
    rewrite fmap_cons, NoDup_cons in Hnd. destruct Hnd as [Hnin Hnd].
    assert (x = y) as ->.
    { assert (x ∈ y :: l2) as [->|Hin]%elem_of_cons by (rewrite <- Hp; left); [done|].
      assert (y ∈ x :: l1) as [->|Hin']%elem_of_cons by (rewrite Hp; left); [done|].
      rewrite Forall_forall in Hx, Hy. exfalso. apply Hnin.
      rewrite (anti_symm str_le _ _ (Hx _ Hin') (Hy _ Hin)).
      apply list_elem_of_fmap. by exists y. }
    f_equal. apply IH; [done|done|]. by apply Permutation_cons_inv in Hp.
Qed.

Lemma sorted_by_unique l1 l2 :
  NoDup (key <$> l1) → l1 ≡ₚ l2 → sorted_by l1 = sorted_by l2.
Proof.
  intros Hnd Hp. apply key_sorted_unique; try apply sorted_by_sorted.
  - by rewrite sorted_by_perm.
  - by rewrite !sorted_by_perm.
Qed.
End Sorted.

(** ** Round trip of [join] and [split] *)
Definition no_char (c : ascii) (s : string) : Prop := str_has c s = false.

Lemma split_on_nonempty c s : split_on c s ≠ [].
Proof. destruct s; simpl; [done|]. case_decide; [done|]. by destruct (split_on c s). Qed.

Lemma split_on_no_char c s : no_char c s → split_on c s = [s].
Proof.
  unfold no_char. induction s as [|a s IH]; simpl; [done|].
  case_decide; [done|]. intros Hs. by rewrite IH.
Qed.

Lemma split_on_app c x s :
  no_char c x → split_on c (x +:+ String c s) = x :: split_on c s.
Proof.
  unfold no_char. induction x as [|a x IH]; simpl; [by rewrite decide_True|].
  case_decide; [done|]. intros Hx. by rewrite IH.
Qed.

Lemma split_join c l :
  l ≠ [] → Forall (no_char c) l → split_on c (join (String c EmptyString) l) = l.
Proof.
  induction l as [|x l IH]; [done|]. intros _ [Hx Hl]%Forall_cons.
  destruct l as [|y l]; [by apply split_on_no_char|].
  change (join (String c "") (x :: y :: l))
    with (x +:+ String c (join (String c "") (y :: l))).
  rewrite split_on_app by done. by rewrite IH.
Qed.

Lemma split_pieces_no_char c s : Forall (no_char c) (split_on c s).
Proof.
  unfold no_char. induction s as [|a s IH]; simpl; [by repeat constructor|].
  case_decide; [by constructor|].
  destruct (split_on c s) as [|h t]; [constructor; [|done]|].
  - simpl. by rewrite decide_False.
  - apply Forall_cons in IH as [Hh Ht]. constructor; [|done].
    simpl. by rewrite decide_False.
Qed.

(** ** Concatenation *)
Lemma str_app_nil_r (s : string) : s +:+ EmptyString = s.
Proof.
  induction s as [|a s IH]; [done|]. change (String a (s +:+ "") = String a s). by rewrite IH.
Qed.

Lemma str_app_assoc (a b c : string) : (a +:+ b) +:+ c = a +:+ (b +:+ c).
Proof.
  induction a as [|x a IH]; [done|].
  change (String x ((a +:+ b) +:+ c) = String x (a +:+ (b +:+ c))). by rewrite IH.
Qed.

Lemma str_app_length a b : String.length (a +:+ b) = String.length a + String.length b.
Proof.
  induction a as [|x a IH]; [done|]. change (S (String.length (a +:+ b)) = S (String.length a + String.length b)).
  by rewrite IH.
Qed.

Create HintDb pystr.
#[export] Hint Resolve split_on_nonempty split_pieces_no_char sorted_by_perm
  sorted_by_sorted : pystr.
