(* ===== verification/Json.v ===== *)
(** * JSON values as Python holds them

    The result of [json.loads]: [None], [bool], [int], [float], [str], [list]
    and [dict] (in insertion order), with the truth value, [.get] and [==] the
    source uses on them. *)
From stdpp Require Import base list strings gmap.
From Stdlib Require Import QArith.
From S2P Require Import Prelude PyDict PyStr.

Inductive json : Type :=
| JNull
| JBool (b : bool)
| JInt (z : Z)
| JFloat (q : Q)
| JStr (s : string)
| JArr (l : list json)
| JObj (d : list (string * json)).

(** [bool(v)] *)
Definition truthy (v : json) : bool :=
  match v with
  | JNull => false
  | JBool b => b
  | JInt z => negb (z =? 0)%Z
  | JFloat q => negb (Qeq_bool q 0)
  | JStr s => negb (str_empty s)
  | JArr l => match l with [] => false | _ => true end
  | JObj d => match d with [] => false | _ => true end
  end.

(** [v is None] *)
Definition is_none (v : json) : bool := match v with JNull => true | _ => false end.

(** [v == z] for an [int] literal: Python compares numbers across types. *)
Definition eq_int (v : json) (z : Z) : bool :=
  match v with
  | JBool b => (z =? (if b then 1 else 0))%Z
  | JInt z' => (z' =? z)%Z
  | JFloat q => Qeq_bool q (inject_Z z)
  | _ => false
  end.

(** [v == s] for a [str] literal *)
Definition eq_str (v : json) (s : string) : bool :=
  match v with JStr s' => String.eqb s' s | _ => false end.

(** [d.get(k, dflt)] *)
Definition dict_get (k : string) (dflt : json) (d : list (string * json)) : json :=
  match dget k d with Some v => v | None => dflt end.

(** [v.get(k, dflt)] on a value of any type: only a dict has the method. *)
Definition jget (k : string) (dflt v : json) : outcome json :=
  match v with
  | JObj d => Ret (dict_get k dflt d)
  | _ => Raise AttributeError
  end.

(** [v[k]] with a string key: a dict looks it up, a list or a string refuses
    the index type, the other values are not subscriptable. *)
Definition jitem (k : string) (v : json) : outcome json :=
  match v with
  | JObj d => or_raise (KeyError k) (dget k d)
  | _ => Raise TypeError
  end.

(** Iterating over a value: a list yields its items, a dict its keys, a string
    its characters. *)
Definition jiter (v : json) : outcome (list json) :=
  match v with
  | JArr l => Ret l
  | JObj d => Ret (JStr <$> dkeys d)
  | JStr s => Ret ((λ c, JStr (String c EmptyString)) <$> String.list_ascii_of_string s)
  | _ => Raise TypeError
  end.

(** [k in v] with a string [k]. *)
Definition jin (k : string) (v : json) : outcome bool :=
  match v with
  | JObj d => Ret (dmem k d)
  | JArr l => Ret (existsb (λ x, eq_str x k) l)
  | JStr s => Ret (match String.index 0 k s with Some _ => true | None => false end)
  | _ => Raise TypeError
  end.

(** The items of a [join]: all must be strings. *)
Fixpoint as_strings (l : list json) : outcome (list string) :=
  match l with
  | [] => Ret []
  | JStr s :: l => ss ← as_strings l; Ret (s :: ss)
  | _ :: _ => Raise TypeError
  end.

(** [len(v)] *)
Definition jlen (v : json) : outcome nat :=
  match v with
  | JArr l => Ret (length l)
  | JObj d => Ret (length d)
  | JStr s => Ret (String.length s)
  | _ => Raise TypeError
  end.

(** [a == b]: numbers compare across types, dicts whatever their order. *)
Definition jnum (v : json) : option Q :=
  match v with
  | JBool b => Some (if b then 1 else 0)
  | JInt z => Some (inject_Z z)
  | JFloat q => Some q
  | _ => None
  end%Q.

Fixpoint json_eqb (a b : json) : bool :=
  match a, b with
  | JNull, JNull => true
  | JStr s, JStr s' => String.eqb s s'
  | JArr l, JArr l' =>
      (fix go l l' := match l, l' with
                      | [], [] => true
                      | x :: l, x' :: l' => json_eqb x x' && go l l'
                      | _, _ => false
                      end) l l'
  | JObj d, JObj d' =>
      Nat.eqb (length d) (length d') &&
      (fix go d := match d with
                   | [] => true
                   | (k, v) :: d =>
                       match dget k d' with Some v' => json_eqb v v' | None => false end && go d
                   end) d
  | _, _ => match jnum a, jnum b with Some x, Some y => Qeq_bool x y | _, _ => false end
  end.

(** [v <= 0] and [0.0 <= v <= 1.0]: only numbers compare. *)
Definition le_zero (v : json) : outcome bool :=
  match jnum v with Some q => Ret (Qle_bool q 0) | None => Raise TypeError end.

Definition in_unit_interval (v : json) : outcome bool :=
  match jnum v with Some q => Ret (Qle_bool 0 q && Qle_bool q 1) | None => Raise TypeError end.

(** A value the code calls [.split] on: only a string has the method. *)
Definition as_str (v : json) : outcome string :=
  match v with JStr s => Ret s | _ => Raise AttributeError end.

(** ** Lemmas *)
Lemma as_strings_JStr l : as_strings (JStr <$> l) = Ret l.
Proof. induction l as [|s l IH]; [done|]. csimpl. by rewrite IH. Qed.

Lemma as_strings_Ret l ss : as_strings l = Ret ss ↔ l = JStr <$> ss.
Proof.
  split; [|intros ->; apply as_strings_JStr]. revert ss.
  induction l as [|v l IH]; intros ss; simpl; [by intros [= <-]|].
  destruct v; try done. unfold mbind, outcome_bind. destruct (as_strings l) as [ss'|]; [|done].
  intros [= <-]. csimpl. by rewrite (IH ss').
Qed.

Lemma dict_get_dset k k' v dflt (d : list (string * json)) :
  dict_get k' dflt (dset k v d) = if decide (k = k') then v else dict_get k' dflt d.
Proof. unfold dict_get. rewrite dget_dset. by case_decide. Qed.

Lemma truthy_not_none v : truthy v = true → is_none v = false.
Proof. by destruct v. Qed.
