(* ===== verification/Regex.v ===== *)
(** * Regular expressions

    The fragment of Python's [re] the source uses: character classes,
    concatenation, alternation, repetition and bounded repetition.  [rlang] is
    the language of an expression, [rmatch] decides it by derivatives, and
    [rmatch_spec] says that the two agree. *)
From stdpp Require Import base list strings.
From Stdlib Require Import Ascii.
From S2P Require Import Prelude.

Inductive regex : Type :=
| RNone
| REps
| RChr (p : ascii → bool)
| RCat (r1 r2 : regex)
| RAlt (r1 r2 : regex)
| RStar (r : regex).

Inductive rlang : regex → list ascii → Prop :=
| LEps : rlang REps []
| LChr p a : p a = true → rlang (RChr p) [a]
| LCat r1 r2 s1 s2 : rlang r1 s1 → rlang r2 s2 → rlang (RCat r1 r2) (s1 ++ s2)
| LAlt1 r1 r2 s : rlang r1 s → rlang (RAlt r1 r2) s
| LAlt2 r1 r2 s : rlang r2 s → rlang (RAlt r1 r2) s
| LStar0 r : rlang (RStar r) []
| LStarS r s1 s2 : rlang r s1 → rlang (RStar r) s2 → rlang (RStar r) (s1 ++ s2).

#[export] Hint Constructors rlang : regex.

(** ** The matcher *)
Fixpoint nullable (r : regex) : bool :=
  match r with
  | RNone | RChr _ => false
  | REps | RStar _ => true
  | RCat r1 r2 => nullable r1 && nullable r2
  | RAlt r1 r2 => nullable r1 || nullable r2
  end.

Fixpoint deriv (a : ascii) (r : regex) : regex :=
  match r with
  | RNone | REps => RNone
  | RChr p => if p a then REps else RNone
  | RCat r1 r2 =>
      if nullable r1 then RAlt (RCat (deriv a r1) r2) (deriv a r2) else RCat (deriv a r1) r2
  | RAlt r1 r2 => RAlt (deriv a r1) (deriv a r2)
  | RStar r => RCat (deriv a r) (RStar r)
  end.

Fixpoint rmatch (r : regex) (s : list ascii) : bool :=
  match s with
  | [] => nullable r
  | a :: s => rmatch (deriv a r) s
  end.

(** ** Derived forms *)
Definition ROpt (r : regex) : regex := RAlt REps r.
Definition RPlus (r : regex) : regex := RCat r (RStar r).

Fixpoint RRep (n : nat) (r : regex) : regex :=
  match n with O => REps | S n => RCat r (RRep n r) end.

(** [r{0,m}] *)
Fixpoint RUpTo (m : nat) (r : regex) : regex :=
  match m with O => REps | S m => ROpt (RCat r (RUpTo m r)) end.

(** [r{n,m}] and [r{n,}] *)
Definition RBetween (n m : nat) (r : regex) : regex := RCat (RRep n r) (RUpTo (m - n) r).
Definition RAtLeast (n : nat) (r : regex) : regex := RCat (RRep n r) (RStar r).

Definition RLit (s : string) : regex :=
  foldr (λ a r, RCat (RChr (Ascii.eqb a)) r) REps (String.list_ascii_of_string s).

(** Character classes *)
Definition in_range (lo hi : ascii) (a : ascii) : bool :=
  (nat_of_ascii lo <=? nat_of_ascii a) && (nat_of_ascii a <=? nat_of_ascii hi).
Definition is_digit : ascii → bool := in_range "0" "9".
Definition is_lower : ascii → bool := in_range "a" "z".
Definition is_upper : ascii → bool := in_range "A" "Z".
Definition is_alpha (a : ascii) : bool := is_lower a || is_upper a.
Definition is_alnum (a : ascii) : bool := is_alpha a || is_digit a.
Definition is_newline (a : ascii) : bool := nat_of_ascii a =? 10.
(** [.] matches every character but a newline *)
Definition dot (a : ascii) : bool := negb (is_newline a).

(** ** Correctness of the matcher *)
Lemma nullable_spec r : nullable r = true ↔ rlang r [].
Proof.
  split.
  - induction r; simpl; intros H; try done; auto with regex.
    + apply andb_true_iff in H as [H1 H2]. change (@nil ascii) with (@nil ascii ++ []).
      auto with regex.
    + apply orb_true_iff in H as [H|H]; auto with regex.
  - remember [] as s eqn:Hs. induction 1; simpl; try done; subst.
    + apply app_nil in Hs as [-> ->]. by rewrite IHrlang1, IHrlang2.
    + by rewrite IHrlang.
    + by rewrite IHrlang, orb_true_r.
Qed.

Lemma rlang_cat_cons r1 r2 a s :
  rlang (RCat r1 r2) (a :: s) ↔
    (rlang r1 [] ∧ rlang r2 (a :: s)) ∨
    ∃ s1 s2, s = s1 ++ s2 ∧ rlang r1 (a :: s1) ∧ rlang r2 s2.
Proof.
  split.
  - inversion 1 as [| |? ? s1 s2 H1 H2 E1 E2| | | |]; subst.
    destruct s1 as [|b s1]; simpl in *; simplify_eq; [by left|right; by eauto].
  - intros [[H1 H2]|(s1 & s2 & -> & H1 & H2)].
    + change (a :: s) with ([] ++ a :: s). auto with regex.
    + change (a :: s1 ++ s2) with ((a :: s1) ++ s2). auto with regex.
Qed.

Lemma rlang_star_cons r a s :
  rlang (RStar r) (a :: s) ↔ ∃ s1 s2, s = s1 ++ s2 ∧ rlang r (a :: s1) ∧ rlang (RStar r) s2.
Proof.
  split.
  - remember (RStar r) as r' eqn:Hr. remember (a :: s) as l eqn:Hl. intros H. revert Hr a s Hl.
    induction H as [| | | | | |r0 s1 s2 H1 _ H2 IH]; intros ? b t Hl; simplify_eq.
    destruct s1 as [|c s1]; simpl in *; [by apply IH|]. simplify_eq. by eauto.
  - intros (s1 & s2 & -> & H1 & H2). change (a :: s1 ++ s2) with ((a :: s1) ++ s2).
    auto with regex.
Qed.

Lemma rlang_alt r1 r2 s : rlang (RAlt r1 r2) s ↔ rlang r1 s ∨ rlang r2 s.
Proof.
  split; [|intros [?|?]; auto with regex].
  inversion 1; subst; auto.
Qed.

Lemma rlang_cat r1 r2 s : rlang (RCat r1 r2) s ↔ ∃ s1 s2, s = s1 ++ s2 ∧ rlang r1 s1 ∧ rlang r2 s2.
Proof.
  split; [|intros (s1 & s2 & -> & ? & ?); auto with regex].
  inversion 1; subst; eauto.
Qed.

Lemma rlang_none s : ¬ rlang RNone s.
Proof. inversion 1. Qed.

Lemma rlang_eps s : rlang REps s ↔ s = [].
Proof. split; [by inversion 1|intros ->; constructor]. Qed.

Lemma rlang_chr p s : rlang (RChr p) s ↔ ∃ a, s = [a] ∧ p a = true.
Proof. split; [inversion 1; subst; eauto|intros (a & -> & ?); by constructor]. Qed.

Lemma deriv_spec a r s : rlang (deriv a r) s ↔ rlang r (a :: s).
Proof.
  revert s. induction r as [| |p|r1 IH1 r2 IH2|r1 IH1 r2 IH2|r IH]; intros s; simpl.
  - split; intros H; by apply rlang_none in H.
  - split; [by intros ?%rlang_none|by intros ?%rlang_eps].
  - rewrite rlang_chr. destruct (p a) eqn:Hp.
    + rewrite rlang_eps. naive_solver.
    + split; [by intros ?%rlang_none|]. intros (b & ? & ?). simplify_eq. congruence.
  - rewrite rlang_cat_cons. pose proof (nullable_spec r1) as Hn.
    destruct (nullable r1); rewrite ?rlang_alt, rlang_cat; setoid_rewrite IH1.
    + rewrite IH2. naive_solver.
    + split; [by right|]. intros [[?%Hn _]|?]; done.
  - by rewrite !rlang_alt, IH1, IH2.
  - rewrite rlang_star_cons, rlang_cat. by setoid_rewrite IH.
Qed.

Lemma rmatch_spec r s : rmatch r s = true ↔ rlang r s.
Proof.
  revert r. induction s as [|a s IH]; intros r; simpl; [apply nullable_spec|].
  by rewrite IH, deriv_spec.
Qed.

(** ** The languages of the derived forms *)
Lemma rlang_opt r s : rlang (ROpt r) s ↔ s = [] ∨ rlang r s.
Proof. unfold ROpt. by rewrite rlang_alt, rlang_eps. Qed.

Lemma rlang_lit l s : rlang (RLit l) s ↔ s = String.list_ascii_of_string l.
Proof.
  unfold RLit. generalize (String.list_ascii_of_string l). clear l. intros l. revert s.
  induction l as [|a l IH]; intros s; simpl; [apply rlang_eps|].
  rewrite rlang_cat. setoid_rewrite rlang_chr. setoid_rewrite IH. split.
  - intros (s1 & s2 & -> & (b & -> & Hb%Ascii.eqb_eq) & ->). by subst.
  - intros ->. exists [a], l. split_and!; [done| |done]. exists a. by rewrite Ascii.eqb_refl.
Qed.

Lemma rlang_star_chr p s : rlang (RStar (RChr p)) s ↔ Forall (λ a, p a = true) s.
Proof.
  induction s as [|a s IH]; [split; intros; constructor|].
  rewrite rlang_star_cons, Forall_cons, <- IH. split.
  - intros (s1 & s2 & -> & (b & ? & Hb)%rlang_chr & Hs). by simplify_eq/=.
  - intros [Ha Hs]. exists [], s. split_and!; [done|by constructor|done].
Qed.

Lemma rlang_plus_chr p s : rlang (RPlus (RChr p)) s ↔ s ≠ [] ∧ Forall (λ a, p a = true) s.
Proof.
  unfold RPlus. rewrite rlang_cat. split.
  - intros (s1 & s2 & -> & (a & -> & Ha)%rlang_chr & Hs%rlang_star_chr). split; [done|].
    by constructor.
  - intros [Hne Hs]. destruct s as [|a s]; [done|]. apply Forall_cons in Hs as [Ha Hs].
    exists [a], s. split_and!; [done|by constructor|by apply rlang_star_chr].
Qed.

Lemma rlang_rep_chr n p s :
  rlang (RRep n (RChr p)) s ↔ length s = n ∧ Forall (λ a, p a = true) s.
Proof.
  revert s. induction n as [|n IH]; intros s; simpl.
  - rewrite rlang_eps. split; [intros ->; by split|]. by intros [?%nil_length_inv _].
  - rewrite rlang_cat. split.
    + intros (s1 & s2 & -> & (a & -> & Ha)%rlang_chr & [Hl Hs]%IH). simpl. split; [lia|].
      by constructor.
    + intros [Hl Hs]. destruct s as [|a s]; [done|]. apply Forall_cons in Hs as [Ha Hs].
      exists [a], s. split_and!; [done|by constructor|]. apply IH. simpl in Hl. split; [lia|done].
Qed.

Lemma rlang_upto_chr m p s :
  rlang (RUpTo m (RChr p)) s ↔ length s ≤ m ∧ Forall (λ a, p a = true) s.
Proof.
  revert s. induction m as [|m IH]; intros s; simpl.
  - rewrite rlang_eps. split; [intros ->; by split|]. intros [Hl _]. apply nil_length_inv. lia.
  - rewrite rlang_opt, rlang_cat. split.
    + intros [->|(s1 & s2 & -> & (a & -> & Ha)%rlang_chr & [Hl Hs]%IH)]; simpl.
      * split; [lia|constructor].
      * split; [lia|by constructor].
    + intros [Hl Hs]. destruct s as [|a s]; [by left|]. right. apply Forall_cons in Hs as [Ha Hs].
      exists [a], s. split_and!; [done|by constructor|]. apply IH. simpl in Hl. split; [lia|done].
Qed.

Lemma rlang_between_chr n m p s :
  n ≤ m →
  rlang (RBetween n m (RChr p)) s ↔ n ≤ length s ≤ m ∧ Forall (λ a, p a = true) s.
Proof.
  intros Hnm. unfold RBetween. rewrite rlang_cat. setoid_rewrite rlang_rep_chr.
  setoid_rewrite rlang_upto_chr. split.
  - intros (s1 & s2 & -> & [H1 H2] & [H3 H4]). rewrite length_app. split; [lia|].
    by apply Forall_app.
  - intros [Hl Hs]. exists (take n s), (drop n s). rewrite take_drop, length_take, length_drop.
    split_and!; [done|lia|by apply Forall_take|lia|by apply Forall_drop].
Qed.
