(* ===== verification/Endpoint.v ===== *)
(** * Models and endpoints: [ModelInfo] and [EndpointInfo] of
    [service_discovery.py] *)
From stdpp Require Import base list strings gmap.
From Stdlib Require Import QArith.
From S2P Require Import Prelude PyDict PyStr Json.

(** The dataclass does not check its fields: [from_dict] stores whatever JSON
    value the engine sent. *)
Record ModelInfo := mkModelInfo {
  mi_id : json;
  mi_object : json;
  mi_created : json;
  mi_owned_by : json;
  mi_root : json;
  mi_parent : json;
  mi_is_adapter : bool
}.

(** [ModelInfo.from_dict(data)]; [now] is [int(time.time())]. *)
Definition from_dict (now : Z) (data : list (string * json)) : ModelInfo := {|
  mi_id := dict_get "id" JNull data;
  mi_object := dict_get "object" (JStr "model") data;
  mi_created := dict_get "created" (JInt now) data;
  mi_owned_by := dict_get "owned_by" (JStr "vllm") data;
  mi_root := dict_get "root" JNull data;
  mi_parent := dict_get "parent" JNull data;
  mi_is_adapter := negb (is_none (dict_get "parent" JNull data))
|}.

Definition to_dict (m : ModelInfo) : list (string * json) := [
  ("id", mi_id m);
  ("object", mi_object m);
  ("created", mi_created m);
  ("owned_by", mi_owned_by m);
  ("root", mi_root m);
  ("parent", mi_parent m);
  ("is_adapter", JBool (mi_is_adapter m))
]%string.

Record EndpointInfo := mkEndpointInfo {
  url : string;
  model_names : list string;
  Id : string;
  added_timestamp : Z;
  model_label : option string;
  sleep : bool;
  pod_name : option string;
  service_name : option string;
  namespace : option string;
  model_info : list (string * ModelInfo)
}.

Definition get_base_models (e : EndpointInfo) : list string :=
  (filter (λ kv, truthy (mi_parent kv.2) = false) (model_info e)).*1.

Definition get_adapters (e : EndpointInfo) : list string :=
  (filter (λ kv, truthy (mi_parent kv.2) = true) (model_info e)).*1.

Definition get_adapters_for_model (e : EndpointInfo) (base_model : string) : list string :=
  (filter (λ kv, eq_str (mi_parent kv.2) base_model = true) (model_info e)).*1.

Definition has_model (e : EndpointInfo) (model_id : string) : bool :=
  bool_decide (model_id ∈ model_names e).

Definition get_model_info (e : EndpointInfo) (model_id : string) : option ModelInfo :=
  dget model_id (model_info e).

(** ** Lemmas *)
Lemma to_dict_wf m : dict_wf (to_dict m).
Proof. unfold dict_wf, dkeys, to_dict. simpl. apply (bool_decide_unpack _). by vm_compute. Qed.

(** A [ModelInfo] survives serialisation: reading back the dictionary
    that [to_dict] writes gives the same record, for every record whose
    adapter flag agrees with its parent field, which is what [from_dict]
    always builds. *)
Theorem model_info_roundtrip now m :
  mi_is_adapter m = negb (is_none (mi_parent m)) →
  from_dict now (to_dict m) = m.
Proof. destruct m as [i o c w r p a]. simpl. intros ->. reflexivity. Qed.

Lemma model_info_roundtrip_witness :
  from_dict 7 (to_dict (from_dict 3 [("id", JStr "lora"); ("parent", JStr "llama")]%string))
  = from_dict 3 [("id", JStr "lora"); ("parent", JStr "llama")]%string.
Proof. apply model_info_roundtrip. reflexivity. Defined.

(** Every model of an endpoint is listed exactly once, either as a base
    model or as an adapter, and the adapters of a named base model are
    adapters. *)
Theorem base_adapter_partition e :
  get_base_models e ++ get_adapters e ≡ₚ dkeys (model_info e) ∧
  (∀ b, b ≠ ""%string →
     get_adapters_for_model e b ⊆ get_adapters e).
Proof.
  unfold get_base_models, get_adapters, get_adapters_for_model, dkeys. split.
  - rewrite <- fmap_app. apply fmap_Permutation.
    induction (model_info e) as [|[k m] l IH]; [done|].
    rewrite !filter_cons. simpl. destruct (truthy (mi_parent m)); simpl.
    + rewrite <- Permutation_middle. by rewrite IH.
    + by rewrite IH.
  - intros b Hb k [[k' m] [-> [Hp Hin]%list_elem_of_filter]]%list_elem_of_fmap.
    apply list_elem_of_fmap. exists (k', m). split; [done|].
    apply list_elem_of_filter. split; [|done]. simpl in *.
    destruct (mi_parent m) as [| | | |s| |]; try done. simpl in *.
    apply String.eqb_eq in Hp as ->. by destruct b.
Qed.
