(* ===== verification/RequestStats.v ===== *)
(** * Request statistics: [stats/request_stats.py]

    [MovingAverageMonitor] keeps two deques in lock step and evicts from their
    front; [RequestStatsMonitor] keeps one monitor per engine and kind, the
    start times of the requests and the per-engine counters.  Times are the
    exact rationals behind the floats.  A method is a function of the monad
    [M]: it returns or raises, and keeps what it mutated either way.  The one
    exception is the [IndexError] of popping an empty deque, whose half-done
    pops are not kept; the theorems show that it is never raised. *)
From stdpp Require Import base list strings gmap fin_maps sorting.
From Stdlib Require Import QArith Lqa.
From S2P Require Import Prelude.

Record MovingAverageMonitor := mkMAM {
  sliding_window_size : Q;
  timestamps : list Q;
  values : list Q
}.

Definition new_monitor (w : Q) : MovingAverageMonitor := mkMAM w [] [].

(** The eviction loop of [update] and [update_no_value]: the test reads the
    head of [timestamps], the body pops both deques. *)
Fixpoint evict (cut : Q) (ts vs : list Q) : outcome (list Q * list Q) :=
  match ts with
  | t :: ts' =>
      if Qltb t cut then
        match vs with
        | _ :: vs' => evict cut ts' vs'
        | [] => Raise IndexError
        end
      else Ret (ts, vs)
  | [] => Ret ([], vs)
  end.

Definition update (timestamp value : Q) (m : MovingAverageMonitor)
    : outcome MovingAverageMonitor :=
  match evict (timestamp - sliding_window_size m)
          (timestamps m ++ [timestamp]) (values m ++ [value]) with
  | Ret (ts, vs) => Ret (mkMAM (sliding_window_size m) ts vs)
  | Raise e => Raise e
  end.

Definition update_no_value (timestamp : Q) (m : MovingAverageMonitor)
    : outcome MovingAverageMonitor :=
  match evict (timestamp - sliding_window_size m) (timestamps m) (values m) with
  | Ret (ts, vs) => Ret (mkMAM (sliding_window_size m) ts vs)
  | Raise e => Raise e
  end.

(** [sum(l)] *)
Definition qsum (l : list Q) : Q := foldl Qplus 0 l.

Definition get_average (m : MovingAverageMonitor) : Q :=
  match values m with
  | [] => -1
  | vs => qsum vs / inject_Z (Z.of_nat (length vs))
  end.

Definition get_sum (m : MovingAverageMonitor) : Q := qsum (values m).

Record RequestStats := mkRequestStats {
  qps : Q;
  ttft : Q;
  st_in_prefill : Z;
  st_in_decoding : Z;
  st_finished : Z;
  uptime : Q;
  avg_decoding_length : Q;
  avg_latency : Q;
  avg_itl : Q;
  num_swapped_requests : Z
}.

Record RequestStatsMonitor := mkRSM {
  window : Q;
  qps_monitors : gmap string MovingAverageMonitor;
  ttft_monitors : gmap string MovingAverageMonitor;
  request_start_time : gmap (string * string) Q;
  first_token_time : gmap (string * string) Q;
  in_prefill_requests : gmap string Z;
  in_decoding_requests : gmap string Z;
  finished_requests : gmap string Z;
  latency_monitors : gmap string MovingAverageMonitor;
  decoding_length_monitors : gmap string MovingAverageMonitor;
  swapped_requests : gmap string Z;
  first_query_time : option Q
}.

(** [RequestStatsMonitor.__init__]: the first construction needs a window. *)
Definition init_monitor (sliding_window_size : option Q) : outcome RequestStatsMonitor :=
  match sliding_window_size with
  | None => Raise ValueError
  | Some w => Ret (mkRSM w ∅ ∅ ∅ ∅ ∅ ∅ ∅ ∅ ∅ ∅ None)
  end.

Definition zget (k : string) (dflt : Z) (m : gmap string Z) : Z := default dflt (m !! k).

(** [self.request_start_time[(engine_url, request_id)] = timestamp] and the rest. *)
Definition on_new_request (engine_url request_id : string) (timestamp : Q)
    : M RequestStatsMonitor unit := λ s,
  let s1 := mkRSM (window s) (qps_monitors s) (ttft_monitors s)
    (<[(engine_url, request_id) := timestamp]> (request_start_time s))
    (first_token_time s)
    (<[engine_url := zget engine_url 0 (in_prefill_requests s) + 1]> (in_prefill_requests s))%Z
    (in_decoding_requests s) (finished_requests s) (latency_monitors s)
    (decoding_length_monitors s) (swapped_requests s) (first_query_time s) in
  let m := default (new_monitor (window s)) (qps_monitors s !! engine_url) in
  match update timestamp 1 m with
  | Raise e => (Raise e, s1)
  | Ret m' =>
      (Ret tt, mkRSM (window s1) (<[engine_url := m']> (qps_monitors s1)) (ttft_monitors s1)
        (request_start_time s1) (first_token_time s1) (in_prefill_requests s1)
        (in_decoding_requests s1) (finished_requests s1)
        (<[engine_url := default (new_monitor (window s)) (latency_monitors s1 !! engine_url)]>
           (latency_monitors s1))
        (decoding_length_monitors s1) (swapped_requests s1)
        (match first_query_time s1 with None => Some timestamp | Some t => Some t end))
  end.

Definition on_request_response (engine_url request_id : string) (timestamp : Q)
    : M RequestStatsMonitor unit := λ s,
  match request_start_time s !! (engine_url, request_id) with
  | None => (Ret tt, s)
  | Some start =>
      let s1 := mkRSM (window s) (qps_monitors s) (ttft_monitors s) (request_start_time s)
        (<[(engine_url, request_id) := timestamp]> (first_token_time s))
        (<[engine_url := Z.max 0 (zget engine_url 1 (in_prefill_requests s) - 1)]>
           (in_prefill_requests s))
        (<[engine_url := zget engine_url 0 (in_decoding_requests s) + 1]>
           (in_decoding_requests s))%Z
        (finished_requests s) (latency_monitors s) (decoding_length_monitors s)
        (swapped_requests s) (first_query_time s) in
      let m := default (new_monitor (window s)) (ttft_monitors s !! engine_url) in
      match update timestamp (timestamp - start) m with
      | Raise e => (Raise e, s1)
      | Ret m' =>
          (Ret tt, mkRSM (window s1) (qps_monitors s1) (<[engine_url := m']> (ttft_monitors s1))
            (request_start_time s1) (first_token_time s1) (in_prefill_requests s1)
            (in_decoding_requests s1) (finished_requests s1) (latency_monitors s1)
            (decoding_length_monitors s1) (swapped_requests s1) (first_query_time s1))
      end
  end.

(** [now] is the [time.time()] the method reads for the latency. *)
Definition on_request_complete (engine_url request_id : string) (timestamp now : Q)
    : M RequestStatsMonitor unit := λ s,
  let s1 := mkRSM (window s) (qps_monitors s) (ttft_monitors s) (request_start_time s)
    (first_token_time s) (in_prefill_requests s)
    (<[engine_url := Z.max 0 (zget engine_url 1 (in_decoding_requests s) - 1)]>
       (in_decoding_requests s))
    (<[engine_url := zget engine_url 0 (finished_requests s) + 1]> (finished_requests s))%Z
    (latency_monitors s) (decoding_length_monitors s) (swapped_requests s)
    (first_query_time s) in
  match request_start_time s !! (engine_url, request_id) with
  | None => (Ret tt, s1)
  | Some start =>
      if Qeq_bool start 0 then (Ret tt, s1) else
      match latency_monitors s1 !! engine_url with
      | None => (Raise (KeyError engine_url), s1)
      | Some m =>
          match update timestamp (now - start) m with
          | Raise e => (Raise e, s1)
          | Ret m' =>
              (Ret tt, mkRSM (window s1) (qps_monitors s1) (ttft_monitors s1)
                (request_start_time s1) (first_token_time s1) (in_prefill_requests s1)
                (in_decoding_requests s1) (finished_requests s1)
                (<[engine_url := m']> (latency_monitors s1))
                (decoding_length_monitors s1) (swapped_requests s1) (first_query_time s1))
          end
      end
  end.

Definition on_request_swapped (engine_url request_id : string) (timestamp : Q)
    : M RequestStatsMonitor unit := λ s,
  (Ret tt, mkRSM (window s) (qps_monitors s) (ttft_monitors s) (request_start_time s)
    (first_token_time s) (in_prefill_requests s) (in_decoding_requests s)
    (finished_requests s) (latency_monitors s) (decoding_length_monitors s)
    (<[engine_url := zget engine_url 0 (swapped_requests s) + 1]> (swapped_requests s))%Z
    (first_query_time s)).

(** The monitor of [url] after [update_no_value(now)], when there is one. *)
Definition refresh (url : string) (now : Q) (ms : gmap string MovingAverageMonitor)
    : outcome (option MovingAverageMonitor * gmap string MovingAverageMonitor) :=
  match ms !! url with
  | None => Ret (None, ms)
  | Some m =>
      match update_no_value now m with
      | Ret m' => Ret (Some m', <[url := m']> ms)
      | Raise e => Raise e
      end
  end.

Definition set_qps_monitors (s : RequestStatsMonitor) ms : RequestStatsMonitor :=
  mkRSM (window s) ms (ttft_monitors s) (request_start_time s) (first_token_time s)
    (in_prefill_requests s) (in_decoding_requests s) (finished_requests s)
    (latency_monitors s) (decoding_length_monitors s) (swapped_requests s)
    (first_query_time s).

Definition set_ttft_monitors (s : RequestStatsMonitor) ms : RequestStatsMonitor :=
  mkRSM (window s) (qps_monitors s) ms (request_start_time s) (first_token_time s)
    (in_prefill_requests s) (in_decoding_requests s) (finished_requests s)
    (latency_monitors s) (decoding_length_monitors s) (swapped_requests s)
    (first_query_time s).

(** The body of the loop of [get_request_stats] for one engine. *)
Definition engine_request_stats (engine_url : string) (current_time : Q)
    : M RequestStatsMonitor RequestStats := λ s,
  match refresh engine_url current_time (qps_monitors s) with
  | Raise e => (Raise e, s)
  | Ret (qm, qms) =>
      let s := set_qps_monitors s qms in
      if (match qm with Some _ => Qeq_bool (window s) 0 | None => false end)
      then (Raise ZeroDivisionError, s) else
      let qps_v := match qm with None => -1 | Some m => get_sum m / window s end in
      match refresh engine_url current_time (ttft_monitors s) with
      | Raise e => (Raise e, s)
      | Ret (tm, tms) =>
          let s := set_ttft_monitors s tms in
          (Ret (mkRequestStats qps_v
             (match tm with None => -1 | Some m => get_average m end)
             (zget engine_url 0 (in_prefill_requests s))
             (zget engine_url 0 (in_decoding_requests s))
             (zget engine_url 0 (finished_requests s))
             (match first_query_time s with
              | Some t => if Qeq_bool t 0 then 0 else current_time - t
              | None => 0
              end)
             (match decoding_length_monitors s !! engine_url with
              | Some m => get_average m | None => -1 end)
             (match latency_monitors s !! engine_url with
              | Some m => get_average m | None => -1 end)
             (-1)
             (zget engine_url 0 (swapped_requests s))), s)
      end
  end.

Fixpoint stats_loop (urls : list string) (current_time : Q) (ret : gmap string RequestStats)
    : M RequestStatsMonitor (gmap string RequestStats) :=
  match urls with
  | [] => mret ret
  | u :: urls =>
      r ← engine_request_stats u current_time;
      stats_loop urls current_time (<[u := r]> ret)
  end.

Definition stats_urls (s : RequestStatsMonitor) : gset string :=
  dom (in_prefill_requests s) ∪ dom (in_decoding_requests s).

Definition get_request_stats (current_time : Q)
    : M RequestStatsMonitor (gmap string RequestStats) := λ s,
  stats_loop (elements (stats_urls s)) current_time ∅ s.

(** ** Sliding windows *)
Definition mon_ok (m : MovingAverageMonitor) : Prop :=
  length (timestamps m) = length (values m).

Definition pt_le (p q : Q * Q) : Prop := (p.1 <= q.1)%Q.

(** The points that a window of width [w] ending at [t] keeps. *)
Definition in_window (w t : Q) (l : list (Q * Q)) : list (Q * Q) :=
  filter (λ p, Qltb p.1 (t - w) = false) l.

(** The monitor after recording the points of [l] in order. *)
Definition record_all (w : Q) (l : list (Q * Q)) : outcome MovingAverageMonitor :=
  foldl (λ o p, match o with Ret m => update p.1 p.2 m | Raise e => Raise e end)
    (Ret (new_monitor w)) l.

Lemma qsum_app_acc a l : (foldl Qplus a l == a + foldl Qplus 0 l)%Q.
Proof.
  revert a. induction l as [|x l IH]; intros a; simpl; [lra|].
  rewrite (IH (a + x)%Q), (IH (0 + x)%Q). lra.
Qed.

Lemma qsum_cons x l : (qsum (x :: l) == x + qsum l)%Q.
Proof. unfold qsum. simpl. rewrite qsum_app_acc. lra. Qed.

Lemma qsum_bounds lo hi l :
  Forall (λ x, lo <= x <= hi)%Q l →
  (lo * inject_Z (Z.of_nat (length l)) <= qsum l <= hi * inject_Z (Z.of_nat (length l)))%Q.
Proof.
  induction 1 as [|x l Hx _ IH]; [by unfold qsum; simpl; rewrite !Qmult_0_r|].
  rewrite qsum_cons, length_cons, Nat2Z.inj_succ, <- Z.add_1_r, inject_Z_plus.
  change (inject_Z 1) with 1%Q. lra.
Qed.

Lemma qsum_replicate n : (qsum (replicate n 1%Q) == inject_Z (Z.of_nat n))%Q.
Proof.
  induction n as [|n IH]; [done|].
  simpl replicate. rewrite qsum_cons, IH, Nat2Z.inj_succ, <- Z.add_1_r, inject_Z_plus.
  change (inject_Z 1) with 1%Q. lra.
Qed.

Lemma evict_length cut ts vs :
  length ts = length vs →
  ∃ ts' vs', evict cut ts vs = Ret (ts', vs') ∧ length ts' = length vs'.
Proof.
  revert vs. induction ts as [|t ts IH]; intros [|v vs] Hl; simplify_eq/=; [by eauto|].
  destruct (Qltb t cut); [by apply IH|]. eexists _, _. split; [done|]. simpl. lia.
Qed.

Lemma update_ok t v m :
  mon_ok m → ∃ m', update t v m = Ret m' ∧ mon_ok m' ∧
    sliding_window_size m' = sliding_window_size m.
Proof.
  intros Hm. unfold update.
  destruct (evict_length (t - sliding_window_size m) (timestamps m ++ [t]) (values m ++ [v]))
    as (ts & vs & -> & Hl); [|by eauto].
  rewrite !length_app. unfold mon_ok in Hm. simpl. lia.
Qed.

Lemma update_no_value_ok t m :
  mon_ok m → ∃ m', update_no_value t m = Ret m' ∧ mon_ok m' ∧
    sliding_window_size m' = sliding_window_size m.
Proof.
  intros Hm. unfold update_no_value.
  destruct (evict_length (t - sliding_window_size m) (timestamps m) (values m))
    as (ts & vs & -> & Hl); by eauto.
Qed.

Lemma new_monitor_ok w : mon_ok (new_monitor w).
Proof. done. Qed.

(** On points in time order the front loop removes exactly the old ones. *)
Lemma evict_filter cut (l : list (Q * Q)) :
  StronglySorted pt_le l →
  evict cut l.*1 l.*2 =
    Ret ((filter (λ p, Qltb p.1 cut = false) l).*1, (filter (λ p, Qltb p.1 cut = false) l).*2).
Proof.
  induction 1 as [|[t v] l Hl IH Hx]; [done|]. simpl. rewrite filter_cons. simpl.
  destruct (Qltb t cut) eqn:E; simpl; [done|].
  assert (filter (λ p, Qltb p.1 cut = false) l = l) as ->; [|done].
  apply list_filter_all. intros [t' v'] Hin.
  rewrite Forall_forall in Hx. specialize (Hx _ Hin). unfold pt_le in Hx. simpl in *.
  apply Qltb_ge in E. apply Qltb_ge. lra.
Qed.

(** A later window forgets what an earlier one forgot. *)
Lemma filter_filter_cut (cut cut' : Q) (l : list (Q * Q)) :
  (cut' <= cut)%Q →
  filter (λ p, Qltb p.1 cut = false) (filter (λ p, Qltb p.1 cut' = false) l)
  = filter (λ p, Qltb p.1 cut = false) l.
Proof.
  intros Hle. rewrite list_filter_filter. apply list_filter_iff.
  intros p. split; [tauto|]. intros Hp. split; [done|].
  rewrite Qltb_ge in *. lra.
Qed.

(** Appending a point to what an earlier window kept and evicting again gives
    the window of the whole history. *)
Lemma evict_snoc (cut cut' : Q) (l : list (Q * Q)) t v :
  StronglySorted pt_le (l ++ [(t, v)]) → (cut' <= cut)%Q →
  let kept := filter (λ p, Qltb p.1 cut' = false) l in
  let res := filter (λ p, Qltb p.1 cut = false) (l ++ [(t, v)]) in
  evict cut (kept.*1 ++ [t]) (kept.*2 ++ [v]) = Ret (res.*1, res.*2).
Proof.
  intros [Hl Hx]%StronglySorted_snoc_inv Hle. cbv zeta.
  set (kept := filter (λ p : Q * Q, Qltb p.1 cut' = false) l).
  pose proof (evict_filter cut (kept ++ [(t, v)])) as Hev.
  rewrite !fmap_app in Hev. simpl in Hev. rewrite Hev.
  - rewrite !filter_app. unfold kept. by rewrite filter_filter_cut.
  - apply StronglySorted_snoc; [by apply StronglySorted_filter|].
    apply Forall_forall. intros p [_ Hp]%list_elem_of_filter.
    rewrite Forall_forall in Hx. by apply Hx.
Qed.

Definition window_of (w : Q) (l : list (Q * Q)) : list (Q * Q) :=
  match last l with
  | Some (t, _) => in_window w t l
  | None => []
  end.

Lemma record_all_window w l :
  StronglySorted pt_le l →
  record_all w l = Ret (mkMAM w (window_of w l).*1 (window_of w l).*2).
Proof.
  induction l as [|[t v] l IH] using rev_ind; intros Hs; [done|].
  unfold record_all. rewrite foldl_app. fold (record_all w l).
  destruct (StronglySorted_snoc_inv _ _ _ Hs) as [Hl Hx].
  rewrite IH by done. simpl. unfold update. simpl.
  assert (∃ cut', (cut' <= t - w)%Q ∧
    window_of w l = filter (λ p, Qltb p.1 cut' = false) l) as (cut' & Hcut & ->).
  { unfold window_of, in_window. destruct (last l) as [[t' v']|] eqn:El.
    - exists (t' - w)%Q. split; [|done]. apply last_Some in El as [l' ->].
      rewrite Forall_app, Forall_singleton in Hx. destruct Hx as [_ Hx].
      unfold pt_le in Hx. simpl in Hx. lra.
    - exists (t - w)%Q. split; [lra|]. by apply last_None in El as ->. }
  rewrite evict_snoc by done. simpl. unfold window_of, in_window.
  by rewrite last_snoc.
Qed.

(** ** Traces of calls *)
Inductive event : Type :=
| ENew (u i : string) (t : Q)
| EResponse (u i : string) (t : Q)
| EComplete (u i : string) (t now : Q)
| ESwapped (u i : string) (t : Q)
| EStats (t : Q).

Definition step_event (e : event) : M RequestStatsMonitor unit :=
  match e with
  | ENew u i t => on_new_request u i t
  | EResponse u i t => on_request_response u i t
  | EComplete u i t now => on_request_complete u i t now
  | ESwapped u i t => on_request_swapped u i t
  | EStats t => _ ← get_request_stats t; mret tt
  end.

Fixpoint run_events (evs : list event) : M RequestStatsMonitor unit :=
  match evs with
  | [] => mret tt
  | e :: evs => _ ← step_event e; run_events evs
  end.

Definition fresh_monitor (w : Q) : RequestStatsMonitor :=
  mkRSM w ∅ ∅ ∅ ∅ ∅ ∅ ∅ ∅ ∅ ∅ None.

(** The representation invariant: deques in step, a latency monitor for every
    engine that has a request, counters never negative. *)
Record Inv (s : RequestStatsMonitor) : Prop := {
  inv_window : ¬ (window s == 0)%Q;
  inv_qps : map_Forall (λ _, mon_ok) (qps_monitors s);
  inv_ttft : map_Forall (λ _, mon_ok) (ttft_monitors s);
  inv_latency : map_Forall (λ _, mon_ok) (latency_monitors s);
  inv_start : ∀ u i, is_Some (request_start_time s !! (u, i)) →
    is_Some (latency_monitors s !! u);
  inv_prefill : map_Forall (λ _ z, 0 <= z)%Z (in_prefill_requests s);
  inv_decoding : map_Forall (λ _ z, 0 <= z)%Z (in_decoding_requests s)
}.

Lemma zget_nonneg k d m : (0 <= d)%Z → map_Forall (λ _ z, 0 <= z)%Z m → (0 <= zget k d m)%Z.
Proof.
  intros Hd Hm. unfold zget. destruct (m !! k) eqn:E; simpl; [|done]. by apply (Hm k).
Qed.

Lemma default_mon_ok w k (ms : gmap string MovingAverageMonitor) :
  map_Forall (λ _, mon_ok) ms → mon_ok (default (new_monitor w) (ms !! k)).
Proof. intros Hm. destruct (ms !! k) eqn:E; simpl; [by apply (Hm k)|done]. Qed.

Lemma on_new_request_ok u i t s :
  Inv s → ∃ s', on_new_request u i t s = (Ret tt, s') ∧ Inv s'.
Proof.
  intros [Hw Hq Ht Hl Hs Hp Hd]. unfold on_new_request.
  destruct (update_ok t 1 (default (new_monitor (window s)) (qps_monitors s !! u)))
    as (m & -> & Hm & _); [by apply default_mon_ok|].
  eexists. split; [done|]. constructor; simpl; try done.
  - by apply map_Forall_insert_2.
  - apply map_Forall_insert_2; [by apply default_mon_ok|done].
  - intros u' i'. rewrite !lookup_insert.
    destruct (decide (u = u')) as [->|]; [by eauto|].
    rewrite decide_False by congruence. by apply Hs.
  - apply map_Forall_insert_2; [|done]. pose proof (zget_nonneg u 0 _ ltac:(done) Hp). lia.
Qed.

Lemma on_request_response_ok u i t s :
  Inv s → ∃ s', on_request_response u i t s = (Ret tt, s') ∧ Inv s'.
Proof.
  intros HI. unfold on_request_response.
  destruct (request_start_time s !! (u, i)) as [start|]; [|by eauto].
  destruct HI as [Hw Hq Ht Hl Hs Hp Hd].
  destruct (update_ok t (t - start) (default (new_monitor (window s)) (ttft_monitors s !! u)))
    as (m & -> & Hm & _); [by apply default_mon_ok|].
  eexists. split; [done|]. constructor; simpl; try done.
  - by apply map_Forall_insert_2.
  - apply map_Forall_insert_2; [lia|done].
  - apply map_Forall_insert_2; [|done]. pose proof (zget_nonneg u 0 _ ltac:(done) Hd). lia.
Qed.

Lemma on_request_complete_ok u i t now s :
  Inv s → ∃ s', on_request_complete u i t now s = (Ret tt, s') ∧ Inv s'.
Proof.
  intros [Hw Hq Ht Hl Hs Hp Hd]. unfold on_request_complete.
  assert (map_Forall (λ _ z, 0 <= z)%Z
    (<[u := Z.max 0 (zget u 1 (in_decoding_requests s) - 1)]> (in_decoding_requests s)))
    as Hd' by (apply map_Forall_insert_2; [lia|done]).
  destruct (request_start_time s !! (u, i)) as [start|] eqn:Es; [|eexists; split; [done|by constructor]].
  destruct (Qeq_bool start 0); [eexists; split; [done|by constructor]|]. simpl.
  destruct (Hs u i ltac:(by eauto)) as [m Em]. rewrite Em.
  destruct (update_ok t (now - start) m) as (m' & -> & Hm & _); [by apply (Hl u)|].
  eexists. split; [done|]. constructor; simpl; try done.
  - by apply map_Forall_insert_2.
  - intros u' i' Hi. rewrite lookup_insert. case_decide; [by eauto|]. by apply (Hs u' i').
Qed.

(** ** [get_request_stats] *)
Lemma refresh_ok u now ms :
  map_Forall (λ _, mon_ok) ms →
  ∃ om ms', refresh u now ms = Ret (om, ms') ∧ map_Forall (λ _, mon_ok) ms' ∧
    ms' !! u = om ∧ (∀ u', u ≠ u' → ms' !! u' = ms !! u') ∧
    match ms !! u, om with
    | None, None => True
    | Some m, Some m' => update_no_value now m = Ret m'
    | _, _ => False
    end.
Proof.
  intros Hms. unfold refresh. destruct (ms !! u) as [m|] eqn:E.
  - destruct (update_no_value_ok now m) as (m' & Hu & Hm & _); [by apply (Hms u)|].
    rewrite Hu. eexists _, _. split_and!; [done|by apply map_Forall_insert_2| | |done].
    + apply lookup_insert_eq.
    + intros u' Hne. by apply lookup_insert_ne.
  - eexists _, _. split_and!; try done.
Qed.

(** The statistics of one engine, as a function of the state alone. *)
Definition refreshed (now : Q) (om : option MovingAverageMonitor) : option MovingAverageMonitor :=
  match om with
  | Some m => match update_no_value now m with Ret m' => Some m' | Raise _ => Some m end
  | None => None
  end.

Definition stats_of (s : RequestStatsMonitor) (now : Q) (u : string) : RequestStats :=
  mkRequestStats
    (match refreshed now (qps_monitors s !! u) with None => -1 | Some m => get_sum m / window s end)
    (match refreshed now (ttft_monitors s !! u) with None => -1 | Some m => get_average m end)
    (zget u 0 (in_prefill_requests s)) (zget u 0 (in_decoding_requests s))
    (zget u 0 (finished_requests s))
    (match first_query_time s with
     | Some t => if Qeq_bool t 0 then 0 else now - t | None => 0 end)
    (match decoding_length_monitors s !! u with Some m => get_average m | None => -1 end)
    (match latency_monitors s !! u with Some m => get_average m | None => -1 end)
    (-1) (zget u 0 (swapped_requests s)).

(** What computing the statistics of [u] may change. *)
Definition same_but (u : string) (s s' : RequestStatsMonitor) : Prop :=
  window s' = window s ∧ request_start_time s' = request_start_time s ∧
  in_prefill_requests s' = in_prefill_requests s ∧
  in_decoding_requests s' = in_decoding_requests s ∧
  finished_requests s' = finished_requests s ∧ latency_monitors s' = latency_monitors s ∧
  decoding_length_monitors s' = decoding_length_monitors s ∧
  swapped_requests s' = swapped_requests s ∧ first_query_time s' = first_query_time s ∧
  first_token_time s' = first_token_time s ∧
  (∀ u', u ≠ u' → qps_monitors s' !! u' = qps_monitors s !! u') ∧
  (∀ u', u ≠ u' → ttft_monitors s' !! u' = ttft_monitors s !! u').

Lemma refresh_spec u now ms :
  map_Forall (λ _, mon_ok) ms →
  ∃ ms', refresh u now ms = Ret (refreshed now (ms !! u), ms') ∧
    map_Forall (λ _, mon_ok) ms' ∧ ms' !! u = refreshed now (ms !! u) ∧
    (∀ u', u ≠ u' → ms' !! u' = ms !! u').
Proof.
  intros Hms. destruct (refresh_ok u now ms Hms) as (om & ms' & Hr & Hok & Hu & Hne & Hm).
  exists ms'. enough (om = refreshed now (ms !! u)) as -> by done.
  destruct (ms !! u), om; simpl; try done. by rewrite Hm.
Qed.

Lemma engine_request_stats_ok u now s :
  Inv s → ∃ s', engine_request_stats u now s = (Ret (stats_of s now u), s') ∧
    Inv s' ∧ same_but u s s' ∧
    qps_monitors s' !! u = refreshed now (qps_monitors s !! u).
Proof.
  intros [Hw Hq Ht Hl Hs Hp Hd]. unfold engine_request_stats.
  destruct (refresh_spec u now _ Hq) as (qms & -> & Hq' & Hqu & Hqne).
  simpl. assert (Qeq_bool (window s) 0 = false) as Hz.
  { destruct (Qeq_bool (window s) 0) eqn:E; [|done]. by apply Qeq_bool_iff in E. }
  rewrite Hz.
  destruct (refresh_spec u now _ Ht) as (tms & Htr & Ht' & Htu & Htne).
  destruct (refreshed now (qps_monitors s !! u)) as [qm|] eqn:Eq;
    simpl; rewrite Htr; simpl; eexists; (split; [unfold stats_of; rewrite Eq; reflexivity|]);
    by split_and!; [constructor; simpl| |].
Qed.

Lemma stats_of_same u u' s s' now :
  same_but u s s' → u ≠ u' → stats_of s' now u' = stats_of s now u'.
Proof.
  intros (Hw & Hst & Hp & Hd & Hf & Hl & Hdl & Hsw & Hft & _ & Hq & Ht) Hne.
  unfold stats_of. by rewrite Hw, Hp, Hd, Hf, Hl, Hdl, Hsw, Hft, (Hq _ Hne), (Ht _ Hne).
Qed.

(** The fields that [get_request_stats] leaves alone. *)
Definition same_counters (s s' : RequestStatsMonitor) : Prop :=
  window s' = window s ∧ request_start_time s' = request_start_time s ∧
  in_prefill_requests s' = in_prefill_requests s ∧
  in_decoding_requests s' = in_decoding_requests s ∧
  finished_requests s' = finished_requests s.

Lemma stats_loop_ok urls now s acc :
  NoDup urls → Inv s →
  ∃ r s', stats_loop urls now acc s = (Ret r, s') ∧ Inv s' ∧ same_counters s s' ∧
    (∀ u, r !! u = if decide (u ∈ urls) then Some (stats_of s now u) else acc !! u) ∧
    (∀ u, qps_monitors s' !! u =
       if decide (u ∈ urls) then refreshed now (qps_monitors s !! u) else qps_monitors s !! u).
Proof.
  revert s acc. induction urls as [|u urls IH]; intros s acc Hnd HI.
  { eexists _, _. split_and!; try done. }
  apply NoDup_cons in Hnd as [Hnin Hnd]. simpl.
  destruct (engine_request_stats_ok u now s HI) as (s1 & Hrun & HI1 & Hsame & Hqu).
  unfold mbind, M_bind. rewrite Hrun.
  destruct (IH s1 (<[u := stats_of s now u]> acc) Hnd HI1)
    as (r & s' & -> & HI' & Hc & Hr & Hq).
  exists r, s'. split_and!; try done.
  - unfold same_counters in *.
    destruct Hsame as (E1 & E2 & E3 & E4 & E5 & _).
    by rewrite E1, E2, E3, E4, E5 in Hc.
  - intros u'. rewrite Hr, lookup_insert. destruct (decide (u = u')) as [->|Hne].
    + rewrite decide_False by done. rewrite decide_True by left. done.
    + rewrite (stats_of_same u u' s s1 now Hsame Hne).
      rewrite (decide_ext (u' ∈ u :: urls) (u' ∈ urls)) by set_solver. done.
  - intros u'. rewrite Hq. destruct (decide (u = u')) as [->|Hne].
    + rewrite decide_False by done. rewrite decide_True by left. done.
    + destruct Hsame as (_ & _ & _ & _ & _ & _ & _ & _ & _ & _ & -> & _); [|done].
      rewrite (decide_ext (u' ∈ u :: urls) (u' ∈ urls)) by set_solver. done.
Qed.

Lemma get_request_stats_spec now s :
  Inv s →
  ∃ r s', get_request_stats now s = (Ret r, s') ∧ Inv s' ∧ same_counters s s' ∧
    (∀ u, r !! u = if decide (u ∈ stats_urls s) then Some (stats_of s now u) else None) ∧
    (∀ u, qps_monitors s' !! u =
       if decide (u ∈ stats_urls s) then refreshed now (qps_monitors s !! u)
       else qps_monitors s !! u).
Proof.
  intros HI. unfold get_request_stats.
  destruct (stats_loop_ok (elements (stats_urls s)) now s ∅) as (r & s' & H1 & H2 & H3 & H4 & H5);
    [apply NoDup_elements|done|].
  exists r, s'. split_and!; try done; intros u; [rewrite H4|rewrite H5];
    destruct (decide (u ∈ stats_urls s)) as [Hin|Hin].
  - by rewrite decide_True by by apply elem_of_elements.
  - rewrite decide_False by by rewrite elem_of_elements. done.
  - by rewrite decide_True by by apply elem_of_elements.
  - by rewrite decide_False by by rewrite elem_of_elements.
Qed.

Lemma step_event_ok e s : Inv s → ∃ s', step_event e s = (Ret tt, s') ∧ Inv s'.
Proof.
  intros HI. destruct e as [u i t|u i t|u i t now|u i t|t]; simpl.
  - by apply on_new_request_ok.
  - by apply on_request_response_ok.
  - by apply on_request_complete_ok.
  - eexists. split; [done|]. destruct HI. by constructor.
  - destruct (get_request_stats_spec t s HI) as (r & s' & Hr & HI' & _).
    unfold mbind, M_bind. rewrite Hr. by eexists.
Qed.

Lemma run_events_ok evs s : Inv s → ∃ s', run_events evs s = (Ret tt, s') ∧ Inv s'.
Proof.
  revert s. induction evs as [|e evs IH]; intros s HI; simpl; [by eauto|].
  destruct (step_event_ok e s HI) as (s1 & He & HI1).
  unfold mbind, M_bind. rewrite He. by apply IH.
Qed.

Lemma fresh_monitor_inv w : ¬ (w == 0)%Q → Inv (fresh_monitor w).
Proof.
  intros Hw. constructor; simpl; try done; try apply map_Forall_empty.
  intros u i [x Hx]. by rewrite lookup_empty in Hx.
Qed.

Lemma run_events_app evs1 evs2 s :
  run_events (evs1 ++ evs2) s =
    match run_events evs1 s with
    | (Ret _, s') => run_events evs2 s'
    | (Raise e, s') => (Raise e, s')
    end.
Proof.
  revert s. induction evs1 as [|e evs1 IH]; intros s; simpl; [done|].
  unfold mbind, M_bind. destruct (step_event e s) as [[[]|] s1]; [apply IH|done].
Qed.

(** ** Abstract life cycle of the requests, and what the counters count *)
Inductive phase : Type := Prefilling | Decoding | Finished.

#[global] Instance phase_eq_dec : EqDecision phase.
Proof. solve_decision. Defined.

(** A caller that announces a request once, its first token once and its end
    once, in this order. *)
Inductive lifecycle (P : gmap (string * string) phase) : event → gmap (string * string) phase → Prop :=
| lc_new u i t : P !! (u, i) = None →
    lifecycle P (ENew u i t) (<[(u, i) := Prefilling]> P)
| lc_response u i t : P !! (u, i) = Some Prefilling →
    lifecycle P (EResponse u i t) (<[(u, i) := Decoding]> P)
| lc_complete u i t now : P !! (u, i) = Some Decoding →
    lifecycle P (EComplete u i t now) (<[(u, i) := Finished]> P)
| lc_swapped u i t : lifecycle P (ESwapped u i t) P
| lc_stats t : lifecycle P (EStats t) P.

Inductive lifecycles : gmap (string * string) phase → list event →
    gmap (string * string) phase → Prop :=
| lcs_nil P : lifecycles P [] P
| lcs_cons P P' P'' e evs : lifecycle P e P' → lifecycles P' evs P'' →
    lifecycles P (e :: evs) P''.

(** Number of requests of engine [u] in phase [ph]. *)
Definition in_phase (P : gmap (string * string) phase) (u : string) (ph : phase) : nat :=
  size (filter (λ kv, kv.1.1 = u ∧ kv.2 = ph) P).

Record counts (P : gmap (string * string) phase) (s : RequestStatsMonitor) : Prop := {
  cnt_prefill : ∀ u, zget u 0 (in_prefill_requests s) = Z.of_nat (in_phase P u Prefilling);
  cnt_decoding : ∀ u, zget u 0 (in_decoding_requests s) = Z.of_nat (in_phase P u Decoding);
  cnt_finished : ∀ u, zget u 0 (finished_requests s) = Z.of_nat (in_phase P u Finished);
  cnt_dom : ∀ k, is_Some (request_start_time s !! k) ↔ is_Some (P !! k)
}.

Lemma in_phase_insert_fresh P u i ph u' ph' :
  P !! (u, i) = None →
  in_phase (<[(u, i) := ph]> P) u' ph' =
    ((if decide (u = u' ∧ ph = ph') then 1 else 0) + in_phase P u' ph')%nat.
Proof.
  intros Hn. unfold in_phase. case_decide as Hd.
  - rewrite map_filter_insert_True by done. rewrite map_size_insert_None; [done|].
    apply map_lookup_filter_None. by left.
  - rewrite map_filter_insert_False by done. by rewrite delete_id.
Qed.

Lemma in_phase_insert P u i ph0 ph u' ph' :
  P !! (u, i) = Some ph0 →
  (in_phase (<[(u, i) := ph]> P) u' ph' + (if decide (u = u' ∧ ph0 = ph') then 1 else 0) =
    (if decide (u = u' ∧ ph = ph') then 1 else 0) + in_phase P u' ph')%nat.
Proof.
  intros Hs. rewrite <- (insert_delete_id P (u, i) ph0) at 2 by done.
  rewrite <- insert_delete_eq.
  rewrite !in_phase_insert_fresh by apply lookup_delete_eq. lia.
Qed.

Lemma zget_insert k k' d z (m : gmap string Z) :
  zget k' d (<[k := z]> m) = if decide (k = k') then z else zget k' d m.
Proof. unfold zget. rewrite lookup_insert. by case_decide. Qed.

(** The default of [.get] is not used when the counter is positive. *)
Lemma zget_default k d d' (m : gmap string Z) : (zget k d m ≠ d)%Z → zget k d' m = zget k d m.
Proof. unfold zget. by destruct (m !! k). Qed.

(** A request in some phase makes the count of its engine positive. *)
Lemma in_phase_pos P u i ph : P !! (u, i) = Some ph → (1 ≤ in_phase P u ph)%nat.
Proof.
  intros Hs. unfold in_phase.
  destruct (size _) eqn:E; [|lia]. apply map_size_empty_inv in E.
  assert ((filter (λ kv : string * string * phase, kv.1.1 = u ∧ kv.2 = ph) P) !! (u, i) = Some ph)
    as H by by apply map_lookup_filter_Some.
  by rewrite E in H.
Qed.

Lemma counts_new P u i t s s' :
  counts P s → P !! (u, i) = None → on_new_request u i t s = (Ret tt, s') →
  counts (<[(u, i) := Prefilling]> P) s'.
Proof.
  intros [Hp Hd Hf Hk] Hn. unfold on_new_request.
  destruct (update _ _ _); intros Hr; simplify_eq/=. split; simpl; intros u'.
  - rewrite zget_insert, in_phase_insert_fresh, !Hp by done. repeat case_decide; simplify_eq; naive_solver lia.
  - rewrite in_phase_insert_fresh, Hd by done. by rewrite decide_False by naive_solver.
  - rewrite in_phase_insert_fresh, Hf by done. by rewrite decide_False by naive_solver.
  - rewrite !lookup_insert. case_decide; [split; by eauto|apply Hk].
Qed.

(** Moving a request from one phase to the next shifts the two counters. *)
Lemma in_phase_move P u i ph ph' u' :
  P !! (u, i) = Some ph → ph ≠ ph' →
  Z.of_nat (in_phase (<[(u, i) := ph']> P) u' ph) =
    (Z.of_nat (in_phase P u' ph) - if decide (u = u') then 1 else 0)%Z ∧
  Z.of_nat (in_phase (<[(u, i) := ph']> P) u' ph') =
    (Z.of_nat (in_phase P u' ph') + if decide (u = u') then 1 else 0)%Z ∧
  ∀ q, q ≠ ph → q ≠ ph' → in_phase (<[(u, i) := ph']> P) u' q = in_phase P u' q.
Proof.
  intros Hs Hne. split_and!.
  - pose proof (in_phase_insert P u i ph ph' u' ph Hs) as H.
    repeat case_decide; naive_solver lia.
  - pose proof (in_phase_insert P u i ph ph' u' ph' Hs) as H.
    repeat case_decide; naive_solver lia.
  - intros q Hq Hq'. pose proof (in_phase_insert P u i ph ph' u' q Hs) as H.
    repeat case_decide; naive_solver lia.
Qed.

Lemma zget_pred P u i ph (m : gmap string Z) :
  (∀ u, zget u 0 m = Z.of_nat (in_phase P u ph)) → P !! (u, i) = Some ph →
  Z.max 0 (zget u 1 m - 1) = (Z.of_nat (in_phase P u ph) - 1)%Z.
Proof.
  intros Hm Hs. pose proof (in_phase_pos P u i ph Hs).
  rewrite (zget_default u 0) by (rewrite Hm; lia). rewrite Hm. lia.
Qed.

Lemma counts_response P u i t s s' :
  counts P s → P !! (u, i) = Some Prefilling → on_request_response u i t s = (Ret tt, s') →
  counts (<[(u, i) := Decoding]> P) s'.
Proof.
  intros [Hp Hd Hf Hk] Hs. unfold on_request_response.
  destruct (proj2 (Hk (u, i)) ltac:(by eauto)) as [start Hst]. rewrite Hst.
  destruct (update _ _ _); intros Hr; simplify_eq/=. split; simpl; intros u';
    try destruct (in_phase_move P u i Prefilling Decoding u' Hs ltac:(done)) as (H1 & H2 & H3).
  - rewrite zget_insert, (zget_pred P u i Prefilling), H1, !Hp by done.
    case_decide; subst; lia.
  - rewrite zget_insert, H2, !Hd. case_decide; subst; lia.
  - by rewrite H3, Hf.
  - rewrite Hk, lookup_insert. case_decide; subst; [|done]. rewrite Hs. split; by eauto.
Qed.

Lemma counts_complete P u i t now s s' :
  counts P s → P !! (u, i) = Some Decoding → on_request_complete u i t now s = (Ret tt, s') →
  counts (<[(u, i) := Finished]> P) s'.
Proof.
  intros [Hp Hd Hf Hk] Hs Hr.
  assert (in_prefill_requests s' = in_prefill_requests s ∧
    in_decoding_requests s' = <[u := Z.max 0 (zget u 1 (in_decoding_requests s) - 1)]>
      (in_decoding_requests s) ∧
    finished_requests s' = <[u := (zget u 0 (finished_requests s) + 1)%Z]> (finished_requests s) ∧
    request_start_time s' = request_start_time s) as (E1 & E2 & E3 & E4).
  { unfold on_request_complete in Hr. repeat case_match; simplify_eq/=; done. }
  split; intros u'; rewrite ?E1, ?E2, ?E3, ?E4;
    try destruct (in_phase_move P u i Decoding Finished u' Hs ltac:(done)) as (H1 & H2 & H3).
  - by rewrite H3, Hp.
  - rewrite zget_insert, (zget_pred P u i Decoding), H1, !Hd by done.
    case_decide; subst; lia.
  - rewrite zget_insert, H2, !Hf. case_decide; subst; lia.
  - rewrite Hk, lookup_insert. case_decide; subst; [|done]. rewrite Hs. split; by eauto.
Qed.

Lemma counts_step P e P' s s' :
  Inv s → counts P s → lifecycle P e P' → step_event e s = (Ret tt, s') → counts P' s'.
Proof.
  intros HI Hc Hl Hr. destruct Hl; simpl in Hr.
  - by eapply counts_new.
  - by eapply counts_response.
  - by eapply counts_complete.
  - unfold on_request_swapped in Hr. simplify_eq. by destruct Hc.
  - unfold mbind, M_bind in Hr.
    destruct (get_request_stats_spec t s HI) as (r & s1 & Hg & _ & (E0 & E1 & E2 & E3 & E4) & _).
    rewrite Hg in Hr. unfold mret, M_ret in Hr. simplify_eq. destruct Hc as [Hp Hd Hf Hk].
    split; intros u'; rewrite ?E1, ?E2, ?E3, ?E4; auto.
Qed.

Lemma counts_fresh w : counts ∅ (fresh_monitor w).
Proof.
  split; simpl; intros u; unfold zget, in_phase;
    rewrite ?lookup_empty, ?map_filter_empty, ?map_size_empty; done.
Qed.

Lemma counts_run P evs P' s :
  Inv s → counts P s → lifecycles P evs P' →
  ∃ s', run_events evs s = (Ret tt, s') ∧ counts P' s'.
Proof.
  intros HI Hc Hl. revert s HI Hc. induction Hl as [P|P P' P'' e evs Hl _ IH]; intros s HI Hc.
  - by eexists.
  - destruct (step_event_ok e s HI) as (s1 & He & HI1). simpl.
    unfold mbind, M_bind. rewrite He. apply IH; [done|]. by apply (counts_step P e P' s s1).
Qed.

(** ** QPS over a trace *)
Definition time_of (e : event) : Q :=
  match e with
  | ENew _ _ t | EResponse _ _ t | EComplete _ _ t _ | ESwapped _ _ t | EStats t => t
  end.

(** The arrivals at engine [u], in the order of the trace, as data points. *)
Fixpoint arrivals (u : string) (evs : list event) : list (Q * Q) :=
  match evs with
  | [] => []
  | ENew u' _ t :: evs => if decide (u' = u) then (t, 1%Q) :: arrivals u evs else arrivals u evs
  | _ :: evs => arrivals u evs
  end.

Definition ordered (evs : list event) : Prop :=
  StronglySorted (λ e e', time_of e <= time_of e')%Q evs.

(** The QPS monitor of [u] holds the arrivals [l] not older than some cut that
    is not later than [T - w]. *)
Definition holds_arrivals (w T : Q) (l : list (Q * Q)) (om : option MovingAverageMonitor) : Prop :=
  match om with
  | None => l = []
  | Some m => ∃ cut, (cut <= T - w)%Q ∧
      m = mkMAM w (filter (λ p, Qltb p.1 cut = false) l).*1
                  (filter (λ p, Qltb p.1 cut = false) l).*2
  end.

Lemma arrivals_app u evs1 evs2 : arrivals u (evs1 ++ evs2) = arrivals u evs1 ++ arrivals u evs2.
Proof.
  induction evs1 as [|e evs1 IH]; simpl; [done|]. destruct e; try done.
  case_decide; simpl; by rewrite IH.
Qed.

Lemma arrivals_elem u evs p : p ∈ arrivals u evs → ∃ e, e ∈ evs ∧ time_of e = p.1.
Proof.
  induction evs as [|e evs IH]; simpl; [set_solver|].
  intros Hp. assert (p ∈ arrivals u evs ∨ time_of e = p.1) as [Hin|<-].
  { destruct e; try by left. case_decide; [|by left].
    apply elem_of_cons in Hp as [->|]; [by right|by left]. }
  - destruct (IH Hin) as (e' & He & Ht). exists e'. by split; [right|].
  - exists e. by split; [left|].
Qed.

Lemma arrivals_sorted u evs : ordered evs → StronglySorted pt_le (arrivals u evs).
Proof.
  induction 1 as [|e evs Hs IH He]; simpl; [constructor|].
  destruct e; try done. case_decide; [|done]. constructor; [done|].
  apply Forall_forall. intros p (e' & He' & Ht)%arrivals_elem.
  rewrite Forall_forall in He. specialize (He _ He'). unfold pt_le. simpl in *.
  by rewrite <- Ht.
Qed.

Lemma holds_arrivals_later w T T' l om :
  (T <= T')%Q → holds_arrivals w T l om → holds_arrivals w T' l om.
Proof.
  intros HT. destruct om as [m|]; simpl; [|done].
  intros (cut & Hc & Hm). exists cut. split; [lra|done].
Qed.

Lemma holds_arrivals_refresh w T T' l om :
  (T <= T')%Q → StronglySorted pt_le l → holds_arrivals w T l om →
  match refreshed T' om with
  | None => l = []
  | Some m => m = mkMAM w (in_window w T' l).*1 (in_window w T' l).*2
  end.
Proof.
  intros HT Hs. destruct om as [m|]; simpl; [|done].
  intros (cut & Hc & ->). unfold update_no_value, in_window. simpl.
  rewrite evict_filter by by apply StronglySorted_filter.
  rewrite filter_filter_cut by lra. done.
Qed.

Lemma holds_arrivals_arrive w T t l om :
  (T <= t)%Q → StronglySorted pt_le (l ++ [(t, 1%Q)]) → holds_arrivals w T l om →
  ∃ m, update t 1 (default (new_monitor w) om) = Ret m ∧
    holds_arrivals w t (l ++ [(t, 1%Q)]) (Some m).
Proof.
  intros HT Hs Hh.
  assert (∃ cut, (cut <= t - w)%Q ∧ default (new_monitor w) om =
    mkMAM w (filter (λ p, Qltb p.1 cut = false) l).*1
            (filter (λ p, Qltb p.1 cut = false) l).*2) as (cut & Hc & ->).
  { destruct om as [m|]; simpl in *.
    - destruct Hh as (cut & Hc & ->). exists cut. split; [lra|done].
    - subst. exists (t - w)%Q. split; [lra|done]. }
  unfold update. simpl. rewrite evict_snoc by done. eexists. split; [done|].
  exists (t - w)%Q. split; [lra|done].
Qed.

(** One call keeps the relation between monitors and arrivals. *)
Lemma holds_arrivals_step w T e s s' hist u :
  Inv s → window s = w → (T <= time_of e)%Q → ordered (hist ++ [e]) →
  holds_arrivals w T (arrivals u hist) (qps_monitors s !! u) →
  step_event e s = (Ret tt, s') →
  window s' = w ∧ holds_arrivals w (time_of e) (arrivals u (hist ++ [e])) (qps_monitors s' !! u).
Proof.
  intros HI Hw HT Hord Hh Hr.
  pose proof (arrivals_sorted u _ Hord) as Hs. rewrite arrivals_app in *.
  destruct (StronglySorted_snoc_inv _ _ _ Hord) as [Hord' _].
  destruct e as [u' i t|u' i t|u' i t now|u' i t|t]; simpl in Hs, Hr |- *;
    try rewrite app_nil_r.
  - unfold on_new_request in Hr. rewrite Hw in Hr.
    destruct (decide (u' = u)) as [->|Hne].
    + destruct (holds_arrivals_arrive w T t _ _ HT Hs Hh) as (m & Hm & Hh').
      rewrite Hm in Hr. simplify_eq/=. split; [done|]. by rewrite lookup_insert_eq.
    + rewrite app_nil_r. destruct (update t 1 _); simplify_eq/=. split; [done|].
      rewrite lookup_insert_ne by done. by eapply holds_arrivals_later.
  - apply (holds_arrivals_later w T t) in Hh; [|done].
    unfold on_request_response in Hr. repeat case_match; by simplify_eq/=.
  - apply (holds_arrivals_later w T t) in Hh; [|done].
    unfold on_request_complete in Hr. repeat case_match; by simplify_eq/=.
  - apply (holds_arrivals_later w T t) in Hh; [|done].
    unfold on_request_swapped in Hr. by simplify_eq/=.
  - destruct (get_request_stats_spec t s HI) as (r & s1 & Hg & _ & (E0 & _) & _ & Hq).
    unfold mbind, M_bind, mret, M_ret in Hr. rewrite Hg in Hr. simplify_eq. split; [done|].
    rewrite Hq. case_decide; [|by eapply holds_arrivals_later].
    pose proof (holds_arrivals_refresh (window s) T t _ _ HT (arrivals_sorted u _ Hord') Hh) as Hf.
    destruct (refreshed t _); simpl; [|done]. exists (t - window s)%Q.
    split; [lra|exact Hf].
Qed.

Lemma holds_arrivals_run w hist s T now u evs s' :
  Inv s → window s = w → ordered (hist ++ evs) → (T <= now)%Q →
  Forall (λ e, T <= time_of e <= now)%Q evs →
  holds_arrivals w T (arrivals u hist) (qps_monitors s !! u) →
  run_events evs s = (Ret tt, s') →
  window s' = w ∧ Inv s' ∧
    holds_arrivals w now (arrivals u (hist ++ evs)) (qps_monitors s' !! u).
Proof.
  revert hist s T. induction evs as [|e evs IH]; intros hist s T HI Hw Hord HT Hall Hh Hr.
  { rewrite app_nil_r. unfold run_events, mret, M_ret in Hr. simplify_eq.
    split_and!; [done|done|]. by eapply holds_arrivals_later. }
  simpl in Hr. unfold mbind, M_bind in Hr.
  destruct (step_event_ok e s HI) as (s1 & He & HI1). rewrite He in Hr.
  apply Forall_cons in Hall as [[HTe Hen] Hall].
  rewrite cons_middle, (app_assoc hist [e]) in Hord |- *.
  destruct (proj1 (StronglySorted_app _ _ _) Hord) as (Hx & Hord1 & _).
  destruct (holds_arrivals_step w T e s s1 hist u) as [Hw1 Hh1]; try done.
  apply (IH (hist ++ [e]) s1 (time_of e)); try done.
  apply Forall_forall. intros e' He'. split; [apply Hx; set_solver|].
  rewrite Forall_forall in Hall. by apply Hall.
Qed.

Lemma arrivals_ones u evs w now :
  (in_window w now (arrivals u evs)).*2 =
    replicate (length (in_window w now (arrivals u evs))) 1%Q.
Proof.
  unfold in_window. induction evs as [|e evs IH]; simpl; [done|].
  destruct e; try done. case_decide; [|done].
  rewrite filter_cons. case_decide; simpl; [f_equal|]; exact IH.
Qed.

Lemma prefill_dom_step e s s' u :
  Inv s → step_event e s = (Ret tt, s') →
  u ∈ dom (in_prefill_requests s) ∨ arrivals u [e] ≠ [] → u ∈ dom (in_prefill_requests s').
Proof.
  intros HI Hr Hu. destruct e as [u' i t|u' i t|u' i t now|u' i t|t]; simpl in Hr, Hu.
  - unfold on_new_request in Hr. destruct (update _ _ _); simplify_eq/=.
    rewrite dom_insert_L. case_decide; set_solver.
  - unfold on_request_response in Hr. repeat case_match; simplify_eq/=;
      rewrite ?dom_insert_L; set_solver.
  - unfold on_request_complete in Hr. repeat case_match; simplify_eq/=; set_solver.
  - unfold on_request_swapped in Hr. simplify_eq/=. set_solver.
  - destruct (get_request_stats_spec t s HI) as (r & s1 & Hg & _ & (_ & _ & E & _) & _).
    unfold mbind, M_bind, mret, M_ret in Hr. rewrite Hg in Hr. simplify_eq.
    rewrite E. set_solver.
Qed.

Lemma prefill_dom_run evs s s' u :
  Inv s → run_events evs s = (Ret tt, s') →
  u ∈ dom (in_prefill_requests s) ∨ arrivals u evs ≠ [] → u ∈ dom (in_prefill_requests s').
Proof.
  revert s. induction evs as [|e evs IH]; intros s HI Hr Hu.
  { unfold run_events, mret, M_ret in Hr. simplify_eq. by destruct Hu. }
  simpl in Hr. unfold mbind, M_bind in Hr.
  destruct (step_event_ok e s HI) as (s1 & He & HI1). rewrite He in Hr.
  apply (IH s1 HI1 Hr). change (e :: evs) with ([e] ++ evs) in Hu.
  rewrite arrivals_app in Hu.
  pose proof (prefill_dom_step e s s1 u HI He) as Hstep.
  destruct Hu as [Hu|Hu]; [left; by apply Hstep; left|].
  destruct (arrivals u [e]); [by right|left; by apply Hstep; right].
Qed.

Lemma leak_run u ids t now s :
  Inv s →
  ∃ s', run_events (flat_map (λ i, [ENew u i t; EComplete u i t now]) ids) s = (Ret tt, s') ∧
    zget u 0 (in_prefill_requests s') =
      (zget u 0 (in_prefill_requests s) + Z.of_nat (length ids))%Z ∧
    zget u 0 (finished_requests s') =
      (zget u 0 (finished_requests s) + Z.of_nat (length ids))%Z.
Proof.
  revert s. induction ids as [|i ids IH]; intros s HI.
  { exists s. split; [done|]. simpl. lia. }
  simpl. destruct (on_new_request_ok u i t s HI) as (s1 & H1 & HI1).
  destruct (on_request_complete_ok u i t now s1 HI1) as (s2 & H2 & HI2).
  unfold mbind, M_bind. rewrite H1, H2.
  destruct (IH s2 HI2) as (s' & Hr & Hp & Hf). exists s'. split; [done|].
  unfold on_new_request in H1. unfold on_request_complete in H2.
  destruct (update _ _ _); simplify_eq/=.
  repeat case_match; simplify_eq/=; rewrite Hp, Hf, !zget_insert, !decide_True by done; lia.
Qed.

(** ** Properties *)

(** C11. A sliding-window monitor that is fed points in time order holds
    exactly the points of the whole history whose timestamp is not older than
    the newest timestamp minus the window size, in arrival order: evicting from
    the front of the two deques is the same as filtering the history. *)
Theorem window_exact w l t v :
  StronglySorted pt_le (l ++ [(t, v)]) →
  record_all w (l ++ [(t, v)]) =
    Ret (mkMAM w (in_window w t (l ++ [(t, v)])).*1 (in_window w t (l ++ [(t, v)])).*2).
Proof.
  intros Hs. rewrite record_all_window by done. unfold window_of.
  by rewrite last_snoc.
Qed.

Lemma window_exact_witness :
  record_all 5 ([(1, 10); (4, 20); (6, 30)] ++ [(9, 40)])%Q =
    Ret (mkMAM 5 [4; 6; 9] [20; 30; 40])%Q.
Proof.
  rewrite (window_exact 5 [(1, 10); (4, 20); (6, 30)]%Q 9 40).
  - reflexivity.
  - repeat constructor; unfold pt_le; simpl; lra.
Defined.

(** The average of a window lies between any lower and upper bound of the
    values in it, and the sentinel [-1] is returned exactly when the window is
    empty (for windows of non-negative values). *)
Theorem average_bounds m lo hi :
  (0 <= lo)%Q → Forall (λ x, lo <= x <= hi)%Q (values m) →
  (values m ≠ [] → lo <= get_average m <= hi)%Q ∧
  (get_average m == -1 ↔ values m = [])%Q.
Proof.
  intros Hlo Hall. pose proof (qsum_bounds lo hi _ Hall) as Hb.
  unfold get_average. destruct (values m) as [|x vs]; [by split; [|split]|].
  set (n := inject_Z (Z.of_nat (length (x :: vs)))) in *.
  assert (0 < n)%Q as Hn.
  { unfold n. change 0%Q with (inject_Z 0). rewrite <- Zlt_Qlt. simpl. lia. }
  assert (lo <= qsum (x :: vs) / n)%Q as H1 by (by apply Qle_shift_div_l; [|lra]).
  assert (qsum (x :: vs) / n <= hi)%Q as H2 by (by apply Qle_shift_div_r; [|lra]).
  split; [done|]. split; [|done]. intros He. lra.
Qed.

Lemma average_bounds_witness :
  (2 <= get_average (mkMAM 5 [0; 1] [2; 4]) <= 4)%Q.
Proof.
  apply (average_bounds (mkMAM 5 [0; 1] [2; 4]) 2 4); simpl; [lra| |done].
  repeat constructor; lra.
Defined.

(** No sequence of calls makes the request monitor raise: whatever the
    order of [on_new_request], [on_request_response], [on_request_complete],
    [on_request_swapped] and [get_request_stats], no [KeyError], [IndexError]
    or [ZeroDivisionError] occurs, and the representation invariant (deques in
    step, a latency monitor for every engine with a recorded request, counters
    not negative) holds after every call. *)
Theorem monitor_never_raises w evs :
  ¬ (w == 0)%Q →
  ∃ s, run_events evs (fresh_monitor w) = (Ret tt, s) ∧ Inv s.
Proof. intros Hw. by apply run_events_ok, fresh_monitor_inv. Qed.

Lemma monitor_never_raises_witness :
  ∃ s, run_events [EComplete "e" "r" 1 2; ENew "e" "r" 3; EResponse "e" "r" 4;
                   EComplete "e" "r" 5 5; EStats 100; EResponse "x" "y" 101]%string
         (fresh_monitor 60) = (Ret tt, s) ∧ Inv s.
Proof. apply monitor_never_raises. by intros H. Defined.

(** For callers that follow the life cycle of a request (announced, first
    token, finished, once each and in this order), the per-engine counters are
    exactly the numbers of requests of that engine that are prefilling,
    decoding and finished. *)
Theorem counters_count_requests w evs P :
  ¬ (w == 0)%Q → lifecycles ∅ evs P →
  ∃ s, run_events evs (fresh_monitor w) = (Ret tt, s) ∧
    ∀ u, zget u 0 (in_prefill_requests s) = Z.of_nat (in_phase P u Prefilling) ∧
         zget u 0 (in_decoding_requests s) = Z.of_nat (in_phase P u Decoding) ∧
         zget u 0 (finished_requests s) = Z.of_nat (in_phase P u Finished).
Proof.
  intros Hw Hl.
  destruct (counts_run ∅ evs P (fresh_monitor w)) as (s & Hr & [Hp Hd Hf _]); try done.
  - by apply fresh_monitor_inv.
  - apply counts_fresh.
  - exists s. split; [done|]. intros u. by rewrite Hp, Hd, Hf.
Qed.

Lemma counters_count_requests_witness :
  ∃ s, run_events [ENew "e" "a" 1; ENew "e" "b" 2; EResponse "e" "a" 3]%string
         (fresh_monitor 60) = (Ret tt, s) ∧
    zget "e" 0 (in_prefill_requests s) = 1%Z.
Proof.
  destruct (counters_count_requests 60
    [ENew "e" "a" 1; ENew "e" "b" 2; EResponse "e" "a" 3]%string
    (<[("e", "a") := Decoding]> (<[("e", "b") := Prefilling]>
       (<[("e", "a") := Prefilling]> ∅)))%string) as (s & Hr & Hc).
  - by intros H.
  - repeat (eapply lcs_cons; [constructor; reflexivity|]). apply lcs_nil.
  - exists s. split; [exact Hr|]. rewrite (proj1 (Hc "e"%string)). reflexivity.
Defined.

(** The QPS that [get_request_stats] reports for an engine is the number
    of requests that arrived at it within the last window, divided by the
    window size, for every trace of calls in time order up to the query. *)
Theorem qps_counts_window w evs now s u :
  ¬ (w == 0)%Q → ordered evs → (0 <= now)%Q →
  Forall (λ e, 0 <= time_of e <= now)%Q evs →
  run_events evs (fresh_monitor w) = (Ret tt, s) →
  arrivals u evs ≠ [] →
  ∃ r s' st, get_request_stats now s = (Ret r, s') ∧ r !! u = Some st ∧
    (qps st == inject_Z (Z.of_nat (length (in_window w now (arrivals u evs)))) / w)%Q.
Proof.
  intros Hw Hord Hnow Hall Hr Hq.
  pose proof (fresh_monitor_inv w Hw) as HI0.
  destruct (holds_arrivals_run w [] (fresh_monitor w) 0 now u evs s) as (Hws & HI & Hh); try done.
  destruct (get_request_stats_spec now s HI) as (r & s' & Hg & _ & _ & Hl & _).
  exists r, s', (stats_of s now u). split_and!; [done| |].
  - rewrite Hl. rewrite decide_True; [done|]. apply elem_of_union_l.
    apply (prefill_dom_run evs (fresh_monitor w) s); auto.
  - simpl in Hh. pose proof (holds_arrivals_refresh w now now _ _ (Qle_refl now)
      (arrivals_sorted u _ Hord) Hh) as Hf.
    unfold stats_of. simpl. destruct (refreshed now (qps_monitors s !! u)) as [m|]; [|done].
    subst m. unfold get_sum. simpl.
    by rewrite Hws, (arrivals_ones u evs w now), qsum_replicate.
Qed.

Definition three_arrivals : list event :=
  [ENew "e" "a" 1; ENew "e" "b" 8; ENew "e" "c" 9]%string.

Lemma qps_counts_window_witness :
  ∃ r s' st,
    get_request_stats 10 (run_events three_arrivals (fresh_monitor 5)).2 = (Ret r, s') ∧
    r !! "e"%string = Some st ∧ (qps st == 2 / 5)%Q.
Proof.
  apply (qps_counts_window 5 three_arrivals 10
    (run_events three_arrivals (fresh_monitor 5)).2 "e"%string).
  - by intros H.
  - unfold ordered. repeat constructor; simpl; lra.
  - lra.
  - repeat constructor; simpl; lra.
  - vm_compute. reflexivity.
  - done.
Defined.

(** A request that ends without a single response chunk is counted as
    prefilling for ever: [on_request_complete] only decrements the decoding
    counter, so after announcing and completing [n] such requests the engine
    shows [n] prefilling requests although none is in flight. *)
Theorem empty_response_leaks_prefill w u ids t now :
  ¬ (w == 0)%Q →
  ∃ s, run_events (flat_map (λ i, [ENew u i t; EComplete u i t now]) ids) (fresh_monitor w)
         = (Ret tt, s) ∧
    zget u 0 (in_prefill_requests s) = Z.of_nat (length ids) ∧
    zget u 0 (finished_requests s) = Z.of_nat (length ids).
Proof.
  intros Hw. destruct (leak_run u ids t now (fresh_monitor w)) as (s & Hr & Hp & Hf).
  - by apply fresh_monitor_inv.
  - exists s. split; [exact Hr|]. by rewrite Hp, Hf.
Qed.

Lemma empty_response_leaks_prefill_witness :
  ∃ s, run_events (flat_map (λ i, [ENew "e" i 1; EComplete "e" i 1 2]) ["a"; "b"])%string
         (fresh_monitor 60) = (Ret tt, s) ∧ zget "e" 0 (in_prefill_requests s) = 2%Z.
Proof.
  destruct (empty_response_leaks_prefill 60 "e" ["a"; "b"] 1 2)%string as (s & H1 & H2 & _).
  - by intros H.
  - exists s. split; [exact H1|exact H2].
Defined.
