(* ===== verification/HashTrie.v ===== *)
(** * Prefix trie over hashed chunks: [prefix/hashtrie.py]

    A request is cut into chunks of [chunk_size] characters and every chunk is
    hashed; a trie over the hashes records at each node the endpoints whose
    requests went through it.  The hash ([xxhash.xxh64(...).intdigest()]) is a
    parameter, and so is the type of the characters.  The body of every
    [async with node.lock] has no [await], so a lock is never contended and a
    call runs to its end without another coroutine in between: the calls are
    functions on the trie. *)
From stdpp Require Import base list strings gmap.
From S2P Require Import Prelude PyDict.

(** [TrieNode]: children by hash, endpoints seen. *)
Inductive TrieNode : Type :=
| Node (children : list (Z * TrieNode)) (endpoints : gset string).

Definition children (n : TrieNode) : list (Z * TrieNode) := match n with Node c _ => c end.
Definition endpoints (n : TrieNode) : gset string := match n with Node _ e => e end.
Definition empty_node : TrieNode := Node [] ∅.

(** [node.endpoints.add(endpoint)] *)
Definition add_endpoint (e : string) (n : TrieNode) : TrieNode :=
  Node (children n) ({[e]} ∪ endpoints n).

(** The loop of [insert]: get or create the child of each hash, add the
    endpoint to it, go on from there.  (The endpoint is added to the root
    before the loop.) *)
Fixpoint insert_path (hs : list Z) (e : string) (n : TrieNode) : TrieNode :=
  match hs with
  | [] => n
  | h :: hs =>
      let child := default empty_node (dget h (children n)) in
      Node (dset h (insert_path hs e (add_endpoint e child)) (children n)) (endpoints n)
  end.

(** The loop of [longest_prefix_match]. *)
Fixpoint match_path (chunk_size : nat) (hs : list Z) (node : TrieNode)
    (match_length : nat) (selected : gset string) : nat * gset string :=
  match hs with
  | [] => (match_length, selected)
  | h :: hs =>
      match dget h (children node) with
      | None => (match_length, selected)
      | Some node =>
          let intersection := endpoints node ∩ selected in
          if decide (intersection = ∅) then (match_length, selected)
          else match_path chunk_size hs node (match_length + chunk_size) intersection
      end
  end.

Section HashTrie.
Context {char : Type} (hash : list char → Z).

(** [request[i : i + chunk_size]] for [i] in [range(0, len(request), chunk_size)];
    [fuel] bounds the number of chunks by the length of the request. *)
Fixpoint chunks_fuel (fuel chunk_size : nat) (request : list char) : list (list char) :=
  match fuel, request with
  | S fuel, _ :: _ =>
      take chunk_size request :: chunks_fuel fuel chunk_size (drop chunk_size request)
  | _, _ => []
  end.

Definition chunks (chunk_size : nat) (request : list char) : list (list char) :=
  chunks_fuel (length request) chunk_size request.

(** [_chunk_and_hash]: a step of zero is refused by [range]. *)
Definition chunk_and_hash (chunk_size : nat) (request : list char) : outcome (list Z) :=
  if chunk_size =? 0 then Raise ValueError else Ret (hash <$> chunks chunk_size request).

Definition trie_insert (chunk_size : nat) (request : list char) (endpoint : string)
    : M TrieNode unit := λ root,
  let root := add_endpoint endpoint root in
  match chunk_and_hash chunk_size request with
  | Raise e => (Raise e, root)
  | Ret hs => (Ret tt, insert_path hs endpoint root)
  end.

Definition longest_prefix_match (chunk_size : nat) (request : list char)
    (available_endpoints : gset string) (root : TrieNode) : outcome (nat * gset string) :=
  hs ← chunk_and_hash chunk_size request;
  mret (match_path chunk_size hs root 0 available_endpoints).

(** ** Chunks *)
Lemma chunks_fuel_concat fuel cs s :
  0 < cs → length s ≤ fuel → concat (chunks_fuel fuel cs s) = s.
Proof.
  intros Hcs. revert s. induction fuel as [|fuel IH]; intros [|c s] Hl; simpl in *; try done; try lia.
  destruct cs as [|cs]; [lia|]. rewrite IH by (rewrite length_drop; simpl; lia).
  by rewrite take_drop.
Qed.

Lemma chunks_concat cs s : 0 < cs → concat (chunks cs s) = s.
Proof. intros. by apply chunks_fuel_concat. Qed.

Lemma chunks_fuel_irrel fuel fuel' cs s :
  0 < cs → length s ≤ fuel → length s ≤ fuel' →
  chunks_fuel fuel cs s = chunks_fuel fuel' cs s.
Proof.
  intros Hcs. revert fuel' s. induction fuel as [|fuel IH]; intros [|fuel'] [|c s] H1 H2;
    simpl in *; try done; try lia.
  f_equal. destruct cs; [lia|]. apply IH; rewrite length_drop; simpl; lia.
Qed.

Lemma chunks_cons cs s :
  0 < cs → s ≠ [] → chunks cs s = take cs s :: chunks cs (drop cs s).
Proof.
  intros Hcs Hs. unfold chunks. destruct s as [|c s]; [done|]. simpl length.
  change (chunks_fuel (S (length s)) cs (c :: s))
    with (take cs (c :: s) :: chunks_fuel (length s) cs (drop cs (c :: s))).
  f_equal. destruct cs; [lia|]. apply chunks_fuel_irrel; rewrite ?length_drop; simpl; lia.
Qed.

(** Requests that agree on the first [k] full chunks have the same first [k]
    chunks. *)
Lemma chunks_common_prefix cs k (s s' : list char) :
  0 < cs → take (k * cs) s = take (k * cs) s' → k * cs ≤ length s → k * cs ≤ length s' →
  take k (chunks cs s) = take k (chunks cs s') ∧ k ≤ length (chunks cs s).
Proof.
  intros Hcs. revert s s'. induction k as [|k IH]; intros s s' Ht Hs Hs'.
  { rewrite !take_0. split; [done|lia]. }
  simpl in Hs, Hs'.
  assert (s ≠ []) as Hne by (destruct s; simpl in Hs; [lia|done]).
  assert (s' ≠ []) as Hne' by (destruct s'; simpl in Hs'; [lia|done]).
  rewrite (chunks_cons cs s), (chunks_cons cs s') by done. simpl in Ht.
  assert (take cs s = take cs s') as E1.
  { assert (∀ l : list char, take cs l = take cs (take (cs + k * cs) l)) as E.
    { intros l. rewrite take_take. f_equal. lia. }
    by rewrite (E s), (E s'), Ht. }
  assert (take (k * cs) (drop cs s) = take (k * cs) (drop cs s')) as E2
    by by rewrite !take_drop_commute, Ht.
  destruct (IH (drop cs s) (drop cs s')) as [H1 H2]; [done|rewrite length_drop; lia..|].
  rewrite !firstn_cons, length_cons. split; [by f_equal|lia].
Qed.
End HashTrie.

(** ** Specification: the log of insertions *)
Definition log := list (list Z * string).

(** [e] was inserted with a hash path that extends [p]. *)
Definition held (l : log) (p : list Z) (e : string) : Prop :=
  ∃ h, (h, e) ∈ l ∧ p `prefix_of` h.

Fixpoint node_at (n : TrieNode) (p : list Z) : option TrieNode :=
  match p with
  | [] => Some n
  | h :: p => match dget h (children n) with Some c => node_at c p | None => None end
  end.

Definition eps_at (n : TrieNode) (p : list Z) : gset string :=
  match node_at n p with Some c => endpoints c | None => ∅ end.

(** The trie after inserting the entries of the log, oldest first. *)
Definition build (l : log) : TrieNode :=
  foldl (λ n he, insert_path he.1 he.2 (add_endpoint he.2 n)) empty_node l.

Lemma eps_at_add e n p e' :
  e' ∈ eps_at (add_endpoint e n) p ↔ (e' = e ∧ p = []) ∨ e' ∈ eps_at n p.
Proof.
  unfold eps_at. destruct p as [|h p]; simpl; [set_solver|].
  destruct (dget h (children n)); [|set_solver]. naive_solver.
Qed.

Lemma eps_at_empty p : eps_at empty_node p = ∅.
Proof. by destruct p. Qed.

Lemma prefix_cons_iff (h : Z) p hs : h :: p `prefix_of` h :: hs ↔ p `prefix_of` hs.
Proof. split; [apply prefix_cons_inv_2|apply prefix_cons]. Qed.

(** Inserting a path adds the endpoint to every proper prefix of it. *)
Lemma eps_at_insert_path hs e n p e' :
  e' ∈ eps_at (insert_path hs e n) p ↔
    (e' = e ∧ p ≠ [] ∧ p `prefix_of` hs) ∨ e' ∈ eps_at n p.
Proof.
  revert n p. induction hs as [|h hs IH]; intros n p; simpl.
  { split; [by right|]. intros [(-> & Hne & Hp)|]; [|done].
    by apply prefix_nil_inv in Hp. }
  unfold eps_at at 1. destruct p as [|h' p]; simpl.
  { unfold eps_at. simpl. naive_solver. }
  rewrite dget_dset. destruct (decide (h = h')) as [<-|Hne].
  - fold (eps_at (insert_path hs e (add_endpoint e (default empty_node (dget h (children n))))) p).
    rewrite IH, eps_at_add, prefix_cons_iff.
    unfold eps_at at 2; simpl.
    assert (p = [] → p `prefix_of` hs) as Hnil by (intros ->; apply prefix_nil).
    assert (h :: p ≠ []) as Hc by done.
    assert (p = [] ∨ p ≠ []) as Hd by (destruct p; auto).
    destruct (dget h (children n)) as [c|]; simpl.
    + fold (eps_at c p). tauto.
    + rewrite eps_at_empty, elem_of_empty. tauto.
  - unfold eps_at; simpl. split; [by right|]. intros [(-> & _ & Hp)|]; [|done].
    by apply prefix_cons_inv_1 in Hp.
Qed.

Lemma held_snoc l h e p e' :
  held (l ++ [(h, e)]) p e' ↔ held l p e' ∨ (e' = e ∧ p `prefix_of` h).
Proof.
  unfold held. split.
  - intros (h' & [Hin|Hin]%elem_of_app & Hp); [left; by eauto|].
    apply list_elem_of_singleton in Hin. simplify_eq. by right.
  - intros [(h' & Hin & Hp)|[-> Hp]].
    + exists h'. split; [|done]. apply elem_of_app. by left.
    + exists h. split; [|done]. apply elem_of_app. right. by left.
Qed.

Lemma build_spec l p e : e ∈ eps_at (build l) p ↔ held l p e.
Proof.
  induction l as [|[h e'] l IH] using rev_ind.
  { unfold build. simpl. rewrite eps_at_empty. unfold held. set_solver. }
  unfold build. rewrite foldl_app. simpl. fold (build l).
  rewrite eps_at_insert_path, eps_at_add, IH, held_snoc. simpl.
  destruct (decide (p = [])) as [->|Hne]; [|naive_solver].
  pose proof (prefix_nil h). naive_solver.
Qed.

Lemma held_antitone l p q e : p `prefix_of` q → held l q e → held l p e.
Proof. intros Hpq (h & Hin & Hq). exists h. split; [done|]. by transitivity q. Qed.

Lemma node_at_app n p q :
  node_at n (p ++ q) = match node_at n p with Some c => node_at c q | None => None end.
Proof.
  revert n. induction p as [|h p IH]; intros n; simpl; [done|].
  destruct (dget h (children n)); [apply IH|done].
Qed.

(** What the match loop returns from the node at [p] on: it has matched [j]
    chunks below [p], and no deeper prefix is held by an available endpoint. *)
Lemma match_path_spec l cs hs p node ml sel (avail : gset string) :
  node_at (build l) p = Some node →
  (∀ e, e ∈ sel ↔ e ∈ avail ∧ (p = [] ∨ held l p e)) →
  ∃ j sel', match_path cs hs node ml sel = (ml + j * cs, sel') ∧ j ≤ length hs ∧
    (∀ e, e ∈ sel' ↔ e ∈ avail ∧ (p ++ take j hs = [] ∨ held l (p ++ take j hs) e)) ∧
    (j ≠ 0 → sel' ≠ ∅) ∧ (j = 0 → sel' = sel) ∧
    (j < length hs → ∀ e, e ∈ avail → ¬ held l (p ++ take (S j) hs) e).
Proof.
  revert p node ml sel. induction hs as [|h hs IH]; intros p node ml sel Hn Hsel; simpl.
  { exists 0, sel. rewrite app_nil_r. split_and!; try done; try lia. f_equal. lia. }
  pose proof (build_spec l (p ++ [h])) as Hb. unfold eps_at in Hb.
  rewrite node_at_app, Hn in Hb. simpl in Hb.
  destruct (dget h (children node)) as [c|] eqn:Ec; [case_decide as Hi|].
  - exists 0, sel. rewrite app_nil_r. split_and!; try done; try lia; [f_equal; lia|].
    simpl. rewrite take_0. intros _ e He Hh.
    assert (e ∈ endpoints c ∩ sel) as Hx; [|by rewrite Hi in Hx].
    apply elem_of_intersection. split; [by apply Hb|].
    apply Hsel. split; [done|]. right. eapply held_antitone, Hh. by exists [h].
  - destruct (IH (p ++ [h]) c (ml + cs) (endpoints c ∩ sel)) as (j & sel' & Hm & Hj & Hs & Hne & H0 & Hmax).
    + rewrite node_at_app, Hn. simpl. by rewrite Ec.
    + intros e. rewrite elem_of_intersection, Hb, Hsel. split; [naive_solver|].
      intros [Ha [Hnil|Hh]]; [by destruct p|]. split_and!; try done.
      right. eapply held_antitone, Hh. by exists [h].
    + exists (S j), sel'. rewrite <- app_assoc in Hs, Hmax. simpl in *.
      split_and!; try done; try lia.
      * rewrite Hm. f_equal. lia.
      * intros _. destruct (decide (j = 0)) as [->|]; [|by apply Hne]. by rewrite H0.
      * intros Hlt. apply Hmax. lia.
  - exists 0, sel. rewrite app_nil_r. split_and!; try done; try lia; [f_equal; lia|].
    simpl. rewrite take_0. intros _ e He Hh%Hb. set_solver.
Qed.

(** ** Properties *)
Section Properties.
Context {char : Type} (hash : list char → Z).
Implicit Types (r : list char) (avail : gset string) (hist : list (list char * string)).

Definition hashes (cs : nat) r : list Z := hash <$> chunks cs r.

(** The trie after the insertions of a history, oldest first. *)
Fixpoint insert_all (cs : nat) hist : M TrieNode unit :=
  match hist with
  | [] => mret tt
  | (r, e) :: hist => _ ← trie_insert hash cs r e; insert_all cs hist
  end.

Definition log_of (cs : nat) hist : log := (λ re, (hashes cs re.1, re.2)) <$> hist.

Lemma insert_all_foldl cs hist n :
  0 < cs →
  insert_all cs hist n =
    (Ret tt, foldl (λ n he, insert_path he.1 he.2 (add_endpoint he.2 n)) n (log_of cs hist)).
Proof.
  intros Hcs. revert n. induction hist as [|[r e] hist IH]; intros n; [done|].
  simpl. unfold mbind, M_bind, trie_insert, chunk_and_hash.
  destruct (Nat.eqb_spec cs 0); [lia|]. by rewrite IH.
Qed.

Lemma insert_all_build cs hist :
  0 < cs → insert_all cs hist empty_node = (Ret tt, build (log_of cs hist)).
Proof. apply insert_all_foldl. Qed.

Lemma held_log cs hist p e :
  held (log_of cs hist) p e ↔ ∃ r, (r, e) ∈ hist ∧ p `prefix_of` hashes cs r.
Proof.
  unfold held, log_of. split.
  - intros (h & ([r e'] & Heq & Hin)%list_elem_of_fmap & Hp). simplify_eq/=. by eauto.
  - intros (r & Hin & Hp). exists (hashes cs r). split; [|done].
    apply list_elem_of_fmap. by exists (r, e).
Qed.

Lemma longest_prefix_match_spec cs hist r avail root :
  0 < cs → insert_all cs hist empty_node = (Ret tt, root) →
  ∃ j sel, longest_prefix_match hash cs r avail root = Ret (j * cs, sel) ∧
    j ≤ length (hashes cs r) ∧
    (∀ e, e ∈ sel ↔ e ∈ avail ∧
       (j = 0 ∨ ∃ r', (r', e) ∈ hist ∧ take j (hashes cs r) `prefix_of` hashes cs r')) ∧
    (j ≠ 0 → sel ≠ ∅) ∧
    (∀ i, j < i → i ≤ length (hashes cs r) →
       ∀ r' e, e ∈ avail → (r', e) ∈ hist → ¬ take i (hashes cs r) `prefix_of` hashes cs r').
Proof.
  intros Hcs Hroot. rewrite insert_all_build in Hroot by done. simplify_eq.
  unfold longest_prefix_match, chunk_and_hash.
  destruct (Nat.eqb_spec cs 0); [lia|]. fold (hashes cs r). simpl.
  destruct (match_path_spec (log_of cs hist) cs (hashes cs r) [] (build (log_of cs hist)) 0
    avail avail) as (j & sel & Hm & Hj & Hs & Hne & H0 & Hmax); [done|naive_solver|].
  exists j, sel. simpl in *. unfold mret, outcome_ret. rewrite Hm.
  split_and!; try done.
  - intros e. destruct (decide (j = 0)) as [->|Hj0]; [rewrite H0 by done; naive_solver|].
    rewrite Hs, held_log. assert (take j (hashes cs r) ≠ []) as Hnil.
    { intros Hn%(f_equal length). rewrite length_take in Hn. simpl in Hn. lia. }
    naive_solver.
  - intros i Hi1 Hi2 r' e He Hin Hp. apply (Hmax ltac:(lia) e He). apply held_log.
    exists r'. split; [done|]. etrans; [|exact Hp].
    exists (drop (S j) (take i (hashes cs r))).
    rewrite <- (take_drop (S j) (take i (hashes cs r))) at 1. f_equal.
    rewrite take_take. f_equal. lia.
Qed.
End Properties.

(** C12. [longest_prefix_match] finds the longest prefix of the request, in
    whole chunks, that some available endpoint has served: it returns a number
    [j] of chunks times the chunk size together with exactly the available
    endpoints that were inserted with a request whose hashes start with the
    first [j] hashes of this one (all available endpoints when [j = 0]), the
    set is not empty when [j > 0], and no available endpoint was inserted with
    a request that shares more chunks. *)
Theorem prefix_match_longest {char : Type} (hash : list char → Z) cs hist r
    (avail : gset string) root :
  0 < cs → insert_all hash cs hist empty_node = (Ret tt, root) →
  ∃ j sel, longest_prefix_match hash cs r avail root = Ret (j * cs, sel) ∧
    j ≤ length (hashes hash cs r) ∧
    (∀ e, e ∈ sel ↔ e ∈ avail ∧
       (j = 0 ∨ ∃ r', (r', e) ∈ hist ∧ take j (hashes hash cs r) `prefix_of` hashes hash cs r')) ∧
    (j ≠ 0 → sel ≠ ∅) ∧
    (∀ i, j < i → i ≤ length (hashes hash cs r) →
       ∀ r' e, e ∈ avail → (r', e) ∈ hist →
         ¬ take i (hashes hash cs r) `prefix_of` hashes hash cs r').
Proof. intros. by apply longest_prefix_match_spec. Qed.

(** A toy hash of a chunk of numbers, for the witnesses. *)
Definition toy_hash (c : list Z) : Z := foldl (λ a x, a * 31 + x)%Z 7%Z c.

Definition toy_history : list (list Z * string) :=
  [([1; 2; 3; 4], "a"); ([1; 2; 9; 9], "b"); ([5; 6], "c")]%Z%string.

Lemma prefix_match_longest_witness :
  ∃ j sel, longest_prefix_match toy_hash 2 [1; 2; 3; 4; 5]%Z {["b"; "c"]}%string
    (insert_all toy_hash 2 toy_history empty_node).2 = Ret (j * 2, sel) ∧ (j ≠ 0 → sel ≠ ∅).
Proof.
  destruct (prefix_match_longest toy_hash 2 toy_history [1; 2; 3; 4; 5]%Z {["b"; "c"]}%string
    (insert_all toy_hash 2 toy_history empty_node).2) as (j & sel & H1 & _ & _ & H2 & _).
  - lia.
  - vm_compute. reflexivity.
  - exists j, sel. split; [exact H1|exact H2].
Defined.

(** The answer of the trie is sound for the text when the hash has no
    collision: if a match of [j] chunks is reported, every endpoint in the
    answer has served a request whose first [j] chunks are the same text. *)
Theorem prefix_match_sound {char : Type} (hash : list char → Z) cs hist r
    (avail : gset string) root n sel e :
  0 < cs → Inj (=) (=) hash → insert_all hash cs hist empty_node = (Ret tt, root) →
  longest_prefix_match hash cs r avail root = Ret (n, sel) → 0 < n → e ∈ sel →
  e ∈ avail ∧ ∃ j r', n = j * cs ∧ (r', e) ∈ hist ∧
    take j (chunks cs r') = take j (chunks cs r).
Proof.
  intros Hcs Hinj Hroot Hm Hn He.
  destruct (longest_prefix_match_spec hash cs hist r avail root Hcs Hroot)
    as (j & sel' & Hm' & Hj & Hs & _).
  rewrite Hm in Hm'. simplify_eq.
  apply Hs in He as [Ha [->|(r' & Hin & Hp)]]; [lia|]. split; [done|].
  exists j, r'. split_and!; try done.
  apply (inj (fmap hash)). rewrite !fmap_take. unfold hashes in *.
  destruct Hp as [k Hk]. rewrite Hk, take_app_le, take_take.
  - f_equal. lia.
  - rewrite length_take. lia.
Qed.

(** A collision-free hash of lists of numbers, for the witness. *)
Definition inj_hash (c : list Z) : Z := Zpos (encode c).

Lemma inj_hash_inj : Inj (=) (=) inj_hash.
Proof. intros x y H. unfold inj_hash in H. simplify_eq. by apply (inj encode). Qed.

Lemma prefix_match_sound_witness :
  "b"%string ∈ ({["b"]} : gset string)%string ∧ ∃ j r', 2 = j * 2 ∧
    (r', "b"%string) ∈ toy_history ∧ take j (chunks 2 r') = take j (chunks 2 [1; 2; 7]%Z).
Proof.
  apply (prefix_match_sound inj_hash 2 toy_history [1; 2; 7]%Z {["b"]}%string
    (insert_all inj_hash 2 toy_history empty_node).2 2 {["b"]}%string "b"%string).
  - lia.
  - exact inj_hash_inj.
  - vm_compute. reflexivity.
  - vm_compute. reflexivity.
  - lia.
  - set_solver.
Defined.

(** A request that was sent to an endpoint is found again: after
    inserting it, the match covers all its chunks and the endpoint is in the
    answer, whatever else was inserted before or after, as long as the
    endpoint is available. *)
Theorem inserted_request_matches {char : Type} (hash : list char → Z) cs hist r e
    (avail : gset string) root :
  0 < cs → (r, e) ∈ hist → e ∈ avail →
  insert_all hash cs hist empty_node = (Ret tt, root) →
  ∃ sel, longest_prefix_match hash cs r avail root = Ret (length (chunks cs r) * cs, sel) ∧
    e ∈ sel.
Proof.
  intros Hcs Hin Ha Hroot.
  destruct (longest_prefix_match_spec hash cs hist r avail root Hcs Hroot)
    as (j & sel & Hm & Hj & Hs & _ & Hmax).
  unfold hashes in *. rewrite length_fmap in *.
  assert (j = length (chunks cs r)) as ->.
  { destruct (decide (j < length (chunks cs r))) as [Hlt|]; [exfalso|lia].
    apply (Hmax (length (chunks cs r)) Hlt ltac:(lia) r e Ha Hin).
    apply prefix_take. }
  exists sel. split; [done|]. apply Hs. split; [done|]. right. exists r.
  split; [done|]. apply prefix_take.
Qed.

Lemma inserted_request_matches_witness :
  ∃ sel, longest_prefix_match toy_hash 2 [1; 2; 9; 9]%Z {["b"; "c"]}%string
    (insert_all toy_hash 2 toy_history empty_node).2 = Ret (4, sel) ∧ "b"%string ∈ sel.
Proof.
  apply (inserted_request_matches toy_hash 2 toy_history [1; 2; 9; 9]%Z "b"%string
    {["b"; "c"]}%string (insert_all toy_hash 2 toy_history empty_node).2).
  - lia.
  - unfold toy_history. right. left.
  - set_solver.
  - vm_compute. reflexivity.
Defined.

(** Requests with a common prefix are matched at least that far: if a
    request agrees with an earlier one, served by an available endpoint, on
    the first [k] full chunks of text, the match length is at least
    [k * chunk_size]. *)
Theorem common_prefix_matches {char : Type} (hash : list char → Z) cs hist r r' e k
    (avail : gset string) root n sel :
  0 < cs → (r', e) ∈ hist → e ∈ avail →
  take (k * cs) r = take (k * cs) r' → k * cs ≤ length r → k * cs ≤ length r' →
  insert_all hash cs hist empty_node = (Ret tt, root) →
  longest_prefix_match hash cs r avail root = Ret (n, sel) → k * cs ≤ n.
Proof.
  intros Hcs Hin Ha Ht Hr Hr' Hroot Hm.
  destruct (longest_prefix_match_spec hash cs hist r avail root Hcs Hroot)
    as (j & sel' & Hm' & Hj & _ & _ & Hmax).
  rewrite Hm in Hm'. simplify_eq.
  destruct (decide (k ≤ j)) as [|Hlt]; [by apply Nat.mul_le_mono_r|]. exfalso.
  destruct (chunks_common_prefix cs k r r' Hcs Ht Hr Hr') as [Hc Hk].
  apply (Hmax k ltac:(lia) ltac:(unfold hashes; rewrite length_fmap; lia) r' e Ha Hin).
  unfold hashes. rewrite <- fmap_take, Hc, fmap_take. apply prefix_take.
Qed.

Lemma common_prefix_matches_witness :
  longest_prefix_match toy_hash 2 [1; 2; 7]%Z {["b"]}%string
    (insert_all toy_hash 2 toy_history empty_node).2 = Ret (2, {["b"]}%string) ∧ 1 * 2 ≤ 2.
Proof.
  split; [vm_compute; reflexivity|].
  apply (common_prefix_matches toy_hash 2 toy_history [1; 2; 7]%Z [1; 2; 9; 9]%Z "b"%string 1
    {["b"]}%string (insert_all toy_hash 2 toy_history empty_node).2 2 {["b"]}%string).
  - lia.
  - unfold toy_history. right. left.
  - set_solver.
  - reflexivity.
  - simpl. lia.
  - simpl. lia.
  - vm_compute. reflexivity.
  - vm_compute. reflexivity.
Defined.
