(* ===== verification/EngineStats.v ===== *)
(** * Engine statistics: [stats/engine_stats.py]

    Scraping the metrics of every discovered engine and replacing the shared
    table under its lock.  [requests.get(...)] and the Prometheus text parser
    are parameters: [http_get url] is the body of a successful response, or the
    exception of the request or of [raise_for_status]; [parse_families] turns
    the text into families of (name, value) samples. *)
From stdpp Require Import base list strings gmap.
From Stdlib Require Import QArith.
From S2P Require Import Prelude PyDict Endpoint.

Record EngineStats := mkEngineStats {
  num_running_requests : Q;
  num_queuing_requests : Q;
  gpu_prefix_cache_hit_rate : Q;
  gpu_prefix_cache_hits_total : Q;
  gpu_prefix_cache_queries_total : Q;
  gpu_cache_usage_perc : Q
}.

Definition zero_stats : EngineStats := mkEngineStats 0 0 0 0 0 0.

(** The [if]/[elif] chain on the name of a sample. *)
Definition absorb (es : EngineStats) (sample : string * Q) : EngineStats :=
  let '(name, value) := sample in
  let '(mkEngineStats a b c d e f) := es in
  if decide (name = "vllm:num_requests_running"%string) then mkEngineStats value b c d e f
  else if decide (name = "vllm:num_requests_waiting"%string) then mkEngineStats a value c d e f
  else if decide (name = "vllm:gpu_prefix_cache_hit_rate"%string) then mkEngineStats a b value d e f
  else if decide (name = "vllm:gpu_prefix_cache_hits_total"%string) then mkEngineStats a b c value e f
  else if decide (name = "vllm:gpu_prefix_cache_queries_total"%string) then mkEngineStats a b c d value f
  else if decide (name = "vllm:gpu_cache_usage_perc"%string) then mkEngineStats a b c d e value
  else es.

(** The update of [self.engine_stats] under the lock: delete the urls that were
    not collected, then store the collected ones. *)
Definition replace_stats (collected stats : list (string * EngineStats))
    : list (string * EngineStats) :=
  let kept := foldl (λ d old_url, if dmem old_url collected then d else ddel old_url d)
                stats (dkeys stats) in
  dupdate collected kept.

(** [_sleep_or_break] with [n = int(self.scrape_interval / check_interval)]:
    the number of one-second sleeps, where [running i] is what the [i]-th
    test of [self.running] reads. *)
Fixpoint sleep_or_break (n : nat) (running : nat → bool) : nat :=
  match n with
  | O => O
  | S n => if running O then S (sleep_or_break n (λ i, running (S i))) else O
  end.

Lemma purge_get (collected d : list (string * EngineStats)) ks u :
  dict_wf d →
  dict_wf (foldl (λ d k, if dmem k collected then d else ddel k d) d ks) ∧
  dget u (foldl (λ d k, if dmem k collected then d else ddel k d) d ks) =
    if decide (u ∈ ks ∧ dmem u collected = false) then None else dget u d.
Proof.
  revert d. induction ks as [|k ks IH]; intros d Hd; cbn [foldl].
  { split; [done|]. by rewrite decide_False by set_solver. }
  destruct (dmem k collected) eqn:Ek.
  - destruct (IH d Hd) as [H1 H2]. split; [done|]. rewrite H2. apply decide_ext.
    rewrite elem_of_cons. naive_solver congruence.
  - destruct (IH (ddel k d) (ddel_wf k d Hd)) as [H1 H2]. split; [done|]. rewrite H2.
    destruct (decide (k = u)) as [->|Hne].
    + rewrite dget_ddel_eq by done.
      rewrite (decide_True (P := u ∈ u :: ks ∧ _)) by (split; [left|done]).
      by case_decide.
    + rewrite dget_ddel_ne by done. apply decide_ext. rewrite elem_of_cons. naive_solver.
Qed.

Lemma replace_stats_get collected stats u :
  dict_wf collected → dict_wf stats →
  dict_wf (replace_stats collected stats) ∧
  dget u (replace_stats collected stats) = dget u collected.
Proof.
  intros Hc Hs. unfold replace_stats.
  destruct (purge_get collected stats (dkeys stats) u Hs) as [H1 H2].
  split; [by apply dupdate_wf|]. rewrite dget_dupdate by done. rewrite H2.
  destruct (dget u collected) eqn:E; [done|].
  case_decide as Hd; [done|]. apply dget_None. intros Hin. apply Hd. split; [done|].
  apply dmem_false. by apply dget_None.
Qed.
Section Scraper.
Context (parse_families : string → outcome (list (list (string * Q)))).
Context (http_get : string → outcome string).

Definition from_vllm_scrape (vllm_scrape : string) : outcome EngineStats :=
  families ← parse_families vllm_scrape;
  mret (foldl (foldl absorb) zero_stats families).

(** Every exception is logged and turned into [None]. *)
Definition scrape_one_endpoint (u : string) : option EngineStats :=
  match http_get (u +:+ "/metrics") with
  | Raise _ => None
  | Ret text => match from_vllm_scrape text with Ret es => Some es | Raise _ => None end
  end.

(** The loop that fills [collected_engine_stats]. *)
Definition collect (eps : list EndpointInfo) : list (string * EngineStats) :=
  foldl (λ acc info,
    match scrape_one_endpoint (url info) with
    | Some es => dset (url info) es acc
    | None => acc
    end) [] eps.

(** [get_service_discovery().get_endpoint_info()] may raise; nothing is changed
    then. *)
Definition scrape_metrics (discovered : outcome (list EndpointInfo))
    : M (list (string * EngineStats)) unit := λ stats,
  match discovered with
  | Raise e => (Raise e, stats)
  | Ret eps => (Ret tt, replace_stats (collect eps) stats)
  end.

(** ** Lemmas *)
Lemma collect_get_acc eps acc u :
  dget u (foldl (λ acc info,
    match scrape_one_endpoint (url info) with
    | Some es => dset (url info) es acc
    | None => acc
    end) acc eps) =
  match scrape_one_endpoint u with
  | Some es => if decide (u ∈ url <$> eps) then Some es else dget u acc
  | None => dget u acc
  end.
Proof.
  revert acc. induction eps as [|e eps IH]; intros acc.
  { simpl. by destruct (scrape_one_endpoint u). }
  cbn [foldl]. rewrite fmap_cons, IH. destruct (decide (url e = u)) as [<-|Hne].
  - destruct (scrape_one_endpoint (url e)); [|done].
    rewrite (decide_True (P := url e ∈ url e :: _)) by left.
    case_decide; [done|]. apply dget_dset_eq.
  - assert (dget u (match scrape_one_endpoint (url e) with
      | Some es => dset (url e) es acc | None => acc end) = dget u acc) as ->.
    { destruct (scrape_one_endpoint (url e)); [by apply dget_dset_ne|done]. }
    destruct (scrape_one_endpoint u); [|done].
    rewrite (decide_ext (u ∈ url <$> eps) (u ∈ url e :: (url <$> eps))); [done|].
    rewrite elem_of_cons. naive_solver.
Qed.

Lemma collect_wf eps : dict_wf (collect eps).
Proof.
  unfold collect. generalize (@dict_wf_nil string EngineStats).
  generalize (@nil (string * EngineStats)).
  induction eps as [|e eps IH]; intros acc Hacc; simpl; [done|].
  apply IH. destruct (scrape_one_endpoint (url e)); [by apply dset_wf|done].
Qed.

Lemma foldl_concat {A B : Type} (f : A → B → A) (a : A) (ls : list (list B)) :
  foldl (foldl f) a ls = foldl f a (concat ls).
Proof.
  revert a. induction ls as [|l ls IH]; intros a; simpl; [done|].
  by rewrite IH, foldl_app.
Qed.

(** The value of the last sample named [n], or [dflt] when there is none. *)
Definition last_value (n : string) (dflt : Q) (samples : list (string * Q)) : Q :=
  default dflt (last (filter (λ s, s.1 = n) samples).*2).

Lemma last_value_snoc n dflt l x v :
  last_value n dflt (l ++ [(x, v)]) = if decide (x = n) then v else last_value n dflt l.
Proof.
  unfold last_value. rewrite filter_app, filter_cons, filter_nil. simpl.
  case_decide; [by rewrite fmap_app, last_app|]. by rewrite app_nil_r.
Qed.

Lemma absorb_last samples :
  foldl absorb zero_stats samples = mkEngineStats
    (last_value "vllm:num_requests_running" 0 samples)
    (last_value "vllm:num_requests_waiting" 0 samples)
    (last_value "vllm:gpu_prefix_cache_hit_rate" 0 samples)
    (last_value "vllm:gpu_prefix_cache_hits_total" 0 samples)
    (last_value "vllm:gpu_prefix_cache_queries_total" 0 samples)
    (last_value "vllm:gpu_cache_usage_perc" 0 samples).
Proof.
  induction samples as [|[n v] l IH] using rev_ind; [done|].
  rewrite foldl_app. simpl. rewrite IH. unfold absorb.
  rewrite !last_value_snoc.
  repeat (destruct (decide (n = _)) as [->|]; [done|]). done.
Qed.
End Scraper.

(** One round of scraping makes the table exactly the engines that were
    discovered and answered: whatever the old table held, afterwards an engine
    has statistics if and only if it is among the discovered endpoints and its
    scrape succeeded, and they are the statistics of that scrape. *)
Theorem scrape_replaces parse_families http_get eps stats :
  dict_wf stats →
  ∃ stats', scrape_metrics parse_families http_get (Ret eps) stats = (Ret tt, stats') ∧
    dict_wf stats' ∧
    ∀ u, dget u stats' =
      if decide (u ∈ url <$> eps) then scrape_one_endpoint parse_families http_get u else None.
Proof.
  intros Hwf. eexists. split; [done|].
  pose proof (collect_wf parse_families http_get eps) as Hc. split.
  - by apply (replace_stats_get _ _ ""%string).
  - intros u. rewrite (proj2 (replace_stats_get _ _ u Hc Hwf)).
    unfold collect. rewrite collect_get_acc. simpl.
    destruct (scrape_one_endpoint parse_families http_get u); by case_decide.
Qed.


Definition two_engines : list EndpointInfo :=
  [mkEndpointInfo "http://a" ["m"] "1" 0 None false None None None [];
   mkEndpointInfo "http://b" ["m"] "2" 0 None false None None None []]%string.

(** A scrape where only engine [a] answers, with one sample. *)
Definition toy_get (u : string) : outcome string :=
  if decide (u = "http://a/metrics"%string) then Ret "x"%string else Raise RequestException.
Definition toy_parse (s : string) : outcome (list (list (string * Q))) :=
  Ret [[("vllm:num_requests_running"%string, 3%Q)]].

Lemma scrape_replaces_witness :
  ∃ stats', scrape_metrics toy_parse toy_get (Ret two_engines) [("old"%string, zero_stats)]
      = (Ret tt, stats') ∧
    dget "http://a"%string stats' = Some (mkEngineStats 3 0 0 0 0 0) ∧
    dget "http://b"%string stats' = None ∧ dget "old"%string stats' = None.
Proof.
  destruct (scrape_replaces toy_parse toy_get two_engines [("old"%string, zero_stats)])
    as (stats' & Hs & _ & Hg).
  - apply NoDup_singleton.
  - exists stats'. split; [exact Hs|]. rewrite !Hg. split; [reflexivity|]. split; reflexivity.
Defined.

(** What a scrape reports is determined by the last sample of each of
    the six metric names, in document order across families; a metric without
    a sample is zero and other samples are ignored.  A text the parser rejects
    raises. *)
Theorem last_sample_wins parse_families text :
  from_vllm_scrape parse_families text =
    match parse_families text with
    | Raise e => Raise e
    | Ret fams =>
        let v n := last_value n 0 (concat fams) in
        Ret (mkEngineStats (v "vllm:num_requests_running") (v "vllm:num_requests_waiting")
          (v "vllm:gpu_prefix_cache_hit_rate") (v "vllm:gpu_prefix_cache_hits_total")
          (v "vllm:gpu_prefix_cache_queries_total") (v "vllm:gpu_cache_usage_perc"))%string
    end.
Proof.
  unfold from_vllm_scrape, mbind, outcome_bind. destruct (parse_families text); [|done].
  unfold mret, outcome_ret. by rewrite foldl_concat, absorb_last.
Qed.

(** The waiting loop of the background threads stops at the first test
    that finds [running] cleared: it sleeps exactly as many times as there are
    tests before that one, and [n] times when the flag stays set. *)
Theorem sleep_or_break_stops n running :
  (sleep_or_break n running ≤ n)%nat ∧
  (∀ i, (i < sleep_or_break n running)%nat → running i = true) ∧
  ((sleep_or_break n running < n)%nat → running (sleep_or_break n running) = false).
Proof.
  revert running. induction n as [|n IH]; intros running; simpl; [split_and!; lia|].
  destruct (running O) eqn:E; [|split_and!; try lia; done].
  destruct (IH (λ i, running (S i))) as (H1 & H2 & H3).
  split_and!; [lia| |intros; apply H3; lia].
  intros [|i] Hi; [done|]. apply H2. lia.
Qed.
