(* ===== verification/HashRing.v ===== *)
(** * The consistent-hash ring the session and kv-aware routers use

    [uhashring.HashRing] is not part of the repository: it is the class
    [HashRing] of operations, and [HashRingLaws] states the documented
    behaviour of a consistent-hash ring that the routers rely on.  Clients are
    proved against the interface; [toy_ring] is an implementation that
    satisfies the laws.  [update_hash_ring] is
    [RoutingInterface._update_hash_ring] of [routers/routing_logic.py]. *)
From stdpp Require Import base list strings gmap.
From S2P Require Import Prelude PyDict PyStr Json Endpoint.

Class HashRing (ring : Type) := {
  ring_new : ring;
  ring_nodes : ring → gset string;
  ring_add : string → ring → ring;
  ring_remove : string → ring → ring;
  ring_get : ring → json → option string
}.

(** Keys are session ids; where a key is placed is only specified for strings. *)
Class HashRingLaws (ring : Type) `{!HashRing ring} : Prop := {
  ring_nodes_new : ring_nodes ring_new = ∅;
  ring_nodes_add n r : ring_nodes (ring_add n r) = {[n]} ∪ ring_nodes r;
  ring_nodes_remove n r :
    n ∈ ring_nodes r → ring_nodes (ring_remove n r) = ring_nodes r ∖ {[n]};
  (** a ring with nodes places every key on one of them *)
  ring_get_member r k : ring_nodes r ≠ ∅ → ∃ n, ring_get r (JStr k) = Some n ∧ n ∈ ring_nodes r;
  (** only nodes are returned, whatever the key *)
  ring_get_sound r key n : ring_get r key = Some n → n ∈ ring_nodes r;
  ring_get_empty r k : ring_nodes r = ∅ → ring_get r (JStr k) = None;
  (** the placement is a function of the set of nodes *)
  ring_get_ext r r' k : ring_nodes r = ring_nodes r' → ring_get r (JStr k) = ring_get r' (JStr k);
  (** removing another node does not move a key *)
  ring_get_remove r k n m :
    ring_get r (JStr k) = Some n → m ≠ n → m ∈ ring_nodes r →
    ring_get (ring_remove m r) (JStr k) = Some n
}.

Section UpdateRing.
Context {ring : Type} `{!HashRing ring}.

(** The urls of a list of endpoints, as the set [set(endpoint_urls)]. *)
Definition url_set (eps : list EndpointInfo) : gset string := list_to_set (url <$> eps).

(** The two loops run over Python sets, whose order is not specified:
    [elements] is one such order. *)
Definition update_hash_ring (eps : list EndpointInfo) (r : ring) : ring :=
  let new_nodes := url_set eps in
  let current_nodes := ring_nodes r in
  let r := foldl (λ r node, ring_remove node r) r (elements (current_nodes ∖ new_nodes)) in
  foldl (λ r node, ring_add node r) r (elements (new_nodes ∖ current_nodes)).

Context `{!HashRingLaws ring}.

Lemma foldl_remove_nodes (l : list string) (r : ring) :
  NoDup l → (∀ n, n ∈ l → n ∈ ring_nodes r) →
  ring_nodes (foldl (λ r node, ring_remove node r) r l) = ring_nodes r ∖ list_to_set l.
Proof.
  revert r. induction l as [|n l IH]; intros r Hnd Hin; simpl; [set_solver|].
  apply NoDup_cons in Hnd as [Hnin Hnd].
  assert (n ∈ ring_nodes r) by (apply Hin; left).
  rewrite IH; [rewrite ring_nodes_remove by done; set_solver|done|].
  intros m Hm. rewrite ring_nodes_remove by done. set_solver.
Qed.

Lemma foldl_add_nodes (l : list string) (r : ring) :
  ring_nodes (foldl (λ r node, ring_add node r) r l) = list_to_set l ∪ ring_nodes r.
Proof.
  revert r. induction l as [|n l IH]; intros r; simpl; [set_solver|].
  rewrite IH, ring_nodes_add. set_solver.
Qed.

Lemma update_hash_ring_nodes eps r : ring_nodes (update_hash_ring eps r) = url_set eps.
Proof.
  unfold update_hash_ring. rewrite foldl_add_nodes, foldl_remove_nodes.
  - rewrite !list_to_set_elements_L. apply set_eq. intros x.
    destruct (decide (x ∈ ring_nodes r)), (decide (x ∈ url_set eps)); set_solver.
  - apply NoDup_elements.
  - intros n Hn. set_solver.
Qed.

(** Removing nodes other than the one a key is on leaves the key there. *)
Lemma foldl_remove_get (l : list string) (r : ring) k n :
  NoDup l → (∀ m, m ∈ l → m ∈ ring_nodes r) → n ∉ l →
  ring_get r (JStr k) = Some n →
  ring_get (foldl (λ r node, ring_remove node r) r l) (JStr k) = Some n.
Proof.
  revert r. induction l as [|m l IH]; intros r Hnd Hin Hn Hg; simpl; [done|].
  apply NoDup_cons in Hnd as [Hnin Hnd].
  assert (m ∈ ring_nodes r) by (apply Hin; left).
  apply IH; [done| |set_solver|apply ring_get_remove; set_solver].
  intros x Hx. rewrite ring_nodes_remove by done. set_solver.
Qed.

(** Shrinking the set of endpoints does not move the keys of the survivors. *)
Lemma update_hash_ring_shrink eps r k n :
  url_set eps ⊆ ring_nodes r → n ∈ url_set eps →
  ring_get r (JStr k) = Some n → ring_get (update_hash_ring eps r) (JStr k) = Some n.
Proof.
  intros Hsub Hn Hg. unfold update_hash_ring.
  replace (elements (url_set eps ∖ ring_nodes r)) with (@nil string).
  - simpl. apply foldl_remove_get; [apply NoDup_elements|set_solver|set_solver|done].
  - symmetry. apply elements_empty_iff. set_solver.
Qed.
End UpdateRing.

(** ** An implementation *)
(** The least node in an order that depends on the key: rendezvous hashing with
    two weight functions. *)
Definition toy_order (k : string) : string → string → Prop :=
  if Nat.even (String.length k) then str_le else flip str_le.

#[global] Instance toy_order_dec k x y : Decision (toy_order k x y).
Proof. unfold toy_order. destruct (Nat.even _); simpl; apply _. Defined.

Fixpoint list_least (R : string → string → Prop) `{∀ x y, Decision (R x y)} (l : list string)
    : option string :=
  match l with
  | [] => None
  | x :: l =>
      match list_least R l with
      | None => Some x
      | Some y => if decide (R x y) then Some x else Some y
      end
  end.

Definition toy_get (nodes : gset string) (key : json) : option string :=
  match key with
  | JStr k => list_least (toy_order k) (elements nodes)
  | _ => None
  end.

#[global] Instance toy_ring : HashRing (gset string) := {|
  ring_new := ∅;
  ring_nodes r := r;
  ring_add n r := {[n]} ∪ r;
  ring_remove n r := r ∖ {[n]};
  ring_get := toy_get
|}.

Lemma toy_order_total k x y : toy_order k x y ∨ toy_order k y x.
Proof. unfold toy_order, flip. destruct (Nat.even _); [|apply or_comm]; apply str_le_total. Qed.

Lemma toy_order_trans k : Transitive (toy_order k).
Proof.
  unfold toy_order, flip. destruct (Nat.even _); [apply _|].
  intros x y z Hxy Hyz. by transitivity y.
Qed.

Lemma toy_order_antisymm k x y : toy_order k x y → toy_order k y x → x = y.
Proof.
  unfold toy_order, flip. destruct (Nat.even _); intros H1 H2; by apply (anti_symm str_le).
Qed.

Lemma list_least_spec k l :
  match list_least (toy_order k) l with
  | None => l = []
  | Some x => x ∈ l ∧ ∀ y, y ∈ l → toy_order k x y
  end.
Proof.
  induction l as [|x l IH]; simpl; [done|].
  destruct (list_least (toy_order k) l) as [y|]; [case_decide as Hxy|subst].
  - split; [left|]. intros z [->|Hz]%elem_of_cons.
    + by destruct (toy_order_total k x x).
    + destruct IH as [_ IH]. by apply (toy_order_trans k x y z Hxy), IH.
  - destruct IH as [Hy IH]. split; [by right|]. intros z [->|Hz]%elem_of_cons; [|by apply IH].
    by destruct (toy_order_total k x y).
  - split; [left|]. intros z ->%list_elem_of_singleton. by destruct (toy_order_total k x x).
Qed.

Lemma toy_get_least (r : gset string) k x :
  toy_get r (JStr k) = Some x ↔ x ∈ r ∧ ∀ y, y ∈ r → toy_order k x y.
Proof.
  simpl. pose proof (list_least_spec k (elements r)) as H.
  destruct (list_least (toy_order k) (elements r)) as [z|].
  - destruct H as [Hz Hl]. setoid_rewrite elem_of_elements in Hl. apply elem_of_elements in Hz.
    split; [intros ?; by simplify_eq|]. intros [Hx Hx']. f_equal.
    apply (toy_order_antisymm k); auto.
  - apply elements_empty_iff in H. split; [done|]. set_solver.
Qed.

#[global] Instance toy_ring_laws : HashRingLaws (gset string).
Proof.
  split; try done.
  - intros r k Hne. simpl. pose proof (list_least_spec k (elements r)) as H. simpl in *.
    destruct (list_least (toy_order k) (elements r)) as [z|].
    + exists z. split; [done|]. destruct H as [Hz _]. by apply elem_of_elements in Hz.
    + apply elements_empty_iff, leibniz_equiv in H. done.
  - intros r [| | | |k| |] n; try done. by intros [? _]%toy_get_least.
  - intros r k Hr. simpl in *. by rewrite Hr.
  - intros r r' k Hr. simpl in *. by rewrite Hr.
  - intros r k n m [Hn Hl]%toy_get_least Hne Hm. apply toy_get_least. simpl.
    split; [set_solver|]. intros y Hy. apply Hl. set_solver.
Qed.
