(* ===== verification/Routing.v ===== *)
(** * Routing logics: [routers/routing_logic.py]

    The five routers, each with its state and its [route_request].  A list of
    endpoints comes with the identity of the Python list object where the code
    looks at it ([id(endpoints)]).  Tokenizers, the LMCache controller, Python's
    [hash] of a tuple and [random.choice] are parameters. *)
From stdpp Require Import base list strings gmap.
From Stdlib Require Import QArith Ascii.
From S2P Require Import Prelude PyDict PyStr Json Endpoint RequestStats HashTrie HashRing.

(** An incoming request, as far as routing looks at it. *)
Abbreviation headers := (list (string * string)).

(** [request.headers.get(key)]: Starlette compares header names without case. *)
Fixpoint header_get (key : string) (hs : headers) : option string :=
  match hs with
  | [] => None
  | (k, v) :: hs => if decide (lower k = lower key) then Some v else header_get key hs
  end.

(** ** [RoutingInterface]: the helpers shared by the routers *)
Fixpoint qps_loop (eps : list EndpointInfo) (stats : gmap string RequestStats)
    (lowest_qps : option Q) (ret : option string) : option string :=
  match eps with
  | [] => ret
  | info :: eps =>
      match stats !! url info with
      | None => Some (url info)
      | Some st =>
          if (match lowest_qps with None => true | Some l => Qltb (qps st) l end)
          then qps_loop eps stats (Some (qps st)) (Some (url info))
          else qps_loop eps stats lowest_qps ret
      end
  end.

(** [_qps_routing]; [None] as the lowest value is [float("inf")]. *)
Definition qps_routing (eps : list EndpointInfo) (stats : gmap string RequestStats)
    : option string := qps_loop eps stats None None.

(** [extract_session_id]; the body value may be of any JSON type. *)
Definition extract_session_id (session_key : option string) (hs : headers)
    (request_json : list (string * json)) : json :=
  match session_key with
  | None => JNull
  | Some key =>
      match header_get key hs with
      | Some v => JStr v
      | None => dict_get key JNull request_json
      end
  end.

(** ** [RoundRobinRouter] *)
Record RoundRobinRouter := mkRR {
  req_id : nat;
  sorted_endpoints : list EndpointInfo;
  last_endpoints_id : option Z;
  last_endpoints_hash : option Z
}.

Definition rr_init : RoundRobinRouter := mkRR 0 [] None None.

Section RoundRobin.
(** [hash(tuple(urls))] *)
Context (py_hash : list string → Z).

(** The cache update at the start of [route_request]. *)
Definition rr_refresh (oid : Z) (eps : list EndpointInfo) (s : RoundRobinRouter)
    : RoundRobinRouter :=
  if decide (Some oid = last_endpoints_id s) then s
  else
    let current_hash := py_hash (url <$> eps) in
    if decide (Some current_hash = last_endpoints_hash s)
    then mkRR (req_id s) (sorted_endpoints s) (Some oid) (last_endpoints_hash s)
    else mkRR (req_id s) (sorted_by url eps) (Some oid) (Some current_hash).

(** [oid] is [id(endpoints)]. *)
Definition rr_route (oid : Z) (eps : list EndpointInfo) : M RoundRobinRouter string := λ s,
  let s := rr_refresh oid eps s in
  match length (sorted_endpoints s) with
  | O => (Raise ZeroDivisionError, s)
  | n =>
      match sorted_endpoints s !! (req_id s mod n) with
      | None => (Raise IndexError, s)
      | Some chosen =>
          (Ret (url chosen), mkRR (S (req_id s)) (sorted_endpoints s)
             (last_endpoints_id s) (last_endpoints_hash s))
      end
  end.

(** A sequence of requests, each with its own list object. *)
Fixpoint rr_run (calls : list (Z * list EndpointInfo)) : M RoundRobinRouter (list string) :=
  match calls with
  | [] => mret []
  | (oid, eps) :: calls =>
      u ← rr_route oid eps; us ← rr_run calls; mret (u :: us)
  end.

(** ** Round robin: lemmas *)
(** The cache holds the sorted endpoints of a list with the hash it remembers. *)
Definition rr_for (eps : list EndpointInfo) (s : RoundRobinRouter) : Prop :=
  sorted_endpoints s = sorted_by url eps ∧
  last_endpoints_hash s = Some (py_hash (url <$> eps)).

Lemma rr_refresh_same oid eps s :
  rr_for eps s → rr_for eps (rr_refresh oid eps s) ∧ req_id (rr_refresh oid eps s) = req_id s.
Proof.
  unfold rr_for, rr_refresh. intros [H1 H2].
  case_decide; [done|]. by rewrite decide_True by done.
Qed.

Lemma rr_refresh_fresh oid eps :
  rr_for eps (rr_refresh oid eps rr_init) ∧ req_id (rr_refresh oid eps rr_init) = 0%nat.
Proof. done. Qed.

Lemma rr_route_for oid eps s :
  rr_for eps (rr_refresh oid eps s) → eps ≠ [] →
  ∃ e s', rr_route oid eps s = (Ret (url e), s') ∧ rr_for eps s' ∧
    req_id s' = S (req_id (rr_refresh oid eps s)) ∧
    sorted_by url eps !! (req_id (rr_refresh oid eps s) mod length eps)%nat = Some e.
Proof.
  intros [H1 H2] Hne. unfold rr_route. rewrite H1.
  assert (length (sorted_by url eps) = length eps) as -> by by rewrite sorted_by_perm.
  destruct (length eps) as [|n] eqn:El; [by destruct eps|].
  destruct (lookup_lt_is_Some_2 (sorted_by url eps)
    (req_id (rr_refresh oid eps s) mod S n)%nat) as [e He].
  { rewrite sorted_by_perm, El. by apply Nat.mod_upper_bound. }
  rewrite He. eexists e, _. split_and!; done.
Qed.

Lemma rr_route_id oid eps s u s' :
  rr_route oid eps s = (Ret u, s') → last_endpoints_id s' = Some oid.
Proof.
  assert (last_endpoints_id (rr_refresh oid eps s) = Some oid) as Hid.
  { unfold rr_refresh. by repeat case_decide. }
  unfold rr_route. destruct (length (sorted_endpoints (rr_refresh oid eps s))) as [|n]; [done|].
  destruct (sorted_endpoints (rr_refresh oid eps s) !! _); [|done].
  intros ?. by simplify_eq.
Qed.

(** The [i]-th of a run of requests over the same endpoints. *)
Lemma rr_run_same (calls : list (Z * list EndpointInfo)) eps s :
  eps ≠ [] → Forall (λ c, c.2 = eps) calls → rr_for eps s →
  ∃ us s', rr_run calls s = (Ret us, s') ∧ rr_for eps s' ∧
    req_id s' = (req_id s + length calls)%nat ∧ length us = length calls ∧
    ∀ i, (i < length calls)%nat →
      us !! i = url <$> sorted_by url eps !! ((req_id s + i) mod length eps)%nat.
Proof.
  intros Hne. revert s. induction calls as [|[oid eps'] calls IH]; intros s Hall Hs.
  { eexists [], s. split_and!; try done; simpl; try lia. }
  apply Forall_cons in Hall as [Heq Hall]. simpl in Heq. subst eps'.
  destruct (rr_refresh_same oid eps s Hs) as [Hs1 Hid].
  destruct (rr_route_for oid eps s Hs1 Hne) as (e & s1 & Hr & Hs2 & Hid1 & He).
  destruct (IH s1 Hall Hs2) as (us & s' & Hrun & Hs' & Hid' & Hlen & Hus).
  simpl. unfold mbind, M_bind. rewrite Hr, Hrun. unfold mret, M_ret.
  rewrite Hid in Hid1, He. eexists (url e :: us), s'.
  split_and!; try done; simpl; try lia.
  intros [|i] Hi; simpl.
  - by rewrite Nat.add_0_r, He.
  - rewrite Hus by lia. rewrite Hid1. do 3 f_equal. lia.
Qed.

Lemma rr_run_fresh (calls : list (Z * list EndpointInfo)) eps :
  eps ≠ [] → calls ≠ [] → Forall (λ c, c.2 = eps) calls →
  ∃ us s', rr_run calls rr_init = (Ret us, s') ∧ length us = length calls ∧
    ∀ i, (i < length calls)%nat →
      us !! i = url <$> sorted_by url eps !! (i mod length eps)%nat.
Proof.
  intros Hne Hc Hall. destruct calls as [|[oid eps'] calls]; [done|].
  apply Forall_cons in Hall as [Heq Hall]. simpl in Heq. subst eps'.
  destruct (rr_route_for oid eps rr_init (proj1 (rr_refresh_fresh oid eps)) Hne)
    as (e & s1 & Hr & Hs1 & Hid & He).
  destruct (rr_run_same calls eps s1 Hne Hall Hs1) as (us & s' & Hrun & _ & _ & Hlen & Hus).
  simpl. unfold mbind, M_bind. rewrite Hr, Hrun. eexists (url e :: us), s'.
  split_and!; [done|simpl; lia|].
  change (req_id (rr_refresh oid eps rr_init)) with 0%nat in *.
  intros [|i] Hi; simpl in *; [by rewrite He|].
  rewrite Hus by lia. by rewrite Hid.
Qed.
End RoundRobin.

(** ** [SessionRouter] *)
Section Session.
Context {ring : Type} `{!HashRing ring}.

(** The choice both hash-ring routers make once the ring is up to date. *)
Definition session_or_qps (session_key : option string) (eps : list EndpointInfo)
    (stats : gmap string RequestStats) (hs : headers) (body : list (string * json))
    (r : ring) : option string :=
  let session_id := extract_session_id session_key hs body in
  if is_none session_id then qps_routing eps stats else ring_get r session_id.

Definition session_route (session_key : string) (eps : list EndpointInfo)
    (stats : gmap string RequestStats) (hs : headers) (body : list (string * json))
    : M ring (option string) := λ r,
  let r := update_hash_ring eps r in
  (Ret (session_or_qps (Some session_key) eps stats hs body r), r).
End Session.

(** [SessionRouter.__init__] *)
Definition session_init {ring : Type} `{!HashRing ring} (session_key : option string)
    : outcome (string * ring) :=
  match session_key with
  | None => Raise ValueError
  | Some k => Ret (k, ring_new)
  end.

(** ** [KvawareRouter] *)
(** [s.split(sep)[0]] and [s.split(sep)[1]] for a non-empty separator. *)
Definition split_first (sep s : string) : string :=
  match String.index 0 sep s with
  | Some n => String.substring 0 n s
  | None => s
  end.

Definition split_second (sep s : string) : option string :=
  match String.index 0 sep s with
  | Some n =>
      let rest := n + String.length sep in
      Some (split_first sep (String.substring rest (String.length s - rest) s))
  | None => None
  end%nat.

(** [url.split(f":{url.split(':')[-1]}")[0].split("//")[1]] *)
Definition query_ip (u : string) : outcome string :=
  let port := default EmptyString (last (split_on ":"%char u)) in
  or_raise IndexError (split_second "//" (split_first (String ":"%char port) u)).

Section Kvaware.
Context {ring : Type} `{!HashRing ring}.
Context {tokenizer : Type}.
(** [AutoTokenizer.from_pretrained], [tokenizer.encode] and the [/tokenize]
    request, with the prompt as the JSON value of the body. *)
Context (from_pretrained : string → outcome tokenizer).
Context (encode : tokenizer → json → outcome (list Z)).
Context (remote_tokenize : string → string → json → outcome (list Z)).
(** The answers of the LMCache controller: to a lookup, the layout as a dict
    from instance id to (location, matched tokens); to an instance query, the
    instance id. *)
Context (lookup_tokens : list Z → outcome (option (list (string * (string * Z))))).
Context (query_instance : string → outcome string).

Record KvawareRouter := mkKv {
  kv_session_key : option string;
  threshold : option Z;
  kv_tokenizer : option tokenizer;
  instance_id_to_ip : list (string * string);
  kv_ring : ring
}.

(** [endpoints[0].model_names[0]] *)
Definition first_model (eps : list EndpointInfo) : outcome string :=
  match eps with
  | e :: _ => or_raise IndexError (head (model_names e))
  | [] => Raise IndexError
  end.

(** The body of the [try]: load the tokenizer if needed, encode. *)
Definition local_tokens (eps : list EndpointInfo) (prompt : json)
    : M KvawareRouter (list Z) := λ s,
  match kv_tokenizer s with
  | Some t => (encode t prompt, s)
  | None =>
      match (m ← first_model eps; from_pretrained m) with
      | Raise e => (Raise e, s)
      | Ret t =>
          (encode t prompt,
           mkKv (kv_session_key s) (threshold s) (Some t) (instance_id_to_ip s) (kv_ring s))
      end
  end.

Definition token_ids (eps : list EndpointInfo) (prompt : json) : M KvawareRouter (list Z) := λ s,
  match local_tokens eps prompt s with
  | (Ret ts, s) => (Ret ts, s)
  | (Raise _, s) =>
      (match eps with
       | [] => Raise IndexError
       | e :: _ => m ← first_model eps; remote_tokenize (url e) m prompt
       end, s)
  end.

(** The condition of the fallback: an empty layout is tested before the
    threshold is looked at; comparing with a missing threshold raises. *)
Definition kv_fallback (layout : list (string * (string * Z))) (ntokens : nat)
    (threshold : option Z) : outcome bool :=
  match layout with
  | [] => Ret true
  | (_, (_, matched_tokens)) :: _ =>
      match threshold with
      | None => Raise TypeError
      | Some th => Ret (Z.ltb matched_tokens (Z.max (Z.of_nat ntokens - th) 0))
      end
  end.

(** The loop over the endpoints that fills [instance_id_to_ip]. *)
Fixpoint learn_instances (eps : list EndpointInfo) : M KvawareRouter unit :=
  match eps with
  | [] => mret tt
  | e :: eps =>
      ip ← lift (query_ip (url e));
      inst ← lift (query_instance ip);
      _ ← modify (λ s, mkKv (kv_session_key s) (threshold s) (kv_tokenizer s)
                         (dset inst (url e) (instance_id_to_ip s)) (kv_ring s));
      learn_instances eps
  end.

Definition kv_route (eps : list EndpointInfo) (stats : gmap string RequestStats)
    (hs : headers) (body : list (string * json)) : M KvawareRouter (option string) :=
  ts ← token_ids eps (dict_get "prompt" (JStr "") body);
  answer ← lift (lookup_tokens ts);
  (* [instance_id.layout_info] on [None] *)
  layout ← lift (or_raise AttributeError answer);
  th ← gets threshold;
  fallback ← lift (kv_fallback layout (length ts) th);
  match fallback, layout with
  | true, _ | _, [] =>
      _ ← modify (λ s, mkKv (kv_session_key s) (threshold s) (kv_tokenizer s)
                         (instance_id_to_ip s) (update_hash_ring eps (kv_ring s)));
      gets (λ s, session_or_qps (kv_session_key s) eps stats hs body (kv_ring s))
  | false, (inst, _) :: _ =>
      known ← gets (λ s, dmem inst (instance_id_to_ip s));
      _ ← (if (known : bool) then mret tt else learn_instances eps);
      ips ← gets instance_id_to_ip;
      lift (match dget inst ips with Some u => Ret (Some u) | None => Raise (KeyError inst) end)
  end.
End Kvaware.

(** ** [PrefixAwareRouter] *)
(** The text parts of a multimodal message, in order. *)
Fixpoint text_parts (parts : list json) : outcome (list json) :=
  match parts with
  | [] => Ret []
  | part :: parts =>
      ty ← jget "type" JNull part;
      if eq_str ty "text" then
        t ← jget "text" (JStr "") part;
        ts ← text_parts parts;
        Ret (t :: ts)
      else text_parts parts
  end.

(** The loop over the messages that fills [prompt_parts]. *)
Fixpoint prompt_parts (messages : list json) : outcome (list json) :=
  match messages with
  | [] => Ret []
  | message :: messages =>
      content ← jget "content" (JStr "") message;
      here ← match content with
             | JArr parts => ts ← text_parts parts; ss ← as_strings ts; Ret [JStr (join " " ss)]
             | JNull => Ret []
             | c => Ret [c]
             end;
      rest ← prompt_parts messages;
      Ret (here ++ rest)
  end.

Definition newline : string := String (Ascii.ascii_of_nat 10) EmptyString.

Definition extract_prompt (body : list (string * json)) : outcome json :=
  match dget "messages" body with
  | Some messages =>
      if truthy messages then
        ms ← jiter messages;
        parts ← prompt_parts ms;
        ss ← as_strings parts;
        Ret (JStr (join newline ss))
      else Ret (JStr "")
  | None => or_raise (KeyError "prompt") (dget "prompt" body)
  end.

(** The characters of the prompt that is hashed: slices of a non-empty list or
    dict are refused by [xxh64], the other values have no length. *)
Definition prompt_chars (prompt : json) : outcome (list Ascii.ascii) :=
  match prompt with
  | JStr s => Ret (String.list_ascii_of_string s)
  | JArr [] | JObj [] => Ret []
  | _ => Raise TypeError
  end.

Section PrefixAware.
Context (hash : list Ascii.ascii → Z) (chunk_size : nat).
(** [random.choice] of a non-empty list *)
Context (choice : gset string → string).

Definition prefix_route (eps : list EndpointInfo) (body : list (string * json))
    : M TrieNode string := λ root,
  match (p ← extract_prompt body; prompt_chars p) with
  | Raise e => (Raise e, root)
  | Ret prompt =>
      match longest_prefix_match hash chunk_size prompt (url_set eps) root with
      | Raise e => (Raise e, root)
      | Ret (_, matched_endpoint) =>
          if decide (matched_endpoint = ∅) then (Raise IndexError, root) else
          let selected := choice matched_endpoint in
          match trie_insert hash chunk_size prompt selected root with
          | (Raise e, root) => (Raise e, root)
          | (Ret _, root) => (Ret selected, root)
          end
      end
  end.
End PrefixAware.

(** ** The controller of [KvawareRouter] *)
(** The future of [kv_manager.start_all()]: under way, or with its outcome. *)
Inductive monitor_task : Type := MonitorRuns | MonitorDone (o : outcome unit).

Record KvController := mkKvController {
  lmcache_cluster_monitor_task : option monitor_task;
  kv_threads : nat                       (* event loops that run in a thread *)
}.

Definition kv_controller : KvController := mkKvController None 0.

Definition start_kv_manager (c : KvController) : KvController := mkKvController (Some MonitorRuns) (S (kv_threads c)).

(** [query_manager]; LMCache answers. *)
Definition query_manager {msg ans : Type} (handle_orchestration_message : msg → ans) (m : msg) : ans :=
  handle_orchestration_message m.

(** Cancelling works on a task that runs; the result of one that is done is its
    outcome. *)
Definition kv_close : M KvController unit := λ c,
  match lmcache_cluster_monitor_task c with
  | None => (Ret tt, c)
  | Some MonitorRuns | Some (MonitorDone (Ret _)) => (Ret tt, mkKvController None (kv_threads c))
  | Some (MonitorDone (Raise e)) => (Raise e, c)
  end.

(** Closing twice is closing once; an exception that ended the controller comes
    out of every [close]; no [close] ends the thread of the event loop. *)
Lemma kv_close_cases c :
  kv_threads (kv_close c).2 = kv_threads c ∧
  match lmcache_cluster_monitor_task c with
  | Some (MonitorDone (Raise e)) => kv_close c = (Raise e, c)
  | _ => (kv_close c).1 = Ret tt ∧ kv_close (kv_close c).2 = (Ret tt, (kv_close c).2)
  end.
Proof. unfold kv_close. by destruct (lmcache_cluster_monitor_task c) as [[|[[]|e]]|] eqn:E; simpl; rewrite ?E. Qed.

(** ** [DisaggregatedPrefillRouter] *)
(** The labels the router is built with: [None], a list, or a plain string. *)
Inductive labels : Type :=
| LNone
| LStr (s : string)
| LList (l : list string).

(** [label in labels]: membership, or the substring test on a string. *)
Definition label_in (label : option string) (ls : labels) : outcome bool :=
  match ls, label with
  | LNone, _ => Raise TypeError
  | LStr s, Some l => Ret (match String.index 0 l s with Some _ => true | None => false end)
  | LStr _, None => Raise TypeError
  | LList l, Some x => Ret (bool_decide (x ∈ l))
  | LList _, None => Ret false
  end.

Fixpoint with_label (ls : labels) (eps : list EndpointInfo) : outcome (list EndpointInfo) :=
  match eps with
  | [] => Ret []
  | e :: eps =>
      b ← label_in (model_label e) ls;
      rest ← with_label ls eps;
      Ret (if (b : bool) then e :: rest else rest)
  end.

Definition disagg_route (prefill_model_labels decode_model_labels : labels)
    (eps : list EndpointInfo) (body : list (string * json)) : outcome string :=
  let is_prefill := eq_int (dict_get "max_tokens" (JInt 0) body) 1 in
  prefillers ← with_label prefill_model_labels eps;
  decoders ← with_label decode_model_labels eps;
  or_raise IndexError (url <$> head (if is_prefill then prefillers else decoders)).

(** ** The registry of router singletons *)
Inductive router_kind : Type := KSession | KRoundRobin | KKvaware | KPrefix | KDisagg.

#[global] Instance router_kind_eq_dec : EqDecision router_kind.
Proof. solve_decision. Defined.

(** The comparison of the configured string with the [RoutingLogic] enum. *)
Definition routing_logic (s : string) : option router_kind :=
  if decide (s = "roundrobin")%string then Some KRoundRobin
  else if decide (s = "session")%string then Some KSession
  else if decide (s = "kvaware")%string then Some KKvaware
  else if decide (s = "prefixaware")%string then Some KPrefix
  else if decide (s = "disaggregated_prefill")%string then Some KDisagg
  else None.

Section Registry.
Context {ring : Type} `{!HashRing ring} {tokenizer : Type}.

Inductive router : Type :=
| RSession (session_key : string) (r : ring)
| RRoundRobin (s : RoundRobinRouter)
| RKvaware (s : @KvawareRouter ring tokenizer)
| RPrefix (root : TrieNode)
| RDisagg (prefill_model_labels decode_model_labels : labels).

(** The keyword arguments the constructors look at; a missing one is [None]. *)
Record router_kwargs := mkKwargs {
  kw_session_key : option string;
  kw_threshold : option Z;
  kw_prefill : labels;
  kw_decode : labels
}.

Definition new_router (k : router_kind) (kw : router_kwargs) : outcome router :=
  match k with
  | KRoundRobin => Ret (RRoundRobin rr_init)
  | KSession => '(key, r) ← session_init (kw_session_key kw); Ret (RSession key r)
  | KKvaware => Ret (RKvaware (mkKv (kw_session_key kw) (kw_threshold kw) None [] ring_new))
  | KPrefix => Ret (RPrefix empty_node)
  | KDisagg => Ret (RDisagg (kw_prefill kw) (kw_decode kw))
  end.

(** Calling a singleton class: the registered instance if there is one. *)
Definition singleton_call (k : router_kind) (kw : router_kwargs)
    : M (list (router_kind * router)) router := λ reg,
  match dget k reg with
  | Some r => (Ret r, reg)
  | None =>
      match new_router k kw with
      | Ret r => (Ret r, dset k r reg)
      | Raise e => (Raise e, reg)
      end
  end.

Definition initialize_routing_logic (logic : string) (kw : router_kwargs)
    : M (list (router_kind * router)) router :=
  match routing_logic logic with
  | Some k => singleton_call k kw
  | None => raise ValueError
  end.

(** The classes in the order in which [get_routing_logic] and
    [cleanup_routing_logic] visit them. *)
Definition router_classes : list router_kind := [KSession; KRoundRobin; KKvaware; KPrefix; KDisagg].

Definition get_routing_logic (reg : list (router_kind * router)) : outcome router :=
  or_raise ValueError (head (omap (λ k, dget k reg) router_classes)).

(** [instance.close()] of a registered instance: only [KvawareRouter] has the
    method; [kv_result] is what [kv_close] of its controller gives. *)
Definition close_router (kv_result : outcome unit) (k : router_kind) : outcome unit :=
  match k with KKvaware => kv_result | _ => Ret tt end.

(** One round of the loop of [cleanup_routing_logic]: an instance is closed
    before it is taken out, so one that cannot be closed stays. *)
Definition cleanup_class (kv_result : outcome unit) (k : router_kind)
    : M (list (router_kind * router)) unit := λ reg,
  if dmem k reg then
    match close_router kv_result k with
    | Ret _ => (Ret tt, ddel k reg)
    | Raise e => (Raise e, reg)
    end
  else (Ret tt, reg).

Fixpoint cleanup_classes (kv_result : outcome unit) (ks : list router_kind)
    : M (list (router_kind * router)) unit :=
  match ks with
  | [] => mret tt
  | k :: ks => _ ← cleanup_class kv_result k; cleanup_classes kv_result ks
  end.

Definition cleanup_routing_logic (kv_result : outcome unit) : M (list (router_kind * router)) unit :=
  cleanup_classes kv_result router_classes.

Definition reconfigure_routing_logic (kv_result : outcome unit) (logic : string) (kw : router_kwargs)
    : M (list (router_kind * router)) router :=
  _ ← cleanup_routing_logic kv_result; initialize_routing_logic logic kw.

(** A kv-aware router that cannot be closed. *)
Definition kv_stuck (kv_result : outcome unit) (reg : list (router_kind * router)) : bool :=
  match kv_result with Ret _ => false | Raise _ => dmem KKvaware reg end.

Lemma cleanup_class_keys kv_result k reg u reg' :
  dict_wf reg → cleanup_class kv_result k reg = (Ret u, reg') →
  dict_wf reg' ∧ ∀ k', k' ∈ dkeys reg' ↔ k' ∈ dkeys reg ∧ k' ≠ k.
Proof.
  intros Hwf. unfold cleanup_class. destruct (dmem k reg) eqn:E.
  - destruct (close_router kv_result k); [|done]. intros [= _ <-]. split; [by apply ddel_wf|].
    intros k'. destruct (decide (k' = k)) as [->|Hne].
    + pose proof (dget_ddel_eq k reg Hwf) as H. apply dget_None in H. tauto.
    + rewrite <- !dget_is_Some, dget_ddel_ne by done. tauto.
  - intros [= _ <-]. apply dmem_false in E. split; [done|]. intros k'. split; [|tauto].
    intros Hk. split; [done|]. by intros ->.
Qed.

Lemma cleanup_classes_keys kv_result ks reg u reg' :
  dict_wf reg → cleanup_classes kv_result ks reg = (Ret u, reg') →
  dict_wf reg' ∧ ∀ k', k' ∈ dkeys reg' → k' ∈ dkeys reg ∧ k' ∉ ks.
Proof.
  revert reg. induction ks as [|k ks IH]; intros reg Hwf; simpl.
  { intros [= _ <-]. split; [done|]. intros k' Hk. split; [done|]. apply not_elem_of_nil. }
  unfold mbind, M_bind. destruct (cleanup_class kv_result k reg) as [[x|] reg1] eqn:E1; [|done].
  intros E. destruct (cleanup_class_keys _ _ _ _ _ Hwf E1) as [Hwf1 H1].
  destruct (IH _ Hwf1 E) as [H2 H3]. split; [done|]. intros k' Hk'. destruct (H3 k' Hk') as [H4 H5].
  apply H1 in H4 as [H6 H7]. split; [done|]. by apply not_elem_of_cons.
Qed.

(** Nothing stays registered unless there is a kv-aware router that cannot be
    closed; then the exception comes out and that router stays. *)
Lemma cleanup_spec kv_result reg :
  dict_wf reg →
  match cleanup_routing_logic kv_result reg with
  | (Ret _, reg') => kv_stuck kv_result reg = false ∧ reg' = []
  | (Raise e, reg') => kv_stuck kv_result reg = true ∧ kv_result = Raise e ∧ dict_wf reg' ∧
      dget KKvaware reg' = dget KKvaware reg
  end.
Proof.
  intros Hwf. destruct (cleanup_routing_logic kv_result reg) as [[u|e] reg'] eqn:E.
  - pose proof (cleanup_classes_keys _ _ _ _ _ Hwf E) as [_ Hk]. split.
    + unfold kv_stuck. destruct kv_result as [|e]; [done|].
      unfold cleanup_routing_logic, router_classes in E. simpl in E. unfold mbind, M_bind in E.
      destruct (cleanup_class _ KSession reg) as [[x|] reg1] eqn:E1; [|done].
      destruct (cleanup_class _ KRoundRobin reg1) as [[y|] reg2] eqn:E2; [|done].
      unfold cleanup_class at 1 in E. destruct (dmem KKvaware reg2) eqn:E3; [done|].
      destruct (cleanup_class_keys _ _ _ _ _ Hwf E1) as [Hwf1 H1].
      destruct (cleanup_class_keys _ _ _ _ _ Hwf1 E2) as [_ H2].
      apply dmem_false in E3. apply dmem_false. rewrite H2, H1 in E3. naive_solver.
    + destruct reg' as [|[k r] reg']; [done|]. exfalso.
      destruct (Hk k) as [_ H]; [left|]. apply H. unfold router_classes. destruct k; set_solver.
  - unfold cleanup_routing_logic, router_classes in E. simpl in E. unfold mbind, M_bind in E.
    assert (∀ k r0, k ≠ KKvaware → ∃ r1, cleanup_class kv_result k r0 = (Ret tt, r1) ∧
              (dict_wf r0 → dict_wf r1) ∧ dget KKvaware r1 = dget KKvaware r0) as Hok.
    { intros k r0 Hne. unfold cleanup_class. destruct (dmem k r0); [|by exists r0].
      exists (ddel k r0). rewrite dget_ddel_ne by done. split; [by destruct k|]. split; [apply ddel_wf|done]. }
    destruct (Hok KSession reg) as (r1 & E1 & W1 & G1); [done|]. rewrite E1 in E.
    destruct (Hok KRoundRobin r1) as (r2 & E2 & W2 & G2); [done|]. rewrite E2 in E.
    destruct (cleanup_class kv_result KKvaware r2) as [[x|e'] r3] eqn:E3.
    + destruct (Hok KPrefix r3) as (r4 & E4 & _); [done|]. rewrite E4 in E.
      destruct (Hok KDisagg r4) as (r5 & E5 & _); [done|]. by rewrite E5 in E.
    + injection E as -> ->. unfold cleanup_class in E3. destruct (dmem KKvaware r2) eqn:Em; [|done].
      simpl in E3. destruct kv_result as [|e']; [done|]. injection E3 as -> ->.
      unfold kv_stuck, dmem in *. rewrite <- G1, <- G2.
      split_and!; auto.
Qed.

Lemma cleanup_empty kv_result reg :
  dict_wf reg → kv_stuck kv_result reg = false → cleanup_routing_logic kv_result reg = (Ret tt, []).
Proof.
  intros Hwf Hs. pose proof (cleanup_spec kv_result reg Hwf) as H.
  destruct (cleanup_routing_logic kv_result reg) as [[[]|e] reg']; [by destruct H as [_ ->]|].
  destruct H as [H _]. congruence.
Qed.
End Registry.

(** ** Lemmas for the properties *)
Lemma rotate_perm {A} n (l : list A) : rotate n l ≡ₚ l.
Proof. unfold rotate. rewrite Permutation_app_comm. by rewrite take_drop. Qed.

Lemma lookup_rotate_mod {A} (l : list A) b i :
  (i < length l)%nat → rotate b l !! i = l !! ((b + i) mod length l)%nat.
Proof.
  intros Hi. rewrite lookup_rotate_r by done. f_equal. unfold rotate_nat_add.
  rewrite <- Nat2Z.inj_add, <- Nat2Z.inj_mod. lia.
Qed.

(** The invariant of round robin when list objects are not confused: the cache
    describes the urls of the previous call. *)
Section Honest.
Context (py_hash : list string → Z).

Definition rr_inv (prev : Z * list EndpointInfo) (s : RoundRobinRouter) : Prop :=
  last_endpoints_id s = Some prev.1 ∧
  last_endpoints_hash s = Some (py_hash (url <$> prev.2)) ∧
  url <$> sorted_endpoints s ≡ₚ url <$> prev.2.

(** Consecutive calls with the same list object have the same urls. *)
Definition id_honest (c c' : Z * list EndpointInfo) : Prop :=
  c.1 = c'.1 → url <$> c.2 = url <$> c'.2.

Definition hash_honest (c c' : Z * list EndpointInfo) : Prop :=
  py_hash (url <$> c.2) = py_hash (url <$> c'.2) → url <$> c.2 = url <$> c'.2.

Lemma rr_refresh_inv prev c s :
  rr_inv prev s → id_honest prev c → hash_honest prev c →
  rr_inv c (rr_refresh py_hash c.1 c.2 s).
Proof.
  unfold rr_inv, id_honest, hash_honest, rr_refresh. intros (H1 & H2 & H3) Hi Hh.
  case_decide as E1; [|case_decide as E2]; simpl.
  - rewrite H1 in E1. simplify_eq. rewrite <- Hi by done. by rewrite E1.
  - rewrite H2 in E2. simplify_eq. rewrite <- Hh by done. done.
  - split_and!; [done|done|]. by rewrite sorted_by_perm.
Qed.

Lemma rr_refresh_init_inv c : rr_inv c (rr_refresh py_hash c.1 c.2 rr_init).
Proof.
  unfold rr_inv, rr_refresh. simpl. split_and!; [done|done|]. by rewrite sorted_by_perm.
Qed.

Lemma rr_route_inv c s :
  rr_inv c (rr_refresh py_hash c.1 c.2 s) → c.2 ≠ [] →
  ∃ u s', rr_route py_hash c.1 c.2 s = (Ret u, s') ∧ rr_inv c s' ∧ u ∈ url <$> c.2.
Proof.
  intros (H1 & H2 & H3) Hne. unfold rr_route.
  set (s1 := rr_refresh py_hash c.1 c.2 s) in *.
  assert (length (sorted_endpoints s1) = length c.2) as Hl.
  { rewrite <- !(length_fmap url), H3. by rewrite length_fmap. }
  destruct (length (sorted_endpoints s1)) as [|n] eqn:El; [by destruct c.2|].
  destruct (lookup_lt_is_Some_2 (sorted_endpoints s1) (req_id s1 mod S n)%nat) as [e He].
  { rewrite El. by apply Nat.mod_upper_bound. }
  rewrite He. eexists _, _. split_and!; [done|done|].
  rewrite <- H3. apply list_elem_of_fmap. exists e. split; [done|].
  by eapply list_elem_of_lookup_2.
Qed.

Lemma rr_run_inv prev calls s :
  rr_inv prev s → (∀ c, c ∈ calls → c.2 ≠ []) →
  (∀ i c c', (prev :: calls) !! i = Some c → (prev :: calls) !! (S i) = Some c' → id_honest c c') →
  (∀ c c', c ∈ prev :: calls → c' ∈ prev :: calls → hash_honest c c') →
  ∃ us s', rr_run py_hash calls s = (Ret us, s') ∧ Forall2 (λ c u, u ∈ url <$> c.2) calls us.
Proof.
  revert prev s. induction calls as [|c calls IH]; intros prev s Hs Hne Hid Hh.
  { eexists [], s. by split. }
  assert (rr_inv c (rr_refresh py_hash c.1 c.2 s)) as Hs1.
  { apply (rr_refresh_inv prev); [done|by apply (Hid 0%nat)|apply Hh; set_solver]. }
  destruct (rr_route_inv c s Hs1) as (u & s' & Hr & Hs' & Hu); [apply Hne; left|].
  destruct (IH c s') as (us & s'' & Hrun & Hall); [done|set_solver| |set_solver|].
  { intros i x x' Hx Hx'. by apply (Hid (S i)). }
  exists (u :: us), s''. destruct c as [oid eps]. simpl in *.
  unfold mbind, M_bind. rewrite Hr, Hrun. split; [done|]. by constructor.
Qed.
End Honest.
