(* ===== verification/RoutingSpec.v ===== *)
(** * What the routers promise

    The correctness theorems of the five routers of [Routing]: fairness and
    membership for round robin, the least-loaded choice, session affinity and
    stability against the laws of the hash ring, the longest-prefix choice, the
    kv-aware decision, the prefill/decode split and the registry. *)
From stdpp Require Import base list strings gmap.
From Stdlib Require Import QArith Ascii.
From S2P Require Import Prelude PyDict PyStr Json Endpoint RequestStats HashTrie HashRing Routing.

(** ** Concrete endpoints for the witnesses *)
Definition ep (u : string) (label : option string) : EndpointInfo :=
  mkEndpointInfo u ["m"%string] u 0 label false None None None [].

Definition ep_a : EndpointInfo := ep "http://a:1" (Some "prefill"%string).
Definition ep_b : EndpointInfo := ep "http://b:1" (Some "decode"%string).
Definition ep_c : EndpointInfo := ep "http://c:1" None.

Definition stat_with (q : Q) : RequestStats := mkRequestStats q 0 0 0 0 0 0 0 0 0.

(** ** Round robin *)
(** C7. Round robin is fair: when a fresh router serves requests over the
    same endpoints, no request fails and any [n] consecutive requests, for [n]
    endpoints, go to each endpoint exactly once. *)
Theorem round_robin_fair (py_hash : list string → Z) eps calls b :
  eps ≠ [] → Forall (λ c, c.2 = eps) calls → (b + length eps <= length calls)%nat →
  ∃ us s', rr_run py_hash calls rr_init = (Ret us, s') ∧ length us = length calls ∧
    take (length eps) (drop b us) ≡ₚ url <$> eps.
Proof.
  intros Hne Hall Hb.
  assert (calls ≠ []) as Hc by (intros ->; destruct eps; simpl in *; [done|lia]).
  destruct (rr_run_fresh py_hash calls eps Hne Hc Hall) as (us & s' & Hrun & Hlen & Hus).
  exists us, s'. split_and!; [done|done|].
  assert (length (sorted_by url eps) = length eps) as Hsl by by rewrite sorted_by_perm.
  replace (take (length eps) (drop b us)) with (rotate b (url <$> sorted_by url eps)).
  - by rewrite rotate_perm, sorted_by_perm.
  - apply list_eq. intros i. destruct (decide (i < length eps)%nat) as [Hi|Hi].
    + rewrite lookup_rotate_mod, list_lookup_fmap, length_fmap, Hsl
        by (by rewrite length_fmap, Hsl).
      rewrite lookup_take_lt, lookup_drop by done. by rewrite Hus by lia.
    + rewrite !lookup_ge_None_2; [done| |].
      * rewrite length_take. lia.
      * rewrite rotate_perm, length_fmap, Hsl. lia.
Qed.

Lemma round_robin_fair_witness :
  ∃ us s', rr_run (λ l, Z.of_nat (length l)) (replicate 4 (7%Z, [ep_b; ep_a])) rr_init = (Ret us, s') ∧
    length us = 4%nat ∧ take 2 (drop 1 us) ≡ₚ ["http://b:1"; "http://a:1"]%string.
Proof.
  apply (round_robin_fair (λ l, Z.of_nat (length l)) [ep_b; ep_a]); [done| |simpl; lia].
  simpl. repeat constructor.
Defined.

(** Round robin only picks endpoints it was given: when consecutive calls
    with the same list object see the same urls and the hash of the url tuple
    does not collide, every request of a run over changing endpoints succeeds
    and goes to one of the endpoints of its own call. *)
Theorem round_robin_member (py_hash : list string → Z) calls :
  (∀ c, c ∈ calls → c.2 ≠ []) →
  (∀ i c c', calls !! i = Some c → calls !! (S i) = Some c' → id_honest c c') →
  (∀ c c', c ∈ calls → c' ∈ calls → hash_honest py_hash c c') →
  ∃ us s', rr_run py_hash calls rr_init = (Ret us, s') ∧
    Forall2 (λ c u, u ∈ url <$> c.2) calls us.
Proof.
  destruct calls as [|c calls]; intros Hne Hid Hh; [by eexists [], _|].
  destruct (rr_route_inv py_hash c rr_init) as (u & s1 & Hr & Hs1 & Hu);
    [apply rr_refresh_init_inv|apply Hne; left|].
  destruct (rr_run_inv py_hash c calls s1 Hs1) as (us & s' & Hrun & Hall);
    [set_solver|done|done|].
  exists (u :: us), s'. destruct c as [oid eps]. simpl in *.
  unfold mbind, M_bind. rewrite Hr, Hrun. split; [done|]. by constructor.
Qed.

Lemma round_robin_member_witness :
  ∃ us s', rr_run (λ l, Z.of_nat (length l)) [(1%Z, [ep_a; ep_b]); (2%Z, [ep_c])] rr_init = (Ret us, s') ∧
    Forall2 (λ c u, u ∈ url <$> c.2) [(1%Z, [ep_a; ep_b]); (2%Z, [ep_c])] us.
Proof.
  apply round_robin_member.
  - intros c. rewrite !elem_of_cons, elem_of_nil. by intros [->|[->|[]]].
  - intros [|[|i]] c c' H1 H2; simpl in *; simplify_eq. unfold id_honest. simpl. lia.
  - intros c c'. rewrite !elem_of_cons, !elem_of_nil. unfold hash_honest.
    by intros [->|[->|[]]] [->|[->|[]]].
Defined.

(** The cache is keyed by the identity of the list object, which Python
    reuses once the previous list is freed: when the second of two requests
    gets its endpoints in a list object with the identity of the first one's,
    it is served from the endpoints of the first request, whatever its own
    endpoints are. *)
Theorem round_robin_stale (py_hash : list string → Z) oid eps eps' :
  eps ≠ [] → eps' ≠ [] →
  ∃ us s', rr_run py_hash [(oid, eps); (oid, eps')] rr_init = (Ret us, s') ∧
    ∀ u, us !! 1%nat = Some u → u ∈ url <$> eps.
Proof.
  intros Hne Hne'.
  destruct (rr_route_for py_hash oid eps rr_init (proj1 (rr_refresh_fresh py_hash oid eps)) Hne)
    as (e & s1 & Hr & Hs1 & Hid & He).
  assert (last_endpoints_id s1 = Some oid) as Hoid.
  { by apply (rr_route_id py_hash oid eps rr_init (url e)). }
  assert (rr_refresh py_hash oid eps' s1 = s1) as Hsame.
  { unfold rr_refresh. by rewrite decide_True. }
  destruct (rr_route_for py_hash oid eps s1) as (e2 & s2 & Hr2 & _ & _ & He2).
  { unfold rr_refresh. by rewrite decide_True. }
  { done. }
  assert (rr_route py_hash oid eps' s1 = rr_route py_hash oid eps s1) as Heq.
  { unfold rr_route. rewrite Hsame. unfold rr_refresh. by rewrite decide_True. }
  exists [url e; url e2], s2. simpl. unfold mbind, M_bind. rewrite Hr, Heq, Hr2.
  split; [done|]. intros u Hu. simplify_eq/=. apply list_elem_of_fmap. exists e2. split; [done|].
  apply list_elem_of_lookup_2 in He2. by rewrite sorted_by_perm in He2.
Qed.

Lemma round_robin_stale_witness :
  ∃ us s', rr_run (λ _, 0%Z) [(1%Z, [ep_a]); (1%Z, [ep_b])] rr_init = (Ret us, s') ∧
    ∀ u, us !! 1%nat = Some u → u ∈ ["http://a:1"%string].
Proof. apply (round_robin_stale (λ _, 0%Z) 1 [ep_a] [ep_b]); done. Defined.

(** ** The least loaded engine *)
(** What the loop of [_qps_routing] returns, from any accumulator. *)
Lemma qps_loop_spec eps (stats : gmap string RequestStats) low ret u :
  qps_loop eps stats low ret = Some u →
  (Some u = ret ∧ ∀ e, e ∈ eps → ∃ st, stats !! url e = Some st ∧
     match low with None => False | Some l => l <= qps st end) ∨
  ∃ pre e post, eps = pre ++ e :: post ∧ url e = u ∧
    (∀ e', e' ∈ pre → is_Some (stats !! url e')) ∧
    match stats !! u with
    | None => True
    | Some st =>
        match low with None => True | Some l => qps st < l end ∧
        (∀ e', e' ∈ pre → ∃ st', stats !! url e' = Some st' ∧ qps st < qps st') ∧
        (∀ e', e' ∈ post → ∃ st', stats !! url e' = Some st' ∧ qps st <= qps st')
    end.
Proof.
  revert low ret. induction eps as [|e eps IH]; intros low ret; simpl.
  { intros ->. left. split; [done|]. set_solver. }
  destruct (stats !! url e) as [st|] eqn:Est.
  2:{ intros ?. simplify_eq. right. exists [], e, eps. rewrite Est. set_solver. }
  destruct (match low with None => true | Some l => Qltb (qps st) l end) eqn:Elt;
    intros [[Hr Hall]|(pre & e1 & post & -> & Hu & Hpre & Hst)]%IH.
  - right. exists [], e, eps. simplify_eq. rewrite Est. split_and!; try done; try set_solver.
    destruct low; [by apply Qltb_lt|done].
  - right. exists (e :: pre), e1, post. split_and!; [done|done|set_solver|].
    destruct (stats !! u) as [st1|]; [|done]. destruct Hst as (H1 & H2 & H3). split_and!.
    + destruct low as [l|]; [|done]. apply Qltb_lt in Elt. by apply Qlt_trans with (qps st).
    + intros e' [->|He']%elem_of_cons; [by eauto|by apply H2].
    + done.
  - left. split; [done|]. intros e' [->|He']%elem_of_cons; [|by apply Hall].
    exists st. split; [done|]. destruct low; [by apply Qltb_ge|done].
  - right. exists (e :: pre), e1, post. split_and!; [done|done|set_solver|].
    destruct (stats !! u) as [st1|]; [|done]. destruct Hst as (H1 & H2 & H3).
    split_and!; [done| |done].
    intros e' [->|He']%elem_of_cons; [|by apply H2]. exists st. split; [done|].
    destruct low as [l|]; [|done]. apply Qltb_ge in Elt. by apply Qlt_le_trans with l.
Qed.

Lemma qps_loop_None eps stats low ret :
  qps_loop eps stats low ret = None → ret = None ∧ (low = None → eps = []).
Proof.
  revert low ret. induction eps as [|e eps IH]; intros low ret; simpl; [done|].
  destruct (stats !! url e) as [st|]; [|done].
  destruct (match low with None => true | Some l => Qltb (qps st) l end) eqn:E.
  - by intros [? _]%IH.
  - intros [-> _]%IH. split; [done|]. by destruct low.
Qed.

(** [_qps_routing] picks the least loaded engine: it returns nothing
    exactly for an empty list; otherwise the first endpoint without statistics
    when there is one (all endpoints before it have statistics), and when every
    endpoint has statistics the first of those with the lowest QPS. *)
Theorem qps_routing_least_loaded eps (stats : gmap string RequestStats) :
  match qps_routing eps stats with
  | None => eps = []
  | Some u => ∃ pre e post, eps = pre ++ e :: post ∧ url e = u ∧
      (∀ e', e' ∈ pre → is_Some (stats !! url e')) ∧
      ∀ st, stats !! u = Some st →
        (∀ e', e' ∈ pre → ∃ st', stats !! url e' = Some st' ∧ qps st < qps st') ∧
        (∀ e', e' ∈ post → ∃ st', stats !! url e' = Some st' ∧ qps st <= qps st')
  end.
Proof.
  unfold qps_routing. destruct (qps_loop eps stats None None) as [u|] eqn:E.
  - apply qps_loop_spec in E as [[? _]|(pre & e & post & -> & Hu & Hpre & Hst)]; [done|].
    exists pre, e, post. split_and!; try done. intros st Est. rewrite Est in Hst. by destruct Hst.
  - apply qps_loop_None in E as [_ E]. by apply E.
Qed.

Lemma qps_routing_member eps stats : eps ≠ [] → ∃ u, qps_routing eps stats = Some u ∧ u ∈ url <$> eps.
Proof.
  unfold qps_routing. intros Hne. destruct (qps_loop eps stats None None) as [u|] eqn:E.
  - exists u. split; [done|]. apply qps_loop_spec in E as [[? _]|(pre & e & post & -> & <- & _)]; [done|].
    apply list_elem_of_fmap. exists e. split; [done|]. set_solver.
  - apply qps_loop_None in E as [_ E]. by destruct Hne; apply E.
Qed.

(** ** Sessions *)
Section SessionProps.
Context {ring : Type} `{!HashRing ring} `{!HashRingLaws ring}.

Lemma url_set_elem eps u : u ∈ url_set eps ↔ u ∈ url <$> eps.
Proof. unfold url_set. by rewrite elem_of_list_to_set. Qed.

Lemma url_set_nonempty eps : eps ≠ [] → url_set eps ≠ ∅.
Proof. destruct eps as [|e eps]; [done|]. unfold url_set. simpl. set_solver. Qed.

Lemma session_or_qps_member key eps stats hs body (r : ring) :
  eps ≠ [] → extract_session_id key hs body = JNull ∨
    (∃ k, extract_session_id key hs body = JStr k) →
  ∃ u, session_or_qps key eps stats hs body (update_hash_ring eps r) = Some u ∧ u ∈ url <$> eps.
Proof.
  intros Hne Hsid. unfold session_or_qps. destruct Hsid as [->|[k ->]]; simpl.
  - by apply qps_routing_member.
  - destruct (ring_get_member (update_hash_ring eps r) k) as (n & Hn & Hin).
    { rewrite update_hash_ring_nodes. by apply url_set_nonempty. }
    exists n. split; [done|]. by rewrite update_hash_ring_nodes, url_set_elem in Hin.
Qed.
End SessionProps.

(** C8. Session affinity: whatever the router served before, and in whatever
    order the endpoints are listed, a request with a session id goes to one of
    the given endpoints, and two requests with the same session id over the
    same set of urls go to the same endpoint. *)
Theorem session_affinity {ring : Type} `{!HashRing ring} `{!HashRingLaws ring}
    key eps eps' stats stats' hs hs' body body' (r r' : ring) k :
  eps ≠ [] → url_set eps = url_set eps' →
  extract_session_id (Some key) hs body = JStr k →
  extract_session_id (Some key) hs' body' = JStr k →
  ∃ u r1 r2, session_route key eps stats hs body r = (Ret (Some u), r1) ∧
    session_route key eps' stats' hs' body' r' = (Ret (Some u), r2) ∧ u ∈ url <$> eps.
Proof.
  intros Hne Heq Hk Hk'. unfold session_route.
  destruct (session_or_qps_member (Some key) eps stats hs body r Hne) as (u & Hu & Hin); [eauto|].
  exists u, (update_hash_ring eps r), (update_hash_ring eps' r'). rewrite Hu. split_and!; [done| |done].
  do 2 f_equal. revert Hu. unfold session_or_qps. rewrite Hk, Hk'. simpl. intros <-.
  apply ring_get_ext. by rewrite !update_hash_ring_nodes.
Qed.

Lemma session_affinity_witness :
  ∃ u (r1 r2 : gset string),
    session_route "x-user-id" [ep_a; ep_b] ∅ [("X-User-Id", "u1")]%string [] ∅ = (Ret (Some u), r1) ∧
    session_route "x-user-id" [ep_b; ep_a] ∅ [] [("x-user-id", JStr "u1")]%string {["http://c:1"%string]}
      = (Ret (Some u), r2) ∧ u ∈ url <$> [ep_a; ep_b].
Proof.
  apply (session_affinity "x-user-id" [ep_a; ep_b] [ep_b; ep_a] ∅ ∅ [("X-User-Id", "u1")]%string []
    [] [("x-user-id", JStr "u1")]%string (∅ : gset string) {["http://c:1"%string]} "u1").
  - done.
  - vm_compute. reflexivity.
  - vm_compute. reflexivity.
  - vm_compute. reflexivity.
Defined.

(** C32. Sessions survive the loss of other engines: after a request was sent
    to [u], a later request of the same session over a subset of the endpoints
    that still has [u] is sent to [u] again. *)
Theorem session_stable_on_shrink {ring : Type} `{!HashRing ring} `{!HashRingLaws ring}
    key eps eps' stats stats' hs hs' body body' (r r1 : ring) k u :
  extract_session_id (Some key) hs body = JStr k →
  extract_session_id (Some key) hs' body' = JStr k →
  session_route key eps stats hs body r = (Ret (Some u), r1) →
  (∀ u', u' ∈ url <$> eps' → u' ∈ url <$> eps) → u ∈ url <$> eps' →
  ∃ r2, session_route key eps' stats' hs' body' r1 = (Ret (Some u), r2).
Proof.
  intros Hk Hk' Hr Hsub Hu. unfold session_route in *. injection Hr as Hr <-.
  eexists. do 2 f_equal. revert Hr. unfold session_or_qps. rewrite Hk, Hk'. simpl.
  apply update_hash_ring_shrink.
  - rewrite update_hash_ring_nodes. intros x. rewrite !url_set_elem. apply Hsub.
  - by apply url_set_elem.
Qed.

Lemma session_stable_on_shrink_witness :
  ∃ r2 : gset string,
    session_route "x-user-id" [ep_a] ∅ [("X-User-Id", "u1")]%string []
      {["http://a:1"%string; "http://b:1"%string]} = (Ret (Some "http://a:1"%string), r2).
Proof.
  apply (session_stable_on_shrink "x-user-id" [ep_a; ep_b] [ep_a] ∅ ∅ [("X-User-Id", "u1")]%string
    [("X-User-Id", "u1")]%string [] [] (∅ : gset string)
    {["http://a:1"%string; "http://b:1"%string]} "u1").
  - reflexivity.
  - reflexivity.
  - vm_compute. reflexivity.
  - intros u'. simpl. set_solver.
  - simpl. set_solver.
Defined.

(** ** Prefix awareness *)
Lemma insert_all_snoc {char : Type} (hash : list char → Z) cs hist r e n n' n'' :
  insert_all hash cs hist n = (Ret tt, n') → trie_insert hash cs r e n' = (Ret tt, n'') →
  insert_all hash cs (hist ++ [(r, e)]) n = (Ret tt, n'').
Proof.
  revert n. induction hist as [|[r0 e0] hist IH]; intros n; simpl.
  - intros [= <-] Hi. unfold mbind, M_bind. by rewrite Hi.
  - unfold mbind, M_bind. destruct (trie_insert hash cs r0 e0 n) as [[[]|ex] n1]; [|done].
    apply IH.
Qed.

Lemma prefix_route_spec (hash : list Ascii.ascii → Z) cs (choice : gset string → string)
    eps body hist root p :
  (0 < cs)%nat → (∀ X, X ≠ ∅ → choice X ∈ X) → eps ≠ [] →
  insert_all hash cs hist empty_node = (Ret tt, root) →
  (v ← extract_prompt body; prompt_chars v) = Ret p →
  ∃ u root' j, prefix_route hash cs choice eps body root = (Ret u, root') ∧ u ∈ url <$> eps ∧
    insert_all hash cs (hist ++ [(p, u)]) empty_node = (Ret tt, root') ∧
    (j = 0%nat ∨ ∃ p', (p', u) ∈ hist ∧ take j (hashes hash cs p) `prefix_of` hashes hash cs p') ∧
    ∀ i, (j < i)%nat → (i <= length (hashes hash cs p))%nat →
      ∀ p' u', u' ∈ url <$> eps → (p', u') ∈ hist →
        ¬ take i (hashes hash cs p) `prefix_of` hashes hash cs p'.
Proof.
  intros Hcs Hchoice Hne Hroot Hp. unfold prefix_route. rewrite Hp.
  destruct (longest_prefix_match_spec hash cs hist p (url_set eps) root Hcs Hroot)
    as (j & sel & Hm & Hj & Hs & Hnz & Hmax). rewrite Hm.
  assert (sel ≠ ∅) as Hsel.
  { destruct (decide (j = 0%nat)) as [->|Hj0]; [|by apply Hnz].
    destruct eps as [|e eps]; [done|]. intros Hemp.
    assert (url e ∈ sel) as He; [|by rewrite Hemp in He; apply not_elem_of_empty in He].
    apply Hs. split; [|by left]. apply url_set_elem. simpl. left. }
  rewrite decide_False by done. specialize (Hchoice sel Hsel). apply Hs in Hchoice as [Hin Hold].
  assert (∃ root', trie_insert hash cs p (choice sel) root = (Ret tt, root')) as [root' Hi].
  { unfold trie_insert, chunk_and_hash. destruct (Nat.eqb_spec cs 0); [lia|]. by eexists. }
  rewrite Hi. exists (choice sel), root', j. split_and!; [done| | |done|].
  - by apply url_set_elem.
  - by eapply insert_all_snoc.
  - intros i H1 H2 p' u' Hu'. apply Hmax; [done|done|]. by apply url_set_elem.
Qed.

(** C9. The prefix-aware router, after any history of served prompts, sends a
    well-formed request to one of its endpoints; that endpoint has served a
    prompt whose chunks start with the first [j] chunks of this one, no other
    endpoint of the request has served one that shares more than [j] chunks,
    and the served prompt is appended to the history. *)
Theorem prefix_route_longest (hash : list Ascii.ascii → Z) cs (choice : gset string → string)
    eps body hist root p :
  (0 < cs)%nat → (∀ X, X ≠ ∅ → choice X ∈ X) → eps ≠ [] →
  insert_all hash cs hist empty_node = (Ret tt, root) →
  (v ← extract_prompt body; prompt_chars v) = Ret p →
  ∃ u root' j, prefix_route hash cs choice eps body root = (Ret u, root') ∧ u ∈ url <$> eps ∧
    insert_all hash cs (hist ++ [(p, u)]) empty_node = (Ret tt, root') ∧
    (j = 0%nat ∨ ∃ p', (p', u) ∈ hist ∧ take j (hashes hash cs p) `prefix_of` hashes hash cs p') ∧
    ∀ i, (j < i)%nat → (i <= length (hashes hash cs p))%nat →
      ∀ p' u', u' ∈ url <$> eps → (p', u') ∈ hist →
        ¬ take i (hashes hash cs p) `prefix_of` hashes hash cs p'.
Proof. apply prefix_route_spec. Qed.

(** A choice function: the first element. *)
Definition first_of (X : gset string) : string := default EmptyString (head (elements X)).

Lemma first_of_elem X : X ≠ ∅ → first_of X ∈ X.
Proof.
  intros Hne. unfold first_of. destruct (elements X) as [|x l] eqn:E; simpl.
  - apply elements_empty_iff in E. set_solver.
  - apply elem_of_elements. rewrite E. left.
Qed.

Definition ascii_hash (c : list Ascii.ascii) : Z :=
  foldl (λ a x, a * 257 + Z.of_nat (nat_of_ascii x))%Z 1%Z c.

Lemma prefix_route_longest_witness :
  ∃ u root' j, prefix_route ascii_hash 2 first_of [ep_a; ep_b] [("prompt", JStr "hello")]%string
      (insert_all ascii_hash 2 [(String.list_ascii_of_string "help", "http://b:1")]%string empty_node).2
      = (Ret u, root') ∧ u ∈ url <$> [ep_a; ep_b] ∧ (j <= 3)%nat.
Proof.
  destruct (prefix_route_longest ascii_hash 2 first_of [ep_a; ep_b] [("prompt", JStr "hello")]%string
    [(String.list_ascii_of_string "help", "http://b:1")]%string
    (insert_all ascii_hash 2 [(String.list_ascii_of_string "help", "http://b:1")]%string empty_node).2
    (String.list_ascii_of_string "hello")) as (u & root' & j & H1 & H2 & _).
  - lia.
  - exact first_of_elem.
  - done.
  - vm_compute. reflexivity.
  - vm_compute. reflexivity.
  - exists u, root', 0%nat. split_and!; [exact H1|exact H2|lia].
Defined.

(** ** Kv awareness *)
Section KvProps.
Context {ring : Type} `{!HashRing ring} `{!HashRingLaws ring}.
Context {tokenizer : Type}.
Context (from_pretrained : string → outcome tokenizer).
Context (encode : tokenizer → json → outcome (list Z)).
Context (remote_tokenize : string → string → json → outcome (list Z)).
Context (lookup_tokens : list Z → outcome (option (list (string * (string * Z))))).
Context (query_instance : string → outcome string).

Local Abbreviation kv := (kv_route from_pretrained encode remote_tokenize lookup_tokens query_instance).
Local Abbreviation tokens eps body s :=
  (token_ids from_pretrained encode remote_tokenize eps (dict_get "prompt" (JStr "") body) s).

Lemma kv_route_known eps stats hs body s s1 ts th inst loc m layout u :
  tokens eps body s = (Ret ts, s1) → lookup_tokens ts = Ret (Some ((inst, (loc, m)) :: layout)) →
  threshold s1 = Some th → (Z.max (Z.of_nat (length ts) - th) 0 <= m)%Z →
  dget inst (instance_id_to_ip s1) = Some u →
  kv eps stats hs body s = (Ret (Some u), s1).
Proof.
  intros Ht Hl Hth Hm Hu. unfold kv_route, mbind, M_bind, lift, gets.
  rewrite Ht, Hl. simpl. rewrite Hth. simpl.
  destruct (Z.ltb_spec m (Z.max (Z.of_nat (length ts) - th) 0)); [lia|].
  assert (dmem inst (instance_id_to_ip s1) = true) as ->.
  { apply dmem_true, dget_is_Some. by eexists. }
  simpl. by rewrite Hu.
Qed.

Lemma kv_route_fallback eps stats hs body s s1 ts layout :
  tokens eps body s = (Ret ts, s1) → lookup_tokens ts = Ret (Some layout) →
  match layout with
  | [] => True
  | (_, (_, m)) :: _ => ∃ th, threshold s1 = Some th ∧ (m < Z.max (Z.of_nat (length ts) - th) 0)%Z
  end →
  ∃ s2, kv eps stats hs body s =
    (Ret (session_or_qps (kv_session_key s1) eps stats hs body (update_hash_ring eps (kv_ring s1))), s2).
Proof.
  intros Ht Hl Hc. unfold kv_route, mbind, M_bind, lift, gets, modify. rewrite Ht, Hl. simpl.
  destruct layout as [|[inst [loc m]] layout]; simpl; [by eexists|].
  destruct Hc as (th & -> & Hm). simpl. apply Z.ltb_lt in Hm. rewrite Hm. by eexists.
Qed.
(** What the endpoints answer when they are asked for their instance, with their
    urls; the first failure ends the loop. *)
Fixpoint instances (eps : list EndpointInfo) : outcome (list (string * string)) :=
  match eps with
  | [] => Ret []
  | e :: eps =>
      ip ← query_ip (url e); i ← query_instance ip; l ← instances eps; Ret ((i, url e) :: l)
  end.

Lemma learn_instances_spec eps (s : @KvawareRouter ring tokenizer) :
  ∃ s2, match instances eps with
        | Ret l => learn_instances query_instance eps s = (Ret tt, s2) ∧
                   instance_id_to_ip s2 = dupdate l (instance_id_to_ip s)
        | Raise e => learn_instances query_instance eps s = (Raise e, s2)
        end.
Proof.
  revert s. induction eps as [|e eps IH]; intros s; [by exists s|]. cbn [instances learn_instances].
  unfold mbind, M_bind, outcome_bind, lift, modify. destruct (query_ip (url e)) as [ip|x]; [|by exists s].
  destruct (query_instance ip) as [i|x]; [|by exists s].
  match goal with |- context [learn_instances query_instance eps ?s'] => destruct (IH s') as [s2 Hs2] end.
  exists s2. by destruct (instances eps).
Qed.

Lemma instances_urls eps l i u : instances eps = Ret l → (i, u) ∈ l → u ∈ url <$> eps.
Proof.
  revert l. induction eps as [|e eps IH]; intros l; cbn [instances]; [intros [= <-] H; by apply elem_of_nil in H|].
  unfold mbind, outcome_bind. destruct (query_ip (url e)) as [ip|]; [|done]. destruct (query_instance ip); [|done].
  destruct (instances eps) as [l'|]; [|done]. intros [= <-] [[= _ ->]|Hin]%elem_of_cons; [by left|right]. by eapply IH.
Qed.

Lemma kv_route_unknown eps stats hs body s s1 ts th inst loc m layout :
  tokens eps body s = (Ret ts, s1) → lookup_tokens ts = Ret (Some ((inst, (loc, m)) :: layout)) →
  threshold s1 = Some th → (Z.max (Z.of_nat (length ts) - th) 0 <= m)%Z →
  dget inst (instance_id_to_ip s1) = None →
  ∃ s2, match instances eps with
        | Raise x => kv eps stats hs body s = (Raise x, s2)
        | Ret l => kv eps stats hs body s =
                     (match dget inst (reverse l) with Some u => Ret (Some u) | None => Raise (KeyError inst) end, s2) ∧
                   instance_id_to_ip s2 = dupdate l (instance_id_to_ip s1)
        end.
Proof.
  intros Ht Hl Hth Hm Hu. unfold kv_route, mbind, M_bind, lift, gets.
  rewrite Ht, Hl. simpl. rewrite Hth. simpl.
  destruct (Z.ltb_spec m (Z.max (Z.of_nat (length ts) - th) 0)); [lia|].
  assert (dmem inst (instance_id_to_ip s1) = false) as -> by by unfold dmem; rewrite Hu.
  destruct (learn_instances_spec eps s1) as [s2 Hs2]. exists s2. destruct (instances eps) as [l|x].
  - destruct Hs2 as [-> Hi]. split; [|done]. rewrite Hi, dget_dupdate_rev, Hu. by destruct (dget inst (reverse l)).
  - by rewrite Hs2.
Qed.
End KvProps.

(** C31. The kv-aware decision: when the first instance of the looked up layout
    matches at least [tokens - threshold] tokens, the request goes to the engine
    known for that instance, whether or not it is among the request's endpoints;
    if none is known, all endpoints are asked for their instances, which are
    remembered, and the request goes to the last endpoint that has it, or ends in
    a [KeyError] if none has it and in the exception of the first query that
    fails.  When the layout is empty or matches fewer tokens, the request goes to
    one of its endpoints, by session id or by load. *)
Theorem kv_route_decides {ring tokenizer : Type} `{!HashRing ring} `{!HashRingLaws ring}
    (from_pretrained : string → outcome tokenizer) encode remote_tokenize lookup_tokens
    query_instance eps stats hs body (s s1 : @KvawareRouter ring tokenizer) ts th layout :
  eps ≠ [] →
  token_ids from_pretrained encode remote_tokenize eps (dict_get "prompt" (JStr "") body) s = (Ret ts, s1) →
  lookup_tokens ts = Ret (Some layout) → threshold s1 = Some th →
  extract_session_id (kv_session_key s1) hs body = JNull ∨
    (∃ k, extract_session_id (kv_session_key s1) hs body = JStr k) →
  match layout with
  | (inst, (_, m)) :: _ =>
      if decide (Z.max (Z.of_nat (length ts) - th) 0 <= m)%Z then
        match dget inst (instance_id_to_ip s1) with
        | Some u => kv_route from_pretrained encode remote_tokenize lookup_tokens query_instance
                      eps stats hs body s = (Ret (Some u), s1)
        | None =>
            ∃ r s2, kv_route from_pretrained encode remote_tokenize lookup_tokens query_instance
                      eps stats hs body s = (r, s2) ∧
              match instances query_instance eps with
              | Raise x => r = Raise x
              | Ret l => instance_id_to_ip s2 = dupdate l (instance_id_to_ip s1) ∧
                         match dget inst (reverse l) with
                         | Some u => r = Ret (Some u) ∧ u ∈ url <$> eps
                         | None => r = Raise (KeyError inst)
                         end
              end
        end
      else ∃ u s2, kv_route from_pretrained encode remote_tokenize lookup_tokens query_instance
            eps stats hs body s = (Ret (Some u), s2) ∧ u ∈ url <$> eps
  | [] => ∃ u s2, kv_route from_pretrained encode remote_tokenize lookup_tokens query_instance
            eps stats hs body s = (Ret (Some u), s2) ∧ u ∈ url <$> eps
  end.
Proof.
  intros Hne Ht Hl Hth Hsid.
  destruct (session_or_qps_member (kv_session_key s1) eps stats hs body (kv_ring s1) Hne Hsid)
    as (u & Hu & Hin).
  destruct layout as [|[inst [loc m]] layout]; [|case_decide as Hm].
  - destruct (kv_route_fallback from_pretrained encode remote_tokenize lookup_tokens
      query_instance eps stats hs body s s1 ts [] Ht Hl I) as [s2 Hs2].
    exists u, s2. by rewrite Hs2, Hu.
  - destruct (dget inst (instance_id_to_ip s1)) as [u'|] eqn:Hi; [by eapply kv_route_known|].
    destruct (kv_route_unknown from_pretrained encode remote_tokenize lookup_tokens query_instance
      eps stats hs body s s1 ts th inst loc m layout Ht Hl Hth Hm Hi) as [s2 Hs2].
    destruct (instances query_instance eps) as [l|x] eqn:El; [|by exists (Raise x), s2].
    destruct Hs2 as [Hr Hs2]. eexists _, s2. split; [exact Hr|]. split; [done|].
    destruct (dget inst (reverse l)) as [u'|] eqn:Eu; [|done]. split; [done|].
    apply (instances_urls query_instance eps l inst u' El). apply dget_elem in Eu. by rewrite elem_of_reverse in Eu.
  - destruct (kv_route_fallback from_pretrained encode remote_tokenize lookup_tokens
      query_instance eps stats hs body s s1 ts _ Ht Hl) as [s2 Hs2];
      [simpl; exists th; split; [done|lia]|].
    exists u, s2. by rewrite Hs2, Hu.
Qed.

Lemma kv_route_decides_witness :
  ∃ u s2, kv_route (ring:=gset string) (λ _, Ret tt) (λ _ _, Ret [1; 2; 3]%Z) (λ _ _ _, Raise RuntimeError)
      (λ _, Ret (Some [])) (λ _, Ret "i"%string) [ep_a] ∅ [] [] (mkKv None (Some 1%Z) None [] ∅)
    = (Ret (Some u), s2) ∧ u ∈ url <$> [ep_a].
Proof.
  apply (kv_route_decides (ring:=gset string) (λ _, Ret tt) (λ _ _, Ret [1; 2; 3]%Z)
    (λ _ _ _, Raise RuntimeError) (λ _, Ret (Some [])) (λ _, Ret "i"%string) [ep_a] ∅ [] []
    (mkKv None (Some 1%Z) None [] ∅) (mkKv None (Some 1%Z) (Some tt) [] ∅) [1; 2; 3]%Z 1%Z []);
    try reflexivity; [done|by left].
Defined.

(** The [None] test of the lookup answer comes after the answer is used. *)
Lemma kv_route_none_answer {ring tokenizer : Type} `{!HashRing ring}
    (from_pretrained : string → outcome tokenizer) encode remote_tokenize lookup_tokens
    query_instance eps stats hs body (s s1 : @KvawareRouter ring tokenizer) ts :
  token_ids from_pretrained encode remote_tokenize eps (dict_get "prompt" (JStr "") body) s = (Ret ts, s1) →
  lookup_tokens ts = Ret None →
  kv_route from_pretrained encode remote_tokenize lookup_tokens query_instance
    eps stats hs body s = (Raise AttributeError, s1).
Proof. intros Ht Hl. unfold kv_route, mbind, M_bind, lift. by rewrite Ht, Hl. Qed.

(** ** Disaggregated prefill *)
Definition has_label (l : list string) (e : EndpointInfo) : Prop :=
  match model_label e with Some x => x ∈ l | None => False end.

#[global] Instance has_label_dec l e : Decision (has_label l e).
Proof. unfold has_label. destruct (model_label e); apply _. Defined.

Lemma with_label_list l eps : with_label (LList l) eps = Ret (filter (has_label l) eps).
Proof.
  induction eps as [|e eps IH]; [done|]. cbn [with_label]. rewrite IH, filter_cons.
  assert (label_in (model_label e) (LList l) = Ret (bool_decide (has_label l e))) as ->.
  { unfold label_in. destruct (model_label e) eqn:El.
    - f_equal. apply bool_decide_ext. unfold has_label. by rewrite El.
    - f_equal. symmetry. apply bool_decide_false. unfold has_label. rewrite El. naive_solver. }
  unfold mbind, outcome_bind. case_decide as Hl.
  - by rewrite bool_decide_true.
  - by rewrite bool_decide_false.
Qed.

Lemma head_filter_first {A} (P : A → Prop) `{∀ x, Decision (P x)} (l : list A) :
  match head (filter P l) with
  | Some x => ∃ pre post, l = pre ++ x :: post ∧ P x ∧ Forall (λ y, ¬ P y) pre
  | None => Forall (λ y, ¬ P y) l
  end.
Proof.
  induction l as [|a l IH]; simpl; [constructor|]. rewrite filter_cons. case_decide as Ha; simpl.
  - by exists [], l.
  - destruct (head (filter P l)) as [x|]; [|by constructor].
    destruct IH as (pre & post & -> & Hx & Hpre). exists (a :: pre), post.
    split_and!; [done|done|]. by constructor.
Qed.

(** Disaggregated prefill with lists of labels: a request with
    [max_tokens] equal to one goes to the first endpoint that carries a prefill
    label, any other request to the first one with a decode label, and the
    router raises an index error exactly when there is none. *)
Theorem disagg_route_by_label pl dl eps body :
  let wanted := if eq_int (dict_get "max_tokens" (JInt 0) body) 1 then pl else dl in
  match disagg_route (LList pl) (LList dl) eps body with
  | Ret u => ∃ pre e post, eps = pre ++ e :: post ∧ url e = u ∧ has_label wanted e ∧
      Forall (λ y, ¬ has_label wanted y) pre
  | Raise ex => ex = IndexError ∧ Forall (λ y, ¬ has_label wanted y) eps
  end.
Proof.
  unfold disagg_route. rewrite !with_label_list. unfold mbind, outcome_bind.
  set (b := eq_int _ _). cbv zeta.
  pose proof (head_filter_first (has_label (if b then pl else dl)) eps) as H.
  destruct b; (destruct (head (filter _ eps)) as [e|]; simpl;
    [destruct H as (pre & post & ? & ? & ?); by exists pre, e, post|by split]).
Qed.

(** Labels given as one comma-separated string match by substring. *)
Example disagg_route_string_labels :
  disagg_route (LStr "prefill,warm") (LStr "decode") [ep "http://x:1" (Some "fill,w"%string); ep_a]
    [("max_tokens", JInt 1)]%string = Ret "http://x:1"%string.
Proof. reflexivity. Qed.

(** ** The registry *)
(** Reconfiguring installs a fresh router of the configured kind and
    nothing else, whatever was registered before, unless that holds a kv-aware
    router that cannot be closed; an unknown kind or a session router without a
    session key is refused and leaves no router registered. *)
Theorem reconfigure_installs {ring tokenizer : Type} `{!HashRing ring} kv_result logic kw
    (reg : list (router_kind * @router ring tokenizer)) :
  dict_wf reg → kv_stuck kv_result reg = false →
  match routing_logic logic with
  | None => reconfigure_routing_logic kv_result logic kw reg = (Raise ValueError, [])
  | Some k =>
      match new_router k kw with
      | Ret r => reconfigure_routing_logic kv_result logic kw reg = (Ret r, [(k, r)]) ∧
          get_routing_logic [(k, r)] = Ret r
      | Raise e => k = KSession ∧ kw_session_key kw = None ∧ e = ValueError ∧
          reconfigure_routing_logic kv_result logic kw reg = (Raise e, []) ∧
          get_routing_logic (tokenizer:=tokenizer) (ring:=ring) [] = Raise ValueError
      end
  end.
Proof.
  intros Hwf Hs. unfold reconfigure_routing_logic, initialize_routing_logic, mbind, M_bind.
  rewrite cleanup_empty by done. destruct (routing_logic logic) as [k|]; [|done].
  unfold singleton_call. simpl.
  destruct k; simpl; try (split; [done|]; done).
  unfold session_init. destruct (kw_session_key kw); simpl; done.
Qed.

Lemma reconfigure_installs_witness :
  reconfigure_routing_logic (ring:=gset string) (tokenizer:=unit) (Ret tt) "session"
    (mkKwargs (Some "x"%string) None LNone LNone) [(KPrefix, RPrefix empty_node)]
  = (Ret (RSession "x" ∅), [(KSession, RSession "x" ∅)]).
Proof.
  refine (proj1 (reconfigure_installs (ring:=gset string) (tokenizer:=unit) (Ret tt) "session"
    (mkKwargs (Some "x"%string) None LNone LNone) [(KPrefix, RPrefix empty_node)] _ eq_refl)).
  unfold dict_wf, dkeys. simpl. apply NoDup_singleton.
Defined.
