(* ===== verification/Utils.v ===== *)
(** * Helpers of the router: [utils.py] and [parsers/yaml_utils.py]

    Model types with their test requests, URL validation, the parsers of the
    comma-separated options, the health check of a model, the file limit, and
    the functions that turn a YAML configuration into those options. *)
From stdpp Require Import base list strings gmap pretty.
From Stdlib Require Import Ascii QArith.
From S2P Require Import Prelude PyDict PyStr Json Regex.
Local Open Scope Z_scope.

(** ** [ModelType] *)
Inductive ModelType : Type :=
| chat | completion | embeddings | rerank | score | transcription | vision.

Definition all_model_types : list ModelType :=
  [chat; completion; embeddings; rerank; score; transcription; vision].

Definition model_type_name (t : ModelType) : string :=
  match t with
  | chat => "chat" | completion => "completion" | embeddings => "embeddings"
  | rerank => "rerank" | score => "score" | transcription => "transcription"
  | vision => "vision"
  end.

(** [ModelType[name]] *)
Definition model_type (name : string) : outcome ModelType :=
  or_raise (KeyError name)
    (head (filter (λ t, model_type_name t = name) all_model_types)).

Definition get_url (name : string) : outcome string :=
  t ← model_type name;
  Ret (match t with
       | chat | vision => "/v1/chat/completions"
       | completion => "/v1/completions"
       | embeddings => "/v1/embeddings"
       | rerank => "/v1/rerank"
       | score => "/v1/score"
       | transcription => "/v1/audio/transcriptions"
       end%string).

(** Little-endian bytes. *)
Fixpoint le_bytes (n : nat) (v : Z) : list Z :=
  match n with O => [] | S n => v mod 256 :: le_bytes n (v / 256) end.

Definition ascii_bytes (s : string) : list Z :=
  (λ a, Z.of_nat (nat_of_ascii a)) <$> String.list_ascii_of_string s.

(** [_SILENT_WAV_BYTES]: the file [wave] writes for 1600 frames of one 16-bit
    channel at 16 kHz. *)
Definition silent_wav : list Z :=
  let data := replicate 3200 0 in
  let data_size := Z.of_nat (length data) in
  ascii_bytes "RIFF" ++ le_bytes 4 (36 + data_size) ++ ascii_bytes "WAVE" ++
  ascii_bytes "fmt " ++ le_bytes 4 16 ++ le_bytes 2 1 ++ le_bytes 2 1 ++ le_bytes 4 16000 ++
  le_bytes 4 (16000 * 2) ++ le_bytes 2 2 ++ le_bytes 2 16 ++
  ascii_bytes "data" ++ le_bytes 4 data_size ++ data.

(** A JSON body, or a file of a multipart form. *)
Inductive payload : Type :=
| PJson (d : list (string * json))
| PFile (name : string) (content : list Z) (mime : string).

Definition user_message (content : json) : json :=
  JArr [JObj [("role", JStr "user"); ("content", content)]%string].

Definition get_test_payload (name : string) : outcome payload :=
  t ← model_type name;
  Ret (match t with
       | chat => PJson [("messages", user_message (JStr "Hello")); ("temperature", JFloat 0);
                        ("max_tokens", JInt 3)]
       | completion => PJson [("prompt", JStr "Hello"); ("max_tokens", JInt 3)]
       | embeddings => PJson [("input", JStr "Hello")]
       | rerank => PJson [("query", JStr "Hello"); ("documents", JArr [JStr "Test"])]
       | score => PJson [("encoding_format", JStr "float"); ("text_1", JStr "Test");
                         ("test_2", JStr "Test2")]
       | transcription => PFile "empty.wav" silent_wav "audio/wav"
       | vision => PJson [("messages", user_message (JArr [
           JObj [("type", JStr "text"); ("text", JStr "This is a test. Just reply with yes")];
           JObj [("type", JStr "image_url"); ("image_url", JObj [("url", JStr
             "data:image/jpeg;base64,iVBORw0KGgoAAAANSUhEUgAAAAIAAAACCAIAAAD91JpzAAAAG0lEQVR4nGLinfJq851wJn69udZSvIAAAAD//yf3BLKCfW8HAAAAAElFTkSuQmCC")])]]))]
       end%string).

Definition get_all_fields : list string := model_type_name <$> all_model_types.

(** ** [validate_url] *)
Definition scheme_re : regex := RAlt (RLit "http") (RLit "https").
Definition domain_char (a : ascii) : bool :=
  is_alnum a || Ascii.eqb a "_" || Ascii.eqb a "-".
Definition domain_re : regex :=
  RCat (RPlus (RCat (RPlus (RChr domain_char)) (RLit "."))) (RAtLeast 2 (RChr is_alpha)).
Definition octet_re : regex := RBetween 1 3 (RChr is_digit).
Definition ipv4_re : regex := RCat octet_re (RRep 3 (RCat (RLit ".") octet_re)).
Definition host_re : regex := RAlt domain_re (RAlt (RLit "localhost") ipv4_re).
Definition port_re : regex := ROpt (RCat (RLit ":") (RPlus (RChr is_digit))).
Definition path_re : regex := ROpt (RCat (RLit "/") (RStar (RChr dot))).

(** [$] also matches before a final newline. *)
Definition url_re : regex :=
  RCat scheme_re (RCat (RLit "://") (RCat host_re (RCat port_re (RCat path_re
    (ROpt (RChr is_newline)))))).

Definition validate_url (u : string) : bool := rmatch url_re (String.list_ascii_of_string u).

(** ** The comma-separated options *)
Definition parse_static_urls (static_backends : string) : list string :=
  filter (λ u, validate_url u = true) (split_on "," static_backends).

Definition parse_comma_separated_args (s : option string) : option (list string) :=
  split_on "," <$> s.

(** The loop over the pieces; unpacking anything but two parts raises. *)
Fixpoint aliases_loop (pieces : list string) (aliases : list (string * string))
    : outcome (list (string * string)) :=
  match pieces with
  | [] => Ret aliases
  | alias_and_model :: pieces =>
      match split_on ":" alias_and_model with
      | [alias; model] => aliases_loop pieces (dset alias model aliases)
      | _ => Raise ValueError
      end
  end.

Definition parse_static_aliases (static_aliases : string) : outcome (list (string * string)) :=
  aliases_loop (split_on "," static_aliases) [].

(** ** Rewriting a request *)
(** [headers[key] = value] on a [MutableHeaders], whose names are in lower case:
    the first header of that name gets the value, later ones are removed, and it
    is appended when there is none. *)
Fixpoint set_header_loop (key value : string) (found : bool) (hs : list (string * string))
    : list (string * string) :=
  match hs with
  | [] => if found then [] else [(lower key, value)]
  | (k, v) :: hs =>
      if decide (k = lower key) then
        if found then set_header_loop key value found hs
        else (lower key, value) :: set_header_loop key value true hs
      else (k, v) :: set_header_loop key value found hs
  end.

Definition update_content_length (hs : list (string * string)) (request_body : string)
    : list (string * string) :=
  set_header_loop "Content-Length" (pretty (String.length request_body)) false
    (prod_map lower id <$> hs).

(** ** [set_ulimit] *)
(** The soft and the hard limit; [-1] is [RLIM_INFINITY].  The kernel refuses a
    soft limit above the hard one. *)
Definition setrlimit (soft hard : Z) : outcome (Z * Z) :=
  if (hard =? -1) || ((0 <=? soft) && (soft <=? hard)) then Ret (soft, hard)
  else Raise ValueError.

Definition set_ulimit (target_soft_limit : Z) (limits : Z * Z) : Z * Z :=
  let '(current_soft, current_hard) := limits in
  if current_soft <? target_soft_limit then
    match setrlimit target_soft_limit current_hard with
    | Ret limits' => limits'
    | Raise _ => limits
    end
  else limits.

(** ** [is_model_healthy] *)
Section Health.
(** [requests.post]: the answer's status and body, or an exception. *)
Context (post : string → string → payload → outcome (Z * string)).
(** whether [response.json()] accepts the body *)
Context (json_ok : string → bool).

(** The body of the [try]. *)
Definition probe (u model_url model name : string) : outcome bool :=
  p ← get_test_payload name;
  '(status, body) ← post (u +:+ model_url) model p;
  if (400 <=? status) && (status <? 600) then Raise RequestException
  else if decide (name = "transcription"%string) then Ret true
  else if json_ok body then Ret true
  else Raise RequestException.

Definition is_model_healthy (u model name : string) : outcome bool :=
  model_url ← get_url name;
  match probe u model_url model name with
  | Raise RequestException => Ret false
  | o => o
  end.
End Health.

(** ** [parsers/yaml_utils.py] *)
(** [models.items()] *)
Definition jitems (v : json) : outcome (list (string * json)) :=
  match v with JObj d => Ret d | _ => Raise AttributeError end.

(** The loops over the models that fill a list: [step] is the contribution of
    one model. *)
Fixpoint extend_loop (step : string → json → outcome (list json)) (items : list (string * json))
    : outcome (list json) :=
  match items with
  | [] => Ret []
  | (name, details) :: items =>
      here ← step name details; rest ← extend_loop step items; Ret (here ++ rest)
  end.

Definition backends_of (name : string) (details : json) : outcome (list json) :=
  b ← jin "static_backends" details;
  if (b : bool) then v ← jitem "static_backends" details; jiter v else Ret [].

Definition models_of (name : string) (details : json) : outcome (list json) :=
  b ← jin "static_backends" details;
  if (b : bool) then
    v ← jitem "static_backends" details; n ← jlen v; Ret (replicate n (JStr name))
  else Ret [].

Definition model_types_of (name : string) (details : json) : outcome (list json) :=
  t ← jin "static_model_type" details;
  if negb t then Ret [] else
  b ← jin "static_backends" details;
  if (b : bool) then
    ty ← jitem "static_model_type" details;
    v ← jitem "static_backends" details; n ← jlen v; Ret (replicate n ty)
  else Ret [].

(** [",".join] of the collected list. *)
Definition generate (step : string → json → outcome (list json)) (models : json) : outcome string :=
  items ← jitems models;
  l ← extend_loop step items;
  ss ← as_strings l;
  Ret (join "," ss).

Definition generate_static_backends : json → outcome string := generate backends_of.
Definition generate_static_models : json → outcome string := generate models_of.
Definition generate_static_model_types : json → outcome string := generate model_types_of.

Section Yaml.
(** [str] of a value that is not a string, and [yaml.safe_load]. *)
Context (py_str : json → string) (safe_load : string → outcome json).

Definition fstr (v : json) : string := match v with JStr s => s | _ => py_str v end.

Definition generate_static_aliases (aliases : json) : outcome string :=
  items ← jitems aliases;
  Ret (join "," ((λ '(alias, model), alias +:+ ":" +:+ fstr model) <$> items)).

(** [read_and_process_yaml_config_file] on the text of the file. *)
Definition read_and_process_yaml_config_file (text : string) : outcome (list (string * json)) :=
  v ← safe_load text;
  if negb (truthy v) then Ret [] else
  match v with
  | JObj config =>
      let models := dict_get "static_models" JNull config in
      let aliases := dict_get "static_aliases" JNull config in
      let config := ddel "static_aliases" (ddel "static_models" config) in
      config ← (if truthy models then
                  b ← generate_static_backends models;
                  ms ← generate_static_models models;
                  ts ← generate_static_model_types models;
                  Ret (dset "static_model_types" (JStr ts)
                        (dset "static_models" (JStr ms) (dset "static_backends" (JStr b) config)))
                else Ret config);
      if truthy aliases then
        a ← generate_static_aliases aliases; Ret (dset "static_aliases" (JStr a) config)
      else Ret config
  | JArr _ => Raise TypeError
  | _ => Raise AttributeError
  end.
End Yaml.

(** ** Lemmas *)
Definition chars (s : string) : list ascii := String.list_ascii_of_string s.

(** The loop of [parse_static_aliases] on pieces that were printed. *)
Lemma aliases_loop_printed (l acc : list (string * string)) :
  Forall (λ am, no_char ":" am.1 ∧ no_char ":" am.2) l →
  aliases_loop ((λ '(a, m), a +:+ ":" +:+ m) <$> l) acc = Ret (dupdate l acc).
Proof.
  revert acc. induction l as [|[a m] l IH]; intros acc Hl; [done|].
  apply Forall_cons in Hl as [[Ha Hm] Hl]. csimpl.
  change (a +:+ ":" +:+ m) with (a +:+ String ":" m).
  rewrite (split_on_app ":" a m Ha), (split_on_no_char ":" m Hm). by apply IH.
Qed.

Lemma dupdate_nil (l : list (string * string)) : dict_wf l → dupdate l [] = l.
Proof.
  intros Hwf. enough (∀ acc, dict_wf (acc ++ l) → dupdate l acc = acc ++ l) as H by by apply H.
  clear Hwf. induction l as [|[k v] l IH]; intros acc Hwf; simpl; [by rewrite app_nil_r|].
  assert (k ∉ dkeys acc) as Hk.
  { unfold dict_wf, dkeys in *. rewrite fmap_app in Hwf. simpl in Hwf.
    apply NoDup_app in Hwf as (_ & Hd & _). intros Hin. by apply (Hd k Hin); left. }
  assert (dset k v acc = acc ++ [(k, v)]) as ->.
  { clear -Hk. induction acc as [|[k' v'] acc IH]; [done|]. simpl.
    unfold dkeys in *. csimpl in Hk. apply not_elem_of_cons in Hk as [Hne Hk].
    rewrite decide_False by done. by rewrite IH. }
  rewrite IH; by rewrite <- app_assoc.
Qed.

(** A model of the YAML file, as (name, backends, type), and its JSON value. *)
Definition static_model := (string * list string * string)%type.

Definition describes (item : string * json) (m : static_model) : Prop :=
  item.1 = m.1.1 ∧ ∃ d, item.2 = JObj d ∧
    dget "static_backends" d = Some (JArr (JStr <$> m.1.2)) ∧
    dget "static_model_type" d = Some (JStr m.2).

Definition backends_list (ms : list static_model) : list string := ms ≫= λ m, m.1.2.
Definition names_list (ms : list static_model) : list string :=
  ms ≫= λ m, replicate (length m.1.2) m.1.1.
Definition types_list (ms : list static_model) : list string :=
  ms ≫= λ m, replicate (length m.1.2) m.2.

(** A loop whose steps contribute strings. *)
Lemma extend_loop_strings step (f : static_model → list string) items ms :
  (∀ it m, describes it m → step it.1 it.2 = Ret (JStr <$> f m)) →
  Forall2 describes items ms →
  extend_loop step items = Ret (JStr <$> (ms ≫= f)).
Proof.
  intros Hstep. induction 1 as [|[name details] m items ms Hit Hall IH]; [done|].
  simpl. pose proof (Hstep _ _ Hit) as Hst. simpl in Hst. unfold mbind, outcome_bind.
  rewrite Hst, IH. by rewrite fmap_app.
Qed.

Lemma generate_strings step f items ms :
  (∀ it m, describes it m → step it.1 it.2 = Ret (JStr <$> f m)) →
  Forall2 describes items ms → generate step (JObj items) = Ret (join "," (ms ≫= f)).
Proof.
  intros Hstep Hall. unfold generate, mbind, outcome_bind. simpl.
  rewrite (extend_loop_strings step f items ms Hstep Hall). by rewrite as_strings_JStr.
Qed.

Lemma backends_of_describes it m : describes it m → backends_of it.1 it.2 = Ret (JStr <$> m.1.2).
Proof.
  intros (_ & d & -> & Hb & Ht). unfold backends_of. simpl. unfold dmem. by rewrite Hb.
Qed.

Lemma fmap_replicate_JStr n s : JStr <$> replicate n s = replicate n (JStr s).
Proof. apply fmap_replicate. Qed.

Lemma models_of_describes it m :
  describes it m → models_of it.1 it.2 = Ret (JStr <$> replicate (length m.1.2) m.1.1).
Proof.
  intros (Hn & d & -> & Hb & Ht). unfold models_of. simpl. unfold dmem. rewrite Hb. simpl.
  by rewrite length_fmap, fmap_replicate, Hn.
Qed.

Lemma model_types_of_describes it m :
  describes it m → model_types_of it.1 it.2 = Ret (JStr <$> replicate (length m.1.2) m.2).
Proof.
  intros (Hn & d & -> & Hb & Ht). unfold model_types_of. simpl. unfold dmem. rewrite Hb, Ht. simpl.
  by rewrite length_fmap, fmap_replicate.
Qed.

Lemma bind_replicate_length {B} (f : static_model → B) (ms : list static_model) :
  length (ms ≫= λ m, replicate (length m.1.2) (f m)) = length (backends_list ms).
Proof.
  unfold backends_list. induction ms as [|m ms IH]; [done|]. csimpl.
  by rewrite !length_app, length_replicate, IH.
Qed.

Lemma Forall_bind_replicate (P : string → Prop) (f : static_model → string) ms :
  Forall (λ m, P (f m)) ms → Forall P (ms ≫= λ m, replicate (length m.1.2) (f m)).
Proof.
  induction 1 as [|m ms Hm _ IH]; csimpl; [constructor|].
  apply Forall_app. split; [by apply Forall_replicate|done].
Qed.

Lemma nonempty_length {A B} (l : list A) (l' : list B) : length l = length l' → l' ≠ [] → l ≠ [].
Proof. destruct l, l'; done. Qed.

(** ** Properties *)
(** Printing an alias table and parsing it back gives the same table, for
    tables whose names contain neither a comma nor a colon. *)
Theorem aliases_roundtrip (py_str : json → string) (aliases : list (string * string)) :
  aliases ≠ [] → dict_wf aliases →
  Forall (λ am, (no_char ":" am.1 ∧ no_char ":" am.2) ∧
                no_char "," (am.1 +:+ ":" +:+ am.2)) aliases →
  (printed ← generate_static_aliases py_str (JObj (prod_map id JStr <$> aliases));
   parse_static_aliases printed) = Ret aliases.
Proof.
  intros Hne Hwf Hall. unfold mbind at 1, outcome_bind, generate_static_aliases. simpl.
  assert ((λ '(alias, model), alias +:+ ":" +:+ fstr py_str model) <$> (prod_map id JStr <$> aliases)
    = (λ '(a, m), a +:+ ":" +:+ m) <$> aliases) as ->.
  { rewrite <- list_fmap_compose. apply list_fmap_ext. by intros _ [a m] _. }
  unfold parse_static_aliases. rewrite split_join.
  - rewrite aliases_loop_printed, dupdate_nil; [done|done|].
    eapply Forall_impl; [exact Hall|]. naive_solver.
  - by destruct aliases.
  - apply Forall_fmap. eapply Forall_impl; [exact Hall|]. by intros [a m] [_ Hc].
Qed.

Lemma aliases_roundtrip_witness :
  (printed ← generate_static_aliases (λ _, EmptyString)
     (JObj (prod_map id JStr <$> [("gpt4", "llama"); ("mini", "phi")]%string));
   parse_static_aliases printed) = Ret [("gpt4", "llama"); ("mini", "phi")]%string.
Proof.
  apply aliases_roundtrip; [done| |].
  - unfold dict_wf, dkeys. simpl. apply (bool_decide_unpack _). vm_compute. done.
  - repeat constructor.
Defined.

(** The three comma-separated lists a YAML configuration is turned into
    line up: parsed back, they are the backends of all models in file order and,
    position by position, the name and the type of the model each backend
    belongs to. *)
Theorem yaml_lists_aligned py_str safe_load text config items (ms : list static_model) :
  safe_load text = Ret (JObj config) → dget "static_models" config = Some (JObj items) →
  dget "static_aliases" config = None → Forall2 describes items ms →
  backends_list ms ≠ [] →
  Forall (λ m, no_char "," m.1.1 ∧ Forall (no_char ",") m.1.2 ∧ no_char "," m.2) ms →
  ∃ out b n t, read_and_process_yaml_config_file py_str safe_load text = Ret out ∧
    dget "static_backends" out = Some (JStr b) ∧ split_on "," b = backends_list ms ∧
    dget "static_models" out = Some (JStr n) ∧ split_on "," n = names_list ms ∧
    dget "static_model_types" out = Some (JStr t) ∧ split_on "," t = types_list ms ∧
    length (names_list ms) = length (backends_list ms) ∧
    length (types_list ms) = length (backends_list ms).
Proof.
  intros Hload Hm Ha Hall Hne Hc.
  assert (items ≠ []) as Hi by (intros ->; by inversion Hall; subst).
  unfold read_and_process_yaml_config_file, mbind, outcome_bind. rewrite Hload.
  assert (truthy (JObj config) = true) as -> by by destruct config. simpl negb.
  unfold dict_get. rewrite Hm, Ha.
  assert (truthy (JObj items) = true) as -> by by destruct items.
  unfold generate_static_backends, generate_static_models, generate_static_model_types.
  rewrite (generate_strings _ _ items ms backends_of_describes Hall),
    (generate_strings _ _ items ms models_of_describes Hall),
    (generate_strings _ _ items ms model_types_of_describes Hall).
  simpl truthy. eexists _, _, _, _. split; [done|].
  rewrite !dget_dset. rewrite !(decide_False (P:=(_ = _))) by done.
  rewrite !(decide_True (P:=(_ = _))) by done.
  pose proof (bind_replicate_length (λ m, m.1.1) ms) as L1.
  pose proof (bind_replicate_length (λ m, m.2) ms) as L2.
  split_and!; try done; apply split_join.
  - done.
  - apply Forall_bind. eapply Forall_impl; [exact Hc|]. naive_solver.
  - by apply (nonempty_length _ _ L1).
  - apply (Forall_bind_replicate (no_char ",") (λ m, m.1.1)). eapply Forall_impl; [exact Hc|]. naive_solver.
  - by apply (nonempty_length _ _ L2).
  - apply (Forall_bind_replicate (no_char ",") (λ m, m.2)). eapply Forall_impl; [exact Hc|]. naive_solver.
Qed.

Definition toy_config : list (string * json) :=
  [("static_models", JObj
     [("llama", JObj [("static_backends", JArr [JStr "http://a:1"; JStr "http://b:1"]);
                      ("static_model_type", JStr "chat")]);
      ("bge", JObj [("static_backends", JArr [JStr "http://c:1"]);
                    ("static_model_type", JStr "embeddings")])])]%string.

Lemma yaml_lists_aligned_witness :
  ∃ out b n t, read_and_process_yaml_config_file (λ _, EmptyString) (λ _, Ret (JObj toy_config))
      EmptyString = Ret out ∧
    dget "static_backends" out = Some (JStr b) ∧
    split_on "," b = ["http://a:1"; "http://b:1"; "http://c:1"]%string ∧
    dget "static_models" out = Some (JStr n) ∧ split_on "," n = ["llama"; "llama"; "bge"]%string ∧
    dget "static_model_types" out = Some (JStr t) ∧
    split_on "," t = ["chat"; "chat"; "embeddings"]%string ∧ (3 = 3)%nat ∧ (3 = 3)%nat.
Proof.
  apply (yaml_lists_aligned (λ _, EmptyString) (λ _, Ret (JObj toy_config)) EmptyString toy_config
    [("llama", JObj [("static_backends", JArr [JStr "http://a:1"; JStr "http://b:1"]);
                      ("static_model_type", JStr "chat")]);
      ("bge", JObj [("static_backends", JArr [JStr "http://c:1"]);
                    ("static_model_type", JStr "embeddings")])]%string
    [("llama", ["http://a:1"; "http://b:1"], "chat"); ("bge", ["http://c:1"], "embeddings")]%string).
  - reflexivity.
  - reflexivity.
  - reflexivity.
  - repeat constructor; by eexists.
  - done.
  - repeat constructor.
Defined.

(** The types are only collected for the models that have one, so a model
    without a type shifts the types of the models after it. *)
Example yaml_types_shift :
  generate_static_models (JObj [("a", JObj [("static_backends", JArr [JStr "u1"])]);
    ("b", JObj [("static_backends", JArr [JStr "u2"]); ("static_model_type", JStr "chat")])]%string)
    = Ret "a,b"%string ∧
  generate_static_model_types (JObj [("a", JObj [("static_backends", JArr [JStr "u1"])]);
    ("b", JObj [("static_backends", JArr [JStr "u2"]); ("static_model_type", JStr "chat")])]%string)
    = Ret "chat"%string.
Proof. done. Qed.

(** *** The shape of an accepted url *)
Definition digits (l : list ascii) : Prop := Forall (λ a, is_digit a = true) l.

Definition domain_label (l : list ascii) : Prop := l ≠ [] ∧ Forall (λ a, domain_char a = true) l.

Definition octet (l : list ascii) : Prop := (1 ≤ length l ≤ 3)%nat ∧ digits l.

Inductive valid_host : list ascii → Prop :=
| host_domain labels tld :
    labels ≠ [] → Forall domain_label labels → (2 ≤ length tld)%nat →
    Forall (λ a, is_alpha a = true) tld →
    valid_host (mjoin ((λ l, l ++ chars ".") <$> labels) ++ tld)
| host_localhost : valid_host (chars "localhost")
| host_ipv4 a b c d : octet a → octet b → octet c → octet d →
    valid_host (a ++ chars "." ++ b ++ chars "." ++ c ++ chars "." ++ d).

Lemma rlang_label_dot s :
  rlang (RCat (RPlus (RChr domain_char)) (RLit ".")) s ↔ ∃ l, s = l ++ chars "." ∧ domain_label l.
Proof.
  rewrite rlang_cat. split.
  - intros (l & s2 & -> & Hl%rlang_plus_chr & ->%rlang_lit). by exists l.
  - intros (l & -> & Hl). exists l, (chars "."). split_and!; [done|by apply rlang_plus_chr|].
    by apply rlang_lit.
Qed.

Lemma rlang_star_labels s :
  rlang (RStar (RCat (RPlus (RChr domain_char)) (RLit "."))) s ↔
  ∃ labels, s = mjoin ((λ l, l ++ chars ".") <$> labels) ∧ Forall domain_label labels.
Proof.
  split.
  - remember (RStar _) as r eqn:Hr.
    induction 1 as [| | | | | |r0 s1 s2 H1 _ H2 IH]; simplify_eq; [by exists []|].
    apply rlang_label_dot in H1 as (l & -> & Hl). destruct (IH eq_refl) as (ls & -> & Hls).
    exists (l :: ls). split; [done|by constructor].
  - intros (ls & -> & Hls). induction Hls as [|l ls Hl _ IH]; simpl; [constructor|].
    constructor; [|done]. apply rlang_label_dot. by exists l.
Qed.

Lemma rlang_domain s : rlang domain_re s ↔ ∃ labels tld,
  s = mjoin ((λ l, l ++ chars ".") <$> labels) ++ tld ∧ labels ≠ [] ∧ Forall domain_label labels ∧
  (2 ≤ length tld)%nat ∧ Forall (λ a, is_alpha a = true) tld.
Proof.
  unfold domain_re, RPlus at 1, RAtLeast. rewrite rlang_cat. split.
  - intros (s1 & s2 & -> & (l1 & l2 & -> & (l & -> & Hl)%rlang_label_dot
      & (ls & -> & Hls)%rlang_star_labels)%rlang_cat
      & (t1 & t2 & -> & [Hlen Ht1]%rlang_rep_chr & Ht2%rlang_star_chr)%rlang_cat).
    exists (l :: ls), (t1 ++ t2). split_and!; [done|done|by constructor| |by apply Forall_app].
    rewrite length_app. lia.
  - intros (labels & tld & -> & Hne & Hl & Hlen & Ht). destruct labels as [|l ls]; [done|].
    apply Forall_cons in Hl as [Hl Hls]. eexists _, _. split_and!; [done| |].
    + simpl. apply rlang_cat. eexists _, _. split_and!; [done| |].
      * apply rlang_label_dot. by exists l.
      * apply rlang_star_labels. by exists ls.
    + apply rlang_cat. exists (take 2 tld), (drop 2 tld). rewrite take_drop. split_and!; [done| |].
      * apply rlang_rep_chr. rewrite length_take. split; [lia|by apply Forall_take].
      * apply rlang_star_chr. by apply Forall_drop.
Qed.

Lemma rlang_octet s : rlang octet_re s ↔ octet s.
Proof. unfold octet_re, octet, digits. by rewrite rlang_between_chr by lia. Qed.

Lemma rlang_dot_octet s : rlang (RCat (RLit ".") octet_re) s ↔ ∃ o, s = chars "." ++ o ∧ octet o.
Proof.
  rewrite rlang_cat. split.
  - intros (s1 & o & -> & ->%rlang_lit & Ho%rlang_octet). by exists o.
  - intros (o & -> & Ho). exists (chars "."), o. split_and!; [done|by apply rlang_lit|].
    by apply rlang_octet.
Qed.

Lemma rlang_ipv4 s : rlang ipv4_re s ↔ ∃ a b c d,
  s = a ++ chars "." ++ b ++ chars "." ++ c ++ chars "." ++ d ∧ octet a ∧ octet b ∧ octet c ∧ octet d.
Proof.
  unfold ipv4_re. cbn [RRep]. rewrite rlang_cat. split.
  - intros (a & s1 & -> & Ha%rlang_octet & (s2 & s3 & -> & (b & -> & Hb)%rlang_dot_octet
      & (s4 & s5 & -> & (c & -> & Hc)%rlang_dot_octet
      & (s6 & s7 & -> & (d & -> & Hd)%rlang_dot_octet & ->%rlang_eps)%rlang_cat)%rlang_cat)%rlang_cat).
    exists a, b, c, d. rewrite app_nil_r, <- !app_assoc. done.
  - intros (a & b & c & d & -> & Ha & Hb & Hc & Hd). eexists _, _. split; [done|].
    split; [by apply rlang_octet|].
    apply rlang_cat. exists (chars "." ++ b), ((chars "." ++ c) ++ (chars "." ++ d) ++ []).
    split; [by rewrite app_nil_r, <- !app_assoc|]. split; [apply rlang_dot_octet; by exists b|].
    apply rlang_cat. eexists _, _. split; [done|]. split; [apply rlang_dot_octet; by exists c|].
    apply rlang_cat. eexists _, _. split; [done|]. split; [apply rlang_dot_octet; by exists d|constructor].
Qed.

Lemma rlang_host s : rlang host_re s ↔ valid_host s.
Proof.
  unfold host_re. rewrite !rlang_alt, rlang_domain, rlang_lit, rlang_ipv4. split.
  - intros [(ls & tld & -> & ? & ? & ? & ?)|[->|(a & b & c & d & -> & ? & ? & ? & ?)]];
      by constructor.
  - intros [ls tld ? ? ? ?| |a b c d ? ? ? ?].
    + left. by exists ls, tld.
    + by right; left.
    + right; right. by exists a, b, c, d.
Qed.

Lemma rlang_scheme s : rlang scheme_re s ↔ s = chars "http" ∨ s = chars "https".
Proof. unfold scheme_re. by rewrite rlang_alt, !rlang_lit. Qed.

Lemma rlang_port s :
  rlang port_re s ↔ s = [] ∨ ∃ ds, s = chars ":" ++ ds ∧ ds ≠ [] ∧ digits ds.
Proof.
  unfold port_re. rewrite rlang_opt, rlang_cat. split.
  - intros [->|(s1 & ds & -> & ->%rlang_lit & [? ?]%rlang_plus_chr)]; [by left|]. right. by exists ds.
  - intros [->|(ds & -> & ? & ?)]; [by left|]. right. eexists _, ds.
    split_and!; [done|by apply rlang_lit|by apply rlang_plus_chr].
Qed.

Lemma rlang_path s :
  rlang path_re s ↔ s = [] ∨ ∃ p, s = chars "/" ++ p ∧ Forall (λ a, is_newline a = false) p.
Proof.
  assert (∀ p, Forall (λ a, dot a = true) p ↔ Forall (λ a, is_newline a = false) p) as Hdot.
  { intros p. apply Forall_iff. intros a. unfold dot. by rewrite negb_true_iff. }
  unfold path_re. rewrite rlang_opt, rlang_cat. split.
  - intros [->|(s1 & p & -> & ->%rlang_lit & Hp%rlang_star_chr%Hdot)]; [by left|]. right. by exists p.
  - intros [->|(p & -> & Hp)]; [by left|]. right. eexists _, p.
    split_and!; [done|by apply rlang_lit|by apply rlang_star_chr, Hdot].
Qed.

(** The urls [validate_url] accepts are exactly [http] or [https], then a
    host (a dotted domain name whose last part has two letters or more,
    [localhost], or four groups of one to three digits), an optional port of
    digits and an optional path without newlines, then possibly one newline. *)
Theorem validate_url_shape u :
  validate_url u = true ↔ ∃ scheme host port path nl,
    chars u = scheme ++ chars "://" ++ host ++ port ++ path ++ nl ∧
    (scheme = chars "http" ∨ scheme = chars "https") ∧ valid_host host ∧
    (port = [] ∨ ∃ ds, port = chars ":" ++ ds ∧ ds ≠ [] ∧ digits ds) ∧
    (path = [] ∨ ∃ p, path = chars "/" ++ p ∧ Forall (λ a, is_newline a = false) p) ∧
    (nl = [] ∨ ∃ a, nl = [a] ∧ is_newline a = true).
Proof.
  unfold validate_url. rewrite rmatch_spec. unfold url_re. fold (chars u). split.
  - intros (s & ? & -> & Hs%rlang_scheme & (? & ? & -> & ->%rlang_lit & (host & ? & -> & Hh%rlang_host
      & (port & ? & -> & Hp%rlang_port & (path & nl & -> & Hpa%rlang_path & Hnl)%rlang_cat
      )%rlang_cat)%rlang_cat)%rlang_cat)%rlang_cat.
    rewrite rlang_opt, rlang_chr in Hnl. by exists s, host, port, path, nl.
  - intros (s & host & port & path & nl & -> & Hs & Hh & Hp & Hpa & Hnl).
    rewrite <- rlang_scheme in Hs. rewrite <- rlang_host in Hh. rewrite <- rlang_port in Hp.
    rewrite <- rlang_path in Hpa. rewrite <- rlang_chr, <- rlang_opt in Hnl.
    repeat (apply LCat; [first [done|by apply rlang_lit]|]). done.
Qed.

(** *** The file limit *)
(** Raising the file limit: a finite soft limit never goes down, the hard
    limit never changes, and the soft limit reaches the target whenever the hard
    limit allows it; an unlimited soft limit, which Python reports as [-1], is
    lowered to the target. *)
Theorem set_ulimit_effect target soft hard :
  0 < target → -1 <= soft → -1 <= hard →
  let '(soft', hard') := set_ulimit target (soft, hard) in
  hard' = hard ∧ (0 <= soft → soft <= soft') ∧
  (0 <= soft → hard = -1 ∨ target <= hard → target <= soft') ∧
  (soft = -1 → hard = -1 → soft' = target).
Proof.
  intros Ht Hs Hh. unfold set_ulimit, setrlimit.
  destruct (Z.ltb_spec soft target); [|lia].
  destruct (Z.eqb_spec hard (-1)), (Z.leb_spec 0 target), (Z.leb_spec target hard); simpl; lia.
Qed.

Lemma set_ulimit_effect_witness :
  let '(soft', hard') := set_ulimit 65535 (-1, -1) in
  hard' = -1 ∧ (0 <= -1 → -1 <= soft') ∧ (0 <= -1 → -1 = -1 ∨ 65535 <= -1 → 65535 <= soft') ∧
  (-1 = -1 → -1 = -1 → soft' = 65535).
Proof. apply (set_ulimit_effect 65535 (-1) (-1)); lia. Defined.
