(* ===== verification/StaticDiscovery.v ===== *)
(** * Static service discovery: [StaticServiceDiscovery] of [service_discovery.py]

    The endpoints come from the command line; a health check may hide some of
    them.  MD5 and the health check of one model are parameters. *)
From stdpp Require Import base list strings gmap.
From Stdlib Require Import Ascii.
From S2P Require Import Prelude PyDict PyStr Json Endpoint Routing.

Record StaticServiceDiscovery := mkStatic {
  s_urls : list string;
  s_models : list string;
  s_aliases : option (list (string * string));
  s_model_labels : option (list string);
  s_model_types : option (list string);
  s_engines_id : list string;
  s_added_timestamp : Z;
  s_unhealthy : list string;
  s_running : bool;
  s_prefill_labels : labels;
  s_decode_labels : labels
}.

(** The client sessions kept in [app.state], by base url, and the sessions that
    were closed. *)
Record App := mkApp {
  prefill_client : option string;
  decode_client : option string;
  closed_clients : list string
}.

Section Static.
(** [hashlib.md5(s.encode()).hexdigest()] *)
Context (md5 : string → string).

Definition get_model_endpoint_hash (u model : string) : string := md5 (u +:+ model).

(** [__init__]; [ids] are the fresh [uuid4] strings, one per url. *)
Definition static_init (ids : list string) (now : Z) (urls models : list string)
    (aliases : option (list (string * string))) (model_labels model_types : option (list string))
    (prefill decode : labels) : outcome StaticServiceDiscovery :=
  if decide (length urls = length models) then
    Ret (mkStatic urls models aliases model_labels model_types (take (length urls) ids) now [] true
           prefill decode)
  else Raise AssertionError.

(** The loop over [zip(urls, models, model_types, strict=True)]: lists of
    different lengths end it with a [ValueError], which is caught, as is one
    raised by a check; what was collected so far is returned. *)
Fixpoint unhealthy_loop (healthy : string → string → string → outcome bool)
    (urls models types : list string) (unhealthy : list string) : outcome (list string) :=
  match urls, models, types with
  | u :: urls, m :: models, t :: types =>
      match healthy u m t with
      | Raise ValueError => Ret unhealthy
      | Raise e => Raise e
      | Ret true => unhealthy_loop healthy urls models types unhealthy
      | Ret false =>
          unhealthy_loop healthy urls models types (unhealthy ++ [get_model_endpoint_hash u m])
      end
  | _, _, _ => Ret unhealthy
  end.

(** [zip] refuses [None] with a [TypeError]. *)
Definition get_unhealthy_endpoint_hashes (healthy : string → string → string → outcome bool)
    (s : StaticServiceDiscovery) : outcome (list string) :=
  match s_model_types s with
  | None => Raise TypeError
  | Some types => unhealthy_loop healthy (s_urls s) (s_models s) types []
  end.

Definition set_unhealthy (l : list string) (s : StaticServiceDiscovery) : StaticServiceDiscovery :=
  mkStatic (s_urls s) (s_models s) (s_aliases s) (s_model_labels s) (s_model_types s)
    (s_engines_id s) (s_added_timestamp s) l (s_running s) (s_prefill_labels s) (s_decode_labels s).

(** One round of [check_model_health]: an exception is logged and the hashes
    stay as they are. *)
Definition check_round (healthy : string → string → string → outcome bool)
    (s : StaticServiceDiscovery) : StaticServiceDiscovery :=
  if s_running s then
    match get_unhealthy_endpoint_hashes healthy s with
    | Ret l => set_unhealthy l s
    | Raise _ => s
    end
  else s.

Definition static_model_info (now : Z) (model : string) : list (string * ModelInfo) :=
  [(model, mkModelInfo (JStr model) (JStr "model") (JInt now) (JStr "vllm") JNull JNull false)].

(** [model_labels[i] if model_labels else "default"] *)
Definition static_label (ls : option (list string)) (i : nat) : outcome string :=
  match ls with
  | None | Some [] => Ret "default"%string
  | Some l => or_raise IndexError (l !! i)
  end.

Fixpoint endpoints_loop (now : Z) (s : StaticServiceDiscovery) (i : nat)
    (pairs : list (string * string)) : outcome (list EndpointInfo) :=
  match pairs with
  | [] => Ret []
  | (u, model) :: pairs =>
      if decide (get_model_endpoint_hash u model ∈ s_unhealthy s) then endpoints_loop now s (S i) pairs
      else
        label ← static_label (s_model_labels s) i;
        id ← or_raise IndexError (s_engines_id s !! i);
        rest ← endpoints_loop now s (S i) pairs;
        Ret (mkEndpointInfo u [model] id (s_added_timestamp s) (Some label) false None None None
               (static_model_info now model) :: rest)
  end.

Definition static_get_endpoint_info (now : Z) (s : StaticServiceDiscovery)
    : outcome (list EndpointInfo) :=
  endpoints_loop now s 0 (zip (s_urls s) (s_models s)).

(** The loop of [initialize_client_sessions]; [close_old] is set in the pod-ip
    variant, which closes the session it replaces. *)
Fixpoint client_sessions_loop (close_old : bool) (prefill decode : labels)
    (eps : list EndpointInfo) : M App unit :=
  match eps with
  | [] => mret tt
  | e :: eps =>
      p ← lift (label_in (model_label e) prefill);
      _ ← (if (p : bool) then
             modify (λ a, mkApp (Some (url e)) (decode_client a)
               (closed_clients a ++ if close_old then option_list (prefill_client a) else []))
           else
             d ← lift (label_in (model_label e) decode);
             if (d : bool) then
               modify (λ a, mkApp (prefill_client a) (Some (url e))
                 (closed_clients a ++ if close_old then option_list (decode_client a) else []))
             else mret tt);
      client_sessions_loop close_old prefill decode eps
  end.

(** [prefill_model_labels is not None and decode_model_labels is not None] *)
Definition labels_given (prefill decode : labels) : bool :=
  match prefill, decode with LNone, _ | _, LNone => false | _, _ => true end.

Definition static_initialize_client_sessions (now : Z) (s : StaticServiceDiscovery) : M App unit :=
  if labels_given (s_prefill_labels s) (s_decode_labels s) then
    eps ← lift (static_get_endpoint_info now s);
    client_sessions_loop false (s_prefill_labels s) (s_decode_labels s) eps
  else mret tt.

Definition static_close (s : StaticServiceDiscovery) : StaticServiceDiscovery :=
  mkStatic (s_urls s) (s_models s) (s_aliases s) (s_model_labels s) (s_model_types s)
    (s_engines_id s) (s_added_timestamp s) (s_unhealthy s) false (s_prefill_labels s)
    (s_decode_labels s).

(** ** Lemmas *)
(** The backends that are up, position by position. *)
Definition up (s : StaticServiceDiscovery) (um : string * string) : bool :=
  bool_decide (get_model_endpoint_hash um.1 um.2 ∉ s_unhealthy s).

Lemma up_true s um : up s um = true ↔ get_model_endpoint_hash um.1 um.2 ∉ s_unhealthy s.
Proof. unfold up. by rewrite bool_decide_eq_true. Qed.

Definition static_wf (s : StaticServiceDiscovery) : Prop :=
  length (s_urls s) = length (s_models s) ∧ length (s_engines_id s) = length (s_urls s) ∧
  match s_model_labels s with
  | None | Some [] => True
  | Some l => length (s_urls s) ≤ length l
  end.

Lemma static_label_ok ls i n :
  match ls with None | Some [] => True | Some l => n ≤ length l end → i < n →
  ∃ l, static_label ls i = Ret l.
Proof.
  intros Hl Hi. unfold static_label. destruct ls as [[|x l]|]; [by eexists| |by eexists].
  destruct (lookup_lt_is_Some_2 (x :: l) i) as [y Hy]; [simpl in *; lia|].
  rewrite Hy. by exists y.
Qed.

Lemma endpoints_loop_spec now s i pairs :
  static_wf s → i + length pairs ≤ length (s_urls s) →
  ∃ eps, endpoints_loop now s i pairs = Ret eps ∧
    (λ e, (url e, model_names e)) <$> eps =
      (λ um, (um.1, [um.2])) <$> filter (λ um, up s um = true) pairs.
Proof.
  intros (Hl1 & Hl2 & Hl3). revert i. induction pairs as [|[u m] pairs IH]; intros i Hi; simpl in *.
  { by exists []. }
  destruct (IH (S i)) as (eps & Heps & Hmap); [lia|]. rewrite filter_cons.
  case_decide as Hun.
  - rewrite decide_False by (rewrite up_true; simpl; by intros Hn). by exists eps.
  - rewrite decide_True by by apply up_true.
    destruct (static_label_ok (s_model_labels s) i (length (s_urls s))) as [l Hl]; [done|lia|].
    destruct (lookup_lt_is_Some_2 (s_engines_id s) i) as [id Hid]; [lia|].
    rewrite Hl. unfold mbind, outcome_bind. rewrite Hid. simpl. rewrite Heps.
    eexists. split; [done|]. csimpl. by f_equal.
Qed.

(** Two lists of the same length and the types: what a full check collects. *)
Lemma unhealthy_loop_spec healthy (verdict : string * string → bool) urls models types acc :
  length models = length urls → length types = length urls →
  (∀ i u m t, urls !! i = Some u → models !! i = Some m → types !! i = Some t →
     healthy u m t = Ret (verdict (u, m))) →
  unhealthy_loop healthy urls models types acc = Ret (acc ++
    ((λ um, get_model_endpoint_hash um.1 um.2) <$>
       filter (λ um, verdict um = false) (zip urls models))).
Proof.
  revert models types acc. induction urls as [|u urls IH];
    intros [|m models] [|t types] acc Hm Ht Hh; simpl in *; try done.
  { by rewrite app_nil_r. }
  rewrite (Hh 0 u m t) by done. rewrite filter_cons.
  assert (∀ i u' m' t', urls !! i = Some u' → models !! i = Some m' → types !! i = Some t' →
     healthy u' m' t' = Ret (verdict (u', m'))) as Hh' by (intros i; apply (Hh (S i))).
  destruct (verdict (u, m)); [rewrite decide_False by done|rewrite decide_True by done];
    rewrite IH by (done || lia); [done|]. csimpl. by rewrite <- app_assoc.
Qed.
End Static.

(** ** Properties *)
Lemma filter_same {A} (P Q : A → Prop) `{∀ x, Decision (P x), ∀ x, Decision (Q x)} (l : list A) :
  (∀ x, x ∈ l → P x ↔ Q x) → filter P l = filter Q l.
Proof.
  induction l as [|x l IH]; intros Hpq; [done|]. rewrite !filter_cons, IH by set_solver.
  pose proof (Hpq x ltac:(left)) as Hx. by repeat case_decide; naive_solver.
Qed.

(** C29. After a complete round of health checks, static discovery offers
    exactly the healthy backends, in the configured order and with their own
    model each: constructing the module, running a round in which every
    (url, model) pair has a verdict, and listing the endpoints succeeds, provided
    the hashes of the pairs do not collide and there are enough labels. *)
Theorem static_offers_healthy (md5 : string → string) ids now now' urls models aliases mlabels types
    prefill decode healthy (verdict : string * string → bool) s0 :
  static_init ids now urls models aliases mlabels (Some types) prefill decode = Ret s0 →
  length urls ≤ length ids → length types = length urls →
  match mlabels with None | Some [] => True | Some l => length urls ≤ length l end →
  (∀ i u m t, urls !! i = Some u → models !! i = Some m → types !! i = Some t →
     healthy u m t = Ret (verdict (u, m))) →
  (∀ x y, x ∈ zip urls models → y ∈ zip urls models →
     get_model_endpoint_hash md5 x.1 x.2 = get_model_endpoint_hash md5 y.1 y.2 → x = y) →
  ∃ eps, static_get_endpoint_info md5 now' (check_round md5 healthy s0) = Ret eps ∧
    (λ e, (url e, model_names e)) <$> eps =
      (λ um, (um.1, [um.2])) <$> filter (λ um, verdict um = true) (zip urls models).
Proof.
  intros Hinit Hids Htypes Hlabels Hh Hinj. unfold static_init in Hinit.
  case_decide as Hlen; [|done]. injection Hinit as <-. unfold check_round. simpl.
  unfold get_unhealthy_endpoint_hashes. simpl.
  rewrite (unhealthy_loop_spec md5 healthy verdict urls models types []) by (done || lia). simpl.
  set (bad := (λ um, get_model_endpoint_hash md5 um.1 um.2) <$>
    filter (λ um, verdict um = false) (zip urls models)).
  unfold static_get_endpoint_info. simpl. set (s := set_unhealthy _ _).
  destruct (endpoints_loop_spec md5 now' s 0 (zip urls models)) as (eps & Heps & Hmap).
  - unfold static_wf. simpl. rewrite length_take. split_and!; [done|lia|done].
  - simpl. rewrite length_zip. lia.
  - exists eps. split; [done|]. rewrite Hmap. f_equal. apply filter_same.
    intros um Hum. rewrite up_true. subst s. simpl. split.
    + intros Hnin. destruct (verdict um) eqn:Hv; [done|]. destruct Hnin.
      apply list_elem_of_fmap. exists um. split; [done|]. by apply list_elem_of_filter.
    + intros Hv (um' & Heq & [Hv' Hin]%list_elem_of_filter)%list_elem_of_fmap.
      rewrite (Hinj um um') in Hv by done. congruence.
Qed.

Lemma static_offers_healthy_witness :
  ∃ eps, static_get_endpoint_info id 7 (check_round id
      (λ u _ _, Ret (bool_decide (u ≠ "http://b:1"%string)))
      (mkStatic ["http://a:1"; "http://b:1"]%string ["m"; "n"]%string None None
        (Some ["chat"; "chat"]%string) ["i1"; "i2"]%string 5 [] true LNone LNone)) = Ret eps ∧
    (λ e, (url e, model_names e)) <$> eps =
      (λ um, (um.1, [um.2])) <$> filter (λ um, bool_decide (um.1 ≠ "http://b:1"%string) = true)
        (zip ["http://a:1"; "http://b:1"]%string ["m"; "n"]%string).
Proof.
  apply (static_offers_healthy id ["i1"; "i2"]%string 5 7 ["http://a:1"; "http://b:1"]%string
    ["m"; "n"]%string None None ["chat"; "chat"]%string LNone LNone
    (λ u _ _, Ret (bool_decide (u ≠ "http://b:1"%string)))
    (λ um, bool_decide (um.1 ≠ "http://b:1"%string))).
  - reflexivity.
  - simpl. lia.
  - reflexivity.
  - done.
  - done.
  - intros x y. simpl. rewrite !elem_of_cons, !elem_of_nil.
    by intros [->|[->|[]]] [->|[->|[]]].
Defined.

(** The hash is taken of the concatenation of url and model, so a backend whose
    url ends in the first characters of a model name shares its hash with the
    backend without them. *)
Lemma endpoint_hash_ambiguous (md5 : string → string) u s m :
  get_model_endpoint_hash md5 (u +:+ s) m = get_model_endpoint_hash md5 u (s +:+ m).
Proof. unfold get_model_endpoint_hash. f_equal.
  induction u as [|a u IH]; [done|].
  change (String a ((u +:+ s) +:+ m) = String a (u +:+ s +:+ m)). by rewrite IH.
Qed.
