(* ===== verification/K8sDiscovery.v ===== *)
(** * Kubernetes service discovery: [K8sPodIPServiceDiscovery] and
    [K8sServiceNameServiceDiscovery] of [service_discovery.py]

    A watch delivers events about pods (or services); the module keeps the
    engines it may route to.  What an event handler asks of the cluster and of
    the engine is the [world] of the event: the HTTP answers of the engine
    (status check and JSON decoding included), the API server and the clock. *)
From stdpp Require Import base list strings gmap pretty.
From Stdlib Require Import Ascii.
From S2P Require Import Prelude PyDict PyStr Json Endpoint Routing StaticDiscovery.

Record container := mkContainer { c_name : string; c_command : option (list string) }.

Record pod := mkPod {
  p_name : string;
  p_ip : option string;
  p_statuses : option (list bool);           (* [ready] of each container status *)
  p_deletion : option string;
  p_labels : option (list (string * string))
}.

Record service := mkService {
  sv_name : string;
  sv_selector : option (list (string * string))
}.

Record world := mkWorld {
  http_json : string → outcome json;
  read_pod : string → outcome (list container);
  (* the selector of a service, the pods of a selector (their containers), and
     the subsets of its endpoints (whether each has addresses) *)
  read_service : string → outcome (option (list (string * string)));
  list_pods : string → outcome (list (list container));
  read_endpoints : string → outcome (option (list bool));
  now : Z
}.

(** ** Asking the engine *)
(** The model entries of [/v1/models]: an id that is not a string is treated as
    a malformed answer. *)
Fixpoint model_ids (models : list json) : outcome (list string) :=
  match models with
  | [] => Ret []
  | m :: models =>
      v ← jitem "id" m;
      match v with
      | JStr s => ids ← model_ids models; Ret (s :: ids)
      | _ => Raise TypeError
      end
  end.

Fixpoint model_infos (t : Z) (models : list json) (acc : list (string * ModelInfo))
    : outcome (list (string * ModelInfo)) :=
  match models with
  | [] => Ret acc
  | JObj d :: models =>
      match dget "id" d with
      | Some (JStr i) => model_infos t models (dset i (from_dict t d) acc)
      | Some _ => Raise TypeError
      | None => Raise (KeyError "id")
      end
  | _ :: _ => Raise TypeError
  end.

Section Engine.
Context (port : string).

Definition engine_url (host path : string) : string := "http://" +:+ host +:+ ":" +:+ port +:+ path.

Definition models_of_engine (w : world) (host : string) : outcome (list json) :=
  body ← http_json w (engine_url host "/v1/models");
  data ← jitem "data" body;
  jiter data.

(** Every exception is logged and gives the empty answer. *)
Definition get_model_names (w : world) (host : string) : list string :=
  match (ms ← models_of_engine w host; model_ids ms) with Ret l => l | Raise _ => [] end.

Definition pod_model_info (w : world) (host : string) : list (string * ModelInfo) :=
  match (ms ← models_of_engine w host; model_infos (now w) ms []) with Ret l => l | Raise _ => [] end.

(** Kept by its truth value, the only thing its readers look at. *)
Definition get_engine_sleep_status (w : world) (host : string) : bool :=
  match (body ← http_json w (engine_url host "/is_sleeping"); jitem "is_sleeping" body) with
  | Ret v => truthy v
  | Raise _ => false
  end.

(** *** Pods *)
Definition check_pod_ready (statuses : option (list bool)) : bool :=
  match statuses with
  | None | Some [] => false
  | Some l => length (filter (λ r, r = true) l) =? length l
  end.

Definition is_pod_terminating (p : pod) : bool := bool_decide (is_Some (p_deletion p)).

(** The loop stops at the first container called [vllm]; no command at all
    counts as sleep mode. *)
Fixpoint sleep_mode_loop (cs : list container) : bool :=
  match cs with
  | [] => false
  | c :: cs =>
      if decide (c_name c = "vllm"%string) then
        match c_command c with
        | None | Some [] => true
        | Some cmd => bool_decide ("--enable-sleep-mode"%string ∈ cmd)
        end
      else sleep_mode_loop cs
  end.

(** Only an API exception is caught. *)
Definition check_engine_sleep_mode (w : world) (pod_name : string) : outcome bool :=
  match read_pod w pod_name with
  | Ret cs => Ret (sleep_mode_loop cs)
  | Raise ApiException => Ret false
  | Raise e => Raise e
  end.

Definition get_model_label (p : pod) : option string :=
  match p_labels p with None | Some [] => None | Some l => dget "model"%string l end.

(** ** [K8sPodIPServiceDiscovery] *)
Context (ns : string) (uuid5 : string → string) (prefill decode : labels).

Record K8sPodIP := mkK8s {
  available_engines : list (string * EndpointInfo);
  known_models : gset string;
  app : App
}.

Definition k8s_init (a : App) : K8sPodIP := mkK8s [] ∅ a.

Definition get_endpoint_info (s : K8sPodIP) : list EndpointInfo := dvals (available_engines s).

(** Run in the event loop of the app; its exceptions are logged by the caller,
    the sessions created before them stay. *)
Definition initialize_client_sessions (s : K8sPodIP) : K8sPodIP :=
  if labels_given prefill decode then
    mkK8s (available_engines s) (known_models s)
      (client_sessions_loop true prefill decode (get_endpoint_info s) (app s)).2
  else s.

Definition engine_info (w : world) (name ip : string) (names : list string) (label : option string)
    (sleep : bool) : EndpointInfo :=
  mkEndpointInfo (engine_url ip "") names (uuid5 name) (now w) label sleep (Some name) None (Some ns)
    (pod_model_info w ip).

Definition add_engine (w : world) (name ip : string) (names : list string) (label : option string)
    : M K8sPodIP unit :=
  mode ← lift (check_engine_sleep_mode w name);
  let sleep := if (mode : bool) then get_engine_sleep_status w ip else false in
  _ ← modify (λ s, mkK8s (dset name (engine_info w name ip names label sleep) (available_engines s))
                     (known_models s) (app s));
  _ ← modify initialize_client_sessions;
  modify (λ s, mkK8s (available_engines s) (known_models s ∪ list_to_set names) (app s)).

(** [del self.available_engines[engine_name]] *)
Definition delete_engine (name : string) : M K8sPodIP unit := λ s,
  if dmem name (available_engines s) then
    (Ret tt, mkK8s (ddel name (available_engines s)) (known_models s) (app s))
  else (Raise (KeyError name), s).

Definition on_engine_update (w : world) (name : string) (ip : option string) (event : string)
    (is_pod_ready : bool) (names : list string) (label : option string) : M K8sPodIP unit :=
  if decide (event = "ADDED"%string) then
    match ip with
    | None => mret tt
    | Some ip =>
        if negb is_pod_ready then mret tt
        else match names with [] => mret tt | _ => add_engine w name ip names label end
    end
  else if decide (event = "DELETED"%string) then
    known ← gets (λ s, dmem name (available_engines s));
    if (known : bool) then delete_engine name else mret tt
  else if decide (event = "MODIFIED"%string) then
    match ip with
    | None => mret tt
    | Some ip =>
        match is_pod_ready, names with
        | true, _ :: _ => add_engine w name ip names label
        | _, _ =>
            known ← gets (λ s, dmem name (available_engines s));
            if (known : bool) then delete_engine name else mret tt
        end
    end
  else mret tt.

(** The handler of one event of the stream. *)
Definition watch_event (w : world) (event : string) (p : pod) : M K8sPodIP unit :=
  if decide (event = "DELETED"%string) then
    known ← gets (λ s, dmem (p_name p) (available_engines s));
    if (known : bool) then delete_engine (p_name p) else mret tt
  else
    let is_pod_ready := check_pod_ready (p_statuses p) && negb (is_pod_terminating p) in
    (* the engine is asked at [http://None:port] when the pod has no address *)
    let names := if is_pod_ready then get_model_names w (default "None"%string (p_ip p)) else [] in
    let label := if is_pod_ready then get_model_label p else None in
    on_engine_update w (p_name p) (p_ip p) event is_pod_ready names label.

(** A stream of events ends early when a handler raises; the loop of
    [_watch_engines] logs it and opens the next stream. *)
Fixpoint watch_stream (events : list (world * string * pod)) : M K8sPodIP unit :=
  match events with
  | [] => mret tt
  | (w, event, p) :: events => _ ← watch_event w event p; watch_stream events
  end.

Definition watch_engines (streams : list (list (world * string * pod))) (s : K8sPodIP) : K8sPodIP :=
  foldl (λ s events, (watch_stream events s).2) s streams.

Definition has_ever_seen_model (model : string) (s : K8sPodIP) : bool :=
  bool_decide (model ∈ known_models s).

Definition get_known_models (s : K8sPodIP) : gset string := known_models s.

(** *** Sleep labels *)
(** The patches sent to the API server for an object: the labels to merge,
    where [None] removes one. *)
Definition label_patch := list (string * option string).

(** [read] is the answer of [read_namespaced_pod] (its labels), [patch] the
    answer to the patch; the patches sent are returned with the outcome. *)
Definition swallow_api {A} (r : outcome unit * A) : outcome unit * A :=
  match r with (Raise ApiException, a) => (Ret tt, a) | _ => r end.

Definition add_sleep_label (read : outcome (option (list (string * string)))) (patch : outcome unit)
    : outcome unit * list label_patch :=
  swallow_api
    match read with
    | Raise e => (Raise e, [])
    | Ret None => (Raise AttributeError, [])
    | Ret (Some labels) =>
        (patch, [prod_map id Some <$> dset "sleeping" "true" labels]%string)
    end.

Definition remove_sleep_label (read : outcome (option (list (string * string)))) (patch : outcome unit)
    : outcome unit * list label_patch :=
  swallow_api
    match read with
    | Raise e => (Raise e, [])
    | Ret None => (Raise TypeError, [])
    | Ret (Some labels) =>
        if dmem "sleeping"%string labels then (patch, [[("sleeping"%string, None)]]) else (Ret tt, [])
    end.

(** ** [K8sServiceNameServiceDiscovery] *)
(** Ready when some subset of its endpoints has addresses; API exceptions are
    not caught here. *)
Definition check_service_ready (w : world) (name : string) : outcome bool :=
  subsets ← read_endpoints w name;
  Ret (match subsets with None => false | Some l => existsb id l end).

(** [for arg in container.command] in every container called [vllm]; a missing
    command raises. *)
Fixpoint svc_sleep_mode_loop (cs : list container) (enabled : bool) : outcome bool :=
  match cs with
  | [] => Ret enabled
  | c :: cs =>
      if decide (c_name c = "vllm"%string) then
        match c_command c with
        | None => Raise TypeError
        | Some cmd =>
            svc_sleep_mode_loop cs (enabled || bool_decide ("--enable-sleep-mode"%string ∈ cmd))
        end
      else svc_sleep_mode_loop cs enabled
  end.

Definition svc_selector (l : list (string * string)) : string :=
  join "," ((λ '(k, v), k +:+ "=" +:+ v) <$> l).

Definition svc_check_engine_sleep_mode (w : world) (name : string) : outcome bool :=
  match
    (selector ← read_service w name;
     match selector with
     | None | Some [] => Ret false
     | Some l =>
         pods ← list_pods w (svc_selector l);
         match pods with
         | [] => Ret false
         | cs :: _ => svc_sleep_mode_loop cs false
         end
     end)
  with
  | Raise ApiException => Ret false
  | o => o
  end.

Definition svc_get_model_label (sv : service) : option string :=
  match sv_selector sv with None | Some [] => None | Some l => dget "model"%string l end.

(** The engine is asked in the same way, with the service name as the host. *)
Definition svc_get_model_names : world → string → list string := get_model_names.
Definition svc_get_model_info : world → string → list (string * ModelInfo) := pod_model_info.
Definition svc_get_engine_sleep_status : world → string → bool := get_engine_sleep_status.

Definition svc_add_engine (w : world) (name : string) (names : list string) (label : option string)
    : M (list (string * EndpointInfo)) unit :=
  mode ← lift (svc_check_engine_sleep_mode w name);
  let sleep := if (mode : bool) then svc_get_engine_sleep_status w name else false in
  modify (dset name (mkEndpointInfo (engine_url name "") names (uuid5 name) (now w) label sleep None
                       (Some name) (Some ns) (svc_get_model_info w name))).

Definition svc_delete_engine (name : string) : M (list (string * EndpointInfo)) unit := λ s,
  if dmem name s then (Ret tt, ddel name s) else (Raise (KeyError name), s).

Definition svc_on_engine_update (w : world) (name event : string) (is_service_ready : bool)
    (names : list string) (label : option string) : M (list (string * EndpointInfo)) unit :=
  if decide (event = "ADDED"%string) then
    if str_empty name || negb is_service_ready then mret tt
    else match names with [] => mret tt | _ => svc_add_engine w name names label end
  else if decide (event = "DELETED"%string) then
    known ← gets (dmem name);
    if (known : bool) then svc_delete_engine name else mret tt
  else if decide (event = "MODIFIED"%string) then
    if str_empty name then mret tt
    else match is_service_ready, names with
         | true, _ :: _ => svc_add_engine w name names label
         | _, _ =>
             known ← gets (dmem name);
             if (known : bool) then svc_delete_engine name else mret tt
         end
  else mret tt.

Definition svc_watch_event (w : world) (event : string) (sv : service)
    : M (list (string * EndpointInfo)) unit :=
  if decide (event = "DELETED"%string) then
    known ← gets (dmem (sv_name sv));
    if (known : bool) then svc_delete_engine (sv_name sv) else mret tt
  else
    ready ← lift (check_service_ready w (sv_name sv));
    let names := if (ready : bool) then svc_get_model_names w (sv_name sv) else [] in
    let label := if (ready : bool) then svc_get_model_label sv else None in
    svc_on_engine_update w (sv_name sv) event ready names label.

(** [_watch_engines]: an exception of a handler ends the stream, is logged, and the
    next stream is opened. *)
Fixpoint svc_watch_stream (events : list (world * string * service)) : M (list (string * EndpointInfo)) unit :=
  match events with
  | [] => mret tt
  | (w, event, sv) :: events => _ ← svc_watch_event w event sv; svc_watch_stream events
  end.

Definition svc_watch_engines (streams : list (list (world * string * service)))
    (s : list (string * EndpointInfo)) : list (string * EndpointInfo) :=
  foldl (λ s events, (svc_watch_stream events s).2) s streams.

Definition svc_init : list (string * EndpointInfo) := [].

Definition svc_get_endpoint_info (s : list (string * EndpointInfo)) : list EndpointInfo := dvals s.

Definition svc_initialize_client_sessions (s : list (string * EndpointInfo)) : M App unit :=
  if labels_given prefill decode then client_sessions_loop false prefill decode (svc_get_endpoint_info s)
  else mret tt.

Definition svc_add_sleep_label (patch : outcome unit) : outcome unit * list label_patch :=
  swallow_api (patch, [[("sleeping", Some "true")]])%string.

Definition svc_remove_sleep_label : outcome (option (list (string * string))) → outcome unit →
    outcome unit * list label_patch := remove_sleep_label.

(** ** Lemmas *)
(** What one event about a pod does to the entry of that pod. *)
Inductive decision : Type := DKeep | DRemove | DAdd (i : EndpointInfo).

(** The verdict on an event, for a pod whose sleep mode could be read. *)
Definition decide_event (w : world) (event : string) (p : pod) (mode : bool) : decision :=
  let ready := check_pod_ready (p_statuses p) && negb (is_pod_terminating p) in
  if decide (event = "DELETED"%string) then DRemove
  else match p_ip p with
       | None => DKeep
       | Some ip =>
           let names := if ready then get_model_names w ip else [] in
           match names with
           | _ :: _ =>
               if decide (event = "ADDED" ∨ event = "MODIFIED")%string then
                 DAdd (engine_info w (p_name p) ip names (get_model_label p)
                        (if mode then get_engine_sleep_status w ip else false))
               else DKeep
           | [] => if decide (event = "MODIFIED"%string) then DRemove else DKeep
           end
       end.

Definition apply_decision (name : string) (d : decision) (s : list (string * EndpointInfo))
    : list (string * EndpointInfo) :=
  match d with
  | DKeep => s
  | DRemove => ddel name s
  | DAdd i => dset name i s
  end.

Lemma ddel_absent (name : string) (s : list (string * EndpointInfo)) :
  dmem name s = false → ddel name s = s.
Proof.
  unfold dmem. induction s as [|[k v] s IH]; simpl; [done|].
  case_decide; [done|]. intros Hm. by rewrite IH.
Qed.

Lemma initialize_client_sessions_available s :
  available_engines (initialize_client_sessions s) = available_engines s ∧
  known_models (initialize_client_sessions s) = known_models s.
Proof. unfold initialize_client_sessions. by destruct (labels_given prefill decode). Qed.
End Engine.
