(* ===== verification/K8sSpec.v ===== *)
(** * What Kubernetes service discovery promises

    The effect of one watch event on the table of engines, the invariant of the
    table over any number of watch streams, and what events never change. *)
From stdpp Require Import base list strings gmap pretty.
From Stdlib Require Import Ascii.
From S2P Require Import Prelude PyDict PyStr Json Endpoint Routing StaticDiscovery K8sDiscovery.

Section Spec.
Context (port ns : string) (uuid5 : string → string) (prefill decode : labels).

Local Abbreviation ev := (watch_event port ns uuid5 prefill decode).
Local Abbreviation verdict := (decide_event port ns uuid5).

Definition added_models (d : decision) : gset string :=
  match d with DAdd i => list_to_set (model_names i) | _ => ∅ end.

Lemma add_engine_spec w name ip names label s mode :
  check_engine_sleep_mode w name = Ret mode →
  ∃ s', add_engine port ns uuid5 prefill decode w name ip names label s = (Ret tt, s') ∧
    available_engines s' = dset name (engine_info port ns uuid5 w name ip names label
      (if mode then get_engine_sleep_status port w ip else false)) (available_engines s) ∧
    known_models s' = known_models s ∪ list_to_set names.
Proof.
  intros Hm. unfold add_engine, mbind, M_bind, lift, modify. rewrite Hm. eexists. split; [done|].
  simpl. destruct (initialize_client_sessions_available prefill decode
    (mkK8s (dset name (engine_info port ns uuid5 w name ip names label
      (if mode then get_engine_sleep_status port w ip else false)) (available_engines s))
      (known_models s) (app s))) as [-> ->]. done.
Qed.

Lemma add_engine_raise w name ip names label s e :
  check_engine_sleep_mode w name = Raise e →
  add_engine port ns uuid5 prefill decode w name ip names label s = (Raise e, s).
Proof. intros Hm. unfold add_engine, mbind, M_bind, lift. by rewrite Hm. Qed.

(** Removing an engine that may not be there. *)
Lemma remove_if_known name s :
  ∃ s', (known ← gets (λ s, dmem name (available_engines s));
         if (known : bool) then delete_engine name else mret tt) s = (Ret tt, s') ∧
    available_engines s' = ddel name (available_engines s) ∧ known_models s' = known_models s.
Proof.
  unfold mbind, M_bind, gets, delete_engine. destruct (dmem name (available_engines s)) eqn:E.
  - rewrite E. by eexists.
  - eexists. split; [done|]. by rewrite ddel_absent.
Qed.

Lemma names_cons_iff (l : list string) : (∃ x l', l = x :: l') ∨ l = [].
Proof. destruct l; [by right|left; by eauto]. Qed.

Lemma watch_event_spec w event p s mode :
  check_engine_sleep_mode w (p_name p) = Ret mode →
  ∃ s', ev w event p s = (Ret tt, s') ∧
    available_engines s' =
      apply_decision (p_name p) (verdict w event p mode) (available_engines s) ∧
    known_models s' = known_models s ∪ added_models (verdict w event p mode).
Proof.
  intros Hm. unfold watch_event, decide_event.
  case_decide as Hdel.
  { destruct (remove_if_known (p_name p) s) as (s' & H1 & H2 & H3). exists s'.
    split_and!; [done|done|]. rewrite H3. simpl. set_solver. }
  unfold on_engine_update. destruct (p_ip p) as [ip|]; simpl.
  2:{ exists s. split_and!; [|done|set_solver]. by repeat case_decide. }
  set (ready := check_pod_ready _ && _).
  destruct (get_model_names port w ip) as [|n names] eqn:En, ready; simpl;
    repeat case_decide; subst; simpl; try (exfalso; tauto); try (exfalso; by destruct_or!);
    try (by apply add_engine_spec);
    try (destruct (remove_if_known (p_name p) s) as (s' & H1 & H2 & H3); exists s';
         split_and!; [done|done|rewrite H3; set_solver]);
    (exists s; split_and!; [done|done|simpl; set_solver]).
Qed.

Lemma watch_event_unreadable w event p s e :
  check_engine_sleep_mode w (p_name p) = Raise e →
  match verdict w event p false with
  | DAdd _ => ev w event p s = (Raise e, s)
  | d => ∃ s', ev w event p s = (Ret tt, s') ∧
      available_engines s' = apply_decision (p_name p) d (available_engines s) ∧
      known_models s' = known_models s
  end.
Proof.
  intros Hm. unfold watch_event, decide_event.
  case_decide as Hdel; [by apply remove_if_known|].
  unfold on_engine_update. destruct (p_ip p) as [ip|]; simpl.
  2:{ exists s. split_and!; [|done|done]. by repeat case_decide. }
  set (ready := check_pod_ready _ && _).
  destruct (get_model_names port w ip) as [|n names] eqn:En, ready; simpl;
    repeat case_decide; subst; simpl; try (exfalso; tauto); try (exfalso; by destruct_or!);
    first [by apply add_engine_raise|by apply remove_if_known|by exists s].
Qed.

(** An engine of the table. *)
Definition engine_ok (known : gset string) (name : string) (i : EndpointInfo) : Prop :=
  pod_name i = Some name ∧ Id i = uuid5 name ∧ namespace i = Some ns ∧
  (∃ ip, url i = engine_url port ip "") ∧ model_names i ≠ [] ∧
  ∀ m, m ∈ model_names i → m ∈ known.

Definition table_ok (s : K8sPodIP) : Prop :=
  dict_wf (available_engines s) ∧
  ∀ name i, dget name (available_engines s) = Some i → engine_ok (known_models s) name i.

Lemma verdict_add w event p mode i :
  verdict w event p mode = DAdd i → engine_ok (added_models (DAdd i)) (p_name p) i.
Proof.
  unfold decide_event. case_decide; [done|]. destruct (p_ip p) as [ip|]; [|done].
  cbv zeta. destruct (if check_pod_ready _ && _ then _ else _) as [|n names];
    repeat case_decide; try done.
  intros [= <-]. unfold engine_ok, added_models, engine_info. cbn [pod_name Id namespace url model_names].
  split_and!; try done; [by eexists|]. intros m Hm. by apply elem_of_list_to_set.
Qed.

Lemma apply_decision_ok name d (s : list (string * EndpointInfo)) known :
  (∀ i, d = DAdd i → engine_ok (added_models d) name i) →
  dict_wf s → (∀ n i, dget n s = Some i → engine_ok known n i) →
  dict_wf (apply_decision name d s) ∧
  ∀ n i, dget n (apply_decision name d s) = Some i → engine_ok (known ∪ added_models d) n i.
Proof.
  assert (∀ k k' n i, k ⊆ k' → engine_ok k n i → engine_ok k' n i) as Hmono.
  { unfold engine_ok. intros k k' n i Hsub (? & ? & ? & ? & ? & Hk). split_and!; try done.
    intros m Hm. by apply Hsub, Hk. }
  intros Hd Hwf Hall. destruct d as [| |i0]; simpl.
  - split; [done|]. intros n i Hi. apply (Hmono known); [set_solver|by apply Hall].
  - split; [by apply ddel_wf|]. intros n i Hi. apply (Hmono known); [set_solver|]. apply Hall.
    destruct (decide (name = n)) as [->|Hne]; [by rewrite dget_ddel_eq in Hi|].
    by rewrite dget_ddel_ne in Hi.
  - split; [by apply dset_wf|]. intros n i. rewrite dget_dset. case_decide as Hn.
    + intros [= <-]. subst. apply (Hmono (added_models (DAdd i0))); [simpl; set_solver|by apply Hd].
    + intros Hi. apply (Hmono known); [set_solver|by apply Hall].
Qed.

(** The state after an event: some verdict was applied, or nothing happened. *)
Lemma watch_event_step w event p s :
  ∃ d, available_engines (ev w event p s).2 = apply_decision (p_name p) d (available_engines s) ∧
    known_models (ev w event p s).2 = known_models s ∪ added_models d ∧
    ∀ i, d = DAdd i → engine_ok (added_models d) (p_name p) i.
Proof.
  destruct (check_engine_sleep_mode w (p_name p)) as [mode|e] eqn:Hm.
  - destruct (watch_event_spec w event p s mode Hm) as (s' & -> & H1 & H2).
    exists (verdict w event p mode). split_and!; [done|done|]. intros i Hi. rewrite Hi.
    by eapply verdict_add.
  - pose proof (watch_event_unreadable w event p s e Hm) as H.
    destruct (verdict w event p false) as [| |i] eqn:Hv.
    + destruct H as (s' & -> & H1 & H2). exists DKeep. split_and!; [done|simpl; set_solver|done].
    + destruct H as (s' & -> & H1 & H2). exists DRemove. split_and!; [done|simpl; set_solver|done].
    + rewrite H. exists DKeep. split_and!; [done|simpl; set_solver|done].
Qed.

Lemma watch_event_ok w event p s : table_ok s → table_ok (ev w event p s).2.
Proof.
  intros [Hwf Hall]. destruct (watch_event_step w event p s) as (d & H1 & H2 & H3).
  unfold table_ok. rewrite H1, H2. by apply apply_decision_ok.
Qed.

Lemma watch_event_known w event p s : known_models s ⊆ known_models (ev w event p s).2.
Proof. destruct (watch_event_step w event p s) as (d & _ & -> & _). set_solver. Qed.

(** What every event keeps, every sequence of streams keeps. *)
Lemma watch_stream_ind (P : K8sPodIP → Prop) :
  (∀ w event p s, P s → P (ev w event p s).2) →
  ∀ events s, P s → P (watch_stream port ns uuid5 prefill decode events s).2.
Proof.
  intros Hev events. induction events as [|[[w event] p] events IH]; intros s Hs; simpl; [done|].
  unfold mbind, M_bind. pose proof (Hev w event p s Hs) as Hs1.
  destruct (ev w event p s) as [[[]|e] s1]; [by apply IH|done].
Qed.

Lemma watch_engines_ind (P : K8sPodIP → Prop) :
  (∀ w event p s, P s → P (ev w event p s).2) →
  ∀ streams s, P s → P (watch_engines port ns uuid5 prefill decode streams s).
Proof.
  intros Hev streams. unfold watch_engines.
  induction streams as [|events streams IH]; intros s Hs; simpl; [done|].
  apply IH. by apply watch_stream_ind.
Qed.

Lemma watch_engines_app s1 s2 s :
  watch_engines port ns uuid5 prefill decode (s1 ++ s2) s =
  watch_engines port ns uuid5 prefill decode s2 (watch_engines port ns uuid5 prefill decode s1 s).
Proof. unfold watch_engines. by rewrite foldl_app. Qed.

Lemma apply_decision_other name d (s : list (string * EndpointInfo)) n :
  name ≠ n → dget n (apply_decision name d s) = dget n s.
Proof.
  intros Hne. destruct d; simpl; [done|by apply dget_ddel_ne|]. by apply dget_dset_ne.
Qed.

Lemma watch_stream_app l1 l2 s :
  watch_stream port ns uuid5 prefill decode (l1 ++ l2) s =
  (_ ← watch_stream port ns uuid5 prefill decode l1; watch_stream port ns uuid5 prefill decode l2) s.
Proof.
  revert s. induction l1 as [|[[w event] p] l1 IH]; intros s; simpl; [done|].
  unfold mbind, M_bind in *. destruct (ev w event p s) as [[[]|e] s1]; [apply IH|done].
Qed.

(** Every handler of the stream can read the sleep mode of its pod. *)
Definition readable (e : world * string * pod) : Prop :=
  ∃ mode, check_engine_sleep_mode e.1.1 (p_name e.2) = Ret mode.

Lemma watch_stream_readable events s :
  Forall readable events → dict_wf (available_engines s) →
  ∃ s', watch_stream port ns uuid5 prefill decode events s = (Ret tt, s') ∧
    dict_wf (available_engines s') ∧
    ∀ n, Forall (λ e, p_name e.2 ≠ n) events →
      dget n (available_engines s') = dget n (available_engines s).
Proof.
  revert s. induction events as [|[[w event] p] events IH]; intros s Hr Hwf; [by exists s|].
  apply Forall_cons in Hr as [[mode Hm] Hr]. simpl in Hm.
  destruct (watch_event_spec w event p s mode Hm) as (s1 & H1 & H2 & _).
  assert (dict_wf (available_engines s1)) as Hwf1.
  { rewrite H2. destruct (verdict w event p mode); simpl; [done|by apply ddel_wf|by apply dset_wf]. }
  destruct (IH s1 Hr Hwf1) as (s' & H3 & H4 & H5). exists s'. simpl. unfold mbind, M_bind.
  rewrite H1. split_and!; [done|done|]. intros n [Hn Hns]%Forall_cons. rewrite H5 by done.
  rewrite H2. by apply apply_decision_other.
Qed.

(** C10. The last event about a pod decides: after a stream in which the sleep
    modes can be read, the entry of a pod is what its last event says.  A
    [DELETED] event, or a [MODIFIED] event of a pod with an address that is not
    ready, is terminating or serves no model, removes it; an [ADDED] or
    [MODIFIED] event of a ready pod with models adds it with the data of that
    event; any other event leaves it as it was before the event.  Events of
    other pods do not matter. *)
Theorem pod_last_event_decides pre w event p post s mode :
  dict_wf (available_engines s) →
  Forall readable pre → check_engine_sleep_mode w (p_name p) = Ret mode → Forall readable post →
  Forall (λ e, p_name e.2 ≠ p_name p) post →
  ∃ before s', watch_stream port ns uuid5 prefill decode pre s = (Ret tt, before) ∧
    watch_stream port ns uuid5 prefill decode (pre ++ (w, event, p) :: post) s = (Ret tt, s') ∧
    dget (p_name p) (available_engines s') =
      match verdict w event p mode with
      | DRemove => None
      | DAdd i => Some i
      | DKeep => dget (p_name p) (available_engines before)
      end.
Proof.
  intros Hwf Hpre Hm Hpost Hother.
  destruct (watch_stream_readable pre s Hpre Hwf) as (s1 & H1 & Hwf1 & _).
  destruct (watch_event_spec w event p s1 mode Hm) as (s2 & H2 & H3 & _).
  assert (dict_wf (available_engines s2)) as Hwf2.
  { rewrite H3. destruct (verdict w event p mode); simpl; [done|by apply ddel_wf|by apply dset_wf]. }
  destruct (watch_stream_readable post s2 Hpost Hwf2) as (s3 & H4 & _ & H5).
  exists s1, s3. rewrite watch_stream_app. unfold mbind, M_bind. rewrite H1. simpl.
  unfold mbind, M_bind. rewrite H2. split_and!; [done|done|]. rewrite H5, H3 by done.
  destruct (verdict w event p mode); simpl; [done|by apply dget_ddel_eq|by apply dget_dset_eq].
Qed.

(** An engine whose pod is listed again as not ready (the first events of a new
    stream are [ADDED] events of the existing pods), or reports a change without
    an address, is kept. *)
Lemma stale_engine_kept w event p mode :
  event ≠ "DELETED"%string →
  p_ip p = None ∨ (event = "ADDED"%string ∧ check_pod_ready (p_statuses p) = false) →
  verdict w event p mode = DKeep.
Proof.
  intros Hd Hp. unfold decide_event. rewrite decide_False by done.
  destruct Hp as [->|[-> ->]]; [done|]. simpl. by destruct (p_ip p).
Qed.

(** The engine table is sound: after any number of watch streams, each
    cut short by an exception or not, every engine has one entry, under the name
    of its pod, with the address of a pod on the configured port, at least one
    model, and only models that are remembered as known. *)
Theorem k8s_table_sound streams a :
  table_ok (watch_engines port ns uuid5 prefill decode streams (k8s_init a)).
Proof.
  apply watch_engines_ind; [intros; by apply watch_event_ok|]. split; [apply dict_wf_nil|done].
Qed.

(** A model that was once served stays known: if some engine offered it
    after the first streams, [has_ever_seen_model] answers yes after any further
    ones, also when the engine has gone. *)
Theorem seen_models_stay streams later a i m :
  i ∈ get_endpoint_info (watch_engines port ns uuid5 prefill decode streams (k8s_init a)) →
  m ∈ model_names i →
  has_ever_seen_model m
    (watch_engines port ns uuid5 prefill decode (streams ++ later) (k8s_init a)) = true.
Proof.
  intros Hi Hm. rewrite watch_engines_app.
  assert (table_ok (watch_engines port ns uuid5 prefill decode streams (k8s_init a))) as [Hwf Hok].
  { apply watch_engines_ind; [intros; by apply watch_event_ok|]. split; [apply dict_wf_nil|done]. }
  apply bool_decide_eq_true.
  apply (watch_engines_ind (λ s, m ∈ known_models s)).
  - intros w event p s Hs. by apply (watch_event_known w event p s).
  - apply dvals_dget in Hi as [name Hn]; [|done]. destruct (Hok name i Hn) as (_ & _ & _ & _ & _ & Hk).
    by apply Hk.
Qed.
End Spec.

(** ** Witnesses *)
(** An engine that serves one model, in a cluster that answers. *)
Definition toy_world : world := mkWorld
  (λ u, Ret (JObj [("data", JArr [JObj [("id", JStr "m")]]); ("is_sleeping", JBool false)]%string))
  (λ _, Ret [mkContainer "vllm" (Some ["vllm"; "serve"]%string)])
  (λ _, Ret None) (λ _, Ret []) (λ _, Ret None) 100.

Definition toy_app : App := mkApp None None [].

Definition ready_pod : pod := mkPod "p1" (Some "10.0.0.1"%string) (Some [true; true]) None
  (Some [("model", "llama")]%string).

Definition gone_pod : pod := mkPod "p1" None None None None.

Definition other_pod : pod := mkPod "p2" None (Some [false]) None None.

Definition toy_added : EndpointInfo :=
  mkEndpointInfo "http://10.0.0.1:8000" ["m"%string] "p1" 100 (Some "llama"%string) false
    (Some "p1"%string) None (Some "default"%string)
    [("m"%string, from_dict 100 [("id", JStr "m")]%string)].

Lemma seen_models_stay_witness :
  has_ever_seen_model "m" (watch_engines "8000" "default" id LNone LNone
    ([[(toy_world, "ADDED"%string, ready_pod)]] ++ [[(toy_world, "DELETED"%string, gone_pod)]])
    (k8s_init toy_app)) = true.
Proof.
  apply (seen_models_stay "8000" "default" id LNone LNone _ _ toy_app toy_added "m").
  - vm_compute. left.
  - vm_compute. left.
Defined.

Lemma pod_last_event_decides_witness :
  ∃ before s', watch_stream "8000" "default" id LNone LNone
      [(toy_world, "ADDED"%string, ready_pod)] (k8s_init toy_app) = (Ret tt, before) ∧
    watch_stream "8000" "default" id LNone LNone
      ([(toy_world, "ADDED"%string, ready_pod)] ++ (toy_world, "DELETED"%string, gone_pod) ::
       [(toy_world, "MODIFIED"%string, other_pod)]) (k8s_init toy_app) = (Ret tt, s') ∧
    dget "p1"%string (available_engines s') = None.
Proof.
  apply (pod_last_event_decides "8000" "default" id LNone LNone
    [(toy_world, "ADDED"%string, ready_pod)] toy_world "DELETED" gone_pod
    [(toy_world, "MODIFIED"%string, other_pod)] (k8s_init toy_app) false).
  - apply dict_wf_nil.
  - constructor; [by exists false|constructor].
  - reflexivity.
  - constructor; [by exists false|constructor].
  - constructor; [done|constructor].
Defined.
