(* ===== verification/K8sServiceSpec.v ===== *)
(** * What service discovery by service name promises

    The abstract specification is a list of words about services: every event
    that is heard before its stream breaks says to keep, remove or add the
    engine of one service.  The table implements it: what it holds for a service
    is the last word about it. *)
From stdpp Require Import base list strings gmap pretty.
From Stdlib Require Import Ascii.
From S2P Require Import Prelude PyDict PyStr Json Endpoint Routing StaticDiscovery K8sDiscovery.

Section ServiceSpec.
Context (port ns : string) (uuid5 : string → string).

Local Abbreviation table := (list (string * EndpointInfo)).
Local Abbreviation event := (world * string * service)%type.

(** The entry of a service. *)
Definition svc_info (w : world) (sv : service) (names : list string) (sleep : bool) : EndpointInfo :=
  mkEndpointInfo (engine_url port (sv_name sv) "") names (uuid5 (sv_name sv)) (now w) (svc_get_model_label sv)
    sleep None (Some (sv_name sv)) (Some ns) (svc_get_model_info port w (sv_name sv)).

(** What an event says, or the exception of its handler. *)
Definition svc_verdict (e : event) : outcome decision :=
  let '(w, ev, sv) := e in
  let name := sv_name sv in
  if decide (ev = "DELETED"%string) then Ret DRemove else
  ready ← check_service_ready w name;
  let names := if (ready : bool) then svc_get_model_names port w name else [] in
  if str_empty name then Ret DKeep else
  if negb (bool_decide (ev = "ADDED" ∨ ev = "MODIFIED")%string) then Ret DKeep else
  match names with
  | [] => Ret (if decide (ev = "ADDED"%string) then DKeep else DRemove)
  | _ => mode ← svc_check_engine_sleep_mode w name;
         Ret (DAdd (svc_info w sv names
                (if (mode : bool) then svc_get_engine_sleep_status port w name else false)))
  end.

Lemma svc_remove_if_known name (s : table) :
  (known ← gets (dmem name); if (known : bool) then svc_delete_engine name else mret tt) s =
    (Ret tt, ddel name s).
Proof.
  unfold mbind, M_bind, gets, svc_delete_engine. destruct (dmem name s) eqn:E; [by rewrite E|].
  by rewrite ddel_absent.
Qed.

Lemma svc_add_engine_eq w sv names (s : table) :
  svc_add_engine port ns uuid5 w (sv_name sv) names (svc_get_model_label sv) s =
    match svc_check_engine_sleep_mode w (sv_name sv) with
    | Ret mode => (Ret tt, dset (sv_name sv) (svc_info w sv names
                     (if mode then svc_get_engine_sleep_status port w (sv_name sv) else false)) s)
    | Raise e => (Raise e, s)
    end.
Proof.
  unfold svc_add_engine, mbind, M_bind, lift, modify. by destruct (svc_check_engine_sleep_mode w (sv_name sv)).
Qed.

(** A handler does what its event says, or raises and changes nothing. *)
Lemma svc_watch_event_eq w ev sv (s : table) :
  svc_watch_event port ns uuid5 w ev sv s =
    match svc_verdict (w, ev, sv) with
    | Ret d => (Ret tt, apply_decision (sv_name sv) d s)
    | Raise e => (Raise e, s)
    end.
Proof.
  unfold svc_watch_event, svc_verdict. case_decide as Hdel; [apply svc_remove_if_known|].
  unfold mbind at 1, M_bind at 1, lift at 1. unfold mbind at 1, outcome_bind at 1.
  destruct (check_service_ready w (sv_name sv)) as [ready|e]; [|done]. unfold svc_on_engine_update.
  destruct (str_empty (sv_name sv)); cbn [orb]; [by repeat case_decide|].
  destruct (svc_get_model_names port w (sv_name sv)) as [|n names] eqn:En, ready; cbn [negb];
    case_bool_decide as Hev; cbn [negb]; repeat case_decide; subst; try tauto; try done;
    try apply svc_remove_if_known; rewrite ?svc_add_engine_eq;
    unfold mbind, outcome_bind; by destruct (svc_check_engine_sleep_mode w (sv_name sv)).
Qed.

(** ** The abstract specification *)
(** The events of a stream whose handlers return, up to the first exception. *)
Fixpoint heard (events : list event) : list (string * decision) :=
  match events with
  | [] => []
  | e :: events => match svc_verdict e with
                   | Ret d => (sv_name e.2, d) :: heard events
                   | Raise _ => []
                   end
  end.

Definition says (n : string) (nd : string * decision) : option (option EndpointInfo) :=
  if decide (nd.1 = n) then
    match nd.2 with DKeep => None | DRemove => Some None | DAdd i => Some (Some i) end
  else None.

(** The last word about a service: its engine, or nothing. *)
Definition last_word (words : list (string * decision)) (n : string) : option EndpointInfo :=
  mjoin (last (omap (says n) words)).

Definition apply_words (words : list (string * decision)) (s : table) : table :=
  foldl (λ s nd, apply_decision nd.1 nd.2 s) s words.

Lemma svc_watch_stream_words events s :
  (svc_watch_stream port ns uuid5 events s).2 = apply_words (heard events) s.
Proof.
  revert s. induction events as [|[[w ev] sv] events IH]; intros s; [done|].
  cbn [svc_watch_stream heard]. unfold mbind, M_bind. rewrite svc_watch_event_eq. destruct (svc_verdict (w, ev, sv)); [|done]. apply IH.
Qed.

Lemma svc_watch_engines_words streams s :
  svc_watch_engines port ns uuid5 streams s = apply_words (concat (heard <$> streams)) s.
Proof.
  unfold svc_watch_engines, apply_words. revert s. induction streams as [|events streams IH]; intros s; [done|].
  csimpl. rewrite foldl_app, IH. f_equal. apply svc_watch_stream_words.
Qed.

Lemma apply_decision_get name d (s : table) n :
  dict_wf s →
  dict_wf (apply_decision name d s) ∧
  dget n (apply_decision name d s) = match says n (name, d) with Some r => r | None => dget n s end.
Proof.
  intros Hs. unfold says. simpl. destruct d; simpl.
  - split; [done|]. by case_decide.
  - split; [by apply ddel_wf|]. case_decide; [subst; by apply dget_ddel_eq|by apply dget_ddel_ne].
  - split; [by apply dset_wf|]. rewrite dget_dset. by repeat case_decide.
Qed.

Lemma apply_words_get words (s : table) n :
  dict_wf s →
  dict_wf (apply_words words s) ∧
  dget n (apply_words words s) = match last (omap (says n) words) with Some r => r | None => dget n s end.
Proof.
  revert s. induction words as [|[name d] words IH]; intros s Hs; [done|].
  destruct (apply_decision_get name d s n Hs) as [Hs' Hg]. destruct (IH _ Hs') as [H1 H2].
  change (apply_words ((name, d) :: words) s) with (apply_words words (apply_decision name d s)).
  split; [done|]. rewrite H2, Hg. cbn [omap list_omap]. destruct (says n (name, d)) as [r|]; [|done].
  rewrite last_cons. by destruct (last _).
Qed.

(** C28. Discovery by service name implements its specification: over any number of
    watch streams, each cut short by an exception or not, the engine that the
    table holds for a service is the last word about it, that is, of the last event
    heard that adds or removes it (a [DELETED] event, a [MODIFIED] event of a
    service that is not ready or has no models, an [ADDED] or [MODIFIED] event of a
    ready one with models), and what is offered are exactly these engines. *)
Theorem service_last_word streams :
  let words := concat (heard <$> streams) in
  let s := svc_watch_engines port ns uuid5 streams svc_init in
  (∀ n, dget n s = last_word words n) ∧
  ∀ i, i ∈ svc_get_endpoint_info s ↔ ∃ n, last_word words n = Some i.
Proof.
  cbv zeta. rewrite svc_watch_engines_words. set (words := concat _).
  assert (∀ n, dget n (apply_words words svc_init) = last_word words n) as Hg.
  { intros n. destruct (apply_words_get words svc_init n dict_wf_nil) as [_ ->]. unfold last_word.
    by destruct (last _). }
  assert (dict_wf (apply_words words svc_init)) as Hwf
    by (by apply (apply_words_get words svc_init EmptyString), dict_wf_nil).
  split; [done|]. intros i. unfold svc_get_endpoint_info. split.
  - intros [n Hn]%dvals_dget; [|done]. exists n. by rewrite <- Hg.
  - intros [n Hn]. rewrite <- Hg in Hn. by eapply dget_dvals.
Qed.
End ServiceSpec.
