(* ===== verification/DiscoveryThreads.v ===== *)
(** * The threads inside service discovery

    [K8sPodIPServiceDiscovery] and [K8sServiceNameServiceDiscovery] read watch
    streams in a thread; [StaticServiceDiscovery] runs its health check as a
    task of an event loop that has a thread of its own.  Both are closed from
    the main thread.  Turns carry what the outside world does: the next item or
    the end of a stream, the outcome of a check, a timer or a timeout. *)
From stdpp Require Import base list strings gmap pretty.
From Stdlib Require Import Ascii.
From S2P Require Import Prelude PyDict PyStr Json Endpoint Routing StaticDiscovery K8sDiscovery K8sSpec.

Local Open Scope nat_scope.

(** ** The watcher thread *)
(** At [while self.running], waiting for the next item of a stream, in
    [time.sleep(0.5)], or ended. *)
Inductive kpc : Type := KHead | KNext | KNap | KEnd.
#[global] Instance kpc_eq_dec : EqDecision kpc.
Proof. solve_decision. Defined.

Section Watcher.
Context {E S : Type} (handler : E → M S unit).

Record kthread := mkKThread {
  k_running : bool;
  k_pc : kpc;
  k_state : S;
  k_opened : nat                           (* streams opened so far *)
}.

(** What the library's stream does next; [KTick] while it has nothing. *)
Inductive kinput : Type := KTick | KItem (e : E) | KStreamEnd | KStreamError.

(** [__init__] starts the thread *)
Definition k_start (s : S) : kthread := mkKThread true KHead s 0.

(** One turn of [_watch_engines] *)
Definition k_turn (i : kinput) (t : kthread) : kthread :=
  match k_pc t with
  | KHead => if k_running t then mkKThread true KNext (k_state t) (1 + k_opened t)
             else mkKThread false KEnd (k_state t) (k_opened t)
  | KNext =>
      match i with
      | KTick => t
      | KItem e =>
          let '(o, s) := handler e (k_state t) in
          mkKThread (k_running t) (match o with Ret _ => KNext | Raise _ => KNap end) s (k_opened t)
      | KStreamEnd => mkKThread (k_running t) KHead (k_state t) (k_opened t)
      | KStreamError => mkKThread (k_running t) KNap (k_state t) (k_opened t)
      end
  | KNap => mkKThread (k_running t) KHead (k_state t) (k_opened t)
  | KEnd => t
  end.

Definition k_turns (l : list kinput) (t : kthread) : kthread := foldl (flip k_turn) t l.

(** The first statement of [close]; the second, [k8s_watcher.stop()], asks the
    library to end its stream, and the third joins the thread. *)
Definition k_lower (t : kthread) : kthread := mkKThread false (k_pc t) (k_state t) (k_opened t).

(** [get_health] *)
Definition k_alive (t : kthread) : bool := bool_decide (k_pc t ≠ KEnd).

(** The items of a stream, handled until an exception. *)
Fixpoint run_stream (l : list E) : M S unit :=
  match l with [] => mret tt | e :: l => _ ← handler e; run_stream l end.

Lemma run_stream_snoc l e s s' :
  run_stream l s = (Ret tt, s') → run_stream (l ++ [e]) s = handler e s'.
Proof.
  revert s. induction l as [|x l IH]; intros s Hl; simpl in *.
  - injection Hl as ->. unfold mbind, M_bind. by destruct (handler e s') as [[[]|] ?].
  - unfold mbind, M_bind in *. destruct (handler x s) as [[[]|] s1]; [by apply IH|done].
Qed.

Definition run_streams (streams : list (list E)) (s : S) : S := foldl (λ s l, (run_stream l s).2) s streams.

(** The state of the thread is what some streams made of it; an open stream has
    not raised. *)
Definition k_reads (s0 : S) (t : kthread) : Prop :=
  ∃ streams, k_state t = run_streams streams s0 ∧
    (k_pc t = KNext → ∃ before cur, streams = before ++ [cur] ∧ run_stream cur (run_streams before s0) = (Ret tt, k_state t)).

Lemma run_streams_snoc streams l s : run_streams (streams ++ [l]) s = (run_stream l (run_streams streams s)).2.
Proof. unfold run_streams. by rewrite foldl_app. Qed.

Lemma k_turn_reads s0 i t : k_reads s0 t → k_reads s0 (k_turn i t).
Proof.
  intros (streams & Hs & Hn). unfold k_turn. destruct (k_pc t) eqn:Ep.
  - destruct (k_running t); [|by exists streams]. exists (streams ++ [[]]). simpl. rewrite run_streams_snoc.
    split; [done|]. intros _. exists streams, []. by rewrite <- Hs.
  - destruct (Hn eq_refl) as (before & cur & -> & Hc). destruct i; simpl.
    + exists (before ++ [cur]). rewrite Ep. split; [done|]. intros _. by exists before, cur.
    + destruct (handler e (k_state t)) as [o s'] eqn:Eh. pose proof (run_stream_snoc cur e _ _ Hc) as Hr. rewrite Eh in Hr.
      exists (before ++ [cur ++ [e]]). simpl. rewrite run_streams_snoc, Hr. split; [done|].
      destruct o as [[]|]; [|done]. intros _. exists before, (cur ++ [e]). by rewrite Hr.
    + exists (before ++ [cur]). by split.
    + exists (before ++ [cur]). by split.
  - exists streams. by split.
  - exists streams. by rewrite Ep.
Qed.

Lemma k_turns_reads s0 l t : k_reads s0 t → k_reads s0 (k_turns l t).
Proof. revert t. induction l as [|i l IH]; intros t Ht; [done|]. by apply IH, k_turn_reads. Qed.

Lemma k_start_reads s0 : k_reads s0 (k_start s0).
Proof. by exists []. Qed.

(** *** Closing *)
(** With the flag lowered, no stream is opened any more, and what is left ends. *)
Definition k_rank (t : kthread) : nat := match k_pc t with KEnd => 0 | KHead => 1 | KNap => 2 | KNext => 3 end.

Definition k_moves (i : kinput) : bool := match i with KTick | KItem _ => false | _ => true end.

Lemma k_turn_lowered i t :
  k_running t = false →
  k_running (k_turn i t) = false ∧ k_opened (k_turn i t) = k_opened t ∧ k_rank (k_turn i t) ≤ k_rank t ∧
  (k_alive t = true → k_moves i = true ∨ k_pc t ≠ KNext → k_rank (k_turn i t) < k_rank t).
Proof.
  destruct t as [r p s n]. simpl. intros ->. unfold k_turn, k_rank, k_alive. simpl.
  destruct p; simpl; [split_and!; [done|done|lia|lia]| |split_and!; [done|done|lia|lia]|split_and!; try done; lia].
  destruct i; simpl; try (split_and!; try done; try lia; intros _ [?|?]; done);
    try (split_and!; try done; lia).
  destruct (handler e s) as [[] s']; simpl; split_and!; try done; try lia; intros _ [?|?]; done.
Qed.

Lemma k_turns_lowered l t :
  k_running t = false →
  k_running (k_turns l t) = false ∧ k_opened (k_turns l t) = k_opened t ∧ k_rank (k_turns l t) ≤ k_rank t.
Proof.
  revert t. induction l as [|i l IH]; intros t Hr; [done|]. simpl. destruct (k_turn_lowered i t Hr) as (H1 & H2 & H3 & _).
  destruct (IH _ H1) as (H4 & H5 & H6). split_and!; [done|by rewrite H5|]. lia.
Qed.

Lemma k_rank_end t : k_rank t = 0 ↔ k_pc t = KEnd.
Proof. unfold k_rank. by destruct (k_pc t). Qed.

(** Once the stream ends or fails, at most three turns are left. *)
Lemma k_turns_end l t :
  k_running t = false → 3 ≤ length l → Forall (λ i, k_moves i = true) l → k_pc (k_turns l t) = KEnd.
Proof.
  intros Hr Hn Hm. assert (k_rank t ≤ length l) as Hk by (unfold k_rank; destruct (k_pc t); lia). clear Hn.
  revert t Hr Hk. induction Hm as [|i l Hi Hm IH]; intros t Hr Hk; simpl in *.
  - apply k_rank_end. lia.
  - destruct (k_turn_lowered i t Hr) as (H1 & H2 & H3 & H4). apply IH; [done|].
    destruct (k_alive t) eqn:Ea; [specialize (H4 eq_refl (or_introl Hi)); lia|].
    apply bool_decide_eq_false, dec_stable in Ea. apply k_rank_end in Ea. lia.
Qed.

(** The thread only ends after its flag was lowered. *)
Lemma k_turn_alive i t :
  (k_running t = true → k_pc t ≠ KEnd) →
  (k_running (k_turn i t) = true → k_pc (k_turn i t) ≠ KEnd).
Proof.
  destruct t as [r p s n]. unfold k_turn. simpl. intros H. destruct p; simpl; [by destruct r| |done|done].
  destruct i; simpl; try done. by destruct (handler e s) as [[] s'].
Qed.

Lemma k_turns_alive l s : k_running (k_turns l (k_start s)) = true → k_pc (k_turns l (k_start s)) ≠ KEnd.
Proof.
  assert (∀ t, (k_running t = true → k_pc t ≠ KEnd) → k_running (k_turns l t) = true → k_pc (k_turns l t) ≠ KEnd) as H.
  { induction l as [|i l IH]; intros t Ht; [done|]. by apply IH, k_turn_alive. }
  by apply H.
Qed.

Lemma k_turns_running l t : k_running (k_turns l t) = k_running t.
Proof.
  revert t. induction l as [|i l IH]; intros t; [done|]. simpl. rewrite IH. unfold k_turn.
  destruct t as [r p s n]; simpl. destruct p; simpl; [by destruct r| |done|done]. destruct i; simpl; try done.
  by destruct (handler e s) as [[] s'].
Qed.
End Watcher.

(** The handlers of the two modules *)
Definition pod_handler (port ns : string) (uuid5 : string → string) (prefill decode : labels)
    (e : world * string * pod) : M K8sPodIP unit :=
  watch_event port ns uuid5 prefill decode e.1.1 e.1.2 e.2.

Definition svc_handler (port ns : string) (uuid5 : string → string) (e : world * string * service)
    : M (list (string * EndpointInfo)) unit :=
  svc_watch_event port ns uuid5 e.1.1 e.1.2 e.2.

Lemma run_stream_pods port ns uuid5 prefill decode l s :
  run_stream (pod_handler port ns uuid5 prefill decode) l s = watch_stream port ns uuid5 prefill decode l s.
Proof.
  revert s. induction l as [|[[w ev] p] l IH]; intros s; [done|]. cbn [run_stream watch_stream].
  unfold mbind, M_bind. change (pod_handler port ns uuid5 prefill decode (w, ev, p) s)
    with (watch_event port ns uuid5 prefill decode w ev p s).
  destruct (watch_event _ _ _ _ _ w ev p s) as [[[]|] s']; [apply IH|done].
Qed.

Lemma run_streams_pods port ns uuid5 prefill decode streams s :
  run_streams (pod_handler port ns uuid5 prefill decode) streams s = watch_engines port ns uuid5 prefill decode streams s.
Proof.
  revert s. induction streams as [|l streams IH]; intros s; [done|].
  unfold run_streams, watch_engines in *. simpl. by rewrite IH, run_stream_pods.
Qed.

(** C18. The watcher thread of the discovery by pod address: as long as the module
    is not closed the thread is alive, whatever the handlers and the streams
    do; its table is always what a sequence of watch streams, each cut off by an
    exception or not, makes of the empty table, and is well-formed; and after
    [close] it opens no stream any more and has ended three turns after the
    library has ended or broken the stream it reads. *)
Theorem watcher_thread_lives port ns uuid5 prefill decode a before after ends :
  let handler := pod_handler port ns uuid5 prefill decode in
  let t := k_turns handler before (k_start (k8s_init a)) in
  let closed := k_turns handler after (k_lower t) in
  k_alive t = true ∧
  (∃ streams, k_state t = watch_engines port ns uuid5 prefill decode streams (k8s_init a)) ∧
  table_ok port ns uuid5 (k_state t) ∧
  k_opened closed = k_opened t ∧
  (3 ≤ length ends → Forall (λ i, k_moves i = true) ends → k_alive (k_turns handler ends closed) = false).
Proof.
  intros handler t closed.
  assert (∃ streams, k_state t = watch_engines port ns uuid5 prefill decode streams (k8s_init a)) as [streams Hs].
  { destruct (k_turns_reads handler (k8s_init a) before _ (k_start_reads handler _)) as (streams & Hs & _).
    exists streams. fold t in Hs. rewrite Hs. apply run_streams_pods. }
  destruct (k_turns_lowered handler after (k_lower t) eq_refl) as (H1 & H2 & _).
  split_and!; [| by eexists | | done | ].
  - apply bool_decide_eq_true. apply k_turns_alive. by rewrite k_turns_running.
  - rewrite Hs. apply watch_engines_ind; [intros; by apply watch_event_ok|]. split; [apply dict_wf_nil|done].
  - intros Hn Hm. apply bool_decide_eq_false. intros H. apply H. by apply k_turns_end.
Qed.

Lemma run_stream_services port ns uuid5 l s :
  run_stream (svc_handler port ns uuid5) l s = svc_watch_stream port ns uuid5 l s.
Proof.
  revert s. induction l as [|[[w ev] p] l IH]; intros s; [done|]. cbn [run_stream svc_watch_stream].
  unfold mbind, M_bind. change (svc_handler port ns uuid5 (w, ev, p) s) with (svc_watch_event port ns uuid5 w ev p s).
  destruct (svc_watch_event _ _ _ w ev p s) as [[[]|] s']; [apply IH|done].
Qed.

(** The table of the other module is what streams make of it, too. *)
Lemma svc_thread_reads port ns uuid5 l :
  ∃ streams, k_state (k_turns (svc_handler port ns uuid5) l (k_start svc_init)) =
    svc_watch_engines port ns uuid5 streams svc_init.
Proof.
  destruct (k_turns_reads (svc_handler port ns uuid5) svc_init l _ (k_start_reads _ _)) as (streams & -> & _).
  exists streams. unfold run_streams, svc_watch_engines. generalize svc_init as s.
  induction streams as [|l' streams IH]; intros s; [done|]. simpl. by rewrite IH, run_stream_services.
Qed.

(** ** The event loop of the health check *)
(** [check_model_health]: not started, at [while self._running], in the blocking
    checks, in [asyncio.sleep(60)], or finished. *)
Inductive hpc : Type := HNew | HHead | HCheck | HSleep | HEnd.
(** [shutdown()]: not started, waiting for the cancelled tasks, or finished. *)
Inductive spc : Type := SNew | SGather | SEnd.
#[global] Instance hpc_eq_dec : EqDecision hpc.
Proof. solve_decision. Defined.
#[global] Instance spc_eq_dec : EqDecision spc.
Proof. solve_decision. Defined.

(** Callbacks of the loop: create a task, a step of a task, the end of the task
    that [gather] waits for, and the hand-over of the result of [shutdown()] to
    the future of the main thread. *)
Inductive task : Type := Health | Shutdown.
Inductive cb : Type := Create (k : task) | Step (k : task) | GatherDone | SetFuture.
#[global] Instance task_eq_dec : EqDecision task.
Proof. solve_decision. Defined.
#[global] Instance cb_eq_dec : EqDecision cb.
Proof. solve_decision. Defined.

Record hloop := mkLoop {
  h_disc : StaticServiceDiscovery;
  h_pc : hpc;
  h_cancelled : bool;
  h_shutdown : spc;
  h_batch : list cb;           (* of the current iteration of the loop *)
  h_ready : list cb;           (* for the next one *)
  h_stopping : bool;           (* [loop.stop()] was called *)
  h_alive : bool;              (* the thread is in [run_forever] *)
  h_future : bool              (* the future of the main thread is done *)
}.

Definition set_running (b : bool) (s : StaticServiceDiscovery) : StaticServiceDiscovery :=
  mkStatic (s_urls s) (s_models s) (s_aliases s) (s_model_labels s) (s_model_types s)
    (s_engines_id s) (s_added_timestamp s) (s_unhealthy s) b (s_prefill_labels s) (s_decode_labels s).

(** [start_health_check_task] *)
Definition start_health_check_task (s : StaticServiceDiscovery) : hloop :=
  mkLoop s HNew false SNew [] [Create Health] false true false.

Section HealthLoop.
Context (md5 : string → string).

Definition set_hpc (p : hpc) (l : hloop) : hloop :=
  mkLoop (h_disc l) p (h_cancelled l) (h_shutdown l) (h_batch l) (h_ready l) (h_stopping l) (h_alive l) (h_future l).

(** The current callback is over; [new] are called soon. *)
Definition pop (new : list cb) (l : hloop) : hloop :=
  mkLoop (h_disc l) (h_pc l) (h_cancelled l) (h_shutdown l) (tail (h_batch l)) (h_ready l ++ new) (h_stopping l)
    (h_alive l) (h_future l).

(** The end of the task runs the callbacks of [gather], soon. *)
Definition finish_health (l : hloop) : hloop :=
  pop (if decide (h_shutdown l = SGather) then [GatherDone] else []) (set_hpc HEnd l).

(** A task that is cancelled before its first step never runs.  In the blocking
    checks nothing else of the loop runs. *)
Definition health_step (healthy : string → string → string → outcome bool) (l : hloop) : hloop :=
  match h_pc l with
  | HNew => if h_cancelled l then finish_health l else set_hpc HHead l
  | HHead => if s_running (h_disc l) then set_hpc HCheck l else finish_health l
  | HCheck =>
      match get_unhealthy_endpoint_hashes md5 healthy (h_disc l) with
      | Ret hashes =>
          pop [] (mkLoop (set_unhealthy hashes (h_disc l)) HSleep (h_cancelled l) (h_shutdown l) (h_batch l) (h_ready l)
                    (h_stopping l) (h_alive l) (h_future l))
      | Raise _ => set_hpc HHead l
      end
  | HSleep => if h_cancelled l then finish_health l else set_hpc HHead l
  | HEnd => pop [] l
  end.

(** [self.loop.stop()] and the end of [shutdown()] *)
Definition stop_loop (l : hloop) : hloop :=
  pop [SetFuture] (mkLoop (h_disc l) (h_pc l) (h_cancelled l) SEnd (h_batch l) (h_ready l) true (h_alive l) (h_future l)).

Definition shutdown_step (l : hloop) : hloop :=
  match h_shutdown l with
  | SNew =>
      if decide (h_pc l = HEnd) then stop_loop l
      else pop [Step Health] (mkLoop (h_disc l) (h_pc l) true SGather (h_batch l) (h_ready l) (h_stopping l) (h_alive l) (h_future l))
  | SGather => stop_loop l
  | SEnd => pop [] l
  end.

(** A turn of the thread.  An iteration runs the callbacks that were ready when
    it began; after [stop()] the loop ends with the current iteration. *)
Definition loop_turn (healthy : string → string → string → outcome bool) (l : hloop) : hloop :=
  if negb (h_alive l) then l else
  match h_batch l with
  | [] =>
      if h_stopping l
      then mkLoop (h_disc l) (h_pc l) (h_cancelled l) (h_shutdown l) [] (h_ready l) true false (h_future l)
      else mkLoop (h_disc l) (h_pc l) (h_cancelled l) (h_shutdown l) (h_ready l) [] false true (h_future l)
  | Create k :: _ => pop [Step k] l
  | Step Health :: _ => health_step healthy l
  | Step Shutdown :: _ => shutdown_step l
  | GatherDone :: _ => pop [Step Shutdown] l
  | SetFuture :: _ =>
      pop [] (mkLoop (h_disc l) (h_pc l) (h_cancelled l) (h_shutdown l) (h_batch l) (h_ready l) (h_stopping l) (h_alive l) true)
  end.

(** The sleep of 60 seconds is over. *)
Definition timer (l : hloop) : hloop :=
  if decide (h_pc l = HSleep) then
    mkLoop (h_disc l) (h_pc l) (h_cancelled l) (h_shutdown l) (h_batch l) (h_ready l ++ [Step Health]) (h_stopping l)
      (h_alive l) (h_future l)
  else l.

(** *** [close] *)
Inductive cstmt : Type := CLower | CSchedule | CWait | CJoin | CCloseLoop.

Definition close_stmts : list cstmt := [CLower; CSchedule; CWait; CJoin; CCloseLoop].

Record closing := mkClosing {
  c_loop : hloop;
  c_todo : list cstmt;
  c_loop_closed : bool;
  c_raised : option exn
}.

Definition with_loop (f : hloop → hloop) (c : closing) : closing :=
  mkClosing (f (c_loop c)) (c_todo c) (c_loop_closed c) (c_raised c).

Definition skip (n : nat) (c : closing) : closing :=
  mkClosing (c_loop c) (drop n (c_todo c)) (c_loop_closed c) (c_raised c).

(** A turn of the main thread; [timeout] if the time of a waiting statement is up.
    A running loop cannot be closed. *)
Definition close_turn (timeout : bool) (c : closing) : closing :=
  match c_todo c with
  | [] => c
  | CLower :: _ =>
      skip 1 (with_loop (λ l, mkLoop (set_running false (h_disc l)) (h_pc l) (h_cancelled l) (h_shutdown l) (h_batch l)
                              (h_ready l) (h_stopping l) (h_alive l) (h_future l)) c)
  | CSchedule :: _ =>
      if h_alive (c_loop c) then
        skip 1 (with_loop (λ l, mkLoop (h_disc l) (h_pc l) (h_cancelled l) (h_shutdown l) (h_batch l)
                                (h_ready l ++ [Create Shutdown]) (h_stopping l) (h_alive l) (h_future l)) c)
      else skip 2 c
  | CWait :: _ => if h_future (c_loop c) || timeout then skip 1 c else c
  | CJoin :: _ => if negb (h_alive (c_loop c)) || timeout then skip 1 c else c
  | CCloseLoop :: _ =>
      if c_loop_closed c then skip 1 c
      else if h_alive (c_loop c) then mkClosing (c_loop c) [] false (Some RuntimeError)
      else mkClosing (c_loop c) [] true None
  end.

Inductive cturn : Type :=
| TurnMain (timeout : bool)
| TurnLoop (healthy : string → string → string → outcome bool)
| TurnTimer.

Definition closing_turn (t : cturn) (c : closing) : closing :=
  match t with
  | TurnMain timeout => close_turn timeout c
  | TurnLoop healthy => with_loop (loop_turn healthy) c
  | TurnTimer => with_loop timer c
  end.

Definition closing_turns (l : list cturn) (c : closing) : closing := foldl (flip closing_turn) c l.

(** *** The future is never done *)
(** The result of [shutdown()] is handed over in an iteration that never comes. *)
Record mute (l : hloop) : Prop := {
  mu_future : h_future l = false;
  mu_batch : SetFuture ∉ h_batch l;
  mu_ready : SetFuture ∈ h_ready l → h_stopping l = true
}.

Lemma mute_pop new l :
  mute l → (SetFuture ∈ new → h_stopping l = true) → mute (pop new l).
Proof.
  intros [Hf Hb Hr] Hn. split; simpl; [done| |].
  - intros Hin. apply Hb. destruct (h_batch l); [done|]. by right.
  - intros [Hin|Hin]%elem_of_app; auto.
Qed.

Lemma mute_same l l' :
  h_future l' = h_future l → h_batch l' = h_batch l → h_ready l' = h_ready l →
  (h_stopping l = true → h_stopping l' = true) → mute l → mute l'.
Proof. intros E1 E2 E3 E4 [Hf Hb Hr]. split; rewrite ?E1, ?E2, ?E3; auto. Qed.

Ltac no_future := let H := fresh in intros H; exfalso; set_solver.

Lemma mute_finish l : mute l → mute (finish_health l).
Proof. intros Hl. apply mute_pop; [by eapply mute_same, Hl|]. case_decide; no_future. Qed.

Lemma mute_stop l : mute l → mute (stop_loop l).
Proof. intros Hl. apply mute_pop; [by eapply mute_same, Hl|done]. Qed.

Lemma mute_loop_turn healthy l : mute l → mute (loop_turn healthy l).
Proof.
  intros Hl. unfold loop_turn. destruct (h_alive l); [|done]. cbn [negb].
  destruct (h_batch l) as [|[k|[]| |] rest] eqn:Eb.
  - destruct Hl as [Hf Hb Hr]. destruct (h_stopping l) eqn:Es.
    + split; simpl; [done|no_future|done].
    + split; simpl; [done| |no_future]. intros Hin. by specialize (Hr Hin).
  - apply mute_pop; [done|no_future].
  - unfold health_step. destruct (h_pc l).
    1,4: destruct (h_cancelled l); [by apply mute_finish|by eapply mute_same, Hl].
    + destruct (s_running _); [by eapply mute_same, Hl|by apply mute_finish].
    + destruct (get_unhealthy_endpoint_hashes _ _ _); [|by eapply mute_same, Hl].
      apply mute_pop; [by eapply mute_same, Hl|no_future].
    + apply mute_pop; [done|no_future].
  - unfold shutdown_step. destruct (h_shutdown l); [|by apply mute_stop|apply mute_pop; [done|no_future]].
    case_decide; [by apply mute_stop|]. apply mute_pop; [by eapply mute_same, Hl|no_future].
  - apply mute_pop; [done|no_future].
  - exfalso. apply (mu_batch _ Hl). rewrite Eb. left.
Qed.

Lemma mute_timer l : mute l → mute (timer l).
Proof.
  intros Hl. unfold timer. case_decide; [|done]. destruct Hl as [Hf Hb Hr]. split; simpl; [done|done|].
  intros [Hin|Hin]%elem_of_app; [by apply Hr|]. exfalso. set_solver.
Qed.

(** *** Nothing stops the loop before [close] *)
Definition health_cb (c : cb) : Prop := c = Create Health ∨ c = Step Health.

Record calm (l : hloop) : Prop := {
  ca_alive : h_alive l = true;
  ca_stopping : h_stopping l = false;
  ca_shutdown : h_shutdown l = SNew;
  ca_batch : Forall health_cb (h_batch l);
  ca_ready : Forall health_cb (h_ready l)
}.

Lemma calm_pop new l : calm l → Forall health_cb new → calm (pop new l).
Proof.
  intros [H1 H2 H3 H4 H5] Hn. split; simpl; [done|done|done| |by apply Forall_app].
  destruct (h_batch l); [done|]. by apply Forall_cons in H4 as [_ ?].
Qed.

Lemma calm_finish l : calm l → calm (finish_health l).
Proof.
  intros Hl. unfold finish_health. rewrite decide_False by (rewrite (ca_shutdown _ Hl); done).
  apply calm_pop; [by destruct Hl|constructor].
Qed.

Lemma calm_loop_turn healthy l : calm l → calm (loop_turn healthy l).
Proof.
  intros Hl. pose proof Hl as [H1 H2 H3 H4 H5]. unfold loop_turn. rewrite H1, H2. cbn [negb].
  destruct (h_batch l) as [|c rest] eqn:Eb; [by split|].
  apply Forall_cons in H4 as [[->| ->] H4].
  - apply calm_pop; [done|]. apply Forall_singleton. by right.
  - unfold health_step. destruct (h_pc l).
    1,4: destruct (h_cancelled l); [by apply calm_finish|by destruct Hl].
    + destruct (s_running _); [by destruct Hl|by apply calm_finish].
    + destruct (get_unhealthy_endpoint_hashes _ _ _); [|by destruct Hl]. apply calm_pop; [by destruct Hl|constructor].
    + apply calm_pop; [done|constructor].
Qed.

Lemma calm_timer l : calm l → calm (timer l).
Proof.
  intros Hl. unfold timer. case_decide; [|done]. destruct Hl as [H1 H2 H3 H4 H5]. split; simpl; try done.
  apply Forall_app. split; [done|]. apply Forall_singleton. by right.
Qed.

(** While [close] runs without a timeout. *)
Record waits_out (c : closing) : Prop := {
  he_mute : mute (c_loop c);
  he_todo : c_todo c ∈ [close_stmts; drop 1 close_stmts; drop 2 close_stmts];
  he_calm : c_todo c ≠ drop 2 close_stmts → calm (c_loop c)
}.

Lemma waits_turn t c : t ≠ TurnMain true → waits_out c → waits_out (closing_turn t c).
Proof.
  intros Ht [Hm Hin Hc]. destruct t as [[]|healthy|]; [done| | |]; simpl.
  2:{ split; simpl; [by apply mute_loop_turn|done|intros H; by apply calm_loop_turn, Hc]. }
  2:{ split; simpl; [by apply mute_timer|done|intros H; by apply calm_timer, Hc]. }
  unfold close_turn.
  apply elem_of_cons in Hin as [Hin|[Hin|Hin%list_elem_of_singleton]%elem_of_cons]; rewrite Hin; simpl; unfold skip; simpl; rewrite ?Hin.
  - assert (calm (c_loop c)) as Hcalm by (apply Hc; rewrite Hin; discriminate).
    split; simpl; [by destruct Hm|set_solver|]. intros _. by destruct Hcalm.
  - assert (calm (c_loop c)) as Hcalm by (apply Hc; rewrite Hin; discriminate). rewrite (ca_alive _ Hcalm). simpl.
    split; simpl; rewrite ?Hin; [|set_solver|done]. destruct Hm as [Hf Hb Hr]. split; simpl; [done|done|].
    intros [H|H]%elem_of_app; [by apply Hr|]. exfalso. set_solver.
  - rewrite (mu_future _ Hm). simpl. split; [done| |done]. rewrite Hin. set_solver.
Qed.

Lemma waits_turns l c : Forall (λ t, t ≠ TurnMain true) l → waits_out c → waits_out (closing_turns l c).
Proof.
  intros Hl. revert c. induction Hl as [|t l Ht Hl IH]; intros c Hc; [done|]. by apply IH, waits_turn.
Qed.

(** Any turns of the loop and the timer since the start. *)
Definition loop_after (l : list (option (string → string → string → outcome bool))) (s : StaticServiceDiscovery) : hloop :=
  foldl (λ h o, match o with Some healthy => loop_turn healthy h | None => timer h end) (start_health_check_task s) l.

Lemma loop_after_calm l s : mute (loop_after l s) ∧ calm (loop_after l s).
Proof.
  unfold loop_after. assert (mute (start_health_check_task s) ∧ calm (start_health_check_task s)) as H.
  { split; split; simpl; try done; try constructor; try set_solver. by left. }
  revert H. generalize (start_health_check_task s). induction l as [|[healthy|] l IH]; intros h [Hm Hc]; [done| |];
    apply IH; split; auto using mute_loop_turn, calm_loop_turn, mute_timer, calm_timer.
Qed.

Definition main_turns (timeouts : list bool) : list cturn := TurnMain <$> timeouts.

(** When the task sleeps, eleven turns of the loop end it. *)
Lemma close_asleep disc healthy :
  let l := mkLoop disc HSleep false SNew [] [] false true false in
  let c := closing_turns (main_turns [false; false] ++ replicate 11 (TurnLoop healthy) ++ main_turns [true; false; false])
             (mkClosing l close_stmts false None) in
  c_todo c = [] ∧ c_raised c = None ∧ c_loop_closed c = true ∧ h_alive (c_loop c) = false.
Proof. done. Qed.

(** When the thread is busy with blocking checks for longer than both timeouts,
    the loop is still running when it is to be closed. *)
Lemma close_busy l :
  h_alive l = true → h_future l = false →
  let c := closing_turns (main_turns [false; false; true; true; false]) (mkClosing l close_stmts false None) in
  c_todo c = [] ∧ c_raised c = Some RuntimeError ∧ c_loop_closed c = false.
Proof.
  intros Ha Hf. destruct l; simpl in *; subst. done.
Qed.
End HealthLoop.

(** C19. Closing a static discovery with health checks: whatever its loop has done
    before and does meanwhile, [close] does not get past its wait for
    [shutdown()] before the timeout of 15 seconds, since the loop stops before
    the result is handed over; if the task was asleep the loop then ends and is
    closed; and if the thread is still in blocking checks when the two timeouts
    are over, [close] raises. *)
Theorem static_close_outcome md5 s history turns :
  let l := loop_after md5 history s in
  (Forall (λ t, t ≠ TurnMain true) turns →
   CWait ∈ c_todo (closing_turns md5 turns (mkClosing l close_stmts false None)) ∧
   h_future (c_loop (closing_turns md5 turns (mkClosing l close_stmts false None))) = false) ∧
  (l = mkLoop (h_disc l) HSleep false SNew [] [] false true false → ∀ healthy,
   let c := closing_turns md5 (main_turns [false; false] ++ replicate 11 (TurnLoop healthy) ++ main_turns [true; false; false])
             (mkClosing l close_stmts false None) in
   c_todo c = [] ∧ c_raised c = None ∧ c_loop_closed c = true ∧ h_alive (c_loop c) = false) ∧
  c_raised (closing_turns md5 (main_turns [false; false; true; true; false]) (mkClosing l close_stmts false None)) =
    Some RuntimeError.
Proof.
  intros l. destruct (loop_after_calm md5 history s) as [Hm Hc]. fold l in Hm, Hc. split_and!.
  - intros Ht. destruct (waits_turns md5 turns (mkClosing l close_stmts false None) Ht) as [H1 H2 _].
    { split; simpl; [done|left|done]. }
    split; [|apply H1]. revert H2. generalize (c_todo (closing_turns md5 turns (mkClosing l close_stmts false None))).
    intros todo Hin. apply elem_of_cons in Hin as [->|[->| ->%list_elem_of_singleton]%elem_of_cons]; simpl; set_solver.
  - intros E healthy. rewrite E. apply close_asleep.
  - apply (close_busy md5 l); [apply Hc|apply Hm].
Qed.

(** The usual state: six turns after the start the task is asleep. *)
Lemma loop_sleeps md5 s healthy hashes :
  s_running s = true → get_unhealthy_endpoint_hashes md5 healthy s = Ret hashes →
  loop_after md5 (replicate 6 (Some healthy)) s = mkLoop (set_unhealthy hashes s) HSleep false SNew [] [] false true false.
Proof.
  intros Hr Hh. unfold loop_after. change (replicate 6 (Some healthy)) with (replicate 4 (Some healthy) ++ [Some healthy; Some healthy]).
  rewrite foldl_app. change (foldl _ _ (replicate 4 _)) with (mkLoop s HHead false SNew [Step Health] [] false true false).
  cbn [foldl].
  assert (loop_turn md5 healthy (mkLoop s HHead false SNew [Step Health] [] false true false) =
    mkLoop s HCheck false SNew [Step Health] [] false true false) as ->.
  { unfold loop_turn, health_step. cbn. by rewrite Hr. }
  unfold loop_turn, health_step. cbn [h_alive negb h_batch h_pc h_disc]. by rewrite Hh.
Qed.

(** Without model types every round of checks raises, and the task goes on without
    a pause: no other callback of the loop runs. *)
Lemma health_spins md5 healthy l n :
  s_model_types (h_disc l) = None → s_running (h_disc l) = true → h_alive l = true → h_batch l = [Step Health] →
  h_pc l = HHead ∨ h_pc l = HCheck →
  let l' := Nat.iter n (loop_turn md5 healthy) l in
  h_batch l' = [Step Health] ∧ (h_pc l' = HHead ∨ h_pc l' = HCheck) ∧ h_ready l' = h_ready l ∧ h_disc l' = h_disc l.
Proof.
  intros Hty Hr Ha Hb Hp l'.
  enough (h_disc l' = h_disc l ∧ h_alive l' = true ∧ h_batch l' = [Step Health] ∧ (h_pc l' = HHead ∨ h_pc l' = HCheck) ∧
    h_ready l' = h_ready l) as (H1 & _ & H3 & H4 & H5) by by split_and!.
  subst l'. induction n as [|n IH]; [by simpl|]. simpl.
  destruct IH as (E1 & E2 & E3 & E4 & E5). set (k := Nat.iter n (loop_turn md5 healthy) l) in *. clearbody k.
  unfold loop_turn. rewrite E2, E3. simpl. unfold health_step, get_unhealthy_endpoint_hashes.
  rewrite E1, Hty, Hr. destruct E4 as [-> | ->]; simpl; rewrite ?E1; split_and!; auto.
Qed.
