(* ===== verification/Config.v ===== *)
(** * Command line and feature gates: [parsers/parser.py] and
    [experimental/feature_gates.py]

    The namespace of the options is a dict from option names to values.  What
    [argparse] makes of the command line is the list [cli] of the options given
    there with their converted values; [convert] is its conversion of string
    defaults. *)
From stdpp Require Import base list strings gmap.
From Stdlib Require Import Ascii QArith.
From S2P Require Import Prelude PyDict PyStr Json Endpoint Routing Utils.

Abbreviation namespace := (list (string * json)).

(** ** The options and their defaults, in the order of [parse_args] *)
Definition serving_defaults : namespace := [
  ("host", JStr "0.0.0.0"); ("port", JInt 8001);
  ("service_discovery", JNull); ("k8s_service_discovery_type", JNull);
  ("static_backends", JNull); ("static_models", JNull); ("static_aliases", JNull);
  ("static_model_types", JNull); ("static_model_labels", JNull);
  ("static_backend_health_checks", JBool false);
  ("k8s_port", JInt 8000); ("k8s_namespace", JStr "default"); ("k8s_label_selector", JStr "");
  ("k8s_watcher_timeout_seconds", JInt 0); ("backend_health_check_timeout_seconds", JInt 10);
  ("routing_logic", JNull); ("lmcache_controller_port", JInt 9000); ("session_key", JNull);
  ("callbacks", JNull); ("request_rewriter", JStr "noop")]%string.

Definition service_defaults : namespace := [
  ("enable_batch_api", JBool false); ("file_storage_class", JStr "local_file");
  ("file_storage_path", JStr "/tmp/vllm_files"); ("batch_processor", JStr "local");
  ("engine_stats_interval", JInt 30); ("request_stats_window", JInt 60);
  ("log_stats", JBool false); ("log_stats_interval", JInt 10);
  ("dynamic_config_yaml", JNull); ("dynamic_config_json", JNull)]%string.

(** [add_semantic_cache_args] *)
Definition semantic_cache_defaults : namespace := [
  ("semantic_cache_model", JStr "all-MiniLM-L6-v2"); ("semantic_cache_dir", JStr "semantic_cache");
  ("semantic_cache_threshold", JFloat (95 # 100))]%string.

Definition other_defaults : namespace := [
  ("feature_gates", JStr ""); ("log_level", JStr "info"); ("sentry_dsn", JNull);
  ("sentry_traces_sample_rate", JFloat (1 # 10));
  ("sentry_profile_session_sample_rate", JFloat 1);
  ("prefill_model_labels", JNull); ("decode_model_labels", JNull);
  ("kv_aware_threshold", JInt 2000)]%string.

Definition builtin_defaults (semantic_cache_available : bool) : namespace :=
  serving_defaults ++ service_defaults ++
  (if semantic_cache_available then semantic_cache_defaults else []) ++ other_defaults.

(** [args.name] *)
Definition attr (k : string) (args : namespace) : outcome json :=
  or_raise AttributeError (dget k args).

Definition system_exit : exn := OtherError "SystemExit".

Section Parse.
(** [argparse] applies the type of an option to a default that is a string. *)
Context (convert : string → string → outcome json).

Definition convert_default (k : string) (v : json) : outcome json :=
  match v with JStr s => convert k s | _ => Ret v end.

(** The namespace of a parser: the options of the command line, else the
    defaults. *)
Fixpoint parse_namespace (cli defaults : namespace) : outcome namespace :=
  match defaults with
  | [] => Ret []
  | (k, v) :: defaults =>
      v ← match dget k cli with Some given => Ret given | None => convert_default k v end;
      rest ← parse_namespace cli defaults;
      Ret ((k, v) :: rest)
  end.

(** [load_initial_config_from_config_file_if_required]; the files are read by
    [read_yaml] and [read_json]. *)
Context (read_yaml : string → outcome namespace) (read_json : string → outcome json).

Definition load_initial_config (cli defaults args : namespace) : outcome namespace :=
  yaml ← attr "dynamic_config_yaml" args;
  js ← attr "dynamic_config_json" args;
  if truthy yaml then
    path ← as_str yaml;
    config ← read_yaml path;
    parse_namespace cli (dupdate config defaults)
  else if truthy js then
    path ← as_str js;
    v ← read_json path;
    match v with
    | JObj config => parse_namespace cli (dupdate config defaults)
    | _ => Raise TypeError
    end
  else Ret args.
End Parse.

(** ** Validation *)
Definition verify_required_args_provided (args : namespace) : outcome unit :=
  rl ← attr "routing_logic" args;
  if negb (truthy rl) then Raise system_exit else
  sd ← attr "service_discovery" args;
  if negb (truthy sd) then Raise system_exit else Ret tt.

Definition validate_static_model_types (model_types : json) : outcome unit :=
  if is_none model_types then Raise ValueError else
  s ← as_str model_types;
  if forallb (λ t, bool_decide (t ∈ get_all_fields)) (split_on "," s) then Ret tt
  else Raise ValueError.

(** [if cond: raise ValueError(...)] *)
Definition refuse_if (cond : outcome bool) : outcome unit :=
  b ← cond; if (b : bool) then Raise ValueError else Ret tt.

(** [a and b], where [b] is only evaluated when [a] holds. *)
Definition and_then (a b : outcome bool) : outcome bool :=
  x ← a; if (x : bool) then b else Ret false.

Definition arg_is (k s : string) (args : namespace) : outcome bool := v ← attr k args; Ret (eq_str v s).
Definition arg_none (k : string) (args : namespace) : outcome bool := v ← attr k args; Ret (is_none v).
Definition arg_truthy (k : string) (args : namespace) : outcome bool := v ← attr k args; Ret (truthy v).

Definition validate_static (args : namespace) : outcome unit :=
  _ ← refuse_if (arg_none "static_backends" args);
  _ ← refuse_if (arg_none "static_models" args);
  checks ← arg_truthy "static_backend_health_checks" args;
  if (checks : bool) then ts ← attr "static_model_types" args; validate_static_model_types ts
  else Ret tt.

Definition validate_args (args : namespace) : outcome unit :=
  _ ← verify_required_args_provided args;
  static ← arg_is "service_discovery" "static" args;
  _ ← (if (static : bool) then validate_static args else Ret tt);
  _ ← refuse_if (and_then (arg_is "service_discovery" "k8s" args) (arg_none "k8s_port" args));
  _ ← refuse_if (and_then (arg_is "routing_logic" "session" args) (arg_none "session_key" args));
  _ ← refuse_if (and_then (arg_truthy "log_stats" args)
                   (v ← attr "log_stats_interval" args; le_zero v));
  _ ← refuse_if (v ← attr "engine_stats_interval" args; le_zero v);
  _ ← refuse_if (v ← attr "request_stats_window" args; le_zero v);
  _ ← refuse_if (v ← attr "sentry_traces_sample_rate" args; b ← in_unit_interval v; Ret (negb b));
  refuse_if (v ← attr "sentry_profile_session_sample_rate" args; b ← in_unit_interval v; Ret (negb b)).

(** [parse_args] *)
Definition parse_args (convert : string → string → outcome json) read_yaml read_json
    (semantic_cache_available : bool) (cli : namespace) : outcome namespace :=
  let defaults := builtin_defaults semantic_cache_available in
  args ← parse_namespace convert cli defaults;
  args ← load_initial_config convert read_yaml read_json cli defaults args;
  _ ← validate_args args;
  Ret args.

(** ** [FeatureGates] *)
Definition enable (feature : string) (s : gset string) : gset string := {[feature]} ∪ s.
Definition disable (feature : string) (s : gset string) : gset string := s ∖ {[feature]}.
Definition is_enabled (feature : string) (s : gset string) : bool := bool_decide (feature ∈ s).

Definition configure (config : list (string * bool)) (s : gset string) : gset string :=
  foldl (λ s fe, if (fe.2 : bool) then enable fe.1 s else disable fe.1 s) s config.

(** The loop over the items; items without an equals sign are skipped. *)
Fixpoint parse_features (items : list string) (features : list (string * bool))
    : list (string * bool) :=
  match items with
  | [] => features
  | item :: items =>
      match split_once "=" item with
      | None => parse_features items features
      | Some (name, value) =>
          parse_features items
            (dset (strip name) (String.eqb (lower (strip value)) "true") features)
      end
  end.

Definition initialize_feature_gates (config : option string) (s : gset string) : gset string :=
  match config with
  | None | Some EmptyString => s
  | Some c => configure (parse_features (split_on "," c) []) s
  end.

(** ** Lemmas *)
Lemma parse_namespace_get convert cli defaults ns k :
  parse_namespace convert cli defaults = Ret ns →
  match dget k defaults with
  | None => dget k ns = None
  | Some v =>
      match dget k cli with
      | Some given => dget k ns = Some given
      | None => ∃ v', convert_default convert k v = Ret v' ∧ dget k ns = Some v'
      end
  end.
Proof.
  revert ns. induction defaults as [|[k' v] defaults IH]; intros ns; simpl; [by intros [= <-]|].
  unfold mbind, outcome_bind. destruct (dget k' cli) as [g|] eqn:Eg.
  - destruct (parse_namespace convert cli defaults) as [rest|]; [|done].
    intros [= <-]. simpl. case_decide as Hk; [subst; by rewrite Eg|by apply IH].
  - destruct (convert_default convert k' v) as [v'|] eqn:Ev; [|done].
    destruct (parse_namespace convert cli defaults) as [rest|]; [|done].
    intros [= <-]. simpl. case_decide as Hk; [subst; rewrite Eg; by exists v'|by apply IH].
Qed.

Lemma refuse_if_Ret c : refuse_if c = Ret tt → c = Ret false.
Proof. unfold refuse_if, mbind, outcome_bind. by destruct c as [[]|]. Qed.

(** The features a list of items names, in order. *)
Definition item_feature (item : string) : option (string * bool) :=
  match split_once "=" item with
  | None => None
  | Some (name, value) => Some (strip name, String.eqb (lower (strip value)) "true")
  end.

Lemma parse_features_dupdate items acc : parse_features items acc = dupdate (omap item_feature items) acc.
Proof.
  revert acc. induction items as [|item items IH]; intros acc; simpl; [done|].
  unfold item_feature at 1. destruct (split_once "=" item) as [[name value]|]; apply IH.
Qed.

Lemma configure_spec (config : list (string * bool)) s f :
  dict_wf config →
  is_enabled f (configure config s) = default (is_enabled f s) (dget f config).
Proof.
  unfold configure, is_enabled. revert s. induction config as [|[k b] config IH]; intros s Hwf; [done|].
  unfold dict_wf, dkeys in Hwf. csimpl in Hwf. apply NoDup_cons in Hwf as [Hk Hwf].
  simpl. rewrite IH by done. case_decide as Hf.
  - subst. assert (dget k config = None) as -> by by apply dget_None. simpl.
    destruct b; unfold enable, disable; [apply bool_decide_true|apply bool_decide_false]; set_solver.
  - destruct (dget f config); [done|]. simpl. apply bool_decide_ext.
    destruct b; unfold enable, disable; set_solver.
Qed.

(** ** Properties *)
(** The command line wins over the configuration file and the file over
    the built-in defaults: in the namespace obtained with a JSON configuration,
    an option given on the command line has the value given there; otherwise an
    option of the file has the file's value (converted when it is a string);
    otherwise it has the built-in default. *)
Theorem config_file_precedence convert read_yaml read_json cli defaults args config path ns k v :
  dget "dynamic_config_yaml" args = Some JNull →
  dget "dynamic_config_json" args = Some (JStr path) → path ≠ EmptyString →
  read_json path = Ret (JObj config) → dict_wf config →
  load_initial_config convert read_yaml read_json cli defaults args = Ret ns →
  dget k defaults = Some v →
  match dget k cli with
  | Some given => dget k ns = Some given
  | None => ∃ v', convert_default convert k (default v (dget k config)) = Ret v' ∧ dget k ns = Some v'
  end.
Proof.
  intros Hy Hj Hp Hr Hwf Hload Hv. unfold load_initial_config, attr, mbind, outcome_bind in Hload.
  rewrite Hy, Hj in Hload. cbn [or_raise truthy] in Hload.
  destruct path as [|c path]; [done|]. cbn [str_empty negb as_str] in Hload. rewrite Hr in Hload.
  apply (parse_namespace_get _ _ _ _ k) in Hload. rewrite dget_dupdate in Hload by done.
  destruct (dget k config) as [fv|]; [done|]. by rewrite Hv in Hload.
Qed.

Lemma config_file_precedence_witness :
  ∃ v', convert_default (λ _ s, Ret (JStr s)) "port" (JInt 9) = Ret v' ∧
    dget "port"%string [("port", JInt 9); ("dynamic_config_yaml", JNull);
      ("dynamic_config_json", JStr "f")]%string = Some v'.
Proof.
  apply (config_file_precedence (λ _ s, Ret (JStr s)) (λ _, Ret []) (λ _, Ret (JObj [("port", JInt 9)]%string))
    [("dynamic_config_json", JStr "f")]%string
    [("port", JInt 8001); ("dynamic_config_yaml", JNull); ("dynamic_config_json", JNull)]%string
    [("port", JInt 8001); ("dynamic_config_yaml", JNull); ("dynamic_config_json", JStr "f")]%string
    [("port", JInt 9)]%string "f" _ "port" (JInt 8001)).
  - reflexivity.
  - reflexivity.
  - done.
  - reflexivity.
  - unfold dict_wf, dkeys. simpl. apply NoDup_singleton.
  - reflexivity.
  - reflexivity.
Defined.

(** The values a list of bindings gives to a key, oldest first. *)
Definition bindings {V} (k : string) (l : list (string * V)) : list V :=
  omap (λ kv, if decide (kv.1 = k) then Some kv.2 else None) l.

Lemma dget_dupdate_last {V} (l d : list (string * V)) k :
  dget k (dupdate l d) = match last (bindings k l) with Some v => Some v | None => dget k d end.
Proof.
  induction l as [|[k' v] l IH] using rev_ind; [done|].
  unfold dupdate, bindings in *. rewrite foldl_app, omap_app. simpl. rewrite dget_dset.
  case_decide; simpl; [by rewrite last_snoc|]. by rewrite app_nil_r.
Qed.

(** Feature gates: after initialisation with a configuration string, a
    feature is enabled exactly when the last item that names it says true (up to
    case and surrounding blanks); features that no item names keep their state. *)
Theorem feature_gates_last_item c (s : gset string) f :
  is_enabled f (initialize_feature_gates (Some c) s) =
  default (is_enabled f s) (last (bindings f (omap item_feature (split_on "," c)))).
Proof.
  destruct c as [|a c]; [done|]. unfold initialize_feature_gates.
  rewrite configure_spec, parse_features_dupdate, dget_dupdate_last.
  - by destruct (last (bindings f _)).
  - rewrite parse_features_dupdate. apply dupdate_wf, dict_wf_nil.
Qed.
