(* ===== verification/Dynamic.v ===== *)
(** * Service discovery registry, dynamic configuration and start-up:
    the module functions of [service_discovery.py], [dynamic_config.py],
    [callbacks_service/callbacks.py] and [app.initialize_all]

    The state of the whole router is a [System]: the global service discovery,
    the registry of routers and what hangs off [app.state].  What closing the old
    discovery and the old routers gives is an argument ([close_results]): both
    may raise.  The specification of a poll follows the stages of
    [reconfigure_all] and says what is left when one of them fails. *)
From stdpp Require Import base list strings gmap.
From Stdlib Require Import Ascii QArith.
From S2P Require Import Prelude PyDict PyStr Json Endpoint HashTrie HashRing Routing Utils StaticDiscovery K8sDiscovery Config.

(** ** Service discovery modules *)
Record k8s_config := mkK8sConfig {
  kc_namespace : json;
  kc_port : json;
  kc_label_selector : json;
  kc_prefill : labels;
  kc_decode : labels
}.

Inductive discovery : Type :=
| DStatic (s : StaticServiceDiscovery)
| DPodIP (c : k8s_config) (s : K8sPodIP)
| DServiceName (c : k8s_config) (s : list (string * EndpointInfo)).

(** The arguments of [_create_service_discovery]. *)
Inductive sd_request : Type :=
| SDStatic (urls : list string) (models : option (list string)) (aliases : option (list (string * string)))
    (model_labels model_types : option (list string)) (health_checks : bool) (prefill decode : labels)
| SDK8s (k8s_type : option string) (c : k8s_config)
| SDInvalid.

(** What closing the service discovery and the kv-aware router gives, when it
    comes to it. *)
Record close_results := mkCloses {
  sd_result : outcome unit;
  kv_result : outcome unit
}.

Definition closes_well : close_results := mkCloses (Ret tt) (Ret tt).

Section Dynamic.
Context {ring : Type} `{!HashRing ring} {tokenizer : Type}.
(** Fresh [uuid4] strings, the clock, and whether a kube configuration loads. *)
Context (ids : list string) (t0 : Z) (load_kube_config : outcome unit).
(** [importlib.import_module] and [getattr] for the callbacks. *)
Context (import_callbacks : string → string → outcome string).

Local Abbreviation router := (@Routing.router ring tokenizer).

Record System := mkSystem {
  service_discovery : option discovery;
  closed_discoveries : list discovery;
  registry : list (router_kind * router);
  app_router : option router;
  app_callbacks : option string;
  app_clients : App
}.

Definition set_sd (d : option discovery) (closed : list discovery) (s : System) : System :=
  mkSystem d (closed_discoveries s ++ closed) (registry s) (app_router s) (app_callbacks s)
    (app_clients s).

(** [normalized_type] *)
Definition k8s_variant (k8s_type : option string) : string :=
  match k8s_type with
  | None => "pod-ip"
  | Some ty => if str_empty (strip ty) then "pod-ip" else lower (strip ty)
  end%string.

Definition create_service_discovery (a : App) (r : sd_request) : outcome discovery :=
  match r with
  | SDStatic urls models aliases mlabels types _ prefill decode =>
      models ← or_raise TypeError models;
      s ← static_init ids t0 urls models aliases mlabels types prefill decode;
      Ret (DStatic s)
  | SDK8s k8s_type c =>
      _ ← load_kube_config;
      Ret (if decide (k8s_variant k8s_type = "service-name"%string) then DServiceName c svc_init
           else DPodIP c (k8s_init a))
  | SDInvalid => Raise ValueError
  end.

Definition initialize_service_discovery (r : sd_request) : M System unit := λ s,
  match service_discovery s with
  | Some _ => (Raise ValueError, s)
  | None =>
      match create_service_discovery (app_clients s) r with
      | Raise e => (Raise e, s)
      | Ret d => (Ret tt, set_sd (Some d) [] s)
      end
  end.

(** The new module is created before the old one is closed; [close_old] is what
    the [close()] of the old one gives.  When it raises, the old module stays the
    global one and the new one, whose threads run, is dropped. *)
Definition reconfigure_service_discovery (close_old : outcome unit) (r : sd_request) : M System unit := λ s,
  match service_discovery s with
  | None => (Raise ValueError, s)
  | Some old =>
      match create_service_discovery (app_clients s) r with
      | Raise e => (Raise e, s)
      | Ret d =>
          match close_old with
          | Raise e => (Raise e, s)
          | Ret _ => (Ret tt, set_sd (Some d) [old] s)
          end
      end
  end.

Definition get_service_discovery (s : System) : outcome discovery :=
  or_raise ValueError (service_discovery s).

(** ** Callbacks *)
Definition configure_custom_callbacks (location : string) : M System unit := λ s,
  let parts := split_on "." location in
  let module_name := join "." (take (length parts - 1) parts) in
  let instance_name := default EmptyString (last parts) in
  match import_callbacks module_name instance_name with
  | Raise e => (Raise e, s)
  | Ret c => (Ret tt, mkSystem (service_discovery s) (closed_discoveries s) (registry s)
                        (app_router s) (Some c) (app_clients s))
  end.

(** ** [DynamicRouterConfig] *)
(** The fields of the dataclass with their defaults; the first two are required. *)
Definition config_fields : namespace := [
  ("service_discovery", JNull); ("routing_logic", JNull);
  ("static_backends", JNull); ("static_models", JNull); ("static_aliases", JNull);
  ("static_model_labels", JNull); ("static_model_types", JNull);
  ("static_backend_health_checks", JBool false);
  ("prefill_model_labels", JNull); ("decode_model_labels", JNull);
  ("k8s_port", JNull); ("k8s_namespace", JNull); ("k8s_label_selector", JNull);
  ("session_key", JNull); ("callbacks", JNull)]%string.

(** Calling the dataclass with the keys of a dict. *)
Definition make_config (config : namespace) : outcome namespace :=
  if forallb (λ kv, dmem kv.1 config_fields) config &&
     dmem "service_discovery"%string config && dmem "routing_logic"%string config
  then Ret (dupdate config config_fields)
  else Raise TypeError.

(** The attributes [from_args] copies. *)
Definition from_args_fields : list string :=
  ["service_discovery"; "static_backends"; "static_models"; "static_model_types"; "static_aliases";
   "k8s_port"; "k8s_namespace"; "k8s_label_selector"; "routing_logic"; "session_key"; "callbacks"]%string.

Fixpoint copy_fields (ks : list string) (args : namespace) : outcome namespace :=
  match ks with
  | [] => Ret []
  | k :: ks => v ← attr k args; rest ← copy_fields ks args; Ret ((k, v) :: rest)
  end.

Definition from_args (args : namespace) : outcome namespace :=
  c ← copy_fields from_args_fields args; make_config c.

(** [config != self.current_config] *)
Definition config_eqb (a b : namespace) : bool := json_eqb (JObj a) (JObj b).

(** A field of a configuration. *)
Definition fieldv (k : string) (c : namespace) : json := dict_get k JNull c.

(** Optional strings of the configuration: [None] stays [None], a value without
    [split] raises. *)
Definition opt_str (v : json) : outcome (option string) :=
  match v with JNull => Ret None | JStr s => Ret (Some s) | _ => Raise AttributeError end.

Definition comma_labels (v : json) : outcome labels :=
  o ← opt_str v;
  Ret (match parse_comma_separated_args o with None => LNone | Some l => LList l end).

Definition comma_list (v : json) : outcome (option (list string)) :=
  o ← opt_str v; Ret (parse_comma_separated_args o).

Definition aliases_of (v : json) : outcome (option (list (string * string))) :=
  if truthy v then s ← as_str v; a ← parse_static_aliases s; Ret (Some a) else Ret None.

(** The request the watcher makes for a configuration. *)
Definition watcher_sd_request (c : namespace) : outcome sd_request :=
  if eq_str (fieldv "service_discovery" c) "static" then
    backends ← as_str (fieldv "static_backends" c);
    models ← comma_list (fieldv "static_models" c);
    aliases ← aliases_of (fieldv "static_aliases" c);
    mlabels ← comma_list (fieldv "static_model_labels" c);
    types ← comma_list (fieldv "static_model_types" c);
    prefill ← comma_labels (fieldv "prefill_model_labels" c);
    decode ← comma_labels (fieldv "decode_model_labels" c);
    Ret (SDStatic (parse_static_urls backends) models aliases mlabels types
           (truthy (fieldv "static_backend_health_checks" c)) prefill decode)
  else if eq_str (fieldv "service_discovery" c) "k8s" then
    prefill ← comma_labels (fieldv "prefill_model_labels" c);
    decode ← comma_labels (fieldv "decode_model_labels" c);
    Ret (SDK8s (Some "pod-ip"%string) (mkK8sConfig (fieldv "k8s_namespace" c) (fieldv "k8s_port" c)
           (fieldv "k8s_label_selector" c) prefill decode))
  else Raise ValueError.

(** ** [DynamicConfigWatcher] *)
Definition watcher_reconfigure_service_discovery (cl : close_results) (c : namespace) : M System unit :=
  r ← lift (watcher_sd_request c); reconfigure_service_discovery (sd_result cl) r.

(** A logic that is no string is none of [RoutingLogic]; so is the empty one. *)
Definition logic_of (c : namespace) : string :=
  match fieldv "routing_logic" c with JStr l => l | _ => EmptyString end.

(** Only the session key is passed on; a key that is neither null nor a string
    is read as null. *)
Definition watcher_kwargs (c : namespace) : router_kwargs :=
  mkKwargs (match fieldv "session_key" c with JStr key => Some key | _ => None end) None LNone LNone.

Definition watcher_reconfigure_routing_logic (cl : close_results) (c : namespace) : M System unit := λ s,
  match reconfigure_routing_logic (kv_result cl) (logic_of c) (watcher_kwargs c) (registry s) with
  | (Raise e, reg) =>
      (Raise e, mkSystem (service_discovery s) (closed_discoveries s) reg (app_router s)
                  (app_callbacks s) (app_clients s))
  | (Ret r, reg) =>
      (Ret tt, mkSystem (service_discovery s) (closed_discoveries s) reg (Some r)
                  (app_callbacks s) (app_clients s))
  end.

Definition reconfigure_callbacks (c : namespace) : M System unit :=
  if truthy (fieldv "callbacks" c) then
    loc ← lift (as_str (fieldv "callbacks" c)); configure_custom_callbacks loc
  else modify (λ s, mkSystem (service_discovery s) (closed_discoveries s) (registry s) (app_router s)
                      None (app_clients s)).

(** [reconfigure_batch_api] and [reconfigure_stats] do nothing. *)
Definition reconfigure_all (cl : close_results) (c : namespace) : M System unit :=
  _ ← watcher_reconfigure_service_discovery cl c;
  _ ← watcher_reconfigure_routing_logic cl c;
  reconfigure_callbacks c.

(** One iteration of [_watch_worker]: [loaded] is what reading the file gave.
    Every exception is logged. *)
Definition watch_once (cl : close_results) (loaded : outcome namespace) (current : namespace) (s : System)
    : namespace * System :=
  match loaded with
  | Raise _ => (current, s)
  | Ret config =>
      if config_eqb config current then (current, s)
      else match reconfigure_all cl config s with
           | (Ret _, s') => (config, s')
           | (Raise _, s') => (current, s')
           end
  end.

(** ** [app.initialize_all]: service discovery, the watcher's configuration,
    callbacks, routing logic and feature gates *)
Definition startup_sd_request (args : namespace) : outcome sd_request :=
  if eq_str (fieldv "service_discovery" args) "static" then
    backends ← as_str (fieldv "static_backends" args);
    models ← comma_list (fieldv "static_models" args);
    aliases ← aliases_of (fieldv "static_aliases" args);
    types ← (if truthy (fieldv "static_model_types" args)
             then comma_list (fieldv "static_model_types" args) else Ret None);
    mlabels ← (if truthy (fieldv "static_model_labels" args)
               then comma_list (fieldv "static_model_labels" args) else Ret None);
    prefill ← opt_str (fieldv "prefill_model_labels" args);
    decode ← opt_str (fieldv "decode_model_labels" args);
    Ret (SDStatic (parse_static_urls backends) models aliases mlabels types
           (truthy (fieldv "static_backend_health_checks" args))
           (match prefill with None => LNone | Some l => LStr l end)
           (match decode with None => LNone | Some l => LStr l end))
  else if eq_str (fieldv "service_discovery" args) "k8s" then
    k8s_type ← opt_str (fieldv "k8s_service_discovery_type" args);
    prefill ← opt_str (fieldv "prefill_model_labels" args);
    decode ← opt_str (fieldv "decode_model_labels" args);
    Ret (SDK8s k8s_type (mkK8sConfig (fieldv "k8s_namespace" args) (fieldv "k8s_port" args)
           (fieldv "k8s_label_selector" args)
           (match prefill with None => LNone | Some l => LStr l end)
           (match decode with None => LNone | Some l => LStr l end)))
  else Raise ValueError.

(** The label options are passed on as the strings they are. *)
Definition startup_kwargs (args : namespace) : outcome router_kwargs :=
  key ← opt_str (fieldv "session_key" args);
  prefill ← opt_str (fieldv "prefill_model_labels" args);
  decode ← opt_str (fieldv "decode_model_labels" args);
  Ret (mkKwargs key (match fieldv "kv_aware_threshold" args with JInt z => Some z | _ => None end)
         (match prefill with None => LNone | Some l => LStr l end)
         (match decode with None => LNone | Some l => LStr l end)).

(** The configuration the watcher starts from, if there is a file. *)
Definition watcher_init (args : namespace) : outcome (option namespace) :=
  if truthy (fieldv "dynamic_config_yaml" args) || truthy (fieldv "dynamic_config_json" args)
  then c ← from_args args; Ret (Some c) else Ret None.

(** The stages of [initialize_all] that act on the registry of discovery, the
    callbacks and the routers; [Startup] puts them together with the others. *)
Definition initialize_discovery (args : namespace) : M System unit :=
  r ← lift (startup_sd_request args);
  initialize_service_discovery r.

Definition initialize_callbacks (args : namespace) : M System unit :=
  if truthy (fieldv "callbacks" args)
  then loc ← lift (as_str (fieldv "callbacks" args)); configure_custom_callbacks loc
  else mret tt.

Definition register_router (logic : string) (kw : router_kwargs) : M System unit := λ s,
  let '(r, reg) := initialize_routing_logic logic kw (registry s) in
  (_ ← r; Ret tt, mkSystem (service_discovery s) (closed_discoveries s) reg (app_router s) (app_callbacks s)
                    (app_clients s)).

Definition initialize_routing (args : namespace) : M System unit :=
  logic ← lift (as_str (fieldv "routing_logic" args));
  kw ← lift (startup_kwargs args);
  register_router logic kw.

(** [app.state.router = get_routing_logic()] *)
Definition attach_router : M System unit :=
  r ← (λ s, (get_routing_logic (registry s), s));
  modify (λ s, mkSystem (service_discovery s) (closed_discoveries s) (registry s) (Some r)
                 (app_callbacks s) (app_clients s)).

End Dynamic.

(** ** Lemmas *)
Lemma json_eqb_obj a b k v :
  json_eqb (JObj a) (JObj b) = true → dget k a = Some v →
  ∃ v', dget k b = Some v' ∧ json_eqb v v' = true.
Proof.
  simpl. intros [_ H]%andb_true_iff Hk. revert H. induction a as [|[k' x] a IH]; [done|].
  simpl in Hk. intros [H1 H2]%andb_true_iff. case_decide; [|by apply IH].
  simplify_eq. destruct (dget k' b) as [v'|] eqn:E; [|done]. by exists v'.
Qed.

Lemma make_config_get c c' k :
  make_config c = Ret c' → dict_wf c →
  dget k c' = match dget k c with Some v => Some v | None => dget k config_fields end.
Proof. unfold make_config. case_match; [|done]. intros [= <-] Hwf. by apply dget_dupdate. Qed.

Lemma copy_fields_get ks args c k :
  NoDup ks → copy_fields ks args = Ret c →
  dict_wf c ∧ dkeys c = ks ∧ (k ∈ ks → dget k c = dget k args).
Proof.
  revert c. induction ks as [|k0 ks IH]; intros c Hnd; simpl.
  { intros [= <-]. split_and!; [apply dict_wf_nil|done|set_solver]. }
  apply NoDup_cons in Hnd as [Hn Hnd]. unfold attr, mbind, outcome_bind.
  destruct (dget k0 args) as [v|] eqn:Ev; [|done]. simpl.
  destruct (copy_fields ks args) as [rest|]; [|done]. intros [= <-].
  destruct (IH rest Hnd eq_refl) as (H1 & H2 & H3). unfold dict_wf, dkeys in *. csimpl.
  rewrite H2. split_and!; [by constructor|done|]. intros Hk. case_decide; [by subst|].
  apply H3. set_solver.
Qed.

Lemma from_args_get args c k :
  from_args args = Ret c → k ∈ from_args_fields → dget k c = dget k args.
Proof.
  unfold from_args, mbind, outcome_bind.
  assert (NoDup from_args_fields) as Hnd.
  { apply (bool_decide_unpack _). vm_compute. done. }
  destruct (copy_fields from_args_fields args) as [c0|] eqn:E; [|done]. intros Hm Hk.
  destruct (copy_fields_get _ args c0 k Hnd E) as (Hwf & Hkeys & Hget).
  rewrite (make_config_get _ _ k Hm Hwf). rewrite Hget by done.
  destruct (dget k args) eqn:Ek; [done|]. exfalso.
  rewrite <- Hkeys in Hk. apply dget_is_Some in Hk as [v Hv]. rewrite Hget in Hv; [congruence|].
  rewrite <- Hkeys. apply dget_is_Some. by exists v.
Qed.

Section Watcher.
Context {ring : Type} `{!HashRing ring} {tokenizer : Type}.
Context (ids : list string) (t0 : Z) (load_kube_config : outcome unit).
Context (import_callbacks : string → string → outcome string).
Implicit Types s : @System ring tokenizer.
Local Abbreviation poll := (watch_once ids t0 load_kube_config import_callbacks).
Local Abbreviation create := (create_service_discovery ids t0 load_kube_config).

(** What a configuration asks for: a discovery module, a router and callbacks. *)
Definition asked_discovery (c : namespace) s : outcome discovery :=
  r ← watcher_sd_request c; create (app_clients s) r.

Definition asked_router (c : namespace) : outcome (router_kind * @router ring tokenizer) :=
  k ← or_raise ValueError (routing_logic (logic_of c));
  rt ← new_router k (watcher_kwargs c);
  Ret (k, rt).

Definition asked_callbacks (c : namespace) : outcome (option string) :=
  if truthy (fieldv "callbacks" c) then
    loc ← as_str (fieldv "callbacks" c);
    cb ← (let parts := split_on "." loc in
          import_callbacks (join "." (take (length parts - 1) parts)) (default EmptyString (last parts)));
    Ret (Some cb)
  else Ret None.

(** The first stage of a reconfiguration that fails, if there is one. *)
Inductive reconfig_stage : Type := AtDiscovery | AtRouting | AtCallbacks.

Definition returns {A} (o : outcome A) : bool := match o with Ret _ => true | Raise _ => false end.

Definition refused_at (cl : close_results) (c : namespace) s : option reconfig_stage :=
  if negb (returns (asked_discovery c s) && returns (sd_result cl)) then Some AtDiscovery
  else if kv_stuck (kv_result cl) (registry s) || negb (returns (asked_router c)) then Some AtRouting
  else if negb (returns (asked_callbacks c)) then Some AtCallbacks
  else None.

(** The module of the configuration is in use and the former one is closed. *)
Definition discovery_replaced (c : namespace) s s' : Prop :=
  ∃ d old, asked_discovery c s = Ret d ∧ service_discovery s = Some old ∧
    service_discovery s' = Some d ∧ closed_discoveries s' = closed_discoveries s ++ [old].

(** The router of the configuration is the only one, and the app uses it. *)
Definition router_replaced (c : namespace) s' : Prop :=
  ∃ k rt, asked_router c = Ret (k, rt) ∧ registry s' = [(k, rt)] ∧ app_router s' = Some rt.

(** How far a reconfiguration gets. *)
Definition applied_upto (refusal : option reconfig_stage) (cl : close_results) (c : namespace) s s' : Prop :=
  match refusal with
  | Some AtDiscovery => s' = s
  | Some AtRouting =>
      discovery_replaced c s s' ∧ app_router s' = app_router s ∧ app_callbacks s' = app_callbacks s ∧
      (if kv_stuck (kv_result cl) (registry s) then dget KKvaware (registry s') = dget KKvaware (registry s)
       else registry s' = [])
  | Some AtCallbacks => discovery_replaced c s s' ∧ router_replaced c s' ∧ app_callbacks s' = app_callbacks s
  | None => discovery_replaced c s s' ∧ router_replaced c s' ∧ asked_callbacks c = Ret (app_callbacks s')
  end.

(** A discovery is installed and no class of router is registered twice. *)
Definition system_ok s : Prop := dict_wf (registry s) ∧ is_Some (service_discovery s).

(** The two later stages. *)
Lemma routing_stage cl c s :
  dict_wf (registry s) →
  match watcher_reconfigure_routing_logic cl c s with
  | (Ret _, s') =>
      (kv_stuck (kv_result cl) (registry s) || negb (returns (asked_router c))) = false ∧ router_replaced c s' ∧
      service_discovery s' = service_discovery s ∧ closed_discoveries s' = closed_discoveries s ∧
      app_callbacks s' = app_callbacks s ∧ app_clients s' = app_clients s
  | (Raise _, s') =>
      (kv_stuck (kv_result cl) (registry s) || negb (returns (asked_router c))) = true ∧ dict_wf (registry s') ∧
      (if kv_stuck (kv_result cl) (registry s) then dget KKvaware (registry s') = dget KKvaware (registry s)
       else registry s' = []) ∧
      service_discovery s' = service_discovery s ∧ closed_discoveries s' = closed_discoveries s ∧
      app_router s' = app_router s ∧ app_callbacks s' = app_callbacks s ∧ app_clients s' = app_clients s
  end.
Proof.
  intros Hwf. unfold watcher_reconfigure_routing_logic, reconfigure_routing_logic, mbind at 1, M_bind at 1.
  pose proof (cleanup_spec (kv_result cl) (registry s) Hwf) as H.
  destruct (cleanup_routing_logic _ _) as [[u|e] reg].
  - destruct H as [-> ->]. unfold initialize_routing_logic, router_replaced, asked_router, mbind, outcome_bind.
    destruct (routing_logic (logic_of c)) as [k|]; simpl; [|split_and!; first [done|apply dict_wf_nil]].
    unfold singleton_call. simpl. destruct (new_router k (watcher_kwargs c)) as [rt|]; simpl;
      split_and!; first [done|apply dict_wf_nil|by exists k, rt].
  - destruct H as (-> & _ & Hw & Hk). simpl. split_and!; done.
Qed.

Lemma callbacks_stage c s :
  match reconfigure_callbacks import_callbacks c s with
  | (Ret _, s') => asked_callbacks c = Ret (app_callbacks s') ∧
      service_discovery s' = service_discovery s ∧ closed_discoveries s' = closed_discoveries s ∧
      registry s' = registry s ∧ app_router s' = app_router s ∧ app_clients s' = app_clients s
  | (Raise _, s') => returns (asked_callbacks c) = false ∧ s' = s
  end.
Proof.
  unfold reconfigure_callbacks, asked_callbacks. destruct (truthy _); [|done].
  unfold mbind, M_bind, lift, outcome_bind. destruct (as_str _) as [loc|]; [|done].
  unfold configure_custom_callbacks. by destruct (import_callbacks _ _).
Qed.

(** The first stage. *)
Lemma discovery_stage cl c s :
  is_Some (service_discovery s) →
  match watcher_reconfigure_service_discovery ids t0 load_kube_config cl c s with
  | (Ret _, s') => (returns (asked_discovery c s) && returns (sd_result cl)) = true ∧ discovery_replaced c s s' ∧
      registry s' = registry s ∧ app_router s' = app_router s ∧ app_callbacks s' = app_callbacks s ∧
      app_clients s' = app_clients s
  | (Raise _, s') => (returns (asked_discovery c s) && returns (sd_result cl)) = false ∧ s' = s
  end.
Proof.
  intros [old Hold]. unfold watcher_reconfigure_service_discovery, discovery_replaced, asked_discovery,
    mbind, M_bind, lift, outcome_bind. destruct (watcher_sd_request c) as [r|]; [|done].
  unfold reconfigure_service_discovery. rewrite Hold.
  destruct (create (app_clients s) r) as [d|] eqn:E; [|done].
  destruct (sd_result cl); [|done]. simpl. split_and!; try done. by exists d, old.
Qed.

Lemma reconfigure_spec cl c s :
  system_ok s →
  let '(o, s') := reconfigure_all ids t0 load_kube_config import_callbacks cl c s in
  applied_upto (refused_at cl c s) cl c s s' ∧ system_ok s' ∧ app_clients s' = app_clients s ∧
  returns o = bool_decide (refused_at cl c s = None).
Proof.
  intros [Hwf Hd]. unfold reconfigure_all, mbind, M_bind, refused_at.
  pose proof (discovery_stage cl c s Hd) as H1.
  destruct (watcher_reconfigure_service_discovery _ _ _ _ _ _) as [[u|e] s1].
  2:{ destruct H1 as [-> ->]. done. }
  destruct H1 as (-> & (d & old & D1 & D2 & D3 & D4) & R1 & A1 & C1 & X1). cbn [negb]. rewrite <- R1 in Hwf |- *.
  pose proof (routing_stage cl c s1 Hwf) as H2.
  destruct (watcher_reconfigure_routing_logic cl c s1) as [[u2|e2] s2].
  2:{ destruct H2 as (-> & W2 & K2 & S2 & L2 & A2 & C2 & X2). split_and!; try congruence; try done.
      - simpl. rewrite <- R1. split_and!; try congruence. exists d, old. split_and!; congruence.
      - split; [done|]. rewrite S2, D3. by eexists. }
  destruct H2 as (-> & RR & S2 & L2 & C2 & X2).
  assert (dict_wf (registry s2)) as W2 by (destruct RR as (k & rt & _ & -> & _); apply NoDup_singleton).
  pose proof (callbacks_stage c s2) as H3.
  destruct (reconfigure_callbacks _ _ _) as [[u3|e3] s3].
  - destruct H3 as (E3 & S3 & L3 & R3 & A3 & X3). rewrite E3. simpl. split_and!; try congruence.
    + exists d, old. split_and!; congruence.
    + destruct RR as (k & rt & Q1 & Q2 & Q3). exists k, rt. split_and!; congruence.
    + split; [by rewrite R3|]. rewrite S3, S2, D3. by eexists.
  - destruct H3 as [-> ->]. simpl. split_and!; try congruence; try done.
    + exists d, old. split_and!; congruence.
    + split; [done|]. rewrite S2, D3. by eexists.
Qed.

Lemma watch_once_ok cl loaded current s :
  system_ok s → system_ok (poll cl loaded current s).2 ∧ app_clients (poll cl loaded current s).2 = app_clients s.
Proof.
  intros Hs. unfold watch_once. destruct loaded as [c|]; [|done]. destruct (config_eqb _ _); [done|].
  pose proof (reconfigure_spec cl c s Hs) as H. destruct (reconfigure_all _ _ _ _ _ _ _) as [o s'].
  destruct H as (_ & H1 & H2 & _). by destruct o.
Qed.

(** An app that has a router keeps having one. *)
Lemma watch_once_router cl loaded current s :
  system_ok s → is_Some (app_router s) → is_Some (app_router (poll cl loaded current s).2).
Proof.
  intros Hs Hr. unfold watch_once. destruct loaded as [c|]; [|done]. destruct (config_eqb _ _); [done|].
  pose proof (reconfigure_spec cl c s Hs) as H. destruct (reconfigure_all _ _ _ _ _ _ _) as [o s'].
  destruct H as [H _]. destruct (refused_at cl c s) as [[]|], o; simpl in *; try by subst.
  all: try by destruct H as (_ & -> & _).
  all: destruct H as (_ & (k & rt & _ & _ & ->) & _); by eexists.
Qed.

(** Several polls, each with what the file holds and what the closing gives. *)
Definition polls (ps : list (outcome namespace * close_results)) (st : namespace * @System ring tokenizer)
    : namespace * @System ring tokenizer :=
  foldl (λ st p, poll p.2 p.1 st.1 st.2) st ps.

(** The modules that have been in use, the closed ones first. *)
Definition used s : list discovery := closed_discoveries s ++ option_list (service_discovery s).

Lemma watch_once_used cl loaded current s :
  system_ok s → ∃ news, used (poll cl loaded current s).2 = used s ++ news.
Proof.
  intros Hs. unfold watch_once. destruct loaded as [c|]; [|by exists []; rewrite app_nil_r].
  destruct (config_eqb _ _); [by exists []; rewrite app_nil_r|].
  pose proof (reconfigure_spec cl c s Hs) as H. destruct (reconfigure_all _ _ _ _ _ _ _) as [o s'].
  destruct H as [H _].
  assert (∀ d old, service_discovery s = Some old → service_discovery s' = Some d →
    closed_discoveries s' = closed_discoveries s ++ [old] → used s' = used s ++ [d]) as Hu.
  { intros d old E1 E2 E3. unfold used. by rewrite E1, E2, E3. }
  destruct (refused_at cl c s) as [[]|]; simpl in H; destruct o; simpl.
  1,2: exists []; rewrite app_nil_r; by subst.
  all: destruct H as [(d & old & _ & E1 & E2 & E3) _]; exists [d]; by apply (Hu d old).
Qed.

Lemma polls_ok ps current s :
  system_ok s → let s' := (polls ps (current, s)).2 in
  system_ok s' ∧ app_clients s' = app_clients s ∧ ∃ news, used s' = used s ++ news.
Proof.
  revert current s. induction ps as [|[l cl] ps IH]; intros current s Hs; simpl.
  { split_and!; [done|done|]. exists []. by rewrite app_nil_r. }
  destruct (watch_once_ok cl l current s Hs) as [H1 H2]. destruct (watch_once_used cl l current s Hs) as [n1 H3].
  destruct (poll cl l current s) as [current1 s1]. simpl in *.
  destruct (IH current1 s1 H1) as (H4 & H5 & n2 & H6). split_and!; [done|congruence|].
  exists (n1 ++ n2). by rewrite H6, H3, app_assoc.
Qed.


End Watcher.

(** The first poll always reconfigures: the configuration the watcher
    starts from is taken from the options, where the Kubernetes port defaults to
    a number, while the one read from a file without that field has none, so the
    two differ although the file has not changed. *)
Theorem first_poll_sees_change args config c0 c1 :
  from_args args = Ret c0 → make_config config = Ret c1 → dict_wf config →
  dget "k8s_port" args = Some (JInt 8000) → dget "k8s_port" config = None →
  config_eqb c1 c0 = false.
Proof.
  intros H0 H1 Hwf Hport Hnone. destruct (config_eqb c1 c0) eqn:E; [|done]. exfalso.
  pose proof (make_config_get config c1 "k8s_port" H1 Hwf) as G1. rewrite Hnone in G1.
  pose proof (from_args_get args c0 "k8s_port" H0) as G0. rewrite Hport in G0.
  destruct (json_eqb_obj c1 c0 "k8s_port" JNull E) as (v & Hv & Heq).
  { rewrite G1. reflexivity. }
  rewrite G0 in Hv; [by simplify_eq|]. apply (bool_decide_unpack _). vm_compute. done.
Qed.

Lemma bind_Ret {A B} (o : outcome A) (f : A → outcome B) b :
  o ≫= f = Ret b → ∃ a, o = Ret a ∧ f a = Ret b.
Proof. destruct o as [a|]; [|done]. intros H. by exists a. Qed.

(** Validated options start a router: when [validate_args] accepts the
    options, routing with any of the five logics initialises from an empty
    registry, and the statistics window and the scrape interval are positive. *)
Theorem validated_args_start {ring tokenizer : Type} `{!HashRing ring} args logic k kw :
  validate_args args = Ret tt → dget "routing_logic" args = Some (JStr logic) →
  routing_logic logic = Some k → startup_kwargs args = Ret kw →
  (∃ r, initialize_routing_logic (ring:=ring) (tokenizer:=tokenizer) logic kw [] = (Ret r, [(k, r)])) ∧
  (∃ v q, dget "request_stats_window" args = Some v ∧ jnum v = Some q ∧ (0 < q)%Q) ∧
  (∃ v q, dget "engine_stats_interval" args = Some v ∧ jnum v = Some q ∧ (0 < q)%Q).
Proof.
  intros Hv Hl Hk Hkw. unfold validate_args in Hv.
  apply bind_Ret in Hv as (_ & _ & Hv). apply bind_Ret in Hv as (st & _ & Hv).
  apply bind_Ret in Hv as (_ & _ & Hv). apply bind_Ret in Hv as (_ & _ & Hv).
  apply bind_Ret in Hv as ([] & Hsess%refuse_if_Ret & Hv). apply bind_Ret in Hv as (_ & _ & Hv).
  apply bind_Ret in Hv as ([] & Heng%refuse_if_Ret & Hv).
  apply bind_Ret in Hv as ([] & Hwin%refuse_if_Ret & _).
  assert (∀ n, (v ← attr n args; le_zero v) = Ret false →
    ∃ v q, dget n args = Some v ∧ jnum v = Some q ∧ (0 < q)%Q) as Hpos.
  { intros n Hn. apply bind_Ret in Hn as (v & Hd & Hle). unfold attr, or_raise in Hd.
    destruct (dget n args) as [v0|]; [|done]. injection Hd as ->. exists v. unfold le_zero in Hle.
    destruct (jnum v) as [q|]; [|done]. exists q. split_and!; [done|done|].
    injection Hle as Hle. apply Qnot_le_lt. intros Hq%Qle_bool_iff. congruence. }
  split_and!; [|by apply Hpos|by apply Hpos].
  unfold initialize_routing_logic, singleton_call. rewrite Hk. simpl.
  destruct k; simpl; try by eexists.
  assert (logic = "session"%string) as -> by (unfold routing_logic in Hk; by repeat case_decide).
  unfold and_then, arg_is, arg_none, attr, mbind, outcome_bind in Hsess. rewrite Hl in Hsess.
  simpl in Hsess. unfold startup_kwargs, fieldv, dict_get, mbind, outcome_bind in Hkw.
  destruct (dget "session_key" args) as [sk|]; [|done]. simpl in Hsess.
  destruct sk; simpl in *; try done.
  destruct (opt_str _) as [a|]; [|done]. destruct (opt_str _) as [a'|]; [|done].
  injection Hkw as <-. by eexists.
Qed.

(** ** Witnesses *)
Definition no_app : App := mkApp None None [].

Definition toy_old : discovery := DStatic (mkStatic [] [] None None None [] 0 [] true LNone LNone).

Definition toy_new : discovery :=
  DStatic (mkStatic ["http://localhost:1"%string] ["m"%string] None None None ["i"%string] 5 [] true
             LNone LNone).

Definition toy_system : @System (gset string) unit := mkSystem (Some toy_old) [] [] None None no_app.

(** A static configuration with the given routing logic. *)
Definition toy_cfg (logic : string) : namespace :=
  dupdate [("service_discovery", JStr "static"); ("routing_logic", JStr logic);
           ("static_backends", JStr "http://localhost:1"); ("static_models", JStr "m")]%string config_fields.

Definition toy_request : sd_request :=
  SDStatic ["http://localhost:1"%string] (Some ["m"%string]) None None None false LNone LNone.

(** Its callbacks are imported. *)
Definition toy_import (module_name instance_name : string) : outcome string :=
  if decide ((module_name, instance_name) = ("pkg.hooks", "mine"))%string then Ret "hooks"%string else Raise RuntimeError.

Definition toy_cfg_hooks : namespace := dset "callbacks"%string (JStr "pkg.hooks.mine") (toy_cfg "roundrobin").


(** The state after these two polls, and after one in which the old module
    cannot be closed. *)
Example toy_polls_result :
  polls ["i"%string] 5 (Ret tt) toy_import
    [(Ret (toy_cfg "session"), closes_well); (Ret toy_cfg_hooks, closes_well);
     (Ret (toy_cfg "prefixaware"), mkCloses (Raise RuntimeError) (Ret tt))]
    (toy_cfg "prefixaware", toy_system) =
  (toy_cfg_hooks,
   mkSystem (Some toy_new) [toy_old; toy_new] [(KRoundRobin, RRoundRobin rr_init)]
     (Some (RRoundRobin rr_init)) (Some "hooks"%string) no_app).
Proof. vm_compute. reflexivity. Qed.

Lemma first_poll_sees_change_witness :
  config_eqb (toy_cfg "roundrobin")
    (dupdate [("service_discovery", JStr "static"); ("static_backends", JStr "http://localhost:1");
      ("static_models", JStr "m"); ("static_model_types", JNull); ("static_aliases", JNull);
      ("k8s_port", JInt 8000); ("k8s_namespace", JStr "default"); ("k8s_label_selector", JStr "");
      ("routing_logic", JStr "roundrobin"); ("session_key", JNull); ("callbacks", JNull)]%string
      config_fields) = false.
Proof.
  apply (first_poll_sees_change
    (dupdate [("service_discovery", JStr "static"); ("routing_logic", JStr "roundrobin");
           ("static_backends", JStr "http://localhost:1"); ("static_models", JStr "m")]%string
       (builtin_defaults true))
    [("service_discovery", JStr "static"); ("routing_logic", JStr "roundrobin");
           ("static_backends", JStr "http://localhost:1"); ("static_models", JStr "m")]%string).
  - vm_compute. reflexivity.
  - vm_compute. reflexivity.
  - apply (bool_decide_unpack _). vm_compute. done.
  - vm_compute. reflexivity.
  - vm_compute. reflexivity.
Defined.

Definition session_args : namespace :=
  dupdate [("service_discovery", JStr "k8s"); ("routing_logic", JStr "session");
           ("session_key", JStr "x-user-id")]%string (builtin_defaults false).

Lemma validated_args_start_witness :
  (∃ r, initialize_routing_logic (ring:=gset string) (tokenizer:=unit) "session"
     (mkKwargs (Some "x-user-id"%string) (Some 2000%Z) LNone LNone) [] = (Ret r, [(KSession, r)])).
Proof.
  refine (proj1 (validated_args_start (ring:=gset string) (tokenizer:=unit) session_args "session"
    KSession (mkKwargs (Some "x-user-id"%string) (Some 2000%Z) LNone LNone) _ _ _ _));
    vm_compute; reflexivity.
Defined.
