(* ===== verification/Request.v ===== *)
(** * Proxying requests: [services/request_service/request.py] and
    [services/request_service/rewriter.py]

    The state a request changes is a [gate]: the request monitor, the router,
    the calls made to backends, the chunks sent to the client, and what was
    handed to the semantic cache and to the callbacks.  [json.loads], [json.dumps]
    and the backends are parameters; routers are used through [RouterOps], the
    interface that [RouterLaws] specifies. *)
From stdpp Require Import base list strings gmap.
From Stdlib Require Import Ascii QArith.
From S2P Require Import Prelude PyDict PyStr Json Endpoint RequestStats HashTrie HashRing Routing Utils.

Record request := mkRequest {
  rq_method : string;
  rq_headers : headers;
  rq_body : string;
  rq_query : list (string * string)
}.

Record backend_call := mkCall {
  bc_method : string;
  bc_url : string;
  bc_headers : headers;
  bc_body : string
}.

(** The answer of a backend: the chunks of its body, and the exception that
    ends the stream early, if any. *)
Record backend_response := mkResponse {
  br_status : Z;
  br_headers : headers;
  br_chunks : list string;
  br_error : option exn
}.

(** ** Routers as the request service sees them *)
Class RouterOps (R : Type) := {
  route : list EndpointInfo → gmap string RequestStats → headers → list (string * json) →
    M R (option string)
}.

Class RouterLaws (R : Type) `{!RouterOps R} := {
  router_wf : R → Prop;
  accepts : headers → list (string * json) → Prop;
  route_member r eps stats hs body :
    router_wf r → accepts hs body → eps ≠ [] →
    ∃ u r', route eps stats hs body r = (Ret (Some u), r') ∧ u ∈ url <$> eps ∧ router_wf r';
  (** also for a request that is not accepted *)
  route_sound r eps stats hs body :
    router_wf r → eps ≠ [] →
    router_wf (route eps stats hs body r).2 ∧
    ∀ u, (route eps stats hs body r).1 = Ret (Some u) → u ∈ url <$> eps
}.

(** ** Requests and replies *)
Definition HOP_BY_HOP_HEADERS : list string :=
  ["host"; "connection"; "keep-alive"; "proxy-connection"; "transfer-encoding";
   "content-length"; "upgrade"; "te"; "trailer"]%string.

(** The headers sent on, as a dict: of a repeated name the last value is kept. *)
Definition sanitize (hs : headers) : headers :=
  dict_of (filter (λ kv, lower kv.1 ∉ HOP_BY_HOP_HEADERS) hs).

(** [request.headers.get("X-Request-Id") or str(uuid.uuid4())] *)
Definition request_id (uuid : string) (rq : request) : string :=
  match header_get "X-Request-Id" (rq_headers rq) with
  | Some s => if str_empty s then uuid else s
  | None => uuid
  end.

(** [request.query_params.get("id") if request.query_params else None] *)
Definition request_endpoint (rq : request) : option string := dget "id"%string (rq_query rq).

(** A reply: a JSON document, the stream of a backend's answer, or the chunks
    of the stream that the disaggregated handler makes. *)
Inductive reply : Type :=
| JsonReply (status : Z) (content : json) (hs : headers)
| ChunksReply (chunks : list string) (hs : headers)
| StreamReply (hs : headers) (resp : backend_response) (is_streaming : bool) (u body : string).

Definition error_reply (status : Z) (what : string) (id : string) : reply :=
  JsonReply status (JObj [("error", JStr what)]%string) [("X-Request-Id", id)]%string.

(** [response_overwrite.headers["X-Request-Id"] = request_id] *)
Definition set_reply_id (id : string) (r : reply) : reply :=
  match r with
  | JsonReply status content hs => JsonReply status content (dset "X-Request-Id"%string id hs)
  | ChunksReply chunks hs => ChunksReply chunks (dset "X-Request-Id"%string id hs)
  | StreamReply hs resp st u body => StreamReply (dset "X-Request-Id"%string id hs) resp st u body
  end.

(** Values that may be members of a set or keys of a dict. *)
Definition hashable (v : json) : bool := match v with JArr _ | JObj _ => false | _ => true end.

(** The requested model as a string; another value is in no list of names. *)
Definition served (model : json) (e : EndpointInfo) : bool :=
  match model with JStr m => bool_decide (m ∈ model_names e) | _ => false end.

(** [requested_model in x.model_names and x.Id == request_endpoint and not x.sleep] *)
Definition candidate (model : json) (wanted : option string) (e : EndpointInfo) : bool :=
  served model e && match wanted with Some i => bool_decide (Id e = i) | None => true end &&
  negb (sleep e).

(** A request id in the query that is not empty. *)
Definition wanted_engine (rq : request) : option string :=
  match request_endpoint rq with
  | Some i => if str_empty i then None else Some i
  | None => None
  end.

Section Request.
Context {R : Type} `{!RouterOps R}.
Context (loads : string → outcome json) (dumps : json → string).
(** [str] of a value that is not a string *)
Context (py_str : json → string).
(** Sending a request with the shared client. *)
Context (backend : backend_call → outcome backend_response).
Context (semantic_cache_available : bool).
(** A fresh [uuid4] and the clock readings of one request. *)
Context (uuid : string) (t_new t_first t_end : Q).
(** [app.state.callbacks]: its [pre_request] may answer the request. *)
Context (callbacks : option (request → string → json → option reply)).
(** The rewriter, if [initialize_request_rewriter] was called. *)
Context (rewriter : option (string → json → string → string)).

Record gate := mkGate {
  monitor : RequestStatsMonitor;
  router_state : R;
  calls : list backend_call;
  sent : list string;
  cache_stores : list (string * string * string * string);
  post_requests : list (string);
  incoming : list json
}.

Definition with_monitor {A} (m : M RequestStatsMonitor A) : M gate A := λ g,
  let '(o, mon) := m (monitor g) in
  (o, mkGate mon (router_state g) (calls g) (sent g) (cache_stores g) (post_requests g) (incoming g)).

Definition with_router {A} (m : M R A) : M gate A := λ g,
  let '(o, r) := m (router_state g) in
  (o, mkGate (monitor g) r (calls g) (sent g) (cache_stores g) (post_requests g) (incoming g)).

Definition send_call (c : backend_call) : M gate backend_response := λ g,
  (backend c, mkGate (monitor g) (router_state g) (calls g ++ [c]) (sent g) (cache_stores g)
                (post_requests g) (incoming g)).

Definition send_chunk (c : string) : M gate unit :=
  modify (λ g, mkGate (monitor g) (router_state g) (calls g) (sent g ++ [c]) (cache_stores g)
                 (post_requests g) (incoming g)).

(** ** [process_request] *)
(** Up to the first [yield]: the status and the headers of the backend.  The
    [JSONDecodeError] of [requests] named in the [except] clause is a subclass
    of the one [json.loads] raises, so a malformed body is not caught. *)
Definition process_start (rq : request) (body u id endpoint : string)
    : M gate (backend_response * bool) :=
  _ ← with_monitor (on_new_request u id t_new);
  request_json ← lift (loads body);
  stream ← lift (jget "stream" (JBool false) request_json);
  resp ← send_call (mkCall (rq_method rq) (u +:+ endpoint) (sanitize (rq_headers rq)) body);
  mret (resp, truthy stream).

(** One turn of the loop over the chunks. *)
Definition stream_chunk (u id : string) (first_token : bool) (chunk : string) : M gate unit :=
  _ ← (if first_token then mret tt else with_monitor (on_request_response u id t_first));
  send_chunk chunk.

(** The loop over the chunks. *)
Fixpoint stream_loop (u id : string) (first_token : bool) (chunks : list string) : M gate unit :=
  match chunks with
  | [] => mret tt
  | chunk :: chunks =>
      _ ← stream_chunk u id first_token chunk;
      stream_loop u id true chunks
  end.

(** What follows the loop.  With no chunk at all, the name [chunk] is unbound
    when the last chunk is to be cached. *)
Definition process_finish (rq : request) (body u id endpoint : string) (is_streaming : bool)
    (resp : backend_response) : M gate unit :=
  _ ← (match br_error resp with Some e => raise e | None => mret tt end);
  _ ← with_monitor (on_request_complete u id t_end t_end);
  _ ← (if semantic_cache_available then
         c ← lift (if is_streaming then or_raise UnboundLocalError (last (br_chunks resp))
                   else Ret (join "" (br_chunks resp)));
         modify (λ g, mkGate (monitor g) (router_state g) (calls g) (sent g)
                   (cache_stores g ++ [(endpoint, rq_method rq, body, c)]) (post_requests g)
                   (incoming g))
       else mret tt);
  if callbacks then
    modify (λ g, mkGate (monitor g) (router_state g) (calls g) (sent g) (cache_stores g)
              (post_requests g ++ [join "" (br_chunks resp)]) (incoming g))
  else mret tt.

(** What follows the first [yield]. *)
Definition process_stream (rq : request) (body u id endpoint : string) (is_streaming : bool)
    (resp : backend_response) : M gate unit :=
  _ ← stream_loop u id false (br_chunks resp);
  process_finish rq body u id endpoint is_streaming resp.

(** [replace_model_in_request_body]: the new body, and the dictionary, which is changed *)
Definition replace_model_in_request_body (request_json : list (string * json)) (model : string) : string * json :=
  let v := JObj (dset "model"%string (JStr model) request_json) in (dumps v, v).

(** ** [route_general_request] *)
(** [replace_model_in_request_body] when the model is an alias. *)
Definition apply_alias (aliases : option (list (string * string))) (model : json) (body : string)
    (v : json) : outcome (json * string * json) :=
  match aliases with
  | None | Some [] => Ret (model, body, v)
  | Some al =>
      if negb (hashable model) then Raise TypeError else
      match model with
      | JStr m =>
          match dget m al with
          | None => Ret (model, body, v)
          | Some m' =>
              match v with
              | JObj d => let '(body, v') := replace_model_in_request_body d m' in Ret (JStr m', body, v')
              | _ => Raise TypeError
              end
          end
      | _ => Ret (model, body, v)
      end
  end.

(** [has_ever_seen_model], for the discovery modules that have it. *)
Definition seen_before (ever_seen : option (string → bool)) (model : json) : outcome bool :=
  match ever_seen with
  | None => Ret false
  | Some f =>
      if negb (hashable model) then Raise TypeError
      else Ret (match model with JStr m => f m | _ => false end)
  end.

Definition choose (eps : list EndpointInfo) (stats : gmap string RequestStats) (rq : request)
    (v : json) : M gate (option string) :=
  match wanted_engine rq with
  | Some _ => mret (url <$> head eps)
  | None =>
      match v with
      | JObj d => with_router (route eps stats (rq_headers rq) d)
      | _ => raise AttributeError
      end
  end.

(** From the chosen url on; the headers of the answer are copied to a dict.  Without a url the concatenation with the path raises
    (the request monitor, which counts the request for [None] before that, is left
    alone here). *)
Definition proxy (rq : request) (endpoint body : string) (u : option string) : M gate reply :=
  let id := request_id uuid rq in
  u ← lift (or_raise TypeError u);
  '(resp, is_streaming) ← process_start rq body u id endpoint;
  mret (StreamReply (dset "X-Request-Id"%string id (dict_of (br_headers resp))) resp is_streaming u body).

(** The part after the rewriting: discovery, filtering and routing. *)
Definition dispatch (rq : request) (endpoint body : string) (model v : json)
    (endpoints_now : outcome (list EndpointInfo)) (aliases : option (list (string * string)))
    (ever_seen : option (string → bool)) : M gate reply :=
  eps ← lift endpoints_now;
  '(model, body, v) ← lift (apply_alias aliases model body v);
  seen ← lift (seen_before ever_seen model);
  let eps := filter (λ e, candidate model (wanted_engine rq) e = true) eps in
  stats ← (match wanted_engine rq with
           | None => with_monitor (get_request_stats t_new)
           | Some _ => mret ∅
           end);
  _ ← modify (λ g, mkGate (monitor g) (router_state g) (calls g) (sent g) (cache_stores g)
                     (post_requests g) (incoming g ++ [model]));
  match eps with
  | [] =>
      mret (if (seen : bool)
            then error_reply 503 ("Model '" +:+ fstr py_str model +:+
              "' is temporarily unavailable. Please try again later.") (request_id uuid rq)
            else error_reply 404 ("Model '" +:+ fstr py_str model +:+
              "' not found. Available models can be listed at /v1/models.") (request_id uuid rq))
  | _ => u ← choose eps stats rq v; proxy rq endpoint body u
  end.

(** [disagg] is the handler of disaggregated requests when the router is a
    [DisaggregatedPrefillRouter]; nothing else is then done with the request. *)
Definition route_general_request (disagg : option (request → string → M gate reply)) (rq : request)
    (endpoint : string) (endpoints_now : outcome (list EndpointInfo))
    (aliases : option (list (string * string))) (ever_seen : option (string → bool)) : M gate reply :=
  match disagg with
  | Some handler => handler rq endpoint
  | None =>
  v ← lift (if str_empty (rq_body rq) then Ret (JObj []) else loads (rq_body rq));
  match callbacks ≫= (λ pre, pre rq (rq_body rq) v) with
  | Some r => mret (set_reply_id (request_id uuid rq) r)
  | None =>
      model ← lift (jget "model" JNull v);
      if is_none model then
        mret (error_reply 400 "Invalid request: missing 'model' in request body." (request_id uuid rq))
      else
        match rewriter with
        | None => dispatch rq endpoint (rq_body rq) model v endpoints_now aliases ever_seen
        | Some rewrite =>
            let body := rewrite (rq_body rq) model endpoint in
            v ← lift (loads body);
            dispatch rq endpoint body model v endpoints_now aliases ever_seen
        end
  end
  end.

(** The reply as the server sends it: a stream is run to its end. *)
Definition serve (rq : request) (endpoint : string) (r : reply) : M gate unit :=
  match r with
  | JsonReply _ _ _ => mret tt
  | ChunksReply chunks _ =>
      modify (λ g, mkGate (monitor g) (router_state g) (calls g) (sent g ++ chunks) (cache_stores g)
                (post_requests g) (incoming g))
  | StreamReply _ resp is_streaming u body =>
      process_stream rq body u (request_id uuid rq) endpoint is_streaming resp
  end.
End Request.

Arguments mkGate {R}.

(** ** The rewriter *)
(** [NoopRequestRewriter.rewrite_request]; the singleton is created on demand. *)
Definition noop_rewrite (request_body : string) (model : json) (endpoint : string) : string := request_body.
Definition initialize_request_rewriter (rewriter_type : string) : option (string → json → string → string) :=
  Some noop_rewrite.
Definition get_request_rewriter (inst : option (string → json → string → string))
    : string → json → string → string := default noop_rewrite inst.
