(* ===== verification/RequestSpec.v ===== *)
(** * What the request service promises

    The theorems on [Request]: which engine a request is sent to and with what
    content, the error replies, what the client receives of a stream and what
    the request monitor is told, and the routers as instances of the interface. *)
From stdpp Require Import base list strings gmap.
From Stdlib Require Import Ascii QArith.
From S2P Require Import Prelude PyDict PyStr Json Endpoint RequestStats HashTrie HashRing Routing RoutingSpec Utils Request.

Section Stream.
Context {R : Type} `{!RouterOps R}.
Context (semantic_cache_available : bool) (uuid : string) (t_new t_first t_end : Q).
Context (callbacks : option (request → string → json → option reply)).
Implicit Types g : @gate R.

(** The loop sends the chunks in order and reports the first one. *)
Lemma stream_loop_spec u id chunks first g :
  Inv (monitor g) →
  ∃ mon, (if first || bool_decide (chunks = []) then mon = monitor g
          else on_request_response u id t_first (monitor g) = (Ret tt, mon)) ∧ Inv mon ∧
    stream_loop t_first u id first chunks g =
      (Ret tt, mkGate mon (router_state g) (calls g) (sent g ++ chunks) (cache_stores g)
                 (post_requests g) (incoming g)).
Proof.
  revert g first. induction chunks as [|c chunks IH]; intros g first HI; cbn [stream_loop].
  { exists (monitor g). rewrite bool_decide_true by done. rewrite orb_true_r, app_nil_r.
    by destruct g. }
  rewrite bool_decide_false by done. rewrite orb_false_r.
  unfold stream_chunk, mbind, M_bind, mret, M_ret, with_monitor, send_chunk, modify.
  destruct first.
  - destruct (IH (mkGate (monitor g) (router_state g) (calls g) (sent g ++ [c]) (cache_stores g)
      (post_requests g) (incoming g)) true HI) as (mon & Hmon & HI' & Hrun). simpl in *.
    exists mon. rewrite Hrun, <- app_assoc. subst mon. done.
  - destruct (on_request_response_ok u id t_first (monitor g) HI) as (mon & Hr & HI1).
    exists mon. rewrite Hr. split_and!; [done|done|].
    destruct (IH (mkGate mon (router_state g) (calls g) (sent g ++ [c]) (cache_stores g)
      (post_requests g) (incoming g)) true HI1) as (mon' & -> & _ & Hrun). simpl in *.
    by rewrite Hrun, <- app_assoc.
Qed.

(** The events a finished stream reports to the monitor. *)
Definition stream_events (u id : string) (chunks : list string) : list event :=
  if decide (chunks = []) then [] else [EResponse u id t_first].

Lemma run_events_1 e s s' : step_event e s = (Ret tt, s') → run_events [e] s = (Ret tt, s').
Proof. intros He. simpl. unfold mbind, M_bind. by rewrite He. Qed.

Lemma run_events_1_inv e s s' : run_events [e] s = (Ret tt, s') → step_event e s = (Ret tt, s').
Proof.
  simpl. unfold mbind, M_bind. destruct (step_event e s) as [[[]|ex] s1]; [|done].
  unfold mret, M_ret. by intros [= <-].
Qed.

Lemma stream_loop_events u id chunks g :
  Inv (monitor g) →
  ∃ mon, run_events (stream_events u id chunks) (monitor g) = (Ret tt, mon) ∧ Inv mon ∧
    stream_loop t_first u id false chunks g =
      (Ret tt, mkGate mon (router_state g) (calls g) (sent g ++ chunks) (cache_stores g)
                 (post_requests g) (incoming g)).
Proof.
  intros HI. destruct (stream_loop_spec u id chunks false g HI) as (mon & Hmon & HI' & Hrun).
  exists mon. split_and!; [|done|done]. unfold stream_events. simpl in Hmon.
  case_decide; [rewrite bool_decide_true in Hmon by done; by subst mon|].
  rewrite bool_decide_false in Hmon by done. by apply run_events_1.
Qed.
End Stream.

(** C3. A complete answer is passed on unchanged: the client gets the chunks of
    the backend in order and nothing else, the monitor is told of the first
    chunk (if there is one) and of the completion, and when the answer is cached
    it is the whole body, or the last chunk of a streaming request. *)
Theorem stream_passes_body {R : Type} cache t_first t_end callbacks rq body u id endpoint streaming
    resp (g : @gate R) :
  Inv (monitor g) → br_error resp = None → (streaming = true → br_chunks resp ≠ []) →
  ∃ g', process_stream cache t_first t_end callbacks rq body u id endpoint streaming resp g
      = (Ret tt, g') ∧
    sent g' = sent g ++ br_chunks resp ∧ calls g' = calls g ∧ Inv (monitor g') ∧
    run_events (stream_events t_first u id (br_chunks resp) ++ [EComplete u id t_end t_end])
      (monitor g) = (Ret tt, monitor g') ∧
    (cache = true → ∃ c, cache_stores g' = cache_stores g ++ [(endpoint, rq_method rq, body, c)] ∧
       if streaming then last (br_chunks resp) = Some c else c = join "" (br_chunks resp)) ∧
    (cache = false → cache_stores g' = cache_stores g).
Proof.
  intros HI Herr Hst.
  destruct (stream_loop_events t_first u id (br_chunks resp) g HI) as (m1 & Hev & HI1 & Hloop).
  destruct (on_request_complete_ok u id t_end t_end m1 HI1) as (m2 & Hc & HI2).
  assert (run_events (stream_events t_first u id (br_chunks resp) ++ [EComplete u id t_end t_end])
    (monitor g) = (Ret tt, m2)) as Hall.
  { rewrite run_events_app, Hev. by apply run_events_1. }
  unfold process_stream, process_finish, mbind, M_bind. rewrite Hloop, Herr.
  unfold mret, M_ret, with_monitor. simpl. rewrite Hc.
  destruct cache; [destruct streaming|].
  - destruct (last (br_chunks resp)) as [c|] eqn:Ec.
    2:{ apply last_None in Ec. by destruct Hst. }
    destruct callbacks; eexists; (split; [done|]); simpl; split_and!; try done; intros _;
      by exists c.
  - destruct callbacks; eexists; (split; [done|]); simpl; split_and!; try done; intros _;
      by eexists.
  - destruct callbacks; eexists; (split; [done|]); by split_and!.
Qed.

(** A monitor and a gate for the witnesses. *)
Definition toy_gate : @gate unit := mkGate (fresh_monitor 60) tt [] [] [] [] [].
Definition toy_rq : request := mkRequest "POST" [("Host", "router"); ("X-A", "1")]%string "{}" [].

Lemma stream_passes_body_witness :
  ∃ g', process_stream true 1 2 None toy_rq "{}" "http://a:1" "r" "/v1/completions" false
      (mkResponse 200 [] ["x"; "y"]%string None) toy_gate = (Ret tt, g') ∧
    sent g' = ["x"; "y"]%string.
Proof.
  destruct (stream_passes_body true 1 2 None toy_rq "{}" "http://a:1" "r" "/v1/completions" false
    (mkResponse 200 [] ["x"; "y"]%string None) toy_gate) as (g' & H1 & H2 & _).
  - apply fresh_monitor_inv. by intros H.
  - reflexivity.
  - done.
  - by exists g'.
Defined.

Lemma response_effect u id t s s' :
  on_request_response u id t s = (Ret tt, s') →
  finished_requests s' = finished_requests s ∧
  (is_Some (request_start_time s !! (u, id)) →
   zget u 0 (in_decoding_requests s') = (zget u 0 (in_decoding_requests s) + 1)%Z).
Proof.
  unfold on_request_response. destruct (request_start_time s !! (u, id)) as [start|].
  - cbv zeta. destruct (update t (t - start) _); [|done]. intros [= <-]. split; [done|]. intros _.
    simpl. unfold zget at 1. by rewrite lookup_insert_eq.
  - intros [= <-]. split; [done|]. by intros [? ?].
Qed.

(** An answer that breaks off is never completed: the client has got the
    chunks before the failure and the exception ends the response, but the
    monitor is only told of the first chunk, so the request stays counted as
    being decoded; nothing is cached. *)
Theorem broken_stream_stays_open {R : Type} cache t_first t_end callbacks rq body u id endpoint
    streaming resp e (g : @gate R) :
  Inv (monitor g) → br_error resp = Some e →
  ∃ g', process_stream cache t_first t_end callbacks rq body u id endpoint streaming resp g
      = (Raise e, g') ∧
    sent g' = sent g ++ br_chunks resp ∧ cache_stores g' = cache_stores g ∧
    run_events (stream_events t_first u id (br_chunks resp)) (monitor g) = (Ret tt, monitor g') ∧
    finished_requests (monitor g') = finished_requests (monitor g) ∧
    (is_Some (request_start_time (monitor g) !! (u, id)) → br_chunks resp ≠ [] →
     zget u 0 (in_decoding_requests (monitor g')) =
       (zget u 0 (in_decoding_requests (monitor g)) + 1)%Z).
Proof.
  intros HI Herr.
  destruct (stream_loop_events t_first u id (br_chunks resp) g HI) as (m1 & Hev & HI1 & Hloop).
  unfold process_stream, process_finish, mbind, M_bind. rewrite Hloop, Herr. eexists. split; [done|]. simpl.
  split_and!; [done|done|done| |].
  - unfold stream_events in Hev. case_decide; [by injection Hev as <-|].
    apply run_events_1_inv in Hev. by apply (response_effect u id t_first).
  - intros Hs Hne. unfold stream_events in Hev. rewrite decide_False in Hev by done.
    apply run_events_1_inv in Hev. by apply (response_effect u id t_first).
Qed.

Lemma broken_stream_stays_open_witness :
  ∃ g', process_stream true 1 2 None toy_rq "{}" "http://a:1" "r" "/v1/completions" false
      (mkResponse 200 [] ["x"]%string (Some ClientError)) toy_gate = (Raise ClientError, g') ∧
    sent g' = ["x"]%string.
Proof.
  destruct (broken_stream_stays_open true 1 2 None toy_rq "{}" "http://a:1" "r" "/v1/completions"
    false (mkResponse 200 [] ["x"]%string (Some ClientError)) ClientError toy_gate)
    as (g' & H1 & H2 & _).
  - apply fresh_monitor_inv. by intros H.
  - reflexivity.
  - by exists g'.
Defined.

Lemma candidate_spec m wanted e :
  candidate (JStr m) wanted e = true ↔
    m ∈ model_names e ∧ sleep e = false ∧ ∀ i, wanted = Some i → Id e = i.
Proof.
  unfold candidate, served. rewrite !andb_true_iff, bool_decide_eq_true, negb_true_iff.
  destruct wanted as [i|]; [rewrite bool_decide_eq_true|]; naive_solver.
Qed.

(** No callback answers the request, and a rewriter that leaves it alone, as
    the one that start-up installs does. *)
Definition passes (callbacks : option (request → string → json → option reply)) (rq : request) (v : json) : Prop :=
  callbacks ≫= (λ pre, pre rq (rq_body rq) v) = None.

Definition leaves_alone (rewriter : option (string → json → string → string)) : Prop :=
  rewriter = None ∨ rewriter = Some noop_rewrite.

Section General.
Context {R : Type} `{!RouterOps R}.
Context (loads : string → outcome json) (dumps : json → string) (py_str : json → string).
Context (backend : backend_call → outcome backend_response).
Context (uuid : string) (t_new : Q).
Implicit Types g : @gate R.

Local Abbreviation general := (route_general_request loads dumps py_str backend uuid t_new).

Lemma process_start_spec rq body u id endpoint d resp g :
  Inv (monitor g) → loads body = Ret (JObj d) →
  backend (mkCall (rq_method rq) (u +:+ endpoint) (sanitize (rq_headers rq)) body) = Ret resp →
  ∃ mon, run_events [ENew u id t_new] (monitor g) = (Ret tt, mon) ∧ Inv mon ∧
    process_start loads backend t_new rq body u id endpoint g =
      (Ret (resp, truthy (dict_get "stream" (JBool false) d)),
       mkGate mon (router_state g)
         (calls g ++ [mkCall (rq_method rq) (u +:+ endpoint) (sanitize (rq_headers rq)) body])
         (sent g) (cache_stores g) (post_requests g) (incoming g)).
Proof.
  intros HI Hl Hb. destruct (on_new_request_ok u id t_new (monitor g) HI) as (mon & Hn & HI').
  exists mon. split_and!; [by apply run_events_1|done|].
  unfold process_start, mbind, M_bind, with_monitor, lift. rewrite Hn, Hl. simpl.
  unfold send_call. simpl. by rewrite Hb.
Qed.

(** The model and the body after the aliases, for a request whose body is a
    JSON object. *)
Definition resolved (aliases : option (list (string * string))) (m : string) : string :=
  default m (aliases ≫= dget m).

Definition rewritten (aliases : option (list (string * string))) (m body : string)
    (d : list (string * json)) : string * list (string * json) :=
  match aliases ≫= dget m with
  | Some m' => let d' := dset "model"%string (JStr m') d in (dumps (JObj d'), d')
  | None => (body, d)
  end.

Lemma apply_alias_spec aliases m body d :
  apply_alias dumps aliases (JStr m) body (JObj d) =
    Ret (JStr (resolved aliases m), (rewritten aliases m body d).1, JObj (rewritten aliases m body d).2).
Proof.
  unfold apply_alias, resolved, rewritten. destruct aliases as [[|a al]|]; simpl; [done| |done].
  destruct a as [k v]. simpl. case_decide; simpl; [done|]. by destruct (dget m al).
Qed.

Lemma rewritten_loads aliases m body d :
  (∀ v, v = JObj (rewritten aliases m body d).2 → loads (dumps v) = Ret v) →
  loads body = Ret (JObj d) →
  loads (rewritten aliases m body d).1 = Ret (JObj (rewritten aliases m body d).2).
Proof.
  intros Hrt Hl. revert Hrt. unfold rewritten.
  destruct (aliases ≫= dget m); simpl; [intros Hrt; by apply Hrt|done].
Qed.

Lemma rewritten_model aliases m body d :
  dget "model"%string d = Some (JStr m) →
  dget "model"%string (rewritten aliases m body d).2 = Some (JStr (resolved aliases m)).
Proof.
  intros Hm. unfold rewritten, resolved. destruct (aliases ≫= dget m); simpl; [|done].
  apply dget_dset_eq.
Qed.

(** The head of the handler up to the model, when no callback answers. *)
Lemma general_head callbacks rewriter rq endpoint eps0 aliases ever_seen d g :
  passes callbacks rq (JObj d) → leaves_alone rewriter →
  rq_body rq ≠ EmptyString → loads (rq_body rq) = Ret (JObj d) →
  general callbacks rewriter None rq endpoint eps0 aliases ever_seen g =
  (let model := dict_get "model" JNull d in
   if is_none model then
     (Ret (error_reply 400 "Invalid request: missing 'model' in request body." (request_id uuid rq)), g)
   else dispatch loads dumps py_str backend uuid t_new rq endpoint (rq_body rq) model (JObj d) eps0
          aliases ever_seen g).
Proof.
  intros Hcb Hrw Hb Hl. unfold route_general_request. unfold mbind at 1, M_bind at 1, lift at 1.
  assert (str_empty (rq_body rq) = false) as -> by by destruct (rq_body rq).
  rewrite Hl, Hcb. unfold mbind at 1, M_bind at 1, lift at 1. cbn [jget]. cbv beta iota zeta.
  destruct (is_none (dict_get "model" JNull d)); [done|].
  destruct Hrw as [-> | ->]; [done|]. unfold mbind, M_bind, lift, noop_rewrite. by rewrite Hl.
Qed.

(** The head of the handler, for a JSON object that names a model. *)
Lemma general_dispatch callbacks rewriter rq endpoint eps0 aliases ever_seen d m g :
  passes callbacks rq (JObj d) → leaves_alone rewriter →
  rq_body rq ≠ EmptyString → loads (rq_body rq) = Ret (JObj d) →
  dget "model"%string d = Some (JStr m) →
  general callbacks rewriter None rq endpoint eps0 aliases ever_seen g =
  dispatch loads dumps py_str backend uuid t_new rq endpoint (rq_body rq) (JStr m) (JObj d) eps0
    aliases ever_seen g.
Proof.
  intros Hcb Hrw Hb Hl Hm. rewrite (general_head callbacks rewriter rq endpoint eps0 aliases ever_seen d) by done.
  unfold dict_get. by rewrite Hm.
Qed.
End General.

(** The headers sent on: each name once, with its last value, and none of the
    hop-by-hop ones. *)
Lemma sanitize_get k (hs : headers) :
  dget k (sanitize hs) = if decide (lower k ∉ HOP_BY_HOP_HEADERS) then dget k (reverse hs) else None.
Proof.
  rewrite <- dget_dict_of. unfold sanitize, dict_of, dupdate.
  induction hs as [|[k' v'] hs IH] using rev_ind; [by case_decide|].
  rewrite filter_app, !foldl_app, filter_cons, filter_nil. cbn [fst].
  destruct (decide (lower k' ∉ HOP_BY_HOP_HEADERS)); cbn [foldl fst snd]; rewrite !dget_dset, IH;
    destruct (decide (k' = k)) as [->|]; by repeat case_decide.
Qed.

Lemma sanitize_wf (hs : headers) : dict_wf (sanitize hs).
Proof. apply dict_of_wf. Qed.


(** C2. The error replies, when no callback answers and the rewriter leaves the
    request alone: a JSON object without a model is answered with 400;
    when no awake engine serves the model, the answer is 503 if the model was
    seen before and 404 otherwise.  In all three cases no backend is called and
    the router is left alone. *)
Theorem general_request_errors {R : Type} `{!RouterOps R}
    loads dumps py_str backend uuid t_new callbacks rewriter rq endpoint eps0 aliases ever_seen d
    (g : @gate R) :
  passes callbacks rq (JObj d) → leaves_alone rewriter → Inv (monitor g) → rq_body rq ≠ EmptyString → loads (rq_body rq) = Ret (JObj d) →
  (dict_get "model" JNull d = JNull ∨
   ∃ m, dget "model"%string d = Some (JStr m) ∧
     Forall (λ e, resolved aliases m ∉ model_names e ∨ sleep e = true) eps0) →
  ∃ status what g',
    route_general_request loads dumps py_str backend uuid t_new callbacks rewriter None rq endpoint
      (Ret eps0) aliases ever_seen g = (Ret (error_reply status what (request_id uuid rq)), g') ∧
    calls g' = calls g ∧ router_state g' = router_state g ∧
    status = match dget "model"%string d with
             | Some (JStr m) =>
                 if default (λ _, false) ever_seen (resolved aliases m) then 503%Z else 404%Z
             | _ => 400%Z
             end.
Proof.
  intros Hcb Hrw HI Hb Hl [Hm|(m & Hm & Hall)].
  - rewrite (general_head loads dumps py_str backend uuid t_new callbacks rewriter rq endpoint
      (Ret eps0) aliases ever_seen d g Hcb Hrw Hb Hl), Hm.
    eexists _, _, g. split_and!; try done. unfold dict_get in Hm. by destruct (dget "model" d); subst.
  - rewrite (general_dispatch loads dumps py_str backend uuid t_new callbacks rewriter rq endpoint
      (Ret eps0) aliases ever_seen d m g Hcb Hrw Hb Hl Hm).
    unfold dispatch, mbind, M_bind, lift. rewrite apply_alias_spec. cbv iota beta.
    replace (filter (λ e, candidate (JStr (resolved aliases m)) (wanted_engine rq) e = true) eps0)
      with (@nil EndpointInfo).
    2:{ symmetry. apply list_filter_none. rewrite Forall_forall in Hall.
        intros e He%Hall Hc%candidate_spec. destruct Hc as (Hs & Ha & _). destruct He; congruence. }
    assert (seen_before ever_seen (JStr (resolved aliases m)) =
      Ret (default (λ _, false) ever_seen (resolved aliases m))) as -> by by destruct ever_seen.
    rewrite Hm.
    destruct (get_request_stats_spec t_new (monitor g) HI) as (stats & m1 & Hst & _).
    destruct (wanted_engine rq); [|unfold with_monitor; rewrite Hst];
      (destruct (default (λ _, false) ever_seen (resolved aliases m));
       eexists _, _, _; split_and!; done).
Qed.

(** ** The routers keep the promise of the interface *)
(** The session router, with a string or no session id. *)
#[global] Instance session_ops {ring : Type} `{!HashRing ring} (key : string) : RouterOps ring := {|
  route eps stats hs body := session_route key eps stats hs body
|}.

Definition session_laws {ring : Type} `{!HashRing ring} `{!HashRingLaws ring} (key : string)
    : @RouterLaws ring (session_ops key).
Proof.
  refine {|
    router_wf := λ _, True;
    accepts := λ hs body, extract_session_id (Some key) hs body = JNull ∨
      ∃ k, extract_session_id (Some key) hs body = JStr k
  |}.
  - intros r eps stats hs body _ Hacc Hne. simpl in *. unfold session_route.
    destruct (session_or_qps_member (Some key) eps stats hs body r Hne Hacc) as (u & -> & Hu).
    by exists u, (update_hash_ring eps r).
  - intros r eps stats hs body _ Hne. split; [done|]. simpl. intros u [= Hu]. revert Hu. unfold session_or_qps.
    destruct (is_none _); intros Hu.
    + destruct (qps_routing_member eps stats Hne) as (u' & Hu' & Hin). by simplify_eq.
    + apply ring_get_sound in Hu. by rewrite update_hash_ring_nodes, url_set_elem in Hu.
Defined.

(** The prefix-aware router, with a prompt that can be read. *)
Definition prefix_ops (hash : list ascii → Z) (cs : nat) (choice : gset string → string)
    : RouterOps TrieNode := {|
  route eps stats hs body := u ← prefix_route hash cs choice eps body; mret (Some u)
|}.

Definition prefix_laws hash cs choice (Hcs : (0 < cs)%nat) (Hch : ∀ X, X ≠ ∅ → choice X ∈ X)
    : @RouterLaws TrieNode (prefix_ops hash cs choice).
Proof.
  refine {|
    router_wf := λ root, ∃ hist, insert_all hash cs hist empty_node = (Ret tt, root);
    accepts := λ _ body, ∃ p, (v ← extract_prompt body; prompt_chars v) = Ret p
  |}.
  - intros root eps stats hs body [hist Hroot] [p Hp] Hne. simpl.
    destruct (prefix_route_spec hash cs choice eps body hist root p Hcs Hch Hne Hroot Hp)
      as (u & root' & j & Hr & Hu & Hins & _).
    unfold mbind, M_bind. rewrite Hr. exists u, root'. split_and!; [done|done|]. by eexists.
  - intros root eps stats hs body [hist Hroot] Hne. simpl. unfold mbind, M_bind.
    destruct (v ← extract_prompt body; prompt_chars v) as [p|e] eqn:Hp.
    + destruct (prefix_route_spec hash cs choice eps body hist root p Hcs Hch Hne Hroot Hp)
        as (u & root' & j & -> & Hu & Hins & _). simpl. split; [by eexists|]. intros u' ?. by simplify_eq.
    + unfold prefix_route. rewrite Hp. simpl. split; [by eexists|done].
Defined.

(** The round-robin router.  The second component counts the requests, and
    [ids n] is [id(endpoints)] of the list made for the [n]-th one: Python may
    give a list the id of one that was freed, and the router then keeps the old
    list, so the laws hold for supplies in which two lists in a row differ, and
    for a hash without collisions. *)
Definition rr_ops (py_hash : list string → Z) (ids : nat → Z) : RouterOps (RoundRobinRouter * nat) := {|
  route eps stats hs body := λ s,
    let '(o, r) := rr_route py_hash (ids s.2) eps s.1 in
    (match o with Ret u => Ret (Some u) | Raise e => Raise e end, (r, S s.2))
|}.

Definition ids_differ (ids : nat → Z) : Prop := ∀ n, ids (S n) ≠ ids n.

Definition rr_state_ok (py_hash : list string → Z) (ids : nat → Z) (s : RoundRobinRouter * nat) : Prop :=
  s.1 = rr_init ∨ ∃ prev n, rr_inv py_hash prev s.1 ∧ prev.1 = ids n ∧ s.2 = S n.

Lemma rr_ops_route py_hash ids (Hinj : Inj (=) (=) py_hash) (Hids : ids_differ ids) s eps stats hs body :
  rr_state_ok py_hash ids s → eps ≠ [] →
  ∃ u s', @route _ (rr_ops py_hash ids) eps stats hs body s = (Ret (Some u), s') ∧ u ∈ url <$> eps ∧
    rr_state_ok py_hash ids s'.
Proof.
  destruct s as [r next]. intros Hwf Hne. simpl in *.
  assert (rr_inv py_hash (ids next, eps) (rr_refresh py_hash (ids next) eps r)) as Hinv.
  { destruct Hwf as [Hr|(prev & n & Hp & Hid & Hn)]; simpl in *.
    - subst r. apply (rr_refresh_init_inv py_hash (ids next, eps)).
    - apply (rr_refresh_inv py_hash prev (ids next, eps)); [done| |].
      + intros Heq. simpl in *. subst next. rewrite Hid in Heq. by destruct (Hids n).
      + intros Heq. by apply Hinj. }
  destruct (rr_route_inv py_hash (ids next, eps) r Hinv Hne) as (u & s' & Hr & Hs' & Hu).
  simpl in Hr, Hu. rewrite Hr. exists u, (s', S next). split_and!; [done|done|].
  right. by exists (ids next, eps), next.
Qed.

Definition rr_laws py_hash ids (Hinj : Inj (=) (=) py_hash) (Hids : ids_differ ids)
    : @RouterLaws (RoundRobinRouter * nat) (rr_ops py_hash ids).
Proof.
  refine {|
    router_wf := rr_state_ok py_hash ids;
    accepts := λ _ _, True
  |}.
  - intros s eps stats hs body Hwf _ Hne. by apply rr_ops_route.
  - intros s eps stats hs body Hwf Hne.
    destruct (rr_ops_route py_hash ids Hinj Hids s eps stats hs body Hwf Hne) as (u & r' & -> & Hu & Hwf').
    split; [done|]. intros u' ?. by simplify_eq/=.
Defined.

(** Body text of the witnesses and its JSON value. *)
Definition toy_loads (body : string) : outcome json :=
  if decide (body = "B"%string) then Ret (JObj [("model", JStr "gpt")]%string)
  else if decide (body = "L"%string) then Ret (JObj [("model", JStr "llama")]%string)
  else Raise JSONDecodeError.

Definition toy_dumps (v : json) : string := "L".

Definition gpt_rq : request := mkRequest "POST" [("Host", "router"); ("X-User", "u1"); ("X-User", "u2")]%string "B" [].

Definition llama_ep : EndpointInfo :=
  mkEndpointInfo "http://a:1" ["llama"%string] "i" 0 None false None None None [].

Definition rr_gate : @gate (RoundRobinRouter * nat) := mkGate (fresh_monitor 60) (rr_init, 0%nat) [] [] [] [] [].

Definition url_hash (l : list string) : Z := Zpos (encode l).

Lemma url_hash_inj : Inj (=) (=) url_hash.
Proof. intros x y H. unfold url_hash in H. simplify_eq. by apply (inj encode). Qed.

Lemma counting_ids : ids_differ Z.of_nat.
Proof. intros n. lia. Qed.


Lemma general_request_errors_witness :
  ∃ status what g',
    @route_general_request _ (rr_ops url_hash Z.of_nat) toy_loads toy_dumps (λ _, EmptyString)
      (λ _, Raise ClientError) "id" 0 None (Some noop_rewrite) None gpt_rq "/v1/completions" (Ret []) None
      (Some (λ m, bool_decide (m = "gpt"%string))) rr_gate =
      (Ret (error_reply status what "id"), g') ∧ status = 503%Z.
Proof.
  destruct (@general_request_errors _ (rr_ops url_hash Z.of_nat) toy_loads toy_dumps (λ _, EmptyString)
    (λ _, Raise ClientError) "id" 0 None (Some noop_rewrite) gpt_rq "/v1/completions" [] None
    (Some (λ m, bool_decide (m = "gpt"%string))) [("model", JStr "gpt")]%string rr_gate)
    as (status & what & g' & Hr & _ & _ & Hs).
  - reflexivity.
  - by right.
  - apply fresh_monitor_inv. by intros H.
  - done.
  - reflexivity.
  - right. exists "gpt"%string. split; [reflexivity|constructor].
  - exists status, what, g'. split; [exact Hr|exact Hs].
Defined.
