(* ===== verification/Gateway.v ===== *)
(** * The running router: discovery, requests and clients together

    The event loop of the router interleaves the watch events of the discovery
    by pod address, arriving requests, answers of backends, turns of the
    generators that stream them, and clients that go away.  A gateway is the
    discovery, the [gate] of the request service and one entry per request that
    arrived; an event is what runs between two suspensions of a coroutine.  The
    rewriter is the one [initialize_all] installs, and there are no callbacks. *)
From stdpp Require Import base list strings gmap pretty.
From Stdlib Require Import Ascii QArith.
From S2P Require Import Prelude PyDict PyStr Json Endpoint RequestStats HashTrie HashRing Routing StaticDiscovery K8sDiscovery Utils Request.

(** How far the generator of a proxied request has come. *)
Inductive stage : Type :=
| Waiting                                              (* for status and headers *)
| Refused (e : exn)                                    (* the call failed *)
| Streaming (resp : backend_response) (rest : list string)
| Ended (resp : backend_response) (o : outcome unit)   (* it returned or raised *)
| Dropped (resp : option backend_response).            (* the client went away *)

Record proxied := mkProxied {
  px_rq : request;
  px_endpoint : string;
  px_body : string;
  px_url : string;
  px_id : string;
  px_streaming : bool;
  px_got : list string;                                (* what the client received *)
  px_progress : stage
}.

Definition set_progress (got : list string) (pr : stage) (p : proxied) : proxied :=
  mkProxied (px_rq p) (px_endpoint p) (px_body p) (px_url p) (px_id p) (px_streaming p) got pr.

(** What became of a request: an immediate reply, an exception of the handler, or
    a stream. *)
Inductive conn : Type :=
| Immediate (r : reply)
| Failed (e : exn)
| Proxied (p : proxied).

Section Gateway.
Context {R : Type} `{!RouterOps R}.
Context (loads : string → outcome json) (dumps : json → string) (py_str : json → string).
Context (port ns : string) (uuid5 : string → string) (prefill decode : labels).
Context (semantic_cache_available : bool).

Record gateway := mkGateway {
  gw_disc : K8sPodIP;
  gw_gate : @gate R;
  gw_conns : list conn
}.

Inductive gw_event : Type :=
| Watch (w : world) (event : string) (p : pod)
| Arrive (rq : request) (endpoint uuid : string) (t : Q)
| Answer (c : nat) (o : outcome backend_response)
| Advance (c : nat) (t : Q)
| Disconnect (c : nat).

(** Stands for the answer until it comes: the handler runs up to the [await] of
    the first item of the generator, and what follows adds the id to the headers. *)
Definition pending : backend_response := mkResponse 0 [] [] None.

Definition handle (rq : request) (endpoint uuid : string) (t : Q) (disc : K8sPodIP) : M (@gate R) reply :=
  route_general_request loads dumps py_str (λ _, Ret pending) uuid t None (Some noop_rewrite) None rq endpoint
    (Ret (get_endpoint_info disc)) None (Some (λ m, has_ever_seen_model m disc)).

Definition conn_of (rq : request) (endpoint uuid : string) (o : outcome reply) : conn :=
  match o with
  | Ret (StreamReply _ _ streaming u body) =>
      Proxied (mkProxied rq endpoint body u (request_id uuid rq) streaming [] Waiting)
  | Ret r => Immediate r
  | Raise e => Failed e
  end.

(** What was sent between two states of the gate. *)
Definition new_chunks (g g' : @gate R) : list string := drop (length (sent g)) (sent g').

(** The generator runs to its next [yield] or to its end; its client receives
    what it sends.  The first token is behind it once a chunk was taken. *)
Definition advance (t : Q) (p : proxied) : M (@gate R) proxied := λ g,
  match px_progress p with
  | Streaming resp (chunk :: rest) =>
      let '(o, g') := stream_chunk t (px_url p) (px_id p) (bool_decide (chunk :: rest ≠ br_chunks resp)) chunk g in
      (Ret (set_progress (px_got p ++ new_chunks g g')
              (match o with Ret _ => Streaming resp rest | Raise e => Ended resp (Raise e) end) p), g')
  | Streaming resp [] =>
      let '(o, g') := process_finish semantic_cache_available t None (px_rq p) (px_body p) (px_url p) (px_id p)
                       (px_endpoint p) (px_streaming p) resp g in
      (Ret (set_progress (px_got p ++ new_chunks g g') (Ended resp o) p), g')
  | _ => (Ret p, g)
  end.

Definition answered (o : outcome backend_response) (p : proxied) : proxied :=
  match px_progress p with
  | Waiting => set_progress (px_got p)
                 (match o with Ret resp => Streaming resp (br_chunks resp) | Raise e => Refused e end) p
  | _ => p
  end.

(** The server cancels the task of the response; nothing in the generator
    catches that. *)
Definition dropped (p : proxied) : proxied :=
  match px_progress p with
  | Waiting => set_progress (px_got p) (Dropped None) p
  | Streaming resp _ => set_progress (px_got p) (Dropped (Some resp)) p
  | _ => p
  end.

(** A change of one stream and of the gate. *)
Definition on_conn (c : nat) (f : proxied → M (@gate R) proxied) (gw : gateway) : gateway :=
  match gw_conns gw !! c with
  | Some (Proxied p) =>
      match f p (gw_gate gw) with
      | (Ret p', g) => mkGateway (gw_disc gw) g (<[c := Proxied p']> (gw_conns gw))
      | (Raise _, g) => mkGateway (gw_disc gw) g (gw_conns gw)
      end
  | _ => gw
  end.

Definition gw_step (e : gw_event) (gw : gateway) : gateway :=
  match e with
  | Watch w event p =>
      mkGateway (watch_event port ns uuid5 prefill decode w event p (gw_disc gw)).2 (gw_gate gw) (gw_conns gw)
  | Arrive rq endpoint uuid t =>
      let '(o, g) := handle rq endpoint uuid t (gw_disc gw) (gw_gate gw) in
      mkGateway (gw_disc gw) g (gw_conns gw ++ [conn_of rq endpoint uuid o])
  | Answer c o => on_conn c (λ p, mret (answered o p)) gw
  | Advance c t => on_conn c (advance t) gw
  | Disconnect c => on_conn c (λ p, mret (dropped p)) gw
  end.

Definition gw_run (events : list gw_event) (gw : gateway) : gateway := foldl (flip gw_step) gw events.

Definition gw_init (a : App) (window : Q) (r : R) : gateway :=
  mkGateway (k8s_init a) (mkGate (fresh_monitor window) r [] [] [] [] []) [].
End Gateway.

Arguments mkGateway {R}.
Arguments gateway : clear implicits.
