(* ===== verification/GatewaySpec.v ===== *)
(** * What the running router promises

    For every interleaving of watch events, requests, answers and
    disconnections: each client receives its own backend's answer, the
    counters of the request monitor are the numbers of requests in each phase,
    and requests only go to engines that were offered when they arrived. *)
From stdpp Require Import base list strings gmap pretty.
From Stdlib Require Import Ascii QArith.
From S2P Require Import Prelude PyDict PyStr Json Endpoint RequestStats HashTrie HashRing Routing RoutingSpec StaticDiscovery K8sDiscovery K8sSpec Utils Request RequestSpec Gateway.

(** ** Arrivals *)
Section Arrivals.
Context {R : Type} `{!RouterOps R} `{!RouterLaws R}.
Context (loads : string → outcome json) (dumps : json → string) (py_str : json → string).
Implicit Types g : @gate R.

(** The body of the request is an object that names the model [m]. *)
Definition asks_for (rq : request) (m : string) : Prop :=
  ∃ d, loads (rq_body rq) = Ret (JObj d) ∧ dget "model"%string d = Some (JStr m).

Definition offers (eps : list EndpointInfo) (rq : request) (u : string) : Prop :=
  ∃ e m, e ∈ eps ∧ url e = u ∧ asks_for rq m ∧ m ∈ model_names e ∧ sleep e = false.

(** The part of the gate that a request which is not proxied leaves alone, up
    to the monitor's own bookkeeping. *)
Definition quiet (t : Q) (g g' : @gate R) : Prop :=
  calls g' = calls g ∧ sent g' = sent g ∧ Inv (monitor g') ∧ router_wf (router_state g') ∧
  (run_events [] (monitor g) = (Ret tt, monitor g') ∨ run_events [EStats t] (monitor g) = (Ret tt, monitor g')).

(** The call for a request at [u], and what the monitor is told. *)
Definition forwarded (rq : request) (endpoint u id : string) (t : Q) (g g' : @gate R) : Prop :=
  calls g' = calls g ++ [mkCall (rq_method rq) (u +:+ endpoint) (sanitize (rq_headers rq)) (rq_body rq)] ∧
  sent g' = sent g ∧ Inv (monitor g') ∧ router_wf (router_state g') ∧
  (run_events [ENew u id t] (monitor g) = (Ret tt, monitor g') ∨
   run_events [EStats t; ENew u id t] (monitor g) = (Ret tt, monitor g')).

Definition arrival_ok (eps : list EndpointInfo) (rq : request) (endpoint uuid : string) (t : Q) (g : @gate R)
    (res : outcome reply * @gate R) : Prop :=
  match res with
  | (Ret (StreamReply _ resp _ u body), g') =>
      resp = pending ∧ body = rq_body rq ∧ offers eps rq u ∧ forwarded rq endpoint u (request_id uuid rq) t g g'
  | (_, g') => quiet t g g'
  end.

Lemma quiet_refl t g : Inv (monitor g) → router_wf (router_state g) → quiet t g g.
Proof. intros H1 H2. split_and!; try done. by left. Qed.

(** Sending to a chosen engine. *)
Lemma proxy_arrival eps rq endpoint uuid t d u g g1 :
  loads (rq_body rq) = Ret (JObj d) → offers eps rq u → quiet t g g1 →
  arrival_ok eps rq endpoint uuid t g
    (proxy loads (λ _, Ret pending) uuid t rq endpoint (rq_body rq) (Some u) g1).
Proof.
  intros Hl Ho (Hc & Hsn & HI & Hw & Hrun). unfold proxy, mbind, M_bind, lift. simpl.
  destruct (process_start_spec loads (λ _, Ret pending) t rq (rq_body rq) u (request_id uuid rq) endpoint d pending g1)
    as (mon & Hn & HI' & Hps); [done|done|done|].
  rewrite Hps. unfold arrival_ok. split; [done|split; [done|split; [done|]]]. unfold forwarded.
  cbn [calls sent monitor router_state]. split; [by rewrite Hc|split; [done|split; [done|split; [done|]]]].
  destruct Hrun as [Hrun|Hrun]; [left|right].
  - simpl in Hrun. injection Hrun as Hrun. by rewrite Hrun.
  - change [EStats t; ENew u (request_id uuid rq) t] with ([EStats t] ++ [ENew u (request_id uuid rq) t]).
    by rewrite run_events_app, Hrun.
Qed.

(** Routing among candidates. *)
Lemma choose_arrival eps cands rq endpoint uuid t d m stats g g1 :
  loads (rq_body rq) = Ret (JObj d) → dget "model"%string d = Some (JStr m) →
  cands = filter (λ e, candidate (JStr m) (wanted_engine rq) e = true) eps → cands ≠ [] →
  quiet t g g1 →
  arrival_ok eps rq endpoint uuid t g
    ((u ← choose cands stats rq (JObj d); proxy loads (λ _, Ret pending) uuid t rq endpoint (rq_body rq) u) g1).
Proof.
  intros Hl Hm Hcands Hne Hq.
  assert (∀ u, u ∈ url <$> cands → offers eps rq u) as Ho.
  { intros u (e & -> & He)%list_elem_of_fmap. rewrite Hcands in He. apply list_elem_of_filter in He as [Hc He].
    apply candidate_spec in Hc as (H1 & H2 & _). exists e, m. split_and!; try done. by exists d. }
  unfold choose. destruct (wanted_engine rq) as [i|].
  - destruct cands as [|e cands]; [done|]. unfold mbind, M_bind, mret, M_ret. simpl.
    apply (proxy_arrival eps rq endpoint uuid t d); [done| |done]. apply Ho. left.
  - destruct Hq as (Hc & Hsn & HI & Hw & Hrun).
    destruct (route_sound (router_state g1) cands stats (rq_headers rq) d Hw Hne) as [Hw' Hu].
    unfold with_router. unfold mbind at 1, M_bind at 1.
    destruct (route cands stats (rq_headers rq) d (router_state g1)) as [[[u|]|ex] r'].
    + apply (proxy_arrival eps rq endpoint uuid t d); [done|by apply Ho, Hu|]. by split_and!.
    + unfold proxy, mbind, M_bind, lift. simpl. by split_and!.
    + simpl. by split_and!.
Qed.

Lemma dispatch_arrival disc_eps seen rq endpoint uuid t d model g :
  Inv (monitor g) → router_wf (router_state g) →
  loads (rq_body rq) = Ret (JObj d) → dict_get "model" JNull d = model → model ≠ JNull →
  arrival_ok disc_eps rq endpoint uuid t g
    (dispatch loads dumps py_str (λ _, Ret pending) uuid t rq endpoint (rq_body rq) model (JObj d)
       (Ret disc_eps) None (Some seen) g).
Proof.
  intros HI Hw Hl Hm Hnn. unfold dispatch. unfold mbind at 1, M_bind at 1, lift at 1. unfold mbind at 1, M_bind at 1, lift at 1.
  cbn [apply_alias]. unfold mbind at 1, M_bind at 1, lift at 1.
  destruct (seen_before (Some seen) model) as [sn|ex]; [|by apply quiet_refl].
  set (cands := filter _ disc_eps).
  set (stats_m := match wanted_engine rq with None => _ | Some _ => _ end).
  assert (∃ stats g1, stats_m g = (Ret stats, g1) ∧ quiet t g g1) as (stats & g1 & Hst & Hq).
  { unfold stats_m. destruct (wanted_engine rq); [by exists ∅, g; split; [|apply quiet_refl]|].
    destruct (get_request_stats_spec t (monitor g) HI) as (stats & m1 & Hst & HI1 & _). eexists stats, _.
    unfold with_monitor. rewrite Hst. split; [done|]. split_and!; try done. right. simpl.
    unfold mbind, M_bind. by rewrite Hst. }
  unfold mbind at 1, M_bind at 1. rewrite Hst. unfold mbind at 1, M_bind at 1, modify.
  set (g2 := mkGate _ _ _ _ _ _ _). assert (quiet t g g2) as Hq2 by done. clearbody g2.
  destruct cands as [|e0 cands'] eqn:Ec; [by destruct sn|].
  destruct model as [| | | |m| |] eqn:Em.
  5:{ apply (choose_arrival disc_eps (e0 :: cands') rq endpoint uuid t d m stats g g2); try done.
      unfold dict_get in Hm. by destruct (dget "model"%string d); simplify_eq/=. }
  all: exfalso; assert (e0 ∈ cands) as Hin by (rewrite Ec; left);
    apply list_elem_of_filter in Hin as [Hin _]; by unfold candidate in Hin.
Qed.

Lemma handle_arrival disc rq endpoint uuid t g :
  Inv (monitor g) → router_wf (router_state g) →
  arrival_ok (get_endpoint_info disc) rq endpoint uuid t g
    (handle loads dumps py_str rq endpoint uuid t disc g).
Proof.
  intros HI Hw. unfold handle, route_general_request. unfold mbind at 1, M_bind at 1, lift at 1.
  assert (quiet t g g) as Hq by by apply quiet_refl.
  destruct (str_empty (rq_body rq)) eqn:Eb.
  { simpl. unfold mbind, M_bind, lift. simpl. done. }
  destruct (loads (rq_body rq)) as [v|e] eqn:El; [|done]. cbn [mbind option_bind].
  unfold mbind at 1, M_bind at 1, lift at 1. destruct v as [| | | | | |d]; try done. cbn [jget]; cbv beta iota.
  match goal with |- context [is_none ?x] => destruct (is_none x) eqn:En end; [exact Hq|].
  unfold mbind, M_bind, lift. unfold noop_rewrite. rewrite El.
  apply dispatch_arrival; try done. by destruct (dict_get "model" JNull d).
Qed.
End Arrivals.

(** ** Phases of the proxied requests *)
Definition px_key (p : proxied) : string * string := (px_url p, px_id p).

(** The phase a stream was last in: one that broke or was dropped stays there. *)
Definition px_phase (p : proxied) : phase :=
  match px_progress p with
  | Ended resp _ => if br_error resp then (if px_got p then Prefilling else Decoding) else Finished
  | _ => if px_got p then Prefilling else Decoding
  end.

Definition proxied_of (c : conn) : option proxied := match c with Proxied p => Some p | _ => None end.
Definition streams (l : list conn) : list proxied := omap proxied_of l.

(** Number of streams to [u] in a phase. *)
Definition number (u : string) (ph : phase) (l : list conn) : nat :=
  length (filter (λ p, px_url p = u ∧ px_phase p = ph) (streams l)).

Definition phases (l : list proxied) : gmap (string * string) phase :=
  list_to_map ((λ p, (px_key p, px_phase p)) <$> l).

Lemma phases_cons p l : phases (p :: l) = <[px_key p := px_phase p]> (phases l).
Proof. done. Qed.

Lemma phases_None l k : k ∉ px_key <$> l → phases l !! k = None.
Proof.
  intros Hk. apply not_elem_of_list_to_map. intros Hin. apply Hk.
  apply list_elem_of_fmap in Hin as ([k' ph] & -> & (p & [= -> ->] & Hp)%list_elem_of_fmap).
  simpl. by apply (list_elem_of_fmap_2 px_key).
Qed.

Lemma phases_snoc l p : px_key p ∉ px_key <$> l → phases (l ++ [p]) = <[px_key p := px_phase p]> (phases l).
Proof.
  induction l as [|q l IH]; intros Hk; [done|]. apply not_elem_of_cons in Hk as [Hne Hk].
  simpl. rewrite !phases_cons, IH by done. by rewrite insert_insert_ne.
Qed.

Lemma phases_lookup l i p : NoDup (px_key <$> l) → l !! i = Some p → phases l !! px_key p = Some (px_phase p).
Proof.
  intros Hnd Hi. apply elem_of_list_to_map.
  - by rewrite <- list_fmap_compose.
  - apply list_elem_of_fmap. exists p. split; [done|]. by apply list_elem_of_lookup_2 in Hi.
Qed.

Lemma phases_update l i p p' :
  NoDup (px_key <$> l) → l !! i = Some p → px_key p' = px_key p →
  phases (<[i := p']> l) = <[px_key p := px_phase p']> (phases l).
Proof.
  revert i. induction l as [|q l IH]; intros i Hnd Hi Hk; [done|]. apply NoDup_cons in Hnd as [Hq Hnd].
  destruct i as [|i]; simpl in *.
  - injection Hi as ->. by rewrite !phases_cons, Hk, insert_insert_eq.
  - rewrite !phases_cons, (IH i) by done. rewrite insert_insert_ne; [done|].
    intros Heq. apply Hq. rewrite Heq. by eapply (list_elem_of_fmap_2 px_key), list_elem_of_lookup_2.
Qed.

Lemma phases_count l u ph :
  NoDup (px_key <$> l) →
  in_phase (phases l) u ph = length (filter (λ p, px_url p = u ∧ px_phase p = ph) l).
Proof.
  induction l as [|p l IH]; intros Hnd; [done|]. apply NoDup_cons in Hnd as [Hp Hnd].
  rewrite phases_cons. unfold px_key at 1.
  rewrite in_phase_insert_fresh by by apply phases_None. rewrite (IH Hnd), filter_cons. by repeat case_decide.
Qed.

(** ** One connection *)
(** What the client of a stream has received is its part of the answer. *)
Definition px_ok (p : proxied) : Prop :=
  match px_progress p with
  | Waiting | Refused _ | Dropped None => px_got p = []
  | Streaming resp rest => px_got p ++ rest = br_chunks resp
  | Ended resp o => px_got p = br_chunks resp ∧ (o = Ret tt → br_error resp = None)
  | Dropped (Some resp) => px_got p `prefix_of` br_chunks resp
  end.

(** The answer a stream is reading from. *)
Definition px_answer (p : proxied) : option backend_response :=
  match px_progress p with
  | Streaming resp _ | Ended resp _ => Some resp
  | Dropped resp => resp
  | _ => None
  end.

Section Runs.
Context {R : Type} `{!RouterOps R} `{!RouterLaws R}.
Context (loads : string → outcome json) (dumps : json → string) (py_str : json → string).
Context (port ns : string) (uuid5 : string → string) (prefill decode : labels).
Context (semantic_cache_available : bool).
Implicit Types (g : @gate R) (gw : gateway R).

Local Abbreviation step := (gw_step loads dumps py_str port ns uuid5 prefill decode semantic_cache_available).
Local Abbreviation run := (gw_run loads dumps py_str port ns uuid5 prefill decode semantic_cache_available).
Local Abbreviation adv := (advance semantic_cache_available).

(** A complete answer has a body. *)
Definition has_body (resp : backend_response) : Prop := br_error resp = None → br_chunks resp ≠ [].

(** What a turn of a stream does: unless a complete answer is empty, it tells the
    monitor of a step of the life cycle, or of nothing. *)
Definition turn_ok (p p' : proxied) (g g' : @gate R) : Prop :=
  px_key p' = px_key p ∧ px_rq p' = px_rq p ∧
  (∃ new, px_got p' = px_got p ++ new ∧ sent g' = sent g ++ new) ∧ px_ok p' ∧ Inv (monitor g') ∧
  router_state g' = router_state g ∧
  ((∀ resp, px_answer p = Some resp → has_body resp) →
   monitor g' = monitor g ∧ px_phase p' = px_phase p ∨
   ∃ e, step_event e (monitor g) = (Ret tt, monitor g') ∧
     ∀ P, P !! px_key p = Some (px_phase p) → lifecycle P e (<[px_key p := px_phase p']> P)).

Lemma silent_turn p pr g :
  px_ok (set_progress (px_got p) pr p) → px_phase (set_progress (px_got p) pr p) = px_phase p → Inv (monitor g) →
  turn_ok p (set_progress (px_got p) pr p) g g.
Proof.
  intros Hok Hph HI. split_and!; try done; [exists []; by rewrite !app_nil_r|]. intros _. by left.
Qed.

Lemma turn_refl p g : px_ok p → Inv (monitor g) → turn_ok p p g g.
Proof. intros Hok HI. split_and!; try done; [exists []; by rewrite !app_nil_r|]. intros _. by left. Qed.

Lemma new_chunks_app g g' l : sent g' = sent g ++ l → new_chunks g g' = l.
Proof. intros H. unfold new_chunks. by rewrite H, drop_app_length. Qed.

Lemma advance_chunk t p g resp chunk rest :
  px_ok p → Inv (monitor g) → px_progress p = Streaming resp (chunk :: rest) →
  ∃ p' g', adv t p g = (Ret p', g') ∧ px_answer p' = px_answer p ∧ turn_ok p p' g g'.
Proof.
  intros Hok HI Hpr. unfold advance. rewrite Hpr. unfold px_ok in Hok. rewrite Hpr in Hok.
  unfold stream_chunk, mbind, M_bind, send_chunk, modify, mret, M_ret, with_monitor.
  assert (bool_decide (chunk :: rest ≠ br_chunks resp) = bool_decide (px_got p ≠ [])) as ->.
  { rewrite <- Hok. apply bool_decide_ext. destruct (px_got p) as [|c0 got]; [done|]. split; [done|].
    intros _ Heq%(f_equal length). rewrite length_app in Heq. simpl in Heq. lia. }
  assert (px_phase p = if px_got p then Prefilling else Decoding) as Hph by (unfold px_phase; by rewrite Hpr).
  assert (px_answer p = Some resp) as Han by (unfold px_answer; by rewrite Hpr).
  set (p' := set_progress (px_got p ++ [chunk]) (Streaming resp rest) p).
  assert (px_ok p') as Hok' by (unfold px_ok; simpl; by rewrite <- app_assoc).
  assert (px_phase p' = Decoding) as Hph' by (unfold px_phase, p'; simpl; by destruct (px_got p)).
  destruct (px_got p) as [|c0 got] eqn:Eg.
  - rewrite bool_decide_false by naive_solver.
    destruct (on_request_response_ok (px_url p) (px_id p) t (monitor g) HI) as (mon & Hr & HI'). rewrite Hr.
    exists p'. eexists. split; [by erewrite new_chunks_app|]. split; [by rewrite Han|].
    split_and!; try done; [by exists [chunk]; rewrite Eg|]. intros _. right. exists (EResponse (px_url p) (px_id p) t).
    split; [done|]. intros P HP. rewrite Hph'. apply lc_response. etrans; [exact HP|by rewrite Hph].
  - rewrite bool_decide_true by done. exists p'. eexists. split; [by erewrite new_chunks_app|]. split; [by rewrite Han|].
    split_and!; try done; [by exists [chunk]; rewrite Eg|]. intros _. left. by rewrite Hph, Hph'.
Qed.

(** The end of a complete answer, after the monitor was told. *)
Lemma process_finish_complete t p g resp mon :
  br_error resp = None → on_request_complete (px_url p) (px_id p) t t (monitor g) = (Ret tt, mon) →
  ∃ o g', process_finish semantic_cache_available t None (px_rq p) (px_body p) (px_url p) (px_id p) (px_endpoint p)
      (px_streaming p) resp g = (o, g') ∧ monitor g' = mon ∧ router_state g' = router_state g ∧ sent g' = sent g.
Proof.
  intros Ee Hc. unfold process_finish, mbind, M_bind. rewrite Ee. unfold with_monitor, mret, M_ret. rewrite Hc.
  destruct semantic_cache_available; [|by eexists _, _].
  unfold lift. destruct (px_streaming p); [destruct (last (br_chunks resp))|]; simpl; by eexists _, _.
Qed.

Lemma advance_finish t p g resp :
  px_ok p → Inv (monitor g) → px_progress p = Streaming resp [] →
  ∃ p' g', adv t p g = (Ret p', g') ∧ px_answer p' = px_answer p ∧ turn_ok p p' g g'.
Proof.
  intros Hok HI Hpr. unfold advance. rewrite Hpr. unfold px_ok in Hok. rewrite Hpr in Hok. rewrite app_nil_r in Hok.
  assert (px_phase p = if px_got p then Prefilling else Decoding) as Hph by (unfold px_phase; by rewrite Hpr).
  assert (px_answer p = Some resp) as Han by (unfold px_answer; by rewrite Hpr).
  destruct (br_error resp) as [e|] eqn:Ee.
  - unfold process_finish, mbind, M_bind. rewrite Ee. simpl. rewrite (new_chunks_app g g []), app_nil_r by by rewrite app_nil_r.
    eexists _, g. split; [done|]. split; [by rewrite Han|].
    split_and!; try done; [exists []; by rewrite !app_nil_r|]. intros _. left. split; [done|]. unfold px_phase at 1. simpl. by rewrite Ee.
  - destruct (on_request_complete_ok (px_url p) (px_id p) t t (monitor g) HI) as (mon & Hc & HI').
    destruct (process_finish_complete t p g resp mon Ee Hc) as (o & g' & -> & <- & Hr & Hs).
    rewrite (new_chunks_app g g' []), app_nil_r by by rewrite Hs, app_nil_r.
    eexists _, g'. split; [done|]. split; [by rewrite Han|].
    split_and!; try done; [exists []; by rewrite Hs, !app_nil_r|].
    intros Hb. right. exists (EComplete (px_url p) (px_id p) t t). split; [done|]. intros P HP.
    unfold px_phase at 1. simpl. rewrite Ee. apply lc_complete. etrans; [exact HP|]. rewrite Hph.
    destruct (px_got p); [|done]. by destruct (Hb resp Han Ee).
Qed.

Lemma advance_turn t p g :
  px_ok p → Inv (monitor g) →
  ∃ p' g', adv t p g = (Ret p', g') ∧ px_answer p' = px_answer p ∧ turn_ok p p' g g'.
Proof.
  intros Hok HI. destruct (px_progress p) as [| |resp [|chunk rest]| |] eqn:Hpr.
  3:{ by eapply advance_finish. }
  3:{ by eapply advance_chunk. }
  all: exists p, g; unfold advance; rewrite Hpr; (split; [done|]); (split; [done|]); by apply turn_refl.
Qed.

(** ** Runs *)
(** The ids of the requests that arrive. *)
Definition arrival_id (e : gw_event) : option string :=
  match e with Arrive rq _ uuid _ => Some (request_id uuid rq) | _ => None end.
Definition arrival_ids (events : list gw_event) : list string := omap arrival_id events.

Definition answers_ok (e : gw_event) : Prop := match e with Answer _ (Ret resp) => has_body resp | _ => True end.

Record gw_safe (events : list gw_event) (gw : gateway R) : Prop := {
  gs_monitor : Inv (monitor (gw_gate gw));
  gs_router : router_wf (router_state (gw_gate gw));
  gs_ok : Forall px_ok (streams (gw_conns gw));
  gs_answers : ∀ i p resp, gw_conns gw !! i = Some (Proxied p) → px_answer p = Some resp →
               Answer i (Ret resp) ∈ events;
  gs_sent : sent (gw_gate gw) ≡ₚ concat (px_got <$> streams (gw_conns gw))
}.

Record gw_counted (events : list gw_event) (gw : gateway R) : Prop := {
  gc_ids : px_id <$> streams (gw_conns gw) `sublist_of` arrival_ids events;
  gc_counts : counts (phases (streams (gw_conns gw))) (monitor (gw_gate gw))
}.

Lemma keys_NoDup l : NoDup (px_id <$> l) → NoDup (px_key <$> l).
Proof.
  induction l as [|p l IH]; intros Hnd; [constructor|]. apply NoDup_cons in Hnd as [Hp Hnd].
  apply NoDup_cons. split; [|by apply IH]. intros (q & Hq & Hin)%list_elem_of_fmap. apply Hp.
  apply list_elem_of_fmap. exists q. by unfold px_key in Hq; simplify_eq.
Qed.

(** The stream at position [c] among the streams. *)
Lemma streams_lookup l c p :
  l !! c = Some (Proxied p) →
  ∃ i, streams l !! i = Some p ∧ ∀ p', streams (<[c := Proxied p']> l) = <[i := p']> (streams l).
Proof.
  revert c. induction l as [|x l IH]; intros c Hc; [done|]. destruct c as [|c]; simpl in Hc.
  - injection Hc as ->. by exists 0%nat.
  - destruct (IH c Hc) as (i & Hi & Hu). unfold streams in *. simpl. destruct x as [r|e|q]; simpl.
    + exists i. split; [done|]. intros p'. by rewrite Hu.
    + exists i. split; [done|]. intros p'. by rewrite Hu.
    + exists (S i). split; [done|]. intros p'. simpl. by rewrite Hu.
Qed.

Lemma streams_snoc l c : streams (l ++ [c]) = streams l ++ match proxied_of c with Some p => [p] | None => [] end.
Proof. unfold streams. rewrite omap_app. by destruct c. Qed.

Lemma lifecycle_counts P e P' s s' :
  Inv s → counts P s → step_event e s = (Ret tt, s') → lifecycle P e P' → counts P' s'.
Proof. intros. by eapply counts_step. Qed.

(** *** Only stream [c] changes *)
Lemma concat_grow (l : list proxied) i p p' new :
  l !! i = Some p → px_got p' = px_got p ++ new →
  concat (px_got <$> <[i := p']> l) ≡ₚ concat (px_got <$> l) ++ new.
Proof.
  intros Hi Hn. rewrite <- (take_drop_middle l i p Hi) at 2.
  rewrite (insert_take_drop l i p') by by eapply lookup_lt_Some.
  rewrite !fmap_app, !fmap_cons, !concat_app, !concat_cons, Hn. solve_Permutation.
Qed.

Lemma safe_turn events e gw c p p' g' :
  gw_safe events gw → gw_conns gw !! c = Some (Proxied p) → turn_ok p p' (gw_gate gw) g' →
  (∀ resp, px_answer p' = Some resp → px_answer p = Some resp ∨ e = Answer c (Ret resp)) →
  gw_safe (events ++ [e]) (mkGateway (gw_disc gw) g' (<[c := Proxied p']> (gw_conns gw))).
Proof.
  intros [HI Hw Hok Han Hsent] Hc (Hkey & Hrq & (new & Hnew & Hs') & Hok' & HI' & Hr & _) Hans.
  destruct (streams_lookup _ _ _ Hc) as (i & Hi & Hu).
  split; simpl; [done|by rewrite Hr| | |by rewrite Hs', Hu, (concat_grow _ _ _ _ _ Hi Hnew), Hsent].
  - rewrite Hu. by apply Forall_insert.
  - intros j q resp Hj Hq. apply elem_of_app. destruct (decide (j = c)) as [->|Hne].
    + rewrite list_lookup_insert_eq in Hj by by eapply lookup_lt_Some. simplify_eq.
      destruct (Hans resp Hq) as [Hp| ->]; [left; by eapply Han|right; left].
    + rewrite list_lookup_insert_ne in Hj by done. left. by eapply Han.
Qed.

Lemma counted_turn events e gw c p p' g' :
  gw_counted events gw → Inv (monitor (gw_gate gw)) → NoDup (arrival_ids events) → arrival_id e = None →
  gw_conns gw !! c = Some (Proxied p) → turn_ok p p' (gw_gate gw) g' →
  (∀ resp, px_answer p = Some resp → has_body resp) →
  gw_counted (events ++ [e]) (mkGateway (gw_disc gw) g' (<[c := Proxied p']> (gw_conns gw))).
Proof.
  intros [Hids Hcnt] HI Hnd He Hc (Hkey & _ & _ & _ & _ & _ & Hmon) Hb. specialize (Hmon Hb).
  destruct (streams_lookup _ _ _ Hc) as (i & Hi & Hu).
  assert (NoDup (px_key <$> streams (gw_conns gw))) as Hk by by eapply keys_NoDup, sublist_NoDup.
  split; simpl.
  - rewrite Hu, list_fmap_insert. unfold arrival_ids. rewrite omap_app. simpl. rewrite He, app_nil_r.
    rewrite list_insert_id; [done|]. rewrite list_lookup_fmap, Hi. simpl. by injection Hkey as _ ->.
  - rewrite Hu, (phases_update _ _ _ _ Hk Hi Hkey). pose proof (phases_lookup _ _ _ Hk Hi) as Hl.
    destruct Hmon as [[-> ->]|(ev & Hev & Hlc)]; [by rewrite insert_id|].
    eapply (counts_step _ ev); [exact HI|exact Hcnt|by apply Hlc|exact Hev].
Qed.

(** *** A new connection *)
Lemma safe_arrive events gw rq endpoint uuid t :
  gw_safe events gw → gw_safe (events ++ [Arrive rq endpoint uuid t]) (step (Arrive rq endpoint uuid t) gw).
Proof.
  intros [HI Hw Hok Han Hsent]. unfold gw_step.
  pose proof (handle_arrival loads dumps py_str (gw_disc gw) rq endpoint uuid t (gw_gate gw) HI Hw) as Ha.
  destruct (handle _ _ _ _ _ _ _ _ _) as [o g'].
  assert (Inv (monitor g') ∧ router_wf (router_state g') ∧ sent g' = sent (gw_gate gw)) as (HI' & Hw' & Hs').
  { destruct o as [[| |hs resp st u body]|e]; simpl in Ha; [..|destruct Ha as (_ & _ & _ & Ha)|]; by destruct Ha as (_ & ? & ? & ? & _). }
  split; simpl; [done|done| | |].
  - rewrite streams_snoc. apply Forall_app. split; [done|]. destruct o as [[]|]; simpl; [constructor|constructor| |constructor].
    by apply Forall_singleton.
  - intros i q resp Hi Hq. apply elem_of_app. left. apply lookup_app_Some in Hi as [Hi|[_ Hi]]; [by eapply Han|].
    apply list_lookup_singleton_Some in Hi as [_ Hi]. by destruct o as [[]|]; simplify_eq/=.
  - rewrite Hs', Hsent, streams_snoc, fmap_app, concat_app. by destruct o as [[]|]; simpl; rewrite app_nil_r.
Qed.

Lemma counted_quiet events e gw g' l t :
  gw_counted events gw → Inv (monitor (gw_gate gw)) → quiet t (gw_gate gw) g' → streams l = streams (gw_conns gw) →
  gw_counted (events ++ [e]) (mkGateway (gw_disc gw) g' l).
Proof.
  intros [Hids Hcnt] HI (_ & _ & _ & _ & Hrun) Hl. split; simpl; rewrite Hl.
  - unfold arrival_ids. rewrite omap_app. by apply sublist_inserts_r.
  - assert (∃ evs, lifecycles (phases (streams (gw_conns gw))) evs (phases (streams (gw_conns gw))) ∧
      run_events evs (monitor (gw_gate gw)) = (Ret tt, monitor g')) as (evs & Hlc & Hevs).
    { destruct Hrun; eexists; (split; [|done]); repeat econstructor. }
    destruct (counts_run _ _ _ _ HI Hcnt Hlc) as (s' & Hs' & Hcn). by assert (s' = monitor g') as <- by congruence.
Qed.

Lemma counted_forwarded events gw rq endpoint uuid t u body st g' :
  gw_counted events gw → Inv (monitor (gw_gate gw)) → forwarded rq endpoint u (request_id uuid rq) t (gw_gate gw) g' →
  NoDup (arrival_ids (events ++ [Arrive rq endpoint uuid t])) →
  gw_counted (events ++ [Arrive rq endpoint uuid t]) (mkGateway (gw_disc gw) g'
    (gw_conns gw ++ [Proxied (mkProxied rq endpoint body u (request_id uuid rq) st [] Waiting)])).
Proof.
  intros [Hids Hcnt] HI (_ & _ & _ & _ & Hrun) Hnd. set (p := mkProxied _ _ _ _ _ _ _ _).
  unfold arrival_ids in *. rewrite omap_app in Hnd. simpl in Hnd.
  assert (px_id p ∉ px_id <$> streams (gw_conns gw)) as Hfresh.
  { apply NoDup_app in Hnd as (_ & Hnd & _). intros Hin. eapply Hnd; [by eapply elem_of_sublist|left]. }
  assert (px_key p ∉ px_key <$> streams (gw_conns gw)) as Hk.
  { intros (q & Hq & Hin)%list_elem_of_fmap. apply Hfresh, list_elem_of_fmap. exists q. by unfold px_key in Hq; simplify_eq. }
  split; simpl; rewrite streams_snoc; simpl.
  - unfold arrival_ids. rewrite fmap_app, omap_app. by apply sublist_app.
  - rewrite phases_snoc by done.
    assert (lifecycles (phases (streams (gw_conns gw))) [ENew u (request_id uuid rq) t]
      (<[px_key p := px_phase p]> (phases (streams (gw_conns gw))))) as Hlc.
    { econstructor; [|constructor]. apply (lc_new _ u (request_id uuid rq)). by apply phases_None. }
    destruct Hrun as [Hrun|Hrun].
    + destruct (counts_run _ _ _ _ HI Hcnt Hlc) as (s' & Hs' & Hcn). by assert (s' = monitor g') as <- by congruence.
    + destruct (counts_run _ _ _ _ HI Hcnt (lcs_cons _ _ _ _ _ (lc_stats _ t) Hlc)) as (s' & Hs' & Hcn).
      by assert (s' = monitor g') as <- by congruence.
Qed.

Lemma counted_arrive events gw rq endpoint uuid t :
  gw_safe events gw → gw_counted events gw → NoDup (arrival_ids (events ++ [Arrive rq endpoint uuid t])) →
  gw_counted (events ++ [Arrive rq endpoint uuid t]) (step (Arrive rq endpoint uuid t) gw).
Proof.
  intros [HI Hw _ _ _] Hc Hnd. unfold gw_step.
  pose proof (handle_arrival loads dumps py_str (gw_disc gw) rq endpoint uuid t (gw_gate gw) HI Hw) as Ha.
  destruct (handle _ _ _ _ _ _ _ _ _) as [[[| |hs resp st u body]|e] g']; simpl in Ha |- *.
  - eapply counted_quiet; [done|done|exact Ha|]. rewrite streams_snoc. simpl. by rewrite app_nil_r.
  - eapply counted_quiet; [done|done|exact Ha|]. rewrite streams_snoc. simpl. by rewrite app_nil_r.
  - destruct Ha as (_ & _ & _ & Ha). by apply counted_forwarded.
  - eapply counted_quiet; [done|done|exact Ha|]. rewrite streams_snoc. simpl. by rewrite app_nil_r.
Qed.

(** *** All steps *)
Lemma answered_turn c o p g :
  px_ok p → Inv (monitor g) →
  turn_ok p (answered o p) g g ∧
  ∀ resp, px_answer (answered o p) = Some resp → px_answer p = Some resp ∨ Answer c o = Answer c (Ret resp).
Proof.
  intros Hok HI. unfold answered. destruct (px_progress p) eqn:Ep; try (split; [by apply turn_refl|by left]).
  unfold px_ok in Hok. rewrite Ep in Hok. split.
  - apply silent_turn; [|by unfold px_phase; rewrite Ep; destruct o|done]. unfold px_ok. rewrite Hok. by destruct o.
  - intros resp. unfold px_answer at 1. destruct o; simpl; [|done]. intros [= ->]. by right.
Qed.

Lemma dropped_turn p g :
  px_ok p → Inv (monitor g) →
  turn_ok p (dropped p) g g ∧ ∀ resp, px_answer (dropped p) = Some resp → px_answer p = Some resp.
Proof.
  intros Hok HI. unfold dropped.
  destruct (px_progress p) as [| |resp rest| |] eqn:Ep; try (split; [by apply turn_refl|done]);
    unfold px_ok in Hok; rewrite Ep in Hok.
  - split; [|by unfold px_answer; rewrite Ep]. apply silent_turn; [done|by unfold px_phase; rewrite Ep|done].
  - split; [|by unfold px_answer; rewrite Ep]. apply silent_turn; [|by unfold px_phase; rewrite Ep|done].
    unfold px_ok. simpl. by exists rest.
Qed.

(** Every event is a watch event, an arrival, or a turn of one stream. *)
Lemma step_turn events e gw :
  gw_safe events gw → arrival_id e = None →
  (∃ disc, step e gw = mkGateway disc (gw_gate gw) (gw_conns gw)) ∨
  ∃ c p p' g', gw_conns gw !! c = Some (Proxied p) ∧
    step e gw = mkGateway (gw_disc gw) g' (<[c := Proxied p']> (gw_conns gw)) ∧
    turn_ok p p' (gw_gate gw) g' ∧
    ∀ resp, px_answer p' = Some resp → px_answer p = Some resp ∨ e = Answer c (Ret resp).
Proof.
  intros [HI Hw Hok _] He.
  assert (∀ c p, gw_conns gw !! c = Some (Proxied p) → px_ok p) as Hpx.
  { intros c p Hc. destruct (streams_lookup _ _ _ Hc) as (i & Hi & _). by eapply Forall_lookup_1 in Hok. }
  assert (∃ disc, gw = mkGateway disc (gw_gate gw) (gw_conns gw)) as Hsame by (exists (gw_disc gw); by destruct gw).
  destruct e as [w ev p| |c o|c t|c]; try done; simpl; unfold on_conn; [by left; eexists| | |];
    (destruct (gw_conns gw !! c) as [[| |p]|] eqn:Ec; try (by left)); right.
  - destruct (answered_turn c o p (gw_gate gw) (Hpx c p Ec) HI) as [Ht Ha]. by eexists c, p, _, _.
  - destruct (advance_turn t p (gw_gate gw) (Hpx c p Ec) HI) as (p' & g' & -> & Ha & Ht).
    exists c, p, p', g'. split_and!; try done. intros resp. rewrite Ha. by left.
  - destruct (dropped_turn p (gw_gate gw) (Hpx c p Ec) HI) as [Ht Ha].
    eexists c, p, _, _. split_and!; try done. intros resp Hr. left. by apply Ha.
Qed.

Lemma safe_step events e gw : gw_safe events gw → gw_safe (events ++ [e]) (step e gw).
Proof.
  intros Hs. destruct (arrival_id e) eqn:He; [destruct e; try done; by apply safe_arrive|].
  destruct (step_turn events e gw Hs He) as [[disc ->]|(c & p & p' & g' & Hc & -> & Ht & Ha)].
  - destruct Hs as [HI Hw Hok Han]. split; try done. intros i p resp Hi Hp. apply elem_of_app. left. by eapply Han.
  - by eapply safe_turn.
Qed.

Lemma counted_step events e gw :
  gw_safe events gw → gw_counted events gw → NoDup (arrival_ids (events ++ [e])) → Forall answers_ok events →
  gw_counted (events ++ [e]) (step e gw).
Proof.
  intros Hs Hc Hnd Hb. destruct (arrival_id e) eqn:He; [destruct e; try done; by apply counted_arrive|].
  assert (arrival_ids (events ++ [e]) = arrival_ids events) as Eids.
  { unfold arrival_ids. rewrite omap_app. simpl. by rewrite He, app_nil_r. }
  destruct (step_turn events e gw Hs He) as [[disc ->]|(c & p & p' & g' & Hl & -> & Ht & Ha)].
  - destruct Hc as [Hids Hcnt]. split; simpl; [by rewrite Eids|done].
  - rewrite Eids in Hnd. eapply counted_turn; try done; [apply Hs|]. intros resp Hr.
    pose proof (gs_answers _ _ Hs _ _ _ Hl Hr) as Hin. rewrite Forall_forall in Hb. apply (Hb _ Hin).
Qed.

Lemma run_snoc events e gw : run (events ++ [e]) gw = step e (run events gw).
Proof. unfold gw_run. by rewrite foldl_app. Qed.

Lemma safe_run events a window (r : R) :
  ¬ (window == 0)%Q → router_wf r → gw_safe events (run events (gw_init a window r)).
Proof.
  intros Hw Hr. induction events as [|e events IH] using rev_ind; [|rewrite run_snoc; by apply safe_step].
  split; simpl; [by apply fresh_monitor_inv|done|constructor|done|done].
Qed.

Lemma counted_run events a window (r : R) :
  ¬ (window == 0)%Q → router_wf r → NoDup (arrival_ids events) → Forall answers_ok events →
  gw_counted events (run events (gw_init a window r)).
Proof.
  intros Hw Hr. induction events as [|e events IH] using rev_ind; intros Hnd Hb.
  - split; [constructor|]. apply counts_fresh.
  - rewrite run_snoc. apply Forall_app in Hb as [Hb _]. apply counted_step; [by apply safe_run| |done|done].
    apply IH; [|done]. unfold arrival_ids in *. rewrite omap_app in Hnd. by apply NoDup_app in Hnd as [? _].
Qed.

(** *** Where requests go *)
(** The engine [i] of a pod was added by an event of the run, in which the pod was
    ready and not terminating, and no later event about the pod removed it. *)
Definition listed (events : list (@gw_event)) (i : EndpointInfo) : Prop :=
  ∃ pre w ev p ip mode post, events = pre ++ Watch w ev p :: post ∧
    p_ip p = Some ip ∧ check_pod_ready (p_statuses p) = true ∧ is_pod_terminating p = false ∧
    check_engine_sleep_mode w (p_name p) = Ret mode ∧
    i = engine_info port ns uuid5 w (p_name p) ip (get_model_names port w ip) (get_model_label p)
          (if mode then get_engine_sleep_status port w ip else false) ∧
    Forall (λ e, match e with
                 | Watch w' ev' p' => p_name p' = p_name p → decide_event port ns uuid5 w' ev' p' false ≠ DRemove
                 | _ => True
                 end) post.

Lemma decide_add w ev p mode i :
  decide_event port ns uuid5 w ev p mode = DAdd i →
  ∃ ip, p_ip p = Some ip ∧ check_pod_ready (p_statuses p) = true ∧ is_pod_terminating p = false ∧
    i = engine_info port ns uuid5 w (p_name p) ip (get_model_names port w ip) (get_model_label p)
          (if mode then get_engine_sleep_status port w ip else false).
Proof.
  unfold decide_event. case_decide; [done|]. destruct (p_ip p) as [ip|]; [|done]. cbv zeta.
  destruct (check_pod_ready (p_statuses p)), (is_pod_terminating p); simpl; try (by case_decide).
  destruct (get_model_names port w ip) as [|n names] eqn:En; [by case_decide|]. case_decide; [|done].
  intros [= <-]. exists ip. by rewrite En.
Qed.

Lemma decide_remove_mode w ev p mode :
  decide_event port ns uuid5 w ev p mode = DRemove ↔ decide_event port ns uuid5 w ev p false = DRemove.
Proof.
  unfold decide_event. case_decide; [done|]. destruct (p_ip p) as [ip|]; [|done]. cbv zeta.
  destruct (if (_ : bool) then get_model_names port w ip else _) as [|n names]; by case_decide.
Qed.

(** The effect of an event on the table, with the verdict behind it. *)
Lemma watch_event_verdict w ev p s :
  ∃ d, available_engines (watch_event port ns uuid5 prefill decode w ev p s).2 =
      apply_decision (p_name p) d (available_engines s) ∧
    (∀ i, d = DAdd i → ∃ mode, check_engine_sleep_mode w (p_name p) = Ret mode ∧ decide_event port ns uuid5 w ev p mode = DAdd i) ∧
    (d = DKeep → decide_event port ns uuid5 w ev p false ≠ DRemove).
Proof.
  destruct (check_engine_sleep_mode w (p_name p)) as [mode|e] eqn:Hm.
  - destruct (watch_event_spec port ns uuid5 prefill decode w ev p s mode Hm) as (s' & -> & H1 & _).
    exists (decide_event port ns uuid5 w ev p mode). split_and!; [done|by eauto|].
    intros Hk Hr%(decide_remove_mode _ _ _ mode). congruence.
  - pose proof (watch_event_unreadable port ns uuid5 prefill decode w ev p s e Hm) as H.
    destruct (decide_event port ns uuid5 w ev p false) as [| |i] eqn:Hv.
    + destruct H as (s' & -> & H1 & _). by exists DKeep.
    + destruct H as (s' & -> & H1 & _). by exists DRemove.
    + rewrite H. by exists DKeep.
Qed.

Lemma listed_snoc events e i :
  listed events i →
  match e with Watch w ev p => pod_name i = Some (p_name p) → decide_event port ns uuid5 w ev p false ≠ DRemove | _ => True end →
  listed (events ++ [e]) i.
Proof.
  intros (pre & w & ev & p & ip & mode & post & -> & H1 & H2 & H3 & H4 & -> & H5) He.
  exists pre, w, ev, p, ip, mode, (post ++ [e]). rewrite <- app_assoc. split_and!; try done.
  apply Forall_app. split; [done|]. apply Forall_singleton. destruct e; try done. intros Hp. apply He. by rewrite Hp.
Qed.

(** Every entry of the table is listed, under the name of its pod. *)
Definition table_listed (events : list (@gw_event)) (s : K8sPodIP) : Prop :=
  dict_wf (available_engines s) ∧
  ∀ n i, dget n (available_engines s) = Some i → pod_name i = Some n ∧ listed events i.

Lemma table_listed_watch events w ev p s :
  table_listed events s →
  table_listed (events ++ [Watch w ev p]) (watch_event port ns uuid5 prefill decode w ev p s).2.
Proof.
  intros [Hwf Ht]. unfold table_listed. destruct (watch_event_verdict w ev p s) as (d & -> & Hadd & Hkeep).
  split; [destruct d; simpl; [done|by apply ddel_wf|by apply dset_wf]|]. intros n i.
  destruct (decide (p_name p = n)) as [<-|Hne].
  - destruct d as [| |i0]; simpl.
    + intros [Hn Hl]%Ht. split; [done|]. apply listed_snoc; [done|]. intros _. by apply Hkeep.
    + by rewrite dget_ddel_eq.
    + rewrite dget_dset_eq. intros [= <-]. destruct (Hadd i0 eq_refl) as (mode & Hm & Hd).
      destruct (decide_add _ _ _ _ _ Hd) as (ip & H1 & H2 & H3 & ->). split; [done|].
      exists events, w, ev, p, ip, mode, []. by split_and!.
  - rewrite apply_decision_other by done. intros [Hn Hl]%Ht. split; [done|]. apply listed_snoc; [done|].
    rewrite Hn. by intros [= ->].
Qed.

Lemma step_disc e gw : match e with Watch _ _ _ => True | _ => gw_disc (step e gw) = gw_disc gw end.
Proof.
  destruct e; simpl; try done; [by destruct (handle _ _ _ _ _ _ _ _ _)| | |];
    unfold on_conn; destruct (gw_conns gw !! c) as [[| |p]|]; try done. by destruct (adv t p (gw_gate gw)) as [[]].
Qed.

Lemma table_listed_run events a window (r : R) :
  table_listed events (gw_disc (run events (gw_init a window r))).
Proof.
  induction events as [|e events IH] using rev_ind; [split; [apply dict_wf_nil|done]|]. rewrite run_snoc.
  pose proof (step_disc e (run events (gw_init a window r))) as Hd.
  destruct e as [w ev p| | | |]; [by apply table_listed_watch|..]; rewrite Hd; destruct IH as [Hwf IH];
    (split; [done|]); intros n i [Hn Hl]%IH; (split; [done|by apply listed_snoc]).
Qed.

(** A stream was opened by an arrival, to an engine offered at that time. *)
Definition traced (init : gateway R) (events : list (@gw_event)) (gw : gateway R) : Prop :=
  ∀ i p, gw_conns gw !! i = Some (Proxied p) →
    ∃ pre endpoint uuid t post, events = pre ++ Arrive (px_rq p) endpoint uuid t :: post ∧
      offers loads (get_endpoint_info (gw_disc (run pre init))) (px_rq p) (px_url p).

Lemma traced_run events a window (r : R) :
  ¬ (window == 0)%Q → router_wf r → traced (gw_init a window r) events (run events (gw_init a window r)).
Proof.
  intros Hw Hr. induction events as [|e events IH] using rev_ind; [done|]. rewrite run_snoc.
  pose proof (safe_run events a window r Hw Hr) as Hs. set (gw := run events (gw_init a window r)) in *.
  assert (∀ i p q, gw_conns gw !! i = Some (Proxied p) → px_rq q = px_rq p → px_url q = px_url p →
    ∃ pre endpoint uuid t post, events ++ [e] = pre ++ Arrive (px_rq q) endpoint uuid t :: post ∧
      offers loads (get_endpoint_info (gw_disc (run pre (gw_init a window r)))) (px_rq q) (px_url q)) as Hold.
  { intros i p q Hi -> ->. destruct (IH i p Hi) as (pre & ep & id & t & post & -> & Ho).
    exists pre, ep, id, t, (post ++ [e]). by rewrite <- app_assoc. }
  destruct (arrival_id e) eqn:He.
  - destruct e as [|rq ep id t| | |]; try done. intros i p Hi. unfold gw_step in Hi.
    pose proof (handle_arrival loads dumps py_str (gw_disc gw) rq ep id t (gw_gate gw) (gs_monitor _ _ Hs) (gs_router _ _ Hs)) as Ha.
    destruct (handle _ _ _ _ _ _ _ _ _) as [o g']. simpl in Hi.
    apply lookup_app_Some in Hi as [Hi|[_ Hi]]; [by eapply Hold|].
    apply list_lookup_singleton_Some in Hi as [_ Hi]. destruct o as [[| |hs resp st u body]|]; simplify_eq/=.
    destruct Ha as (_ & _ & Ho & _). by exists events, ep, id, t, [].
  - destruct (step_turn events e gw Hs He) as [[disc ->]|(c & p & p' & g' & Hc & -> & Ht & _)]; intros i q Hi; simpl in Hi.
    + by eapply Hold.
    + destruct Ht as (Hk%(f_equal fst) & Hrq & _). destruct (decide (i = c)) as [->|Hne].
      * rewrite list_lookup_insert_eq in Hi by by eapply lookup_lt_Some. simplify_eq.
        by eapply Hold.
      * rewrite list_lookup_insert_ne in Hi by done. by eapply Hold.
Qed.
End Runs.

(** A gateway for the witnesses: one pod, round robin, two requests. *)
Definition gw_loads (body : string) : outcome json :=
  if decide (body = "B"%string) then Ret (JObj [("model", JStr "m")]%string) else Raise JSONDecodeError.

Definition gw_rq : request := mkRequest "POST" [] "B" [].

Definition gw_answer : backend_response := mkResponse 200 [] ["x"; "y"]%string None.

Definition gw_events : list gw_event :=
  [Watch toy_world "ADDED" ready_pod; Arrive gw_rq "/v1/completions" "a" 1; Arrive gw_rq "/v1/completions" "b" 2;
   Answer 1 (Ret gw_answer); Advance 1 3; Answer 0 (Ret gw_answer); Advance 0 4; Advance 0 5; Advance 0 6;
   Disconnect 1].

Local Abbreviation toy_run :=
  (@gw_run _ (rr_ops url_hash Z.of_nat) gw_loads toy_dumps (λ _, EmptyString) "8000" "default" id LNone LNone true gw_events
     (gw_init toy_app 60 (rr_init, 0%nat))).

(** C4. Clients are kept apart: in every interleaving of watch events, arrivals,
    answers, turns of the streams and disconnections, with a router that obeys
    [RouterLaws], what the generator of a proxied request has sent to its client
    is a prefix of the answer its own backend gave to that request, all of it
    when the stream ran to its end, and nothing before there is an answer; and
    the chunks sent in all are, with multiplicity, those received by the clients,
    so none is lost, doubled or sent elsewhere. *)
Theorem gateway_isolates {R : Type} `{!RouterOps R} `{!RouterLaws R} loads dumps py_str port ns uuid5 prefill decode
    cache events a window (r : R) i p :
  ¬ (window == 0)%Q → router_wf r →
  gw_conns (gw_run loads dumps py_str port ns uuid5 prefill decode cache events (gw_init a window r)) !! i =
    Some (Proxied p) →
  (let gw := gw_run loads dumps py_str port ns uuid5 prefill decode cache events (gw_init a window r) in
   sent (gw_gate gw) ≡ₚ concat (px_got <$> streams (gw_conns gw))) ∧
  match px_answer p with
  | None => px_got p = []
  | Some resp =>
      Answer i (Ret resp) ∈ events ∧ px_got p `prefix_of` br_chunks resp ∧
      ∀ o, px_progress p = Ended resp o → px_got p = br_chunks resp
  end.
Proof.
  intros Hw Hr Hi.
  pose proof (safe_run loads dumps py_str port ns uuid5 prefill decode cache events a window r Hw Hr)
    as [_ _ Hok Han Hsent]. split; [exact Hsent|].
  destruct (streams_lookup _ _ _ Hi) as (j & Hj & _). eapply Forall_lookup_1 in Hok; [|exact Hj].
  specialize (Han i p). unfold px_ok, px_answer in *.
  destruct (px_progress p) as [| |resp rest|resp o|[resp|]]; try done; (split; [by apply Han|]).
  - split; [by exists rest|done].
  - destruct Hok as [Hgot _]. split; [by rewrite Hgot|]. by intros o' [= _].
  - done.
Qed.

Definition gw_dropped : proxied :=
  mkProxied gw_rq "/v1/completions" "B" "http://10.0.0.1:8000" "b" false ["x"]%string (Dropped (Some gw_answer)).

Lemma gateway_isolates_witness :
  gw_conns toy_run !! 1%nat = Some (Proxied gw_dropped) ∧ Answer 1 (Ret gw_answer) ∈ gw_events.
Proof.
  assert (gw_conns toy_run !! 1%nat = Some (Proxied gw_dropped)) as H by (vm_compute; reflexivity).
  split; [exact H|].
  exact (proj1 (proj2 (@gateway_isolates _ (rr_ops url_hash Z.of_nat) (rr_laws url_hash Z.of_nat url_hash_inj counting_ids) gw_loads toy_dumps
    (λ _, EmptyString) "8000" "default" id LNone LNone true gw_events toy_app 60 (rr_init, 0%nat) 1 gw_dropped
    ltac:(by intros ?) ltac:(by left) H))).
Defined.

(** C5. The counters of the monitor are the numbers of streams: with a router
    that obeys [RouterLaws], when no two requests have the same id (which the
    client may choose) and no complete answer is empty, in every interleaving the prefill, decoding and finished counters of an engine are
    the numbers of its requests in these phases.  A stream whose backend failed
    or whose client went away stays in the phase it was in for ever. *)
Theorem gateway_counts {R : Type} `{!RouterOps R} `{!RouterLaws R} loads dumps py_str port ns uuid5 prefill decode
    cache events a window (r : R) u :
  ¬ (window == 0)%Q → router_wf r → NoDup (arrival_ids events) → Forall answers_ok events →
  let gw := gw_run loads dumps py_str port ns uuid5 prefill decode cache events (gw_init a window r) in
  let s := monitor (gw_gate gw) in
  zget u 0 (in_prefill_requests s) = Z.of_nat (number u Prefilling (gw_conns gw)) ∧
  zget u 0 (in_decoding_requests s) = Z.of_nat (number u Decoding (gw_conns gw)) ∧
  zget u 0 (finished_requests s) = Z.of_nat (number u Finished (gw_conns gw)).
Proof.
  intros Hw Hr Hnd Hb gw s.
  destruct (counted_run loads dumps py_str port ns uuid5 prefill decode cache events a window r Hw Hr Hnd Hb) as [Hids [H1 H2 H3 _]].
  assert (NoDup (px_key <$> streams (gw_conns gw))) as Hk by by eapply keys_NoDup, sublist_NoDup.
  subst s. rewrite H1, H2, H3, !phases_count by done. done.
Qed.

Lemma gateway_counts_witness :
  zget "http://10.0.0.1:8000" 0 (in_decoding_requests (monitor (gw_gate toy_run))) = 1%Z ∧
  zget "http://10.0.0.1:8000" 0 (in_decoding_requests (monitor (gw_gate toy_run))) =
    Z.of_nat (number "http://10.0.0.1:8000" Decoding (gw_conns toy_run)).
Proof.
  split; [vm_compute; reflexivity|].
  refine (proj1 (proj2 (@gateway_counts _ (rr_ops url_hash Z.of_nat) (rr_laws url_hash Z.of_nat url_hash_inj counting_ids) gw_loads toy_dumps
    (λ _, EmptyString) "8000" "default" id LNone LNone true gw_events toy_app 60 (rr_init, 0%nat) "http://10.0.0.1:8000" _ _ _ _))).
  - by intros ?.
  - by left.
  - change (NoDup ["a"; "b"]%string). apply (bool_decide_unpack _). reflexivity.
  - repeat constructor; done.
Defined.

(** C6. Requests go to ready engines: with a router that obeys [RouterLaws] (the
    session and prefix-aware routers, and round robin while no two lists in a
    row have the same id; not the kv-aware one), every proxied request was sent to the
    address of an engine that was in the table when it arrived, serves the
    model the request names, and is awake; and that engine was put there by a
    watch event before the arrival, about a pod whose containers were ready and
    which was not terminating, with the models the engine then reported, and no
    event in between removed the pod. *)
Theorem gateway_targets {R : Type} `{!RouterOps R} `{!RouterLaws R} loads dumps py_str port ns uuid5 prefill decode
    cache events a window (r : R) i p :
  ¬ (window == 0)%Q → router_wf r →
  gw_conns (gw_run loads dumps py_str port ns uuid5 prefill decode cache events (gw_init a window r)) !! i =
    Some (Proxied p) →
  ∃ pre endpoint uuid t post e m,
    events = pre ++ Arrive (px_rq p) endpoint uuid t :: post ∧ listed port ns uuid5 pre e ∧
    url e = px_url p ∧ asks_for loads (px_rq p) m ∧ m ∈ model_names e ∧ sleep e = false.
Proof.
  intros Hw Hr Hi.
  destruct (traced_run loads dumps py_str port ns uuid5 prefill decode cache events a window r Hw Hr i p Hi)
    as (pre & ep & id & t & post & -> & e & m & He & Hu & Hm & Hin & Hs).
  exists pre, ep, id, t, post, e, m. split_and!; try done.
  destruct (table_listed_run loads dumps py_str port ns uuid5 prefill decode cache pre a window r) as [Hwf Ht].
  apply dvals_dget in He as [n Hn]; [|done]. by apply (Ht n e).
Qed.

Lemma gateway_targets_witness :
  ∃ pre endpoint uuid t post e m,
    gw_events = pre ++ Arrive gw_rq endpoint uuid t :: post ∧ listed "8000" "default" id pre e ∧
    url e = "http://10.0.0.1:8000"%string ∧ asks_for gw_loads gw_rq m ∧ m ∈ model_names e ∧ sleep e = false.
Proof.
  refine (@gateway_targets _ (rr_ops url_hash Z.of_nat) (rr_laws url_hash Z.of_nat url_hash_inj counting_ids) gw_loads toy_dumps
    (λ _, EmptyString) "8000" "default" id LNone LNone true gw_events toy_app 60 (rr_init, 0%nat) 1 gw_dropped _ _ _).
  - by intros ?.
  - by left.
  - vm_compute. reflexivity.
Defined.
