(* ===== verification/RequestOther.v ===== *)
(** * The other request handlers of [services/request_service/request.py]:
    disaggregated prefill, sleep and wake-up, transcriptions

    Calls to engines are recorded in order; the engines, the JSON decoder and
    the reason phrase of a response are parameters. *)
From stdpp Require Import base list strings gmap.
From Stdlib Require Import Ascii QArith.
From S2P Require Import Prelude PyDict PyStr Json Endpoint RequestStats HashTrie HashRing Routing RoutingSpec Utils Request RequestSpec.

(** A call to an engine: the url it goes to and its JSON data. *)
Record engine_call := mkEngineCall { ec_url : string; ec_data : json }.

(** [response.raise_for_status()] of aiohttp *)
Definition raise_for_status (reason : backend_response → string) (r : backend_response) : outcome unit :=
  if (400 <=? br_status r)%Z then Raise (ClientResponseError (br_status r) (reason r)) else Ret tt.

Section Disagg.
Context (loads : string → outcome json) (dumps : json → string).
Context (post : string → list (string * json) → outcome backend_response).
Context (reason : backend_response → string) (response_json : backend_response → outcome json).
(** [str(e)] of an exception *)
Context (exn_str : exn → string).

Definition post_call (u : string) (d : list (string * json)) : M (list engine_call) backend_response :=
  λ log, (post u d, log ++ [mkEngineCall u (JObj d)]).

(** A missing client is [None]: calling its method raises. *)
Definition send_request_to_prefiller (client : option string) (endpoint : string)
    (req_data : list (string * json)) : M (list engine_call) json :=
  let req_data := dset "max_tokens"%string (JInt 1) req_data in
  let req_data := if dmem "max_completion_tokens"%string req_data
                  then dset "max_completion_tokens"%string (JInt 1) req_data else req_data in
  base ← lift (or_raise AttributeError client);
  resp ← post_call (base +:+ endpoint) req_data;
  _ ← lift (raise_for_status reason resp);
  lift (response_json resp).

(** The chunks the generator yields, and the exception that ends it. *)
Definition send_request_to_decode (client : option string) (endpoint : string)
    (req_data : list (string * json)) : M (list engine_call) (list string * option exn) := λ log,
  match client with
  | None => (Ret ([], Some AttributeError), log)
  | Some base =>
      let '(o, log) := post_call (base +:+ endpoint) req_data log in
      (match o with
       | Raise e => Ret ([], Some e)
       | Ret resp =>
           match raise_for_status reason resp with
           | Raise e => Ret ([], Some e)
           | Ret _ => Ret (br_chunks resp, br_error resp)
           end
       end, log)
  end.

Definition side_error (side message : string) (code : Z) : json :=
  JObj [("error", JObj [("message", JStr (side +:+ " error: " +:+ message));
                        ("type", JStr (lower side +:+ "_error")); ("code", JInt code)])]%string.

(** [generate_stream]: an error of the decoder becomes a last JSON chunk. *)
Definition generate_stream (client : option string) (endpoint : string)
    (request_json : list (string * json)) : M (list engine_call) (list string) :=
  '(chunks, err) ← send_request_to_decode client endpoint request_json;
  mret (chunks ++ match err with
                  | None => []
                  | Some (ClientResponseError status message) =>
                      [dumps (side_error "Decoder" message status)]
                  | Some e => [dumps (side_error "Decoder" (exn_str e) 500)]
                  end).

Inductive pd_reply : Type :=
| PDError (status : Z) (content : json) (id : string)
| PDStream (chunks : list string) (id : string).

(** The handler and the stream it returns, run to its end. *)
Definition route_disaggregated_prefill_request (prefill_client decode_client : option string)
    (endpoint id body : string) : M (list engine_call) pd_reply :=
  v ← lift (loads body);
  match v with
  | JObj d =>
      let orig_max_tokens := dict_get "max_tokens" (JInt 0) d in
      let request_json := dset "max_tokens"%string (JInt 1) d in
      λ log,
        match send_request_to_prefiller prefill_client endpoint request_json log with
        | (Raise (ClientResponseError status message), log) =>
            (Ret (PDError status (side_error "Prefiller" message status) id), log)
        | (Raise e, log) => (Ret (PDError 500 (side_error "Prefiller" (exn_str e) 500) id), log)
        | (Ret _, log) =>
            (* the log line reads [decode_client._base_url] *)
            match decode_client with
            | None => (Raise AttributeError, log)
            | Some _ =>
                (chunks ← generate_stream decode_client endpoint
                            (dset "max_tokens"%string orig_max_tokens request_json);
                 mret (PDStream chunks id)) log
            end
        end
  | _ => raise AttributeError
  end.

(** The handler as [route_general_request] calls it for a
    [DisaggregatedPrefillRouter]: both clients post JSON with the key of the
    environment and the request id, and the state of the router is left alone. *)
Definition side_call (api_key id : string) (c : engine_call) : backend_call :=
  mkCall "POST" (ec_url c) [("Authorization", "Bearer " +:+ api_key); ("X-Request-Id", id)]%string
    (dumps (ec_data c)).

Definition pd_to_reply (r : pd_reply) : reply :=
  match r with
  | PDError status content id => JsonReply status content [("X-Request-Id", id)]%string
  | PDStream chunks id => ChunksReply chunks [("X-Request-Id", id)]%string
  end.

Definition disagg_handler {R} (prefill_client decode_client : option string) (api_key uuid : string)
    (rq : request) (endpoint : string) : M (@gate R) reply := λ g,
  let id := request_id uuid rq in
  let '(o, log) := route_disaggregated_prefill_request prefill_client decode_client endpoint id (rq_body rq) [] in
  (r ← o; Ret (pd_to_reply r),
   mkGate (monitor g) (router_state g) (calls g ++ (side_call api_key id <$> log)) (sent g) (cache_stores g)
     (post_requests g) (incoming g)).
End Disagg.

(** ** Sleep and wake-up *)
Inductive sleep_action : Type := AddSleepLabel (pod : option string) | RemoveSleepLabel (pod : option string).

Record sleep_log := mkSleepLog {
  sl_calls : list (string * option json);       (* url, JSON data of a POST *)
  sl_labels : list sleep_action
}.

Section Sleep.
Context (loads : string → outcome json).
Context (send : string → option json → outcome backend_response).
Context (reason : backend_response → string) (response_json : backend_response → outcome json).
(** [service_discovery.add_sleep_label] and [remove_sleep_label]: a discovery
    module without them raises. *)
Context (label : sleep_action → outcome unit).

Definition sleep_send (u : string) (data : option json) : M sleep_log backend_response := λ s,
  ((r ← send u data; _ ← raise_for_status reason r; Ret r),
   mkSleepLog (sl_calls s ++ [(u, data)]) (sl_labels s)).

Definition do_label (a : sleep_action) : M sleep_log unit := λ s,
  (label a, mkSleepLog (sl_calls s) (sl_labels s ++ [a])).

Definition route_sleep_wakeup_request (rq : request) (endpoint uuid : string)
    (endpoints_now : outcome (list EndpointInfo)) : M sleep_log reply :=
  let id := request_id uuid rq in
  match request_endpoint rq with
  | None => mret (error_reply 400 "Invalid request: missing target Engine Id." id)
  | Some i =>
      eps ← lift endpoints_now;
      match filter (λ e, Id e = i) eps with
      | [] => mret (JsonReply 400 (JObj [("error", JStr ("Engine with Id " +:+ i +:+ " not found."))]%string) [])
      | e :: _ =>
          let u := url e +:+ endpoint in
          if decide (endpoint = "/is_sleeping"%string) then
            resp ← sleep_send u None;
            v ← lift (response_json resp);
            mret (JsonReply 200 v [])
          else
            data ← lift (if str_empty (rq_body rq) then Ret None
                         else v ← loads (rq_body rq); Ret (Some v));
            resp ← sleep_send u data;
            _ ← (if decide (endpoint = "/sleep"%string) then do_label (AddSleepLabel (pod_name e))
                 else if decide (endpoint = "/wake_up"%string) then
                   do_label (RemoveSleepLabel (pod_name e))
                 else mret tt);
            mret (JsonReply (br_status resp) (JObj [("status", JStr "success")]%string)
                    [("X-Request-Id", id)]%string)
      end
  end.
End Sleep.

(** ** Transcriptions *)
Inductive form_value : Type :=
| FText (s : string)
| FFile (name content mime : string).

Section Transcription.
Context {ring : Type} `{!HashRing ring} {tokenizer : Type}.
Context (py_hash : list string → Z).
(** [float(s)] and [str(f)], posting a form, and decoding the answer *)
Context (parse_float : string → outcome Q) (show_float : Q → string).
Context (post_form : string → list (string * form_value) → outcome backend_response).
Context (response_json : backend_response → outcome json) (exn_str : exn → string).

(** [router.route_request] with four arguments: the session, kv-aware and
    prefix-aware routers and the disaggregated one require a fifth. *)
Definition route_without_body (oid : Z) (eps : list EndpointInfo)
    : M (@router ring tokenizer) string := λ r,
  match r with
  | RRoundRobin s =>
      let '(o, s) := rr_route py_hash oid eps s in (o, RRoundRobin s)
  | _ => (Raise TypeError, r)
  end.

Record transcription := mkTranscription {
  tr_file : form_value;
  tr_model : string;
  tr_prompt : option string;
  tr_response_format : option string;
  tr_temperature : option Q;
  tr_language : option string
}.

Definition text_field (v : form_value) : string := match v with FText s => s | FFile n _ _ => n end.

(** The body of the first [try]. *)
Definition parse_form (form : list (string * form_value)) : outcome transcription :=
  file ← or_raise (KeyError "file") (dget "file"%string form);
  model ← or_raise (KeyError "model") (dget "model"%string form);
  temperature ← match dget "temperature"%string form with
                | Some v => q ← parse_float (text_field v); Ret (Some q)
                | None => Ret None
                end;
  Ret (mkTranscription file (text_field model) (text_field <$> dget "prompt"%string form)
         (Some (default "json"%string (text_field <$> dget "response_format"%string form)))
         temperature (Some (default "en"%string (text_field <$> dget "language"%string form)))).

(** The endpoints that serve the model, once for each occurrence of its name. *)
Definition transcription_endpoints (model : string) (eps : list EndpointInfo) : list EndpointInfo :=
  eps ≫= λ ep, model_names ep ≫= λ name,
    if decide (model = name ∧ sleep ep = false) then [ep] else [].

(** [data]: the optional fields are left out when empty. *)
Definition form_data (t : transcription) : list (string * form_value) :=
  [("file"%string, tr_file t); ("model"%string, FText (tr_model t))] ++
  [("language"%string, FText (default EmptyString (tr_language t)))] ++
  match tr_prompt t with
  | Some p => if str_empty p then [] else [("prompt"%string, FText p)] | None => []
  end ++
  match tr_response_format t with
  | Some f => if str_empty f then [] else [("response_format"%string, FText f)] | None => []
  end ++
  match tr_temperature t with Some q => [("temperature"%string, FText (show_float q))] | None => [] end.

Definition proxy_transcription (u : string) (t : transcription) (id : string) : outcome reply :=
  match (resp ← post_form u (form_data t); v ← response_json resp; Ret (resp, v)) with
  | Ret (resp, v) =>
      Ret (JsonReply (br_status resp) v
        (dset "X-Request-Id"%string id
           (dict_of (filter (λ kv, lower kv.1 ∉ ["content-encoding"; "transfer-encoding"; "connection"]%string)
              (br_headers resp)))))
  | Raise (ClientResponseError status message) =>
      (* the exception of aiohttp has no [response] attribute, so reading it
         raises, and that exception leaves the handler *)
      Raise AttributeError
  | Raise ClientError =>
      Ret (JsonReply 503 (JObj [("error",
        JStr ("Failed to connect to backend: " +:+ exn_str ClientError))]%string) [])
  | Raise _ => Ret (JsonReply 500 (JObj [("error", JStr "Internal server error")]%string) [])
  end.

Definition route_general_transcriptions (endpoint id : string) (oid : Z)
    (form : outcome (list (string * form_value))) (endpoints_now : outcome (list EndpointInfo))
    : M (@router ring tokenizer) reply := λ r,
  match (f ← form; parse_form f) with
  | Raise (KeyError k) =>
      (Ret (JsonReply 400 (JObj [("error", JStr ("Invalid request: missing '" +:+ k +:+ "' in form data."))]%string) []), r)
  | Raise e => (Raise e, r)
  | Ret t =>
      (eps ← lift endpoints_now;
       match transcription_endpoints (tr_model t) eps with
       | [] => mret (JsonReply 404 (JObj [("error",
                 JStr ("No transcription backend for model " +:+ tr_model t))]%string) [])
       | eps => u ← route_without_body oid eps; lift (proxy_transcription (u +:+ endpoint) t id)
       end) r
  end.
End Transcription.

(** ** Properties *)
(** The data of the two calls of a disaggregated request. *)
Definition prefill_data (d : list (string * json)) : list (string * json) :=
  let d := dset "max_tokens"%string (JInt 1) d in
  if dmem "max_completion_tokens"%string d then dset "max_completion_tokens"%string (JInt 1) d else d.

Definition decode_data (d : list (string * json)) : list (string * json) :=
  match dget "max_tokens"%string d with
  | Some _ => d
  | None => dset "max_tokens"%string (JInt 0) d
  end.

Lemma restored_max_tokens d :
  dset "max_tokens"%string (dict_get "max_tokens" (JInt 0) d) (dset "max_tokens"%string (JInt 1) d)
    = decode_data d.
Proof.
  rewrite dset_dset. unfold dict_get, decode_data.
  destruct (dget "max_tokens"%string d) eqn:E; [by apply dset_id|done].
Qed.

(** What the stream ends with when the decoder failed with [e]. *)
Definition decoder_error (dumps : json → string) (exn_str : exn → string) (e : exn) : string :=
  match e with
  | ClientResponseError status message => dumps (side_error "Decoder" message status)
  | e => dumps (side_error "Decoder" (exn_str e) 500)
  end.

(** The answer to a failed prefill. *)
Definition prefill_failure (exn_str : exn → string) (e : exn) (id : string) : pd_reply :=
  match e with
  | ClientResponseError status message => PDError status (side_error "Prefiller" message status) id
  | e => PDError 500 (side_error "Prefiller" (exn_str e) 500) id
  end.

(** The decoder's part of the stream: its chunks, and an error as a last chunk. *)
Definition decoder_chunks (dumps : json → string) (reason : backend_response → string) (exn_str : exn → string)
    (answer : outcome backend_response) : list string :=
  match answer with
  | Raise e => [decoder_error dumps exn_str e]
  | Ret r =>
      if (400 <=? br_status r)%Z
      then [decoder_error dumps exn_str (ClientResponseError (br_status r) (reason r))]
      else br_chunks r ++ from_option (λ e, [decoder_error dumps exn_str e]) [] (br_error r)
  end.

Section DisaggSpec.
Context (loads : string → outcome json) (dumps : json → string).
Context (post : string → list (string * json) → outcome backend_response).
Context (reason : backend_response → string) (response_json : backend_response → outcome json).
Context (exn_str : exn → string).

Lemma prefiller_called pc endpoint d log :
  send_request_to_prefiller post reason response_json (Some pc) endpoint (dset "max_tokens"%string (JInt 1) d) log =
  (resp ← post (pc +:+ endpoint) (prefill_data d); _ ← raise_for_status reason resp; response_json resp,
   log ++ [mkEngineCall (pc +:+ endpoint) (JObj (prefill_data d))]).
Proof.
  unfold send_request_to_prefiller. rewrite dset_dset. fold (prefill_data d).
  unfold mbind, M_bind, outcome_bind, lift, post_call. cbn [or_raise].
  destruct (post (pc +:+ endpoint) (prefill_data d)) as [r|e]; [|done]. by destruct (raise_for_status reason r).
Qed.

Lemma decoder_called dc endpoint d log :
  generate_stream dumps post reason exn_str (Some dc) endpoint d log =
  (Ret (decoder_chunks dumps reason exn_str (post (dc +:+ endpoint) d)), log ++ [mkEngineCall (dc +:+ endpoint) (JObj d)]).
Proof.
  unfold generate_stream, send_request_to_decode, mbind, M_bind, post_call, mret, M_ret, decoder_chunks.
  destruct (post (dc +:+ endpoint) d) as [r|e]; [|by destruct e].
  unfold raise_for_status. destruct (400 <=? br_status r)%Z; [done|].
  destruct (br_error r) as [[]|]; by rewrite ?app_nil_r.
Qed.

Lemma disagg_runs pc dc endpoint id body d log :
  loads body = Ret (JObj d) →
  route_disaggregated_prefill_request loads dumps post reason response_json exn_str (Some pc) (Some dc) endpoint id
    body log =
  let p := mkEngineCall (pc +:+ endpoint) (JObj (prefill_data d)) in
  match (resp ← post (pc +:+ endpoint) (prefill_data d); _ ← raise_for_status reason resp; response_json resp) with
  | Raise e => (Ret (prefill_failure exn_str e id), log ++ [p])
  | Ret _ => (Ret (PDStream (decoder_chunks dumps reason exn_str (post (dc +:+ endpoint) (decode_data d))) id),
              log ++ [p; mkEngineCall (dc +:+ endpoint) (JObj (decode_data d))])
  end.
Proof.
  intros Hl. unfold route_disaggregated_prefill_request. unfold mbind at 1, M_bind at 1, lift at 1. rewrite Hl.
  cbv beta iota. rewrite prefiller_called. cbv zeta.
  destruct (resp ← post _ _; _) as [v|e]; [|by destruct e].
  unfold mbind, M_bind. rewrite restored_max_tokens, decoder_called. unfold mret, M_ret. by rewrite <- app_assoc.
Qed.
End DisaggSpec.

(** C30. Disaggregated prefill, as the router with that logic serves a request
    whose body is a JSON object: the prefiller is called first, with
    [max_tokens] (and [max_completion_tokens], if given) set to one.  If it
    answers with a status of 400 or more, the client gets that status; if the
    call fails or its answer cannot be read as JSON, the client gets the status of
    that error if it is a [ClientResponseError] (a wrong content type is one) and
    500 otherwise; in all these cases the decoder is not called.  Otherwise the decoder is called with the
    request as the client sent it, except that a missing [max_tokens] has become
    zero, and the client gets the decoder's chunks, followed by an error chunk
    if the decoder refused or broke off. *)
Theorem disagg_prefill_then_decode {R : Type} `{!RouterOps R} loads dumps py_str backend t callbacks rewriter post
    reason response_json exn_str pc dc key uuid rq endpoint eps aliases seen d (g : @gate R) :
  loads (rq_body rq) = Ret (JObj d) →
  let id := request_id uuid rq in
  let call u data := mkCall "POST" (u +:+ endpoint)
    [("Authorization", "Bearer " +:+ key); ("X-Request-Id", id)]%string (dumps (JObj data)) in
  ∃ r g',
    route_general_request loads dumps py_str backend uuid t callbacks rewriter
      (Some (disagg_handler loads dumps post reason response_json exn_str (Some pc) (Some dc) key uuid))
      rq endpoint eps aliases seen g = (Ret r, g') ∧
    monitor g' = monitor g ∧ router_state g' = router_state g ∧
    ((∀ presp, post (pc +:+ endpoint) (prefill_data d) = Ret presp → (400 ≤ br_status presp)%Z →
        r = JsonReply (br_status presp) (side_error "Prefiller" (reason presp) (br_status presp))
              [("X-Request-Id", id)]%string ∧ calls g' = calls g ++ [call pc (prefill_data d)]) ∧
     (∀ e, (post (pc +:+ endpoint) (prefill_data d) = Raise e ∨
            ∃ presp, post (pc +:+ endpoint) (prefill_data d) = Ret presp ∧ (br_status presp < 400)%Z ∧
              response_json presp = Raise e) →
        r = match e with
            | ClientResponseError s m => JsonReply s (side_error "Prefiller" m s) [("X-Request-Id", id)]%string
            | _ => JsonReply 500 (side_error "Prefiller" (exn_str e) 500) [("X-Request-Id", id)]%string
            end ∧
        calls g' = calls g ++ [call pc (prefill_data d)]) ∧
     (∀ presp v, post (pc +:+ endpoint) (prefill_data d) = Ret presp → (br_status presp < 400)%Z →
        response_json presp = Ret v →
        r = ChunksReply (decoder_chunks dumps reason exn_str (post (dc +:+ endpoint) (decode_data d)))
              [("X-Request-Id", id)]%string ∧
        calls g' = calls g ++ [call pc (prefill_data d); call dc (decode_data d)])).
Proof.
  intros Hl id call. unfold route_general_request, disagg_handler. fold id.
  rewrite (disagg_runs loads dumps post reason response_json exn_str pc dc endpoint id (rq_body rq) d [] Hl).
  cbv zeta. destruct (post (pc +:+ endpoint) (prefill_data d)) as [presp|e] eqn:Ep; unfold mbind, outcome_bind.
  - unfold raise_for_status at 1. destruct (Z.leb_spec 400 (br_status presp)).
    + eexists _, _. split; [done|]. split_and!; try done; [|intros e|intros ???]; naive_solver lia.
    + destruct (response_json presp) as [v|e] eqn:Ej; eexists _, _; (split; [done|]); split_and!; try done.
      * naive_solver lia.
      * intros e' [?|(q & [= <-] & _ & Hj)]; congruence.
      * naive_solver lia.
      * intros e' [?|(q & [= <-] & _ & Hj)]; [congruence|]. assert (e' = e) as -> by congruence.
        by destruct e.
      * intros q v [= <-] _ Hj. congruence.
  - eexists _, _. split; [done|]. split_and!; try done. intros e' [?|(q & ? & _)]; simplify_eq. by destruct e'.
Qed.

Definition ok_response (chunks : list string) : backend_response := mkResponse 200 [] chunks None.

Lemma disagg_prefill_then_decode_witness :
  ∃ r g',
    @route_general_request _ (rr_ops url_hash Z.of_nat) (λ _, Ret (JObj [("model", JStr "m")]%string))
      (λ _, "B"%string) (λ _, EmptyString) (λ _, Raise ClientError) "id" 0 None None
      (Some (disagg_handler (λ _, Ret (JObj [("model", JStr "m")]%string)) (λ _, "B"%string)
        (λ _ _, Ret (ok_response ["x"%string])) (λ _, EmptyString) (λ _, Ret JNull) (λ _, EmptyString)
        (Some "http://p:1"%string) (Some "http://d:1"%string) "k" "id"))
      (mkRequest "POST" [] "B" []) "/v1/completions" (Ret []) None None rr_gate = (Ret r, g') ∧
    calls g' = [mkCall "POST" "http://p:1/v1/completions"
                  [("Authorization", "Bearer k"); ("X-Request-Id", "id")]%string "B";
                mkCall "POST" "http://d:1/v1/completions"
                  [("Authorization", "Bearer k"); ("X-Request-Id", "id")]%string "B"] ∧
    r = ChunksReply ["x"%string] [("X-Request-Id", "id")]%string.
Proof.
  destruct (@disagg_prefill_then_decode (RoundRobinRouter * nat) (rr_ops url_hash Z.of_nat)
    (λ _, Ret (JObj [("model", JStr "m")]%string)) (λ _, "B"%string)
    (λ _, EmptyString) (λ _, Raise ClientError) 0 None None (λ _ _, Ret (ok_response ["x"%string])) (λ _, EmptyString)
    (λ _, Ret JNull) (λ _, EmptyString) "http://p:1" "http://d:1" "k" "id" (mkRequest "POST" [] "B" []) "/v1/completions"
    (Ret []) None None [("model", JStr "m")]%string rr_gate eq_refl)
    as (r & g' & Hr & _ & _ & _ & _ & H).
  exists r, g'. split; [exact Hr|]. destruct (H (ok_response ["x"%string]) JNull eq_refl ltac:(done) eq_refl) as [-> ->].
  split; reflexivity.
Defined.

(** Putting an engine to sleep or waking it up: the first engine with the
    requested id is called once; its pod is labelled exactly when the call
    succeeded, with the label operation of the endpoint, and the reply carries
    the engine's status. *)
Theorem sleep_labels_after_success loads send reason response_json label rq endpoint uuid eps i e rest s
    resp :
  endpoint = "/sleep"%string ∨ endpoint = "/wake_up"%string →
  request_endpoint rq = Some i → filter (λ e, Id e = i) eps = e :: rest → rq_body rq = EmptyString →
  send (url e +:+ endpoint) None = Ret resp →
  let action := if decide (endpoint = "/sleep"%string) then AddSleepLabel (pod_name e)
                else RemoveSleepLabel (pod_name e) in
  label action = Ret tt →
  route_sleep_wakeup_request loads send reason response_json label rq endpoint uuid (Ret eps) s =
  if (400 <=? br_status resp)%Z
  then (Raise (ClientResponseError (br_status resp) (reason resp)),
        mkSleepLog (sl_calls s ++ [(url e +:+ endpoint, None)]) (sl_labels s))
  else (Ret (JsonReply (br_status resp) (JObj [("status", JStr "success")]%string)
               [("X-Request-Id", request_id uuid rq)]%string),
        mkSleepLog (sl_calls s ++ [(url e +:+ endpoint, None)]) (sl_labels s ++ [action])).
Proof.
  intros He Hi Hf Hb Hs action Hlab. unfold route_sleep_wakeup_request. rewrite Hi.
  unfold mbind, M_bind, lift. rewrite Hf, Hb.
  assert (endpoint ≠ "/is_sleeping"%string) as Hne by (by destruct He as [->| ->]).
  rewrite decide_False by done. simpl.
  unfold sleep_send, mbind, outcome_bind. rewrite Hs. unfold raise_for_status.
  destruct (400 <=? br_status resp)%Z; [done|]. unfold action in *. clear action.
  case_decide as Hsl; [|case_decide as Hw; [|by destruct He]];
    unfold do_label; by rewrite Hlab.
Qed.

Definition sleepy_ep : EndpointInfo :=
  mkEndpointInfo "http://a:1" ["m"%string] "i1" 0 None false (Some "pod-1"%string) None None [].

Lemma sleep_labels_after_success_witness :
  route_sleep_wakeup_request (λ _, Ret JNull) (λ _ _, Ret (ok_response [])) (λ _, EmptyString)
    (λ _, Ret JNull) (λ _, Ret tt) (mkRequest "POST" [] "" [("id", "i1")]%string) "/sleep" "u"
    (Ret [sleepy_ep]) (mkSleepLog [] []) =
  (Ret (JsonReply 200 (JObj [("status", JStr "success")]%string) [("X-Request-Id", "u")]%string),
   mkSleepLog [("http://a:1/sleep"%string, None)] [AddSleepLabel (Some "pod-1"%string)]).
Proof.
  apply (sleep_labels_after_success (λ _, Ret JNull) (λ _ _, Ret (ok_response [])) (λ _, EmptyString)
    (λ _, Ret JNull) (λ _, Ret tt) (mkRequest "POST" [] "" [("id", "i1")]%string) "/sleep" "u"
    [sleepy_ep] "i1" sleepy_ep [] (mkSleepLog [] []) (ok_response []));
    first [by left|reflexivity].
Defined.

(** Transcriptions only work with the round-robin router: with any other
    router, a well-formed transcription request for a served model ends in a
    type error, because the router is called without the request body. *)
Theorem transcription_needs_round_robin {ring tokenizer : Type} `{!HashRing ring} py_hash
    parse_float show_float post_form response_json exn_str endpoint id oid form eps t
    (r : @router ring tokenizer) :
  parse_form parse_float form = Ret t → transcription_endpoints (tr_model t) eps ≠ [] →
  (∀ s, r ≠ RRoundRobin s) →
  route_general_transcriptions py_hash parse_float show_float post_form response_json exn_str
    endpoint id oid (Ret form) (Ret eps) r = (Raise TypeError, r).
Proof.
  intros Hf Hne Hr. unfold route_general_transcriptions, mbind, outcome_bind. rewrite Hf.
  unfold M_bind, lift. destruct (transcription_endpoints (tr_model t) eps) as [|e l]; [done|].
  unfold route_without_body. destruct r; try done. by destruct (Hr s).
Qed.

Lemma transcription_needs_round_robin_witness :
  route_general_transcriptions (ring:=gset string) (tokenizer:=unit) (λ _, 0%Z) (λ _, Ret 0)
    (λ _, EmptyString) (λ _ _, Ret (ok_response [])) (λ _, Ret JNull) (λ _, EmptyString)
    "/v1/audio/transcriptions" "id" 0 (Ret [("file", FFile "a" "b" "c"); ("model", FText "m")]%string)
    (Ret [sleepy_ep]) (RPrefix empty_node) = (Raise TypeError, RPrefix empty_node).
Proof.
  apply (transcription_needs_round_robin (ring:=gset string) (tokenizer:=unit) (λ _, 0%Z) (λ _, Ret 0)
    (λ _, EmptyString) (λ _ _, Ret (ok_response [])) (λ _, Ret JNull) (λ _, EmptyString)
    "/v1/audio/transcriptions" "id" 0 [("file", FFile "a" "b" "c"); ("model", FText "m")]%string
    [sleepy_ep] (mkTranscription (FFile "a" "b" "c") "m" None (Some "json"%string) None
      (Some "en"%string))); [reflexivity|done|done].
Defined.
