(* ===== verification/Files.v ===== *)
(** * File storage: [services/files_service] and [routers/files_router.py]

    The file system is a map from paths to files; directories are created on
    demand and always exist here; a path names a regular file and is not
    normalised.  [os.path.join] is modelled with its rule for
    absolute components.  Contents are byte strings. *)
From stdpp Require Import base list strings gmap pretty.
From Stdlib Require Import Ascii.
From S2P Require Import Prelude PyDict PyStr Json Request RequestOther.

(** ** [OpenAIFile] *)
Record OpenAIFile := mkOpenAIFile {
  of_id : json;
  of_object : json;
  of_bytes : json;
  of_created_at : json;
  of_filename : json;
  of_purpose : json
}.

Definition file_from_dict (data : list (string * json)) : outcome OpenAIFile :=
  i ← or_raise (KeyError "id") (dget "id"%string data);
  o ← or_raise (KeyError "object") (dget "object"%string data);
  b ← or_raise (KeyError "bytes") (dget "bytes"%string data);
  c ← or_raise (KeyError "created_at") (dget "created_at"%string data);
  f ← or_raise (KeyError "filename") (dget "filename"%string data);
  p ← or_raise (KeyError "purpose") (dget "purpose"%string data);
  Ret (mkOpenAIFile i o b c f p).

Definition file_to_dict (f : OpenAIFile) : list (string * json) :=
  [("id", of_id f); ("object", of_object f); ("bytes", of_bytes f); ("created_at", of_created_at f);
   ("filename", of_filename f); ("purpose", of_purpose f)]%string.

Definition metadata (f : OpenAIFile) : list (string * json) :=
  [("id", of_id f); ("bytes", of_bytes f); ("created_at", of_created_at f);
   ("filename", of_filename f); ("purpose", of_purpose f)]%string.

(** ** The file system *)
Record file := mkFile { f_content : string; f_ctime : Z }.
Abbreviation fs := (gmap string file).

Definition starts_with_slash (s : string) : bool :=
  match s with String a _ => Ascii.eqb a "/" | _ => false end.

Fixpoint ends_with_slash (s : string) : bool :=
  match s with
  | EmptyString => false
  | String a EmptyString => Ascii.eqb a "/"
  | String _ s => ends_with_slash s
  end.

(** [os.path.join(a, b)]: an absolute second component replaces the first. *)
Definition path_join (a b : string) : string :=
  if starts_with_slash b then b
  else if str_empty a || ends_with_slash a then a +:+ b
  else a +:+ "/" +:+ b.

(** Writing [chunk] at [offset]: a gap is filled with zero bytes; writing
    nothing changes nothing. *)
Fixpoint str_take (n : nat) (s : string) : string :=
  match n, s with
  | S n, String a s => String a (str_take n s)
  | _, _ => EmptyString
  end.

Fixpoint str_drop (n : nat) (s : string) : string :=
  match n, s with
  | O, _ => s
  | S n, String _ s => str_drop n s
  | _, EmptyString => EmptyString
  end.

Fixpoint zeros (n : nat) : string :=
  match n with O => EmptyString | S n => String (Ascii.ascii_of_nat 0) (zeros n) end.

Definition write_at (offset : nat) (chunk content : string) : string :=
  if str_empty chunk then content else
  str_take offset content +:+ zeros (offset - String.length content) +:+ chunk +:+
  str_drop (offset + String.length chunk) content.

(** ** [FileStorage] *)
Definition DEFAULT_USER_ID : string := "uid_default".
Definition DEFAULT_PURPOSE : string := "batch".

(** The entry of the directory [dir] that a path goes through, if any *)
Fixpoint first_component (s : string) : string :=
  match s with
  | EmptyString => EmptyString
  | String a s => if Ascii.eqb a "/" then EmptyString else String a (first_component s)
  end.

Definition dir_prefix (dir : string) : string := if ends_with_slash dir then dir else dir +:+ "/".

Definition dir_entry (dir path : string) : option string :=
  if String.prefix (dir_prefix dir) path then
    let name := first_component (str_drop (String.length (dir_prefix dir)) path) in
    if str_empty name then None else Some name
  else None.

Section Storage.
Context (base_path : string).

Definition get_user_path (user_id : string) : string := path_join base_path user_id.
Definition file_path (user_id file_id : string) : string := path_join (get_user_path user_id) file_id.

(** [fresh] is the id [f"file-{uuid4().hex[:6]}"], [now] the creation time. *)
Definition save_file (fresh : string) (now : Z) (file_id : option string) (user_id : string)
    (file_name : option string) (content : option string) (purpose : string) : M fs OpenAIFile := λ s,
  match content with
  | None => (Raise ValueError, s)
  | Some content =>
      let file_id := default fresh file_id in
      let name := match file_name with
                  | Some n => if str_empty n then file_id else n
                  | None => file_id
                  end in
      (Ret (mkOpenAIFile (JStr file_id) (JStr "file") (JInt (Z.of_nat (String.length content)))
              (JInt now) (JStr name) (JStr purpose)),
       <[file_path user_id file_id := mkFile content now]> s)
  end.

(** Writing sets the change time, which [getctime] gives, to [now]. *)
Definition save_file_chunk (now : Z) (file_id user_id : string) (chunk : option string) (offset : nat)
    : M fs unit := λ s,
  match s !! file_path user_id file_id with
  | None => (Raise FileNotFoundError, s)
  | Some f =>
      match chunk with
      | None => (Raise TypeError, s)
      | Some c => (Ret tt, <[file_path user_id file_id :=
                             mkFile (write_at offset c (f_content f)) (if str_empty c then f_ctime f else now)]> s)
      end
  end.

Definition get_file (file_id user_id : string) (s : fs) : outcome OpenAIFile :=
  match s !! file_path user_id file_id with
  | None => Raise FileNotFoundError
  | Some f => Ret (mkOpenAIFile (JStr file_id) (JStr "file")
                     (JInt (Z.of_nat (String.length (f_content f)))) (JInt (f_ctime f))
                     (JStr file_id) (JStr DEFAULT_PURPOSE))
  end.

Definition get_file_content (file_id user_id : string) (s : fs) : outcome string :=
  match s !! file_path user_id file_id with
  | None => Raise FileNotFoundError
  | Some f => Ret (f_content f)
  end.

Definition delete_file (file_id user_id : string) : M fs unit := λ s,
  (Ret tt, delete (file_path user_id file_id) s).

(** [os.listdir] gives the names in no particular order. *)
Definition list_files (user_id : string) (s : fs) : gset string :=
  list_to_set (omap (dir_entry (get_user_path user_id)) (map_to_list s).*1).

(** ** [routers/files_router.py] *)
(** The upload form: [file] is the uploaded file's name and content. *)
Definition route_files (fresh : string) (now : Z) (exn_str : exn → string)
    (form : list (string * form_value)) : M fs reply := λ s,
  let purpose := match dget "purpose"%string form with Some v => text_field v | None => "unknown"%string end in
  match dget "file"%string form with
  | None => (Ret (JsonReply 400 (JObj [("error", JStr "Missing required parameter 'file'")]%string) []), s)
  | Some (FText _) => (Raise AttributeError, s)
  | Some (FFile name content _) =>
      match save_file fresh now None DEFAULT_USER_ID (Some name) (Some content) purpose s with
      | (Ret f, s) => (Ret (JsonReply 200 (JObj (metadata f)) []), s)
      | (Raise e, s) => (Ret (JsonReply 500 (JObj [("error",
                           JStr ("Failed to save file: " +:+ exn_str e))]%string) []), s)
      end
  end.

Definition not_found (file_id : string) : reply :=
  JsonReply 404 (JObj [("error", JStr ("File " +:+ file_id +:+ " not found"))]%string) [].

Definition route_get_file (file_id : string) (s : fs) : outcome reply :=
  match get_file file_id DEFAULT_USER_ID s with
  | Ret f => Ret (JsonReply 200 (JObj (metadata f)) [])
  | Raise FileNotFoundError => Ret (not_found file_id)
  | Raise e => Raise e
  end.

Definition route_get_file_content (file_id : string) (s : fs) : outcome (reply + string) :=
  match get_file_content file_id DEFAULT_USER_ID s with
  | Ret c => Ret (inr c)
  | Raise FileNotFoundError => Ret (inl (not_found file_id))
  | Raise e => Raise e
  end.
End Storage.

(** [initialize_storage] *)
Definition initialize_storage (storage_type base_path : string) : outcome string :=
  if decide (storage_type = "local_file"%string) then Ret base_path else Raise ValueError.

(** ** Lemmas *)
Lemma str_take_all s : str_take (String.length s) s = s.
Proof. induction s as [|a s IH]; simpl; [done|]. by rewrite IH. Qed.

Lemma str_drop_all n s : String.length s ≤ n → str_drop n s = EmptyString.
Proof. revert n. induction s as [|a s IH]; intros [|n] Hn; simpl in *; try done; [lia|]. apply IH. lia. Qed.

(** Writing at the end of a file appends. *)
Lemma write_at_end chunk content : write_at (String.length content) chunk content = content +:+ chunk.
Proof.
  unfold write_at. destruct (str_empty chunk) eqn:E.
  { destruct chunk; [by rewrite str_app_nil_r|done]. }
  rewrite str_take_all, Nat.sub_diag, str_drop_all by lia.
  change (content +:+ (chunk +:+ EmptyString) = content +:+ chunk). by rewrite str_app_nil_r.
Qed.

(** The chunks of an upload with the times of their writes, each at the offset
    where the previous ones end. *)
Fixpoint save_chunks (base_path file_id user_id : string) (offset : nat) (chunks : list (Z * string))
    : M fs unit :=
  match chunks with
  | [] => mret tt
  | (now, c) :: chunks =>
      _ ← save_file_chunk base_path now file_id user_id (Some c) offset;
      save_chunks base_path file_id user_id (offset + String.length c) chunks
  end.

Definition concat_str (l : list string) : string := foldr (λ a b, a +:+ b) EmptyString l.

Lemma save_chunks_spec base_path file_id user_id chunks content t s :
  s !! file_path base_path user_id file_id = Some (mkFile content t) →
  ∃ t', save_chunks base_path file_id user_id (String.length content) chunks s =
    (Ret tt, <[file_path base_path user_id file_id := mkFile (content +:+ concat_str chunks.*2) t']> s).
Proof.
  revert content t s. induction chunks as [|[now c] chunks IH]; intros content t s Hs; simpl.
  { exists t. by rewrite str_app_nil_r, insert_id. }
  unfold mbind, M_bind, save_file_chunk. rewrite Hs. simpl. rewrite write_at_end, <- str_app_length.
  edestruct (IH (content +:+ c)) as [t' ->]; [apply lookup_insert_eq|].
  exists t'. by rewrite insert_insert_eq, str_app_assoc.
Qed.

(** ** Properties *)
(** C38. What is stored can be read back: after an upload in one piece followed
    by further chunks, each written where the previous ones end, the content of
    the file is the concatenation of all pieces, its metadata gives their total
    length, every other path is untouched, and deleting the file makes it
    unknown. *)
Theorem storage_roundtrip base_path fresh now fid user name content purpose chunks (s : fs) :
  let path := file_path base_path user fid in
  ∃ f s1 s2, save_file base_path fresh now (Some fid) user name (Some content) purpose s = (Ret f, s1) ∧
    save_chunks base_path fid user (String.length content) chunks s1 = (Ret tt, s2) ∧
    get_file_content base_path fid user s2 = Ret (content +:+ concat_str chunks.*2) ∧
    (∃ g, get_file base_path fid user s2 = Ret g ∧
       of_bytes g = JInt (Z.of_nat (String.length (content +:+ concat_str chunks.*2)))) ∧
    (∀ p, p ≠ path → s2 !! p = s !! p) ∧
    get_file_content base_path fid user (delete_file base_path fid user s2).2 = Raise FileNotFoundError.
Proof.
  intros path. unfold save_file.
  destruct (save_chunks_spec base_path fid user chunks content now (<[path := mkFile content now]> s)) as [t' Hc];
    [apply lookup_insert_eq|].
  eexists _, _, _. split; [done|]. split; [exact Hc|]. unfold get_file_content, get_file. rewrite !lookup_insert_eq.
  split_and!; [done|by eexists| |].
  - intros p Hp. rewrite !lookup_insert_ne by done. done.
  - simpl. by rewrite lookup_delete_eq.
Qed.

(** An absolute file id escapes the storage directory. *)
Lemma absolute_id_escapes base_path user fid :
  starts_with_slash fid = true → file_path base_path user fid = fid.
Proof. intros H. unfold file_path, path_join. by rewrite H. Qed.

(** [OpenAIFile] survives serialisation. *)
Lemma openai_file_roundtrip f : file_from_dict (file_to_dict f) = Ret f.
Proof. by destruct f. Qed.

(** ** Listings *)
Lemma str_drop_app a b : str_drop (String.length a) (a +:+ b) = b.
Proof. by induction a. Qed.

Lemma prefix_app a b : String.prefix a (a +:+ b) = true.
Proof. induction a as [|c a IH]; [by destruct b|]. simpl. by destruct (Ascii.ascii_dec c c). Qed.

(** An id that names a file of the directory itself *)
Definition plain (fid : string) : Prop := first_component fid = fid ∧ str_empty fid = false.

Lemma dir_entry_join dir fid : str_empty dir = false → plain fid → dir_entry dir (path_join dir fid) = Some fid.
Proof.
  intros Hd [Hf He]. assert (path_join dir fid = dir_prefix dir +:+ fid) as ->.
  { unfold path_join, dir_prefix. rewrite Hd. destruct fid as [|a fid]; [done|]. simpl in *.
    destruct (Ascii.eqb a "/"); [done|]. simpl. destruct (ends_with_slash dir); [done|]. by rewrite str_app_assoc. }
  unfold dir_entry. by rewrite prefix_app, str_drop_app, Hf, He.
Qed.

Lemma list_files_spec base_path user (s : fs) n :
  n ∈ list_files base_path user s ↔ ∃ p f, s !! p = Some f ∧ dir_entry (get_user_path base_path user) p = Some n.
Proof.
  unfold list_files. rewrite elem_of_list_to_set, list_elem_of_omap. split.
  - intros (p & Hp & E). apply list_elem_of_fmap in Hp as ([p' f] & -> & Hp). apply elem_of_map_to_list in Hp. by exists p', f.
  - intros (p & f & Hp & E). exists p. split; [|done]. apply list_elem_of_fmap. exists (p, f). by rewrite elem_of_map_to_list.
Qed.

(** A saved file is listed, beside what was there. *)
Lemma list_files_saved base_path fresh now fid user name content purpose (s : fs) :
  str_empty (get_user_path base_path user) = false → plain fid →
  list_files base_path user (save_file base_path fresh now (Some fid) user name (Some content) purpose s).2 =
  {[fid]} ∪ list_files base_path user s.
Proof.
  intros Hd Hf. apply set_eq. intros n. rewrite elem_of_union, elem_of_singleton, !list_files_spec. cbn [save_file snd default].
  set (path := file_path base_path user fid). pose proof (dir_entry_join _ _ Hd Hf) as E. split.
  - intros (p & f & Hp & En). destruct (decide (p = path)) as [->|Hne]; [left; unfold path, file_path in En; congruence|].
    rewrite lookup_insert_ne in Hp by done. right. by exists p, f.
  - intros [->|(p & f & Hp & En)]; [by eexists path, _; rewrite lookup_insert_eq|].
    destruct (decide (p = path)) as [->|Hne]; [by eexists path, _; rewrite lookup_insert_eq|].
    exists p, f. by rewrite lookup_insert_ne.
Qed.
