(* ===== verification/Batch.v ===== *)
(** * Batches: [services/batch_service] and [routers/batches_router.py]

    The SQLite table is a list of rows in insertion order; one SQL statement is
    atomic.  Every statement is awaited, so the requests and the worker
    [process_batches] interleave between them: the processor is a step relation
    over the table, the cancellations that have read their batch but not written
    it, and the batch the worker has selected or is busy with.  The worker may stop,
    and the process may be restarted on the same database, which loses what it had
    in hand. *)
From stdpp Require Import base list strings gmap pretty.
From Stdlib Require Import Ascii QArith.
From S2P Require Import Prelude PyDict PyStr Json Request Files.

(** ** [batch.py] *)
Inductive BatchStatus : Type := PENDING | RUNNING | COMPLETED | FAILED.

#[global] Instance BatchStatus_eq_dec : EqDecision BatchStatus.
Proof. solve_decision. Defined.

Definition status_value (s : BatchStatus) : string :=
  match s with PENDING => "pending" | RUNNING => "running" | COMPLETED => "completed" | FAILED => "failed" end.

(** [BatchStatus(status)] *)
Definition batch_status (s : string) : outcome BatchStatus :=
  or_raise ValueError
    (head (filter (λ st, status_value st = s) [PENDING; RUNNING; COMPLETED; FAILED])).

(** The fields of [BatchInfo] the processor sets; the others keep their
    defaults.  After a cancellation the status is a plain string. *)
Record BatchInfo := mkBatchInfo {
  bi_id : string;
  bi_status : BatchStatus + string;
  bi_input_file_id : json;
  bi_created_at : Z;
  bi_endpoint : json;
  bi_completion_window : json;
  bi_output_file_id : option string;
  bi_completed_at : option Z;
  bi_metadata : json
}.

Definition opt_json {A} (f : A → json) (o : option A) : json :=
  match o with Some a => f a | None => JNull end.

(** [to_dict]: [self.status.value] fails on a plain string. *)
Definition batch_to_dict (b : BatchInfo) : outcome (list (string * json)) :=
  match bi_status b with
  | inr _ => Raise AttributeError
  | inl st =>
      Ret [("id", JStr (bi_id b)); ("status", JStr (status_value st));
           ("input_file_id", bi_input_file_id b); ("created_at", JInt (bi_created_at b));
           ("endpoint", bi_endpoint b); ("completion_window", bi_completion_window b);
           ("output_file_id", opt_json JStr (bi_output_file_id b)); ("error_file_id", JNull);
           ("in_progress_at", JNull); ("expires_at", JNull); ("finalizing_at", JNull);
           ("completed_at", opt_json JInt (bi_completed_at b)); ("failed_at", JNull);
           ("expired_at", JNull); ("cancelling_at", JNull); ("cancelled_at", JNull);
           ("total_requests", JNull); ("completed_requests", JInt 0); ("failed_requests", JInt 0);
           ("metadata", bi_metadata b)]%string
  end.

(** ** The table *)
Record row := mkRow {
  r_id : string;
  r_status : string;
  r_input_file_id : json;
  r_created_at : Z;
  r_endpoint : json;
  r_completion_window : json;
  r_output_file_id : option string;
  r_completed_at : option Z;
  r_metadata : json
}.
Abbreviation table := (list row).

Definition find_row (i : string) (db : table) : option row := head (filter (λ r, r_id r = i) db).

(** [UPDATE ... WHERE batch_id = ?] *)
Definition update_row (i : string) (f : row → row) (db : table) : table :=
  (λ r, if decide (r_id r = i) then f r else r) <$> db.

Definition set_status (st : string) (r : row) : row :=
  mkRow (r_id r) st (r_input_file_id r) (r_created_at r) (r_endpoint r) (r_completion_window r)
    (r_output_file_id r) (r_completed_at r) (r_metadata r).

Definition set_cancelled (now : Z) (r : row) : row :=
  mkRow (r_id r) "cancelled" (r_input_file_id r) (r_created_at r) (r_endpoint r)
    (r_completion_window r) (r_output_file_id r) (Some now) (r_metadata r).

Definition set_finished (st : BatchStatus) (now : Z) (out : option string) (r : row) : row :=
  mkRow (r_id r) (status_value st) (r_input_file_id r) (r_created_at r) (r_endpoint r)
    (r_completion_window r) out (Some now) (r_metadata r).

(** ** [LocalBatchProcessor] *)
(** Binding a value to a [TEXT] column: numbers become text, dicts and lists are
    refused, integers must fit 64 bits. *)
Definition as_column (float_text : Q → string) (v : json) : outcome json :=
  match v with
  | JNull => Ret JNull
  | JStr s => Ret (JStr s)
  | JBool b => Ret (JStr (if b then "1" else "0"))
  | JInt z => if decide (- 2 ^ 63 ≤ z < 2 ^ 63)%Z then Ret (JStr (pretty z))
              else Raise (OtherError "OverflowError")
  | JFloat q => Ret (JStr (float_text q))
  | JArr _ | JObj _ => Raise (OtherError "InterfaceError")
  end.

(** [fresh] is ["batch_" + uuid4().hex[:6]]; the primary key refuses a duplicate.
    The metadata column holds the JSON text of the dict. *)
Definition create_batch (float_text : Q → string) (fresh : string) (now : Z)
    (input_file_id endpoint window metadata : json) : M table BatchInfo := λ db,
  let meta := if truthy metadata then metadata else JObj [] in
  match (f ← as_column float_text input_file_id; e ← as_column float_text endpoint;
         w ← as_column float_text window; Ret (f, e, w)) with
  | Raise ex => (Raise ex, db)
  | Ret (f, e, w) =>
      match find_row fresh db with
      | Some _ => (Raise (OtherError "IntegrityError"), db)
      | None =>
          (Ret (mkBatchInfo fresh (inl PENDING) input_file_id now endpoint window None None meta),
           db ++ [mkRow fresh (status_value PENDING) f now e w None None meta])
      end
  end.

Definition retrieve_batch (i : string) (db : table) : outcome BatchInfo :=
  match find_row i db with
  | None => Raise ValueError
  | Some r =>
      st ← batch_status (r_status r);
      Ret (mkBatchInfo i (inl st) (r_input_file_id r) (r_created_at r) (r_endpoint r)
             (r_completion_window r) (r_output_file_id r) (r_completed_at r) (r_metadata r))
  end.

(** [ORDER BY created_at DESC]: newest first, ties in insertion order. *)
Fixpoint insert_newest (r : row) (l : table) : table :=
  match l with
  | [] => [r]
  | x :: l => if decide (r_created_at x < r_created_at r)%Z then r :: x :: l
              else x :: insert_newest r l
  end.

Definition newest_first (db : table) : table := foldl (λ l r, insert_newest r l) [] db.

Fixpoint retrieve_all (ids : list string) (db : table) : outcome (list BatchInfo) :=
  match ids with
  | [] => Ret []
  | i :: ids => b ← retrieve_batch i db; bs ← retrieve_all ids db; Ret (b :: bs)
  end.

(** [created_at > ?] with a text parameter: SQLite compares with its number, and
    a text that is not a number is greater than every number.  A negative limit
    is no limit. *)
Definition limit_rows (limit : Z) (l : table) : table :=
  if decide (limit < 0)%Z then l else take (Z.to_nat limit) l.

Definition list_batches (as_number : string → option Z) (limit : Z) (after : option string)
    (db : table) : outcome (list BatchInfo) :=
  let rows := match after with
              | None | Some EmptyString => db
              | Some a => match as_number a with
                          | Some n => filter (λ r, n < r_created_at r)%Z db
                          | None => []
                          end
              end in
  retrieve_all (r_id <$> limit_rows limit (newest_first rows)) db.

(** [cancel_batch] reads the batch, then writes it unless it is finished. *)
Definition cancel_write (i : string) (now : Z) (db : table) : table :=
  update_row i (set_cancelled now) db.

Definition finished (b : BatchInfo) : Prop := bi_status b = inl COMPLETED ∨ bi_status b = inl FAILED.
#[global] Instance finished_dec b : Decision (finished b).
Proof. unfold finished. apply _. Defined.

Definition cancel_batch (i : string) (now : Z) : M table BatchInfo := λ db,
  match retrieve_batch i db with
  | Raise e => (Raise e, db)
  | Ret b =>
      if decide (finished b) then (Ret b, db)
      else (Ret (mkBatchInfo (bi_id b) (inr "cancelled"%string) (bi_input_file_id b)
                   (bi_created_at b) (bi_endpoint b) (bi_completion_window b)
                   (bi_output_file_id b) (Some now) (bi_metadata b)),
            cancel_write i now db)
  end.

(** [ORDER BY created_at LIMIT 1] among the pending ones. *)
Fixpoint oldest (l : table) : option row :=
  match l with
  | [] => None
  | r :: l => match oldest l with
              | None => Some r
              | Some r' => if decide (r_created_at r' < r_created_at r)%Z then Some r' else Some r
              end
  end.

Definition select_pending (db : table) : option string :=
  r_id <$> oldest (filter (λ r, r_status r = status_value PENDING) db).

Definition mark_running (i : string) (db : table) : table := update_row i (set_status "running") db.

(** Storing the result: [fresh] is the id of the new file. *)
Definition save_result (base_path fresh : string) (now : Z) (i text : string) : M fs string := λ s,
  let '(o, s) := save_file base_path fresh now None DEFAULT_USER_ID (Some (i +:+ "_result.txt"))
                   (Some text) "batch_output" s in
  (f ← o; Ret (match of_id f with JStr id => id | _ => "output_id"%string end), s).

(** [saved] is what storing the result gave. *)
Definition finish (i : string) (saved : outcome string) (now : Z) (db : table) : table :=
  match saved with
  | Ret out => update_row i (set_finished COMPLETED now (Some out)) db
  | Raise _ => update_row i (set_finished FAILED now None) db
  end.

(** ** The processor as a state machine *)
(** The worker has selected a batch, is busy with it, or has the result of
    storing its output but has not written the row; a stopped worker is one that
    an error of the database ended. *)
Inductive work : Type :=
| Idle
| Selected (i : string)
| Busy (i : string)
| Ended (i : string) (saved : outcome string)
| Stopped.

(** [lost] records the batches that were marked as running when the worker
    stopped; no code reads it. *)
Record bstate := mkBState { db : table; cancels : list string; worker : work; files : fs; lost : list string }.

(** The batch that is marked as running by this worker. *)
Definition in_hand (w : work) : list string :=
  match w with Busy i | Ended i _ => [i] | _ => [] end.

(** [step_fail] is an exception of the processing or of the storage,
    [step_stop] one of a database statement of the worker, outside of its [try].
    [step_restart] ends the process at any point, which may leave the file that
    was being written, and starts it again: [setup_db] keeps the table. *)
Inductive bstep (base_path : string) : bstate → bstate → Prop :=
| step_create s float_text fresh now inp ep win meta b db' :
    create_batch float_text fresh now inp ep win meta (db s) = (Ret b, db') →
    bstep base_path s (mkBState db' (cancels s) (worker s) (files s) (lost s))
| step_cancel_read s i b :
    retrieve_batch i (db s) = Ret b → ¬ finished b →
    bstep base_path s (mkBState (db s) (i :: cancels s) (worker s) (files s) (lost s))
| step_cancel_write s i now pre suf :
    cancels s = pre ++ i :: suf →
    bstep base_path s (mkBState (cancel_write i now (db s)) (pre ++ suf) (worker s) (files s) (lost s))
| step_select s i :
    worker s = Idle → select_pending (db s) = Some i →
    bstep base_path s (mkBState (db s) (cancels s) (Selected i) (files s) (lost s))
| step_mark s i :
    worker s = Selected i →
    bstep base_path s (mkBState (mark_running i (db s)) (cancels s) (Busy i) (files s) (lost s))
| step_save s i fresh now text saved files' :
    worker s = Busy i → save_result base_path fresh now i text (files s) = (saved, files') →
    bstep base_path s (mkBState (db s) (cancels s) (Ended i saved) files' (lost s))
| step_fail s i e :
    worker s = Busy i →
    bstep base_path s (mkBState (db s) (cancels s) (Ended i (Raise e)) (files s) (lost s))
| step_finish s i saved now :
    worker s = Ended i saved →
    bstep base_path s (mkBState (finish i saved now (db s)) (cancels s) Idle (files s) (lost s))
| step_upload s fresh now exn_str form r files' :
    route_files base_path fresh now exn_str form (files s) = (Ret r, files') →
    bstep base_path s (mkBState (db s) (cancels s) (worker s) files' (lost s))
| step_stop s :
    bstep base_path s (mkBState (db s) (cancels s) Stopped (files s) (in_hand (worker s) ++ lost s))
| step_restart s files' :
    (∀ p, is_Some (files s !! p) → is_Some (files' !! p)) →
    bstep base_path s (mkBState (db s) [] Idle files' (in_hand (worker s) ++ lost s)).

(** ** [routers/batches_router.py] *)
Definition route_batches (base_path : string) (float_text : Q → string) (fresh : string) (now : Z)
    (exn_str : exn → string) (request_json : outcome json) (files : gmap string file) : M table reply := λ db,
  let fail e := JsonReply 500 (JObj [("error",
                  JStr ("Failed to process batch request: " +:+ exn_str e))]%string) [] in
  let missing k := JsonReply 400 (JObj [("error",
                     JStr ("Missing required parameter '" +:+ k +:+ "'"))]%string) [] in
  match
    (v ← request_json;
     a ← jin "input_file_id" v;
     if negb a then Ret (inl (missing "input_file_id"%string)) else
     b ← jin "endpoint" v;
     if negb b then Ret (inl (missing "endpoint"%string)) else
     fid ← jitem "input_file_id" v;
     match fid with
     | JStr f =>
         match get_file base_path f DEFAULT_USER_ID files with
         | Raise FileNotFoundError => Ret (inl (not_found f))
         | Raise e => Raise e
         | Ret _ =>
             ep ← jitem "endpoint" v;
             win ← jget "completion_window" (JStr "5s") v;
             meta ← jget "metadata" JNull v;
             Ret (inr (fid, ep, win, meta))
         end
     | _ => Raise TypeError
     end)
  with
  | Raise e => (Ret (fail e), db)
  | Ret (inl r) => (Ret r, db)
  | Ret (inr (fid, ep, win, meta)) =>
      match create_batch float_text fresh now fid ep win meta db with
      | (Raise e, db) => (Ret (fail e), db)
      | (Ret b, db) =>
          match batch_to_dict b with
          | Ret d => (Ret (JsonReply 200 (JObj d) []), db)
          | Raise e => (Ret (fail e), db)
          end
      end
  end.

(** Only [FileNotFoundError] is turned into a 404 reply. *)
Definition batch_reply (r : outcome BatchInfo) (i : string) : outcome reply :=
  match (b ← r; batch_to_dict b) with
  | Ret d => Ret (JsonReply 200 (JObj d) [])
  | Raise FileNotFoundError =>
      Ret (JsonReply 404 (JObj [("error", JStr ("Batch " +:+ i +:+ " not found"))]%string) [])
  | Raise e => Raise e
  end.

Definition route_get_batch (i : string) (db : table) : outcome reply :=
  batch_reply (retrieve_batch i db) i.

Definition route_cancel_batch (i : string) (now : Z) : M table reply := λ db,
  let '(o, db) := cancel_batch i now db in (batch_reply o i, db).

Fixpoint dicts_of (bs : list BatchInfo) : outcome (list (list (string * json))) :=
  match bs with
  | [] => Ret []
  | b :: bs => d ← batch_to_dict b; ds ← dicts_of bs; Ret (d :: ds)
  end.

Definition route_list_batches (as_number : string → option Z) (limit : Z) (after : option string)
    (db : table) : outcome reply :=
  match (bs ← list_batches as_number limit after db; dicts_of bs) with
  | Ret ds =>
      let id_of d := dict_get "id" JNull d in
      Ret (JsonReply 200 (JObj [
        ("object", JStr "list"); ("data", JArr (JObj <$> ds));
        ("first_id", match head ds with Some d => id_of d | None => JNull end);
        ("last_id", match last ds with Some d => id_of d | None => JNull end);
        ("has_more", JBool (Z.of_nat (length ds) =? limit)%Z)]%string) [])
  | Raise FileNotFoundError =>
      Ret (JsonReply 404 (JObj [("error", JStr "No batches found")]%string) [])
  | Raise e => Raise e
  end.

(** ** Lemmas *)
Lemma find_row_Some i t r : find_row i t = Some r → r ∈ t ∧ r_id r = i.
Proof.
  unfold find_row. intros H. assert (r ∈ filter (λ r, r_id r = i) t) as Hr.
  { destruct (filter _ t); [done|]. injection H as ->. left. }
  apply list_elem_of_filter in Hr. naive_solver.
Qed.

Lemma find_row_None i t : find_row i t = None → i ∉ r_id <$> t.
Proof.
  unfold find_row. intros H (r & -> & Hr)%list_elem_of_fmap.
  assert (r ∈ filter (λ r', r_id r' = r_id r) t) as Hf by by apply list_elem_of_filter.
  destruct (filter _ t); [by apply elem_of_nil in Hf|done].
Qed.

Lemma find_row_is_Some i t : i ∈ r_id <$> t → is_Some (find_row i t).
Proof. intros Hi. destruct (find_row i t) eqn:E; [by eexists|]. by apply find_row_None in E. Qed.

Lemma update_row_ids i f t : (∀ r, r_id (f r) = r_id r) → r_id <$> update_row i f t = r_id <$> t.
Proof.
  intros Hf. unfold update_row. rewrite <- list_fmap_compose. apply list_fmap_ext.
  intros _ r _. simpl. case_decide; [apply Hf|done].
Qed.

Lemma update_row_elem i f t r :
  r ∈ update_row i f t → (∃ r0, r0 ∈ t ∧ r_id r0 = i ∧ r = f r0) ∨ (r ∈ t ∧ r_id r ≠ i).
Proof.
  unfold update_row. intros (r0 & -> & Hr0)%list_elem_of_fmap. case_decide; [left|right]; eauto.
Qed.

Lemma unique_row t r r' : NoDup (r_id <$> t) → r ∈ t → r' ∈ t → r_id r = r_id r' → r = r'.
Proof.
  intros Hnd Hr Hr' Heq. induction t as [|x t IH]; [by apply elem_of_nil in Hr|].
  csimpl in Hnd. apply NoDup_cons in Hnd as [Hx Hnd].
  apply elem_of_cons in Hr as [->|Hr], Hr' as [->|Hr']; auto.
  - destruct Hx. rewrite Heq. apply list_elem_of_fmap. by exists r'.
  - destruct Hx. rewrite <- Heq. apply list_elem_of_fmap. by exists r.
Qed.

Lemma batch_status_value s st : batch_status s = Ret st → s = status_value st.
Proof.
  unfold batch_status, or_raise. destruct (head _) as [x|] eqn:E; [|done]. intros [= ->].
  assert (st ∈ filter (λ st, status_value st = s) [PENDING; RUNNING; COMPLETED; FAILED]) as H.
  { destruct (filter _ _); [done|]. injection E as ->. left. }
  apply list_elem_of_filter in H. naive_solver.
Qed.

(** What a row says, given the batches in hand and the lost ones. *)
Definition row_ok (s : bstate) (r : row) : Prop :=
  (r_status r = "pending" ∧ r_output_file_id r = None ∧ r_completed_at r = None ∧
   r_id r ∉ in_hand (worker s) ++ lost s) ∨
  (r_status r = "running" ∧ r_output_file_id r = None ∧ r_id r ∈ in_hand (worker s) ++ lost s) ∨
  (r_status r = "completed" ∧ is_Some (r_output_file_id r) ∧ is_Some (r_completed_at r) ∧ r_id r ∉ lost s) ∨
  (r_status r = "failed" ∧ r_output_file_id r = None ∧ is_Some (r_completed_at r) ∧ r_id r ∉ lost s) ∨
  (r_status r = "cancelled" ∧ is_Some (r_completed_at r)).

(** The batch the worker has selected or in hand. *)
Definition concerns (w : work) : list string :=
  match w with Selected i => [i] | _ => in_hand w end.

Lemma in_hand_concerns w i : i ∈ in_hand w → i ∈ concerns w.
Proof. destruct w; try done. by intros ?%elem_of_nil. Qed.

(** It is in the table, not finished, and not a lost one; a lost one is in the
    table too. *)
Definition worker_ok (s : bstate) : Prop :=
  (∀ i, i ∈ concerns (worker s) → i ∉ lost s ∧
     ∃ r, r ∈ db s ∧ r_id r = i ∧ r_output_file_id r = None ∧ r_status r ≠ "completed"%string ∧
          r_status r ≠ "failed"%string) ∧
  (∀ i, i ∈ lost s → i ∈ r_id <$> db s).

(** Every result file can be read, also one whose row is not yet written. *)
Definition results_ok (base_path : string) (s : bstate) : Prop :=
  (∀ r out, r ∈ db s → r_output_file_id r = Some out →
     is_Some (files s !! file_path base_path DEFAULT_USER_ID out)) ∧
  (∀ i out, worker s = Ended i (Ret out) → is_Some (files s !! file_path base_path DEFAULT_USER_ID out)).

Definition batch_ok (base_path : string) (s : bstate) : Prop :=
  NoDup (r_id <$> db s) ∧ (∀ r, r ∈ db s → row_ok s r) ∧ worker_ok s ∧
  (∀ i, i ∈ cancels s → i ∈ r_id <$> db s) ∧ results_ok base_path s.

(** The rows that an update of the row [i] leaves. *)
Lemma row_ok_same s s' r :
  in_hand (worker s') ++ lost s' = in_hand (worker s) ++ lost s → lost s' = lost s → row_ok s r → row_ok s' r.
Proof. unfold row_ok. by intros -> ->. Qed.

Section Steps.
Context (base_path : string).

Lemma create_ok s ft fresh now inp ep win meta b db' :
  create_batch ft fresh now inp ep win meta (db s) = (Ret b, db') →
  batch_ok base_path s → batch_ok base_path (mkBState db' (cancels s) (worker s) (files s) (lost s)).
Proof.
  unfold create_batch. intros Hc (Hnd & Hall & [Hw Hl] & Hcn & [Hres Hres']).
  destruct (_ ≫= _) as [[[f e] w]|]; [|done].
  destruct (find_row fresh (db s)) eqn:E; [done|]. simplify_eq. apply find_row_None in E.
  unfold batch_ok, worker_ok, results_ok. simpl. rewrite fmap_app. split_and!.
  - apply NoDup_app. split_and!; [done| |apply NoDup_singleton]. set_solver.
  - intros r [Hr| ->%list_elem_of_singleton]%elem_of_app; [by apply (row_ok_same s), Hall|]. left.
    split_and!; try done. simpl. intros [Hb|Hb]%elem_of_app; [|by apply E, Hl].
    destruct (Hw fresh) as (_ & r & Hr & Hi & _); [by apply in_hand_concerns|].
    destruct E. apply list_elem_of_fmap. by exists r.
  - intros i Hi. destruct (Hw i Hi) as (Hn & r & Hr & ?). split; [done|]. exists r. split; [|done].
    apply elem_of_app. by left.
  - intros i Hi. apply elem_of_app. left. by apply Hl.
  - intros i Hi. apply elem_of_app. left. by apply Hcn.
  - intros r out [Hr| ->%list_elem_of_singleton]%elem_of_app Ho; [by eapply Hres|done].
  - done.
Qed.

Lemma cancel_read_ok s i b :
  retrieve_batch i (db s) = Ret b → batch_ok base_path s →
  batch_ok base_path (mkBState (db s) (i :: cancels s) (worker s) (files s) (lost s)).
Proof.
  intros Hr (Hnd & Hall & Hw & Hcn & Hres). unfold batch_ok. simpl. split_and!; try done.
  intros j [->|Hj]%elem_of_cons; [|by apply Hcn]. unfold retrieve_batch in Hr.
  destruct (find_row i (db s)) as [r|] eqn:E; [|done]. apply find_row_Some in E as [? <-].
  by apply list_elem_of_fmap_2.
Qed.

(** An update that keeps ids and results keeps what the worker relies on. *)
Lemma worker_ok_update s s' i f :
  (∀ r, r_id (f r) = r_id r) → (∀ r, r_output_file_id (f r) = r_output_file_id r) →
  (∀ r, r_status (f r) ≠ "completed"%string ∧ r_status (f r) ≠ "failed"%string) →
  db s' = update_row i f (db s) → concerns (worker s') = concerns (worker s) → lost s' = lost s →
  worker_ok s → worker_ok s'.
Proof.
  intros Hid Hout Hst Hdb Hco Hlo [Hw Hl]. unfold worker_ok. rewrite Hdb, Hco, Hlo, update_row_ids by done.
  split; [|done]. intros j Hj. destruct (Hw j Hj) as (Hn & r & Hr & Hi & Ho & Hc & Hf). split; [done|].
  exists (if decide (r_id r = i) then f r else r). split.
  - unfold update_row. apply list_elem_of_fmap. by exists r.
  - case_decide; [|done]. rewrite Hid, Hout. by destruct (Hst r).
Qed.

(** An update that keeps the results, and files that are only added. *)
Lemma results_ok_update s s' i f :
  (∀ r, r_output_file_id (f r) = r_output_file_id r) → db s' = update_row i f (db s) →
  (∀ j out, worker s' ≠ Ended j (Ret out)) → files s' = files s →
  results_ok base_path s → results_ok base_path s'.
Proof.
  intros Hf Hdb Hw Hfi [Hres _]. unfold results_ok. rewrite Hdb, Hfi. split; [|by intros j out ?%Hw].
  intros r out [(r0 & Hr0 & _ & ->)|[Hr _]]%update_row_elem Ho; [|by eapply Hres].
  rewrite Hf in Ho. by eapply Hres.
Qed.

Lemma results_ok_mono s s' :
  db s' = db s → (∀ p, is_Some (files s !! p) → is_Some (files s' !! p)) →
  (∀ j out, worker s' = Ended j (Ret out) → worker s = Ended j (Ret out) ∨
     is_Some (files s' !! file_path base_path DEFAULT_USER_ID out)) →
  results_ok base_path s → results_ok base_path s'.
Proof.
  intros Hdb Hf Hw [Hres Hres']. split; [rewrite Hdb; intros; by eapply Hf, Hres|].
  intros j out [Hj|Hj]%Hw; [by eapply Hf, Hres'|done].
Qed.

Lemma cancel_write_ok s i now pre suf :
  cancels s = pre ++ i :: suf → batch_ok base_path s →
  batch_ok base_path (mkBState (cancel_write i now (db s)) (pre ++ suf) (worker s) (files s) (lost s)).
Proof.
  intros Hc (Hnd & Hall & Hw & Hcn & [Hres Hres']). unfold batch_ok, cancel_write. simpl.
  rewrite update_row_ids by done. split_and!; [done| |by apply (worker_ok_update s _ i (set_cancelled now))| |split; [|done]].
  - intros r' [(r0 & Hr0 & Hi0 & ->)|[Hr' _]]%update_row_elem; [|by apply (row_ok_same s), Hall].
    right; right; right; right. by split; [|eexists].
  - intros j Hj. apply Hcn. rewrite Hc. set_solver.
  - simpl. intros r out [(r0 & Hr0 & _ & ->)|[Hr _]]%update_row_elem Ho; by eapply Hres.
Qed.

Lemma oldest_elem t r : oldest t = Some r → r ∈ t.
Proof.
  revert r. induction t as [|x t IH]; intros r; simpl; [done|].
  destruct (oldest t) as [r'|]; [case_decide|]; intros [= ->]; try (right; by apply IH); left.
Qed.

Lemma select_ok s i :
  worker s = Idle → select_pending (db s) = Some i → batch_ok base_path s →
  batch_ok base_path (mkBState (db s) (cancels s) (Selected i) (files s) (lost s)).
Proof.
  unfold select_pending. intros Hwk Hc (Hnd & Hall & [Hw Hl] & Hcn & [Hres _]).
  apply fmap_Some in Hc as (r & E & ->). apply oldest_elem in E.
  apply list_elem_of_filter in E as [Hs Hr]. unfold batch_ok. simpl. split_and!; [done| | |done|by split].
  - intros r' Hr'. apply (row_ok_same s); [by rewrite Hwk|done|by apply Hall].
  - split; [|done]. simpl. intros j ->%list_elem_of_singleton.
    assert (r_id r ∉ lost s ∧ r_output_file_id r = None) as [Hn Ho].
    { destruct (Hall r Hr) as [(_ & ? & _ & Hni)|[(Hs' & _)|[(Hs' & _)|[(Hs' & _)|(Hs' & _)]]]];
        [|by rewrite Hs' in Hs..]. split; [|done]. intros Hin. apply Hni, elem_of_app. by right. }
    split; [done|]. exists r. by rewrite Hs.
Qed.

Lemma mark_ok s i :
  worker s = Selected i → batch_ok base_path s →
  batch_ok base_path (mkBState (mark_running i (db s)) (cancels s) (Busy i) (files s) (lost s)).
Proof.
  intros Hwk (Hnd & Hall & Hw & Hcn & Hres). unfold batch_ok, mark_running. simpl.
  rewrite update_row_ids by done.
  split_and!; [done| |apply (worker_ok_update s _ i (set_status "running")); try done; by rewrite Hwk|done
    |by apply (results_ok_update s _ i (set_status "running"))].
  destruct Hw as [Hw _]. rewrite Hwk in Hw. destruct (Hw i) as (Hn & r & Hr & Hi & Ho & _); [left|].
  intros r' [(r0 & Hr0 & Hi0 & ->)|[Hr' Hne]]%update_row_elem.
  - assert (r0 = r) as -> by (apply (unique_row (db s)); congruence).
    right; left. simpl. split_and!; [done|done|]. rewrite Hi. left.
  - destruct (Hall r' Hr') as [(? & ? & ? & Hni)|[(? & ? & Hin)|H]]; [left|right; left|by right; right].
    + rewrite Hwk in Hni. simpl in *. split_and!; try done. by apply not_elem_of_cons.
    + rewrite Hwk in Hin. simpl in *. split_and!; try done. by right.
Qed.

(** The result of the processing is there; the table has not changed. *)
Lemma ended_ok s i saved files' :
  worker s = Busy i → (∀ p, is_Some (files s !! p) → is_Some (files' !! p)) →
  (∀ out, saved = Ret out → is_Some (files' !! file_path base_path DEFAULT_USER_ID out)) →
  batch_ok base_path s → batch_ok base_path (mkBState (db s) (cancels s) (Ended i saved) files' (lost s)).
Proof.
  intros Hwk Hmono Hout (Hnd & Hall & Hw & Hcn & Hres). unfold batch_ok. simpl. split_and!; [done| | |done|].
  - intros r Hr. apply (row_ok_same s); [by rewrite Hwk|done|by apply Hall].
  - unfold worker_ok in *. simpl. by rewrite Hwk in Hw.
  - apply (results_ok_mono s); [done|done| |exact Hres]. intros j out [= -> Hs]. right. by apply Hout.
Qed.

Lemma finish_ok s i saved now :
  worker s = Ended i saved → batch_ok base_path s →
  batch_ok base_path (mkBState (finish i saved now (db s)) (cancels s) Idle (files s) (lost s)).
Proof.
  intros Hwk (Hnd & Hall & [Hw Hl] & Hcn & [Hres Hres']).
  assert (i ∉ lost s) as Hnl by (apply Hw; rewrite Hwk; left).
  assert (∃ f st out, finish i saved now (db s) = update_row i f (db s) ∧ f = set_finished st now out ∧
    ((st = COMPLETED ∧ is_Some out) ∨ (st = FAILED ∧ out = None)) ∧
    ∀ o, out = Some o → is_Some (files s !! file_path base_path DEFAULT_USER_ID o)) as (f & st & out & -> & -> & Hst & Hout).
  { destruct saved as [o|e]; eexists _, _, _; (split; [done|]); (split; [done|]); [|by split; [right|]].
    split; [by left; split; [|eexists]|]. intros o' [= <-]. by apply (Hres' i). }
  unfold batch_ok, worker_ok, results_ok. simpl. rewrite update_row_ids by done.
  split_and!; [done| |by intros j ?%elem_of_nil|done|done| |done].
  - intros r' [(r0 & Hr0 & Hi0 & ->)|[Hr' Hne]]%update_row_elem.
    + subst i. destruct Hst as [[-> Ho]|[-> ->]]; right; right; [left|right; left]; simpl;
        (split_and!; [done|done|by eexists|done]).
    + destruct (Hall r' Hr') as [(? & ? & ? & Hni)|[(? & ? & Hin)|H]]; [left|right; left|by right; right];
        rewrite Hwk in *; simpl in *; split_and!; try done.
      * by apply not_elem_of_cons in Hni as [_ ?].
      * by apply elem_of_cons in Hin as [?|?].
  - intros r o [(r0 & Hr0 & Hi0 & ->)|[Hr' Hne]]%update_row_elem Ho; [by apply Hout|by eapply Hres].
Qed.

(** The worker goes away: the batch in hand is lost. *)
Lemma gone_ok s c w files' :
  (w = Stopped ∨ w = Idle) → (∀ i, i ∈ c → i ∈ cancels s) →
  (∀ p, is_Some (files s !! p) → is_Some (files' !! p)) → batch_ok base_path s →
  batch_ok base_path (mkBState (db s) c w files' (in_hand (worker s) ++ lost s)).
Proof.
  intros Hw' Hc Hmono (Hnd & Hall & [Hw Hl] & Hcn & Hres).
  assert (in_hand w = [] ∧ concerns w = [] ∧ ∀ j o, w ≠ Ended j o) as (Hin & Hco & Hne) by by destruct Hw' as [->| ->].
  unfold batch_ok, worker_ok. simpl. rewrite Hco. split_and!; [done| |by intros ? ?%elem_of_nil| |by intros i ?%Hc%Hcn|].
  - intros r Hr. unfold row_ok. simpl. rewrite Hin. simpl.
    assert (r_status r = "completed"%string ∨ r_status r = "failed"%string → r_id r ∉ in_hand (worker s)) as Hfin.
    { intros Hst Hh. destruct (Hw (r_id r)) as (_ & r' & Hr' & Hi & _ & H1 & H2); [by apply in_hand_concerns|].
      assert (r' = r) as -> by by apply (unique_row (db s)). by destruct Hst. }
    destruct (Hall r Hr) as [?|[?|[(? & ? & ? & ?)|[(? & ? & ? & ?)|?]]]]; [by left|by right; left| | |by do 4 right].
    + right; right; left. split_and!; try done. rewrite not_elem_of_app. by split; [apply Hfin; left|].
    + right; right; right; left. split_and!; try done. rewrite not_elem_of_app. by split; [apply Hfin; right|].
  - intros i [Hi|Hi]%elem_of_app; [|by apply Hl].
    destruct (Hw i) as (_ & r & Hr & <- & _); [by apply in_hand_concerns|]. by apply list_elem_of_fmap_2.
  - apply (results_ok_mono s); [done|done| |exact Hres]. intros j out Hj. simpl in Hj. by destruct (Hne j (Ret out)).
Qed.

Lemma insert_keeps (m : fs) k v p : is_Some (m !! p) → is_Some (<[k:=v]> m !! p).
Proof. intros Hp. destruct (decide (p = k)) as [->|Hne]; simplify_map_eq; eauto. Qed.

Lemma save_ok s i fresh now text saved files' :
  worker s = Busy i → save_result base_path fresh now i text (files s) = (saved, files') →
  batch_ok base_path s → batch_ok base_path (mkBState (db s) (cancels s) (Ended i saved) files' (lost s)).
Proof.
  intros Hwk Hs Hok. unfold save_result, save_file in Hs. simpl in Hs. simplify_eq.
  apply ended_ok; try done; [by apply insert_keeps|].
  intros o [= <-]. rewrite lookup_insert_eq. by eexists.
Qed.

Lemma upload_ok s fresh now exn_str form r files' :
  route_files base_path fresh now exn_str form (files s) = (Ret r, files') →
  batch_ok base_path s → batch_ok base_path (mkBState (db s) (cancels s) (worker s) files' (lost s)).
Proof.
  intros Hf (Hnd & Hall & Hw & Hcn & Hres). unfold batch_ok. simpl. split_and!; try done.
  apply (results_ok_mono s); [done| |by left|exact Hres]. simpl. unfold route_files, save_file in Hf.
  destruct (dget "file"%string form) as [[|name content ct]|]; simplify_eq; [|done].
  intros p. apply insert_keeps.
Qed.

Lemma bstep_ok s s' : bstep base_path s s' → batch_ok base_path s → batch_ok base_path s'.
Proof.
  intros Hs Hok. destruct Hs.
  - by eapply create_ok.
  - by eapply cancel_read_ok.
  - by eapply cancel_write_ok.
  - by apply select_ok.
  - by apply mark_ok.
  - by eapply save_ok.
  - by apply ended_ok.
  - by eapply finish_ok.
  - by eapply upload_ok.
  - apply gone_ok; auto.
  - apply gone_ok; auto. by intros i ?%elem_of_nil.
Qed.

Lemma batch_ok_init : batch_ok base_path (mkBState [] [] Idle ∅ []).
Proof.
  unfold batch_ok, worker_ok, results_ok. simpl.
  split_and!; [constructor|set_solver|set_solver|set_solver|set_solver|by intros ? ? ?%elem_of_nil|done].
Qed.
End Steps.

(** ** Properties *)
(** C37. The batch table is consistent in every reachable state, whatever the
    interleaving of the statements of creations, cancellations and the worker,
    and however often the worker stops or the process is restarted on the same
    database: ids are unique; a pending batch has neither result nor completion
    time; a running batch has no result and is the one the worker has in hand or
    one it had in hand when it stopped (it may have a completion time, from a
    cancellation that the worker overwrote); a completed batch has a result file
    and a completion time, a failed one a completion time and no result, a
    cancelled one a completion time; a batch that was in hand when the worker
    stopped is still in the table and never completed or failed; the batch
    the worker selected or has in hand is in the table and not finished; and
    every result file is in the storage.  If no worker ever stopped, at most one
    batch is running. *)
Theorem batch_table_consistent base_path s :
  rtc (bstep base_path) (mkBState [] [] Idle ∅ []) s →
  batch_ok base_path s ∧
  (∀ r r', lost s = [] → r ∈ db s → r' ∈ db s → r_status r = "running"%string → r_status r' = "running"%string → r = r').
Proof.
  intros Hr. assert (batch_ok base_path s) as Hok.
  { pose proof (batch_ok_init base_path) as Hinit. revert Hinit.
    induction Hr as [|x y z Hstep _ IH]; [done|]. intros Hx. by eapply IH, bstep_ok. }
  split; [done|]. destruct Hok as (Hnd & Hall & _). intros r r' Hl Hr1 Hr2 H1 H2.
  assert (∀ x, x ∈ db s → r_status x = "running"%string → r_id x ∈ in_hand (worker s)) as Hin.
  { intros x Hx Hst. destruct (Hall x Hx) as [(?&_)|[(_&_&Hi)|[(?&_)|[(?&_)|(?&_)]]]]; try congruence.
    by rewrite Hl, app_nil_r in Hi. }
  pose proof (Hin r Hr1 H1) as Hi1. pose proof (Hin r' Hr2 H2) as Hi2. apply (unique_row (db s)); try done.
  destruct (worker s); simpl in *; set_solver.
Qed.

Lemma batch_table_consistent_witness :
  let r st out t := mkRow "b1" st (JStr "f") 5 (JStr "/v1/completions") (JStr "5s") out t (JObj []) in
  let final := mkBState [r "completed"%string (Some "file-1"%string) (Some 7%Z)] [] Idle
    {["/d/uid_default/file-1"%string := mkFile "ok" 6]} [] in
  rtc (bstep "/d") (mkBState [] [] Idle ∅ []) final ∧ batch_ok "/d" final.
Proof.
  intros r final.
  assert (rtc (bstep "/d") (mkBState [] [] Idle ∅ []) final) as Hr.
  { apply (rtc_l _ _ (mkBState [r "pending"%string None None] [] Idle ∅ [])).
    { eapply (step_create _ (mkBState [] [] Idle ∅ []) (λ _, ""%string) "b1" 5 (JStr "f")
        (JStr "/v1/completions") (JStr "5s") JNull). reflexivity. }
    apply (rtc_l _ _ (mkBState [r "pending"%string None None] [] (Selected "b1") ∅ [])).
    { by apply (step_select _ (mkBState _ [] Idle ∅ []) "b1"). }
    apply (rtc_l _ _ (mkBState [r "running"%string None None] [] (Busy "b1") ∅ [])).
    { by apply (step_mark _ (mkBState [r "pending"%string None None] [] (Selected "b1") ∅ []) "b1"). }
    apply (rtc_l _ _ (mkBState [r "running"%string None None] [] (Ended "b1" (Ret "file-1"%string))
      {["/d/uid_default/file-1"%string := mkFile "ok" 6]} [])).
    { apply (step_save _ (mkBState [r "running"%string None None] [] (Busy "b1") ∅ []) "b1" "file-1" 6 "ok"
        (Ret "file-1"%string)); [done|]. vm_compute. reflexivity. }
    apply rtc_once.
    by apply (step_finish _ (mkBState [r "running"%string None None] [] (Ended "b1" (Ret "file-1"%string)) _ [])
      "b1" (Ret "file-1"%string) 7). }
  split; [exact Hr|]. exact (proj1 (batch_table_consistent "/d" final Hr)).
Defined.

(** A restart leaves the batch in hand running, and no worker takes it up again:
    only pending batches are selected. *)
Example restart_loses_batch :
  let r := mkRow "b1" "running" (JStr "f") 5 JNull JNull None None (JObj []) in
  bstep "/d" (mkBState [r] [] (Busy "b1") ∅ []) (mkBState [r] [] Idle ∅ ["b1"%string]) ∧
  select_pending [r] = None.
Proof. split; [|reflexivity]. by apply (step_restart "/d" (mkBState _ [] (Busy "b1") ∅ []) ∅). Qed.

Lemma retrieve_cancelled i now t :
  i ∈ r_id <$> t → retrieve_batch i (cancel_write i now t) = Raise ValueError.
Proof.
  intros Hi. unfold retrieve_batch, cancel_write.
  destruct (find_row_is_Some i (update_row i (set_cancelled now) t)) as [r Hr];
    [by rewrite update_row_ids|].
  rewrite Hr. apply find_row_Some in Hr as [Hr Hid].
  apply update_row_elem in Hr as [(r0 & _ & _ & ->)|[_ Hne]]; [done|congruence].
Qed.

Lemma retrieve_all_raises ids t i :
  i ∈ ids → retrieve_batch i t = Raise ValueError → retrieve_all ids t = Raise ValueError.
Proof.
  intros Hi Hr. induction ids as [|j ids IH]; [by apply elem_of_nil in Hi|]. simpl.
  destruct (decide (j = i)) as [->|Hne]; [by rewrite Hr|].
  apply elem_of_cons in Hi as [->|Hi]; [done|]. specialize (IH Hi). unfold mbind, outcome_bind.
  rewrite IH. destruct (retrieve_batch j t) as [|e] eqn:E; [done|]. f_equal.
  unfold retrieve_batch in E. destruct (find_row j t); [|congruence].
  unfold batch_status, or_raise, mbind, outcome_bind in E. destruct (head _); congruence.
Qed.

Lemma insert_newest_perm r t : insert_newest r t ≡ₚ r :: t.
Proof.
  induction t as [|x t IH]; simpl; [done|]. case_decide; [done|]. rewrite IH. apply Permutation_swap.
Qed.

Lemma newest_first_perm t : newest_first t ≡ₚ t.
Proof.
  unfold newest_first. induction t as [|r t IH] using rev_ind; [done|].
  rewrite foldl_app. simpl. rewrite insert_newest_perm, IH. by rewrite Permutation_app_comm.
Qed.

Lemma limit_rows_all n t : length t ≤ n → limit_rows (Z.of_nat n) t = t.
Proof.
  intros Hn. unfold limit_rows. case_decide; [lia|]. rewrite Nat2Z.id. by apply take_ge.
Qed.

(** Cancelling a batch makes it unreadable: the status written is not one
    of the statuses the code knows, so the cancel request itself ends in an
    attribute error after the table was changed, and in the changed table
    retrieving the batch raises and so does listing all batches. *)
Theorem cancelled_batch_unreadable as_number i now t b t' :
  cancel_batch i now t = (Ret b, t') → bi_status b = inr "cancelled"%string →
  route_cancel_batch i now t = (Raise AttributeError, t') ∧
  route_get_batch i t' = Raise ValueError ∧
  route_list_batches as_number (Z.of_nat (length t')) None t' = Raise ValueError.
Proof.
  intros Hc Hst. unfold route_cancel_batch. rewrite Hc. unfold batch_reply, mbind, outcome_bind.
  unfold batch_to_dict. rewrite Hst. split; [done|].
  unfold cancel_batch, retrieve_batch in Hc. destruct (find_row i t) as [r|] eqn:E; [|done].
  unfold mbind, outcome_bind in Hc. destruct (batch_status (r_status r)) as [st|]; [|done].
  case_decide; simplify_eq. apply find_row_Some in E as [Hr Hi].
  assert (i ∈ r_id <$> t) as Hin by (apply list_elem_of_fmap; by exists r).
  pose proof (retrieve_cancelled i now t Hin) as Hraise. split.
  - unfold route_get_batch, batch_reply. by rewrite Hraise.
  - unfold route_list_batches, list_batches, mbind, outcome_bind.
    rewrite (retrieve_all_raises _ _ i); [done| |done].
    rewrite limit_rows_all by (by rewrite newest_first_perm). rewrite newest_first_perm.
    unfold cancel_write. by rewrite update_row_ids.
Qed.

Lemma cancelled_batch_unreadable_witness :
  route_get_batch "b1" [mkRow "b1" "cancelled" (JStr "f") 5 JNull JNull None (Some 9%Z) (JObj [])]
    = Raise ValueError.
Proof.
  apply (cancelled_batch_unreadable (λ _, None) "b1" 9
    [mkRow "b1" "pending" (JStr "f") 5 JNull JNull None None (JObj [])]
    (mkBatchInfo "b1" (inr "cancelled"%string) (JStr "f") 5 JNull JNull None (Some 9%Z) (JObj []))
    [mkRow "b1" "cancelled" (JStr "f") 5 JNull JNull None (Some 9%Z) (JObj [])]); reflexivity.
Defined.

(** A batch cancelled while the worker is busy with it is completed all the same. *)
Example cancelled_running_completes :
  let t := [mkRow "b1" "running" (JStr "f") 5 JNull JNull None None (JObj [])] in
  (r_status <$> finish "b1" (Ret "file-1"%string) 7 (cancel_batch "b1" 6 t).2) = ["completed"%string].
Proof. reflexivity. Qed.
