(* ===== verification/SemanticCache.v ===== *)
(** * Semantic cache: [experimental/semantic_cache/], its FAISS adapter and
    [experimental/semantic_cache_integration.py]

    The sentence transformer and the vector index are not part of the
    repository: [encode model text] is an embedding, and [FlatIP] is the
    interface of [faiss.IndexFlatIP], with [FlatIPLaws] its documented
    behaviour (the entry of greatest inner product); [dot_index] satisfies the
    laws.  Similarities are exact rationals.  The files of the adapter are
    modelled with the ways in which saving them can fail.  The latency gauge
    and the log are left out. *)
From stdpp Require Import base list strings gmap.
From Stdlib Require Import Ascii QArith.
From S2P Require Import Prelude PyDict PyStr Json Config Request.

(** ** [faiss.IndexFlatIP] *)
Class FlatIP (E : Type) := {
  dim : E → nat;
  ip : E → E → Q;
  (** [search(e, 1)]: position and inner product of the best entry *)
  nearest : list E → E → option (nat * Q)
}.

Class FlatIPLaws (E : Type) `{!FlatIP E} := {
  nearest_best l e i d : nearest l e = Some (i, d) →
    ∃ v, l !! i = Some v ∧ d = ip v e ∧ ∀ w, w ∈ l → (ip w e <= d)%Q;
  nearest_total l e : l ≠ [] → is_Some (nearest l e)
}.

(** ** Stored chats and search results *)
Record entry := mkEntry {
  en_request : json;
  en_response : list json;
  en_model : json;
  en_usage : json
}.

Record hit := mkHit { h_response : list json; h_score : Q; h_usage : json }.

(** What saving does to the two files, written one after the other: all well,
    nothing opened, the index unreadable, the metadata unreadable, or the index
    new and the metadata still the old. *)
Inductive write_outcome : Type :=
| Written | Unopened | IndexBroken | MetadataBroken | MetadataOld.

Section Cache.
Context {E : Type} `{!FlatIP E}.

Record index := mkIndex { ix_dim : nat; ix_vecs : list E }.

(** A file: absent, unreadable, or with its contents. *)
Record disk := mkDisk {
  index_file : option (option index);
  metadata_file : option (option (list entry))
}.

(** ** [FAISSAdapter] *)
Record FAISSAdapter := mkAdapter {
  a_dim : nat;
  a_index : index;
  a_metadata : list entry;
  a_disk : disk
}.

Definition save_index (w : write_outcome) (a : FAISSAdapter) : FAISSAdapter :=
  let d := a_disk a in
  mkAdapter (a_dim a) (a_index a) (a_metadata a)
    match w with
    | Written => mkDisk (Some (Some (a_index a))) (Some (Some (a_metadata a)))
    | Unopened => d
    | IndexBroken => mkDisk (Some None) (metadata_file d)
    | MetadataBroken => mkDisk (Some (Some (a_index a))) (Some None)
    | MetadataOld => mkDisk (Some (Some (a_index a))) (metadata_file d)
    end.

Definition empty_adapter (n : nat) (d : disk) : FAISSAdapter := mkAdapter n (mkIndex n []) [] d.

(** Files that cannot be read are replaced by an empty index. *)
Definition load_index (n : nat) (w : write_outcome) (d : disk) : FAISSAdapter :=
  match index_file d, metadata_file d with
  | Some (Some ix), Some (Some md) => mkAdapter n ix md d
  | _, _ => save_index w (empty_adapter n d)
  end.

Definition adapter_init (n : nat) (w w' : write_outcome) (d : disk) : FAISSAdapter :=
  save_index w'
    match index_file d, metadata_file d with
    | Some _, Some _ => load_index n w d
    | _, _ => empty_adapter n d
    end.

(** [d >= threshold]: a number compares; [ge_list] is numpy's comparison of a
    number with a list. *)
Definition ge_threshold (ge_list : Q → list json → outcome bool) (d : Q) (thr : json) : outcome bool :=
  match thr with
  | JArr l => ge_list d l
  | _ => match jnum thr with Some q => Ret (Qle_bool q d) | None => Raise TypeError end
  end.

Definition adapter_search (ge_list : Q → list json → outcome bool) (e : E) (model thr : json)
    (a : FAISSAdapter) : outcome (option hit) :=
  if Nat.eqb (length (ix_vecs (a_index a))) 0 then Ret None else
  if negb (Nat.eqb (dim e) (ix_dim (a_index a))) then Raise AssertionError else
  match nearest (ix_vecs (a_index a)) e with
  | None => Ret None
  | Some (i, d) =>
      ok ← ge_threshold ge_list d thr;
      if negb ok then Ret None else
      md ← or_raise IndexError (a_metadata a !! i);
      Ret (if json_eqb (en_model md) model then Some (mkHit (en_response md) d (en_usage md)) else None)
  end.

Definition adapter_store (w : write_outcome) (e : E) (req : json) (resp : list json)
    (model usage : json) : M FAISSAdapter unit := λ a,
  if negb (Nat.eqb (dim e) (ix_dim (a_index a))) then (Raise AssertionError, a) else
  (Ret tt,
   save_index w (mkAdapter (a_dim a)
     (mkIndex (ix_dim (a_index a)) (ix_vecs (a_index a) ++ [e]))
     (a_metadata a ++ [mkEntry req resp model usage]) (a_disk a))).

(** ** [SemanticCache] *)
Record pending_search := mkPendingSearch { ps_embedding : E; ps_model : json; ps_threshold : json }.
Record pending_store := mkPendingStore { pt_embedding : E; pt_request : json; pt_model : json }.

(** [size] is the gauge [semantic_cache_size]. *)
Record SemanticCache := mkCache {
  embedding_model : string;
  cdb : FAISSAdapter;
  default_similarity_threshold : json;
  pending_searches : gmap string pending_search;
  pending_stores : gmap string pending_store;
  size : nat
}.

Definition set_cdb (a : FAISSAdapter) (n : nat) (c : SemanticCache) : SemanticCache :=
  mkCache (embedding_model c) a (default_similarity_threshold c) (pending_searches c)
    (pending_stores c) n.

Context (encode : string → string → E) (py_str : json → string).
Context (ge_list : Q → list json → outcome bool).

Definition fmt (v : json) : string := match v with JStr s => s | _ => py_str v end.

(** ["{role}: {content}"] of one message *)
Definition message_text (msg : json) : outcome string :=
  r ← jget "role" (JStr "user") msg;
  c ← jget "content" (JStr "") msg;
  Ret (fmt r +:+ ": " +:+ fmt c).

Fixpoint message_texts (msgs : list json) : outcome (list string) :=
  match msgs with
  | [] => Ret []
  | m :: msgs => t ← message_text m; ts ← message_texts msgs; Ret (t :: ts)
  end.

Definition embed (model : string) (messages : json) : outcome E :=
  msgs ← jiter messages;
  ts ← message_texts msgs;
  Ret (encode model (join " " ts)).

Definition get_embedding (c : SemanticCache) (messages : json) : outcome E :=
  embed (embedding_model c) messages.

Definition or_default (c : SemanticCache) (thr : json) : json :=
  if is_none thr then default_similarity_threshold c else thr.

Definition search (messages model thr : json) (c : SemanticCache) : outcome (option hit) :=
  e ← get_embedding c messages;
  adapter_search ge_list e model (or_default c thr) (cdb c).

(** Every exception becomes [False]. *)
Definition store (w : write_outcome) (req : json) (resp : list json) (model usage : json)
    : M SemanticCache bool := λ c,
  match get_embedding c req with
  | Raise _ => (Ret false, c)
  | Ret e =>
      match adapter_store w e req resp model usage (cdb c) with
      | (Ret _, a) => (Ret true, set_cdb a (length (ix_vecs (a_index a))) c)
      | (Raise _, a) => (Ret false, set_cdb a (size c) c)
      end
  end.

Definition initiate_search (fresh : string) (messages model thr : json) : M SemanticCache string := λ c,
  match get_embedding c messages with
  | Raise e => (Raise e, c)
  | Ret e =>
      (Ret fresh, mkCache (embedding_model c) (cdb c) (default_similarity_threshold c)
         (<[fresh := mkPendingSearch e model (or_default c thr)]> (pending_searches c))
         (pending_stores c) (size c))
  end.

Definition complete_search (id : string) : M SemanticCache (option hit) := λ c,
  match pending_searches c !! id with
  | None => (Ret None, c)
  | Some p =>
      let c := mkCache (embedding_model c) (cdb c) (default_similarity_threshold c)
                 (delete id (pending_searches c)) (pending_stores c) (size c) in
      (adapter_search ge_list (ps_embedding p) (ps_model p) (ps_threshold p) (cdb c), c)
  end.

Definition initiate_store (fresh : string) (req model : json) : M SemanticCache string := λ c,
  match get_embedding c req with
  | Raise e => (Raise e, c)
  | Ret e =>
      (Ret fresh, mkCache (embedding_model c) (cdb c) (default_similarity_threshold c)
         (pending_searches c) (<[fresh := mkPendingStore e req model]> (pending_stores c)) (size c))
  end.

Definition complete_store (w : write_outcome) (id : string) (resp : list json) (usage : json)
    : M SemanticCache bool := λ c,
  match pending_stores c !! id with
  | None => (Ret false, c)
  | Some p =>
      let c := mkCache (embedding_model c) (cdb c) (default_similarity_threshold c)
                 (pending_searches c) (delete id (pending_stores c)) (size c) in
      match adapter_store w (pt_embedding p) (pt_request p) resp (pt_model p) usage (cdb c) with
      | (Ret _, a) => (Ret true, set_cdb a (length (ix_vecs (a_index a))) c)
      | (Raise _, a) => (Ret false, set_cdb a (size c) c)
      end
  end.

(** ** The module state *)
Record CacheState := mkState {
  feature_gates : gset string;
  enabled_flag : bool;                      (* _semantic_cache_enabled *)
  instance : option SemanticCache;          (* _semantic_cache_instance *)
  hits : Z;
  misses : Z;
  hit_ratio : option Q
}.

Definition is_semantic_cache_enabled (s : CacheState) : bool :=
  enabled_flag s || is_enabled "SemanticCache" (feature_gates s).

Definition enable_semantic_cache (s : CacheState) : CacheState :=
  mkState (feature_gates s) true (instance s) (hits s) (misses s) (hit_ratio s).

Definition set_instance (c : SemanticCache) (s : CacheState) : CacheState :=
  mkState (feature_gates s) (enabled_flag s) (Some c) (hits s) (misses s) (hit_ratio s).

(** [dim_of] is the dimension of a sentence transformer, or the exception of
    loading it. *)
Definition initialize_semantic_cache (dim_of : string → outcome nat) (w w' : write_outcome)
    (d : disk) (model : string) (thr : json) : M CacheState SemanticCache := λ s,
  match instance s with
  | Some c => (Ret c, s)
  | None =>
      match dim_of model with
      | Raise e => (Raise e, s)
      | Ret n =>
          let c := mkCache model (adapter_init n w w' d) thr ∅ ∅ 0 in
          (Ret c, set_instance c s)
      end
  end.

(** The part of [app.initialize_all] that starts the cache. *)
Definition start_cache (available : bool) (dim_of : string → outcome nat) (w w' : write_outcome)
    (d : disk) (model : string) (thr : json) : M CacheState unit := λ s,
  if available && is_enabled "SemanticCache" (feature_gates s) then
    let s := enable_semantic_cache s in
    if str_empty model then (Ret tt, s) else
    match initialize_semantic_cache dim_of w w' d model thr s with
    | (Raise e, s) => (Raise e, s)
    | (Ret c, s) => (Ret tt, set_instance (set_cdb (cdb c) (length (ix_vecs (a_index (cdb c)))) c) s)
    end
  else (Ret tt, s).

(** ** [store_in_semantic_cache] *)
(** [content[:50]]: strings and lists have slices. *)
Definition sliceable (v : json) : outcome unit :=
  match v with JStr _ | JArr _ => Ret tt | _ => Raise TypeError end.

(** [v[0]] *)
Definition first_item (v : json) : outcome json :=
  match v with
  | JArr (x :: _) => Ret x
  | JStr (String a _) => Ret (JStr (String a EmptyString))
  | JArr [] | JStr EmptyString => Raise IndexError
  | JObj _ => Raise (KeyError "0")
  | _ => Raise TypeError
  end.

(** Logging the first message. *)
Definition log_first (messages : json) : outcome unit :=
  if negb (truthy messages) then Ret tt else
  n ← jlen messages;
  if Nat.eqb n 0 then Ret tt else
  m ← first_item messages;
  c ← jget "content" (JStr "") m;
  sliceable c.

Fixpoint choice_messages (choices : list json) : outcome (list json) :=
  match choices with
  | [] => Ret []
  | c :: choices =>
      has ← jin "message" c;
      m ← (if has : bool then m ← jitem "message" c; Ret [m] else Ret []);
      ms ← choice_messages choices;
      Ret (m ++ ms)
  end.

Definition response_messages (body : json) : outcome (list json) :=
  has ← jin "choices" body;
  if negb has then Ret [] else
  cs ← jitem "choices" body;
  l ← jiter cs;
  choice_messages l.

Definition no_usage : json :=
  JObj [("prompt_tokens", JInt 0); ("completion_tokens", JInt 0); ("total_tokens", JInt 0)]%string.

Context (loads : string → outcome json).

(** What is to be stored: request messages, response messages, model, usage. *)
Definition prepare_store (body chunk : string) : outcome (option (json * list json * json * json)) :=
  rb ← loads body;
  skip ← jget "skip_cache" (JBool false) rb;
  if truthy skip then Ret None else
  str ← jget "stream" (JBool false) rb;
  if truthy str then Ret None else
  match loads chunk with
  | Raise JSONDecodeError => Ret None
  | Raise e => Raise e
  | Ret resp =>
      model ← jget "model" (JStr "") rb;
      msgs ← jget "messages" (JArr []) rb;
      _ ← log_first msgs;
      ms ← response_messages resp;
      usage ← jget "usage" no_usage resp;
      _ ← log_first (JArr ms);
      Ret (Some (msgs, ms, model, usage))
  end.

Definition store_in_semantic_cache (w : write_outcome) (endpoint method body chunk : string)
    : M CacheState unit := λ s,
  if negb (is_semantic_cache_enabled s) then (Ret tt, s) else
  match instance s with
  | None => (Ret tt, s)
  | Some c =>
      if decide (endpoint = "/v1/chat/completions"%string ∧ method = "POST"%string) then
        match prepare_store body chunk with
        | Ret (Some (msgs, ms, model, usage)) =>
            (Ret tt, set_instance (store w msgs ms model usage c).2 s)
        | _ => (Ret tt, s)
        end
      else (Ret tt, s)
  end.

(** ** [check_semantic_cache] *)
Definition count_lookup (h m : Z) (s : CacheState) : CacheState :=
  let h := (hits s + h)%Z in
  let m := (misses s + m)%Z in
  mkState (feature_gates s) (enabled_flag s) (instance s) h m
    (if (0 <? h + m)%Z then Some (inject_Z h / inject_Z (h + m))%Q else hit_ratio s).

Definition cached_reply (uuid : string) (now : Z) (model : json) (h : hit) : json :=
  JObj [("id", JStr ("chatcmpl-" +:+ uuid)); ("object", JStr "chat.completion");
        ("created", JInt now); ("model", model);
        ("choices", JArr (imap (λ i m, JObj [("index", JInt (Z.of_nat i)); ("message", m);
                                            ("finish_reason", JStr "stop")]%string) (h_response h)));
        ("usage", h_usage h); ("cached", JBool true); ("similarity_score", JFloat (h_score h))]%string.

Definition check_semantic_cache (uuid : string) (now : Z) (body : string)
    : M CacheState (option reply) := λ s,
  if negb (is_semantic_cache_enabled s) then (Ret None, s) else
  match loads body with
  | Raise e => (Raise e, s)
  | Ret b =>
      match instance s with
      | None => (Ret None, s)
      | Some c =>
          match (model ← jget "model" (JStr "") b;
                 messages ← jget "messages" (JArr []) b;
                 thr ← jget "cache_similarity_threshold" JNull b;
                 skip ← jget "skip_cache" (JBool false) b;
                 if truthy skip || negb (truthy messages) then Ret None else
                 _ ← log_first messages;
                 r ← search messages model thr c;
                 Ret (Some (model, r))) with
          | Raise e => (Raise e, s)
          | Ret None => (Ret None, s)
          | Ret (Some (_, None)) => (Ret None, count_lookup 0 1 s)
          | Ret (Some (model, Some h)) =>
              let s := count_lookup 1 0 s in
              match log_first (JArr (h_response h)) with
              | Raise e => (Raise e, s)
              | Ret _ => (Ret (Some (JsonReply 200 (cached_reply uuid now model h) [])), s)
              end
          end
      end
  end.

(** ** The life of the cache *)
(** Requests, the two-phase operations and restarts with the same embedding
    model, where no save stops between its two files. *)
Inductive cstep (m : string) : CacheState → CacheState → Prop :=
| cs_store s w endpoint method body chunk s' :
    w ≠ MetadataOld → store_in_semantic_cache w endpoint method body chunk s = (Ret tt, s') →
    cstep m s s'
| cs_check s uuid now body o s' :
    check_semantic_cache uuid now body s = (o, s') → cstep m s s'
| cs_initiate_search s c fresh messages model thr o c' :
    instance s = Some c → initiate_search fresh messages model thr c = (o, c') →
    cstep m s (set_instance c' s)
| cs_complete_search s c id o c' :
    instance s = Some c → complete_search id c = (o, c') → cstep m s (set_instance c' s)
| cs_initiate_store s c fresh req model o c' :
    instance s = Some c → initiate_store fresh req model c = (o, c') → cstep m s (set_instance c' s)
| cs_complete_store s c w id resp usage o c' :
    instance s = Some c → w ≠ MetadataOld → complete_store w id resp usage c = (o, c') →
    cstep m s (set_instance c' s)
| cs_restart s c gates available n w w' thr o s' :
    instance s = Some c → w ≠ MetadataOld → w' ≠ MetadataOld →
    start_cache available (λ _, Ret n) w w' (a_disk (cdb c)) m thr
      (mkState gates false None 0 0 None) = (o, s') →
    cstep m s s'.

(** A first start without files. *)
Definition first_start (m : string) (s : CacheState) : Prop :=
  ∃ available gates n w w' thr o, w ≠ MetadataOld ∧ w' ≠ MetadataOld ∧
    start_cache available (λ _, Ret n) w w' (mkDisk None None) m thr
      (mkState gates false None 0 0 None) = (o, s).

Definition reachable (m : string) (s : CacheState) : Prop :=
  ∃ s0, first_start m s0 ∧ rtc (cstep m) s0 s.

(** ** Invariant *)
(** A vector of the index and the entry at the same position. *)
Definition vec_ok (m : string) (v : E) (md : entry) : Prop := embed m (en_request md) = Ret v.

Definition adapter_ok (m : string) (a : FAISSAdapter) : Prop :=
  Forall2 (vec_ok m) (ix_vecs (a_index a)) (a_metadata a).

Definition disk_ok (m : string) (d : disk) : Prop :=
  ∀ ix md, index_file d = Some (Some ix) → metadata_file d = Some (Some md) →
    Forall2 (vec_ok m) (ix_vecs ix) md.

Definition cache_ok (m : string) (c : SemanticCache) : Prop :=
  embedding_model c = m ∧ adapter_ok m (cdb c) ∧ disk_ok m (a_disk (cdb c)) ∧
  ∀ id p, pending_stores c !! id = Some p → embed m (pt_request p) = Ret (pt_embedding p).

Definition state_ok (m : string) (s : CacheState) : Prop := ∀ c, instance s = Some c → cache_ok m c.

Lemma save_index_ok m w a :
  w ≠ MetadataOld → adapter_ok m a → disk_ok m (a_disk a) →
  adapter_ok m (save_index w a) ∧ disk_ok m (a_disk (save_index w a)).
Proof.
  intros Hw Ha Hd. split; [done|]. destruct w; simpl; try done.
  all: intros ix md; simpl; intros H1 H2; simplify_eq. done.
Qed.

Lemma empty_adapter_ok m n d : adapter_ok m (empty_adapter n d).
Proof. constructor. Qed.

Lemma adapter_init_ok m n w w' d :
  w ≠ MetadataOld → w' ≠ MetadataOld → disk_ok m d →
  adapter_ok m (adapter_init n w w' d) ∧ disk_ok m (a_disk (adapter_init n w w' d)).
Proof.
  intros Hw Hw' Hd. unfold adapter_init, load_index.
  assert (adapter_ok m (save_index w (empty_adapter n d)) ∧
          disk_ok m (a_disk (save_index w (empty_adapter n d)))) as [H1 H2]
    by (apply save_index_ok; auto using empty_adapter_ok).
  destruct (index_file d) as [[ix|]|] eqn:Ei, (metadata_file d) as [[md|]|] eqn:Em;
    apply save_index_ok; auto using empty_adapter_ok.
  by apply Hd.
Qed.

Lemma adapter_store_ok m w e req resp model usage a o a' :
  w ≠ MetadataOld → embed m req = Ret e →
  adapter_store w e req resp model usage a = (o, a') →
  adapter_ok m a → disk_ok m (a_disk a) → adapter_ok m a' ∧ disk_ok m (a_disk a').
Proof.
  intros Hw He. unfold adapter_store. destruct (negb _); intros H Ha Hd; simplify_eq; [done|].
  apply save_index_ok; [done| |done]. unfold adapter_ok. simpl. apply Forall2_app; [done|].
  by repeat constructor.
Qed.

Lemma store_ok m w req resp model usage c o c' :
  w ≠ MetadataOld → store w req resp model usage c = (o, c') → cache_ok m c → cache_ok m c'.
Proof.
  intros Hw. unfold store, get_embedding. intros Hs (Hm & Ha & Hd & Hp). subst m.
  destruct (embed _ req) as [e|] eqn:He; [|by simplify_eq].
  destruct (adapter_store _ _ _ _ _ _ _) as [oa a] eqn:Hst.
  destruct (adapter_store_ok _ _ _ _ _ _ _ _ _ _ Hw He Hst Ha Hd) as [? ?].
  destruct oa; simplify_eq; by split_and!.
Qed.

Lemma initiate_search_ok m fresh messages model thr c o c' :
  initiate_search fresh messages model thr c = (o, c') → cache_ok m c → cache_ok m c'.
Proof. unfold initiate_search. destruct (get_embedding _ _); intros; by simplify_eq. Qed.

Lemma complete_search_ok m id c o c' :
  complete_search id c = (o, c') → cache_ok m c → cache_ok m c'.
Proof. unfold complete_search. destruct (_ !! id); intros; by simplify_eq. Qed.

Lemma initiate_store_ok m fresh req model c o c' :
  initiate_store fresh req model c = (o, c') → cache_ok m c → cache_ok m c'.
Proof.
  unfold initiate_store, get_embedding. intros Hs (Hm & Ha & Hd & Hp).
  destruct (embed _ req) as [e|] eqn:He; simplify_eq; [|done].
  unfold cache_ok. simpl. split_and!; try done. intros id p.
  destruct (decide (id = fresh)) as [->|Hne]; [|rewrite lookup_insert_ne by done; apply Hp].
  rewrite lookup_insert_eq. by intros [= <-].
Qed.

Lemma complete_store_ok m w id resp usage c o c' :
  w ≠ MetadataOld → complete_store w id resp usage c = (o, c') → cache_ok m c → cache_ok m c'.
Proof.
  intros Hw. unfold complete_store. intros Hs (Hm & Ha & Hd & Hp).
  destruct (pending_stores c !! id) as [p|] eqn:Ep; [|by simplify_eq]. simpl in Hs.
  destruct (adapter_store _ _ _ _ _ _ _) as [oa a] eqn:Hst.
  destruct (adapter_store_ok m _ _ _ _ _ _ _ _ _ Hw (Hp _ _ Ep) Hst Ha Hd) as [? ?].
  assert (∀ id' p', delete id (pending_stores c) !! id' = Some p' →
            embed m (pt_request p') = Ret (pt_embedding p')) as Hp'.
  { intros id' p' [_ ?]%lookup_delete_Some. by eapply Hp. }
  destruct oa; simplify_eq; by split_and!.
Qed.

Lemma start_cache_ok m available n w w' d thr gates o s :
  w ≠ MetadataOld → w' ≠ MetadataOld → disk_ok m d →
  start_cache available (λ _, Ret n) w w' d m thr (mkState gates false None 0 0 None) = (o, s) →
  state_ok m s.
Proof.
  intros Hw Hw' Hd. unfold start_cache. destruct (_ && _); simpl; [|intros ?; by simplify_eq].
  destruct (str_empty m); intros ? c Hc; simplify_eq/=.
  destruct (adapter_init_ok m n w w' d) as [? ?]; [done..|]. by split_and!.
Qed.

Lemma cstep_ok m s s' : cstep m s s' → state_ok m s → state_ok m s'.
Proof.
  intros Hst Hok. destruct Hst as [s w ep me body chunk s' Hw Hs|s uuid now body o s' Hs|
    s c fresh ms mo thr o c' Hi Hs|s c id o c' Hi Hs|s c fresh req mo o c' Hi Hs|
    s c w id resp us o c' Hi Hw Hs|s c gates av n w w' thr o s' Hi Hw Hw' Hs].
  - unfold store_in_semantic_cache in Hs. destruct (negb _); [by simplify_eq|].
    destruct (instance s) as [c|] eqn:Ei; [|by simplify_eq]. case_decide; [|by simplify_eq].
    destruct (prepare_store body chunk) as [[[[[msgs ms] mo] us]|]|]; simplify_eq; try done.
    intros c' [= <-]. destruct (store w msgs ms mo us c) as [o c'] eqn:Es. simpl.
    by eapply store_ok, Hok.
  - assert (instance s' = instance s) as Hinst.
    { unfold check_semantic_cache, count_lookup in Hs. repeat (case_match; simplify_eq/=; try done). }
    intros c. rewrite Hinst. apply Hok.
  - intros ? [= <-]. by eapply initiate_search_ok, Hok.
  - intros ? [= <-]. by eapply complete_search_ok, Hok.
  - intros ? [= <-]. by eapply initiate_store_ok, Hok.
  - intros ? [= <-]. by eapply complete_store_ok, Hok.
  - eapply start_cache_ok; [| | |done]; [done..|]. by apply (Hok c).
Qed.

Lemma reachable_ok m s : reachable m s → state_ok m s.
Proof.
  intros (s0 & (av & gates & n & w & w' & thr & o & Hw & Hw' & H0) & Hr).
  assert (state_ok m s0) as Hok by (apply (start_cache_ok m av n w w' (mkDisk None None) thr gates o); try done; by intros ? ? ?).
  clear H0. induction Hr as [|x y z Hxy _ IH]; [done|]. apply IH. by eapply cstep_ok.
Qed.

(** ** Searching and storing *)
Context `{!FlatIPLaws E}.

Lemma nearest_app l e :
  (∀ v, v ∈ l → (ip v e < ip e e)%Q) → nearest (l ++ [e]) e = Some (length l, ip e e).
Proof.
  intros Hl. destruct (nearest_total (l ++ [e]) e) as [[i d] Hn]; [by destruct l|].
  rewrite Hn. apply nearest_best in Hn as (v & Hv & -> & Hmax).
  assert (ip e e <= ip v e)%Q as Hge by (apply Hmax; set_solver).
  apply lookup_app_Some in Hv as [Hv|[Hlen Hv]].
  - apply list_elem_of_lookup_2 in Hv. exfalso. by apply (Qlt_not_le _ _ (Hl v Hv)).
  - apply list_lookup_singleton_Some in Hv as [Hi ->]. repeat f_equal. lia.
Qed.

(** What a search that finds something has found. *)
Lemma search_hit m messages model thr c h :
  cache_ok m c → search messages model thr c = Ret (Some h) →
  ∃ e i md v, embed m messages = Ret e ∧ a_metadata (cdb c) !! i = Some md ∧
    ix_vecs (a_index (cdb c)) !! i = Some v ∧ embed m (en_request md) = Ret v ∧
    (∀ u, u ∈ ix_vecs (a_index (cdb c)) → (ip u e <= ip v e)%Q) ∧
    ge_threshold ge_list (ip v e) (or_default c thr) = Ret true ∧
    json_eqb (en_model md) model = true ∧ h = mkHit (en_response md) (ip v e) (en_usage md).
Proof.
  intros (Hm & Ha & _) Hs. unfold search, get_embedding in Hs. rewrite Hm in Hs.
  unfold mbind, outcome_bind in Hs. destruct (embed m messages) as [e|] eqn:He; [|done].
  unfold adapter_search, mbind, outcome_bind in Hs.
  destruct (Nat.eqb _ 0); [done|]. destruct (negb _); [done|].
  destruct (nearest _ e) as [[i d]|] eqn:Hn; [|done].
  apply nearest_best in Hn as (v & Hv & -> & Hmax).
  destruct (ge_threshold _ _ _) as [[]|] eqn:Hge; simpl in Hs; try done.
  destruct (a_metadata (cdb c) !! i) as [md|] eqn:Hmd; simpl in Hs; [|done].
  destruct (json_eqb _ _) eqn:Hj; simplify_eq. exists e, i, md, v. split_and!; try done.
  exact (Forall2_lookup_lr _ _ _ _ _ _ Ha Hv Hmd).
Qed.
End Cache.

(** ** An index *)
(** Vectors of integers with their dot product, searched from the end. *)
Definition inner (a b : list Z) : Q := inject_Z (foldr Z.add 0%Z (zip_with Z.mul a b)).

Fixpoint best (l : list (list Z)) (e : list Z) : option (nat * Q) :=
  match l with
  | [] => None
  | v :: l => match best l e with
              | None => Some (0%nat, inner v e)
              | Some (i, d) => if Qle_bool d (inner v e) then Some (0%nat, inner v e) else Some (S i, d)
              end
  end.

#[global] Instance dot_index : FlatIP (list Z) := {| dim := length; ip := inner; nearest := best |}.

#[global] Instance dot_index_laws : FlatIPLaws (list Z).
Proof.
  split; simpl.
  - intros l e. induction l as [|v l IH]; intros i d; simpl; [done|].
    destruct (best l e) as [[j d']|] eqn:E.
    + destruct (IH _ _ eq_refl) as (u & Hu & -> & Hmax). destruct (Qle_bool _ _) eqn:Hle.
      * intros [= <- <-]. apply Qle_bool_iff in Hle. exists v. split_and!; [done..|].
        intros w [->|Hw]%elem_of_cons; [apply Qle_refl|]. by eapply Qle_trans; [apply Hmax|].
      * intros [= <- <-]. exists u. split_and!; [done..|].
        intros w [->|Hw]%elem_of_cons; [|by apply Hmax]. apply Qlt_le_weak, Qnot_le_lt.
        intros H%Qle_bool_iff. congruence.
    + intros [= <- <-]. exists v. destruct l as [|x l].
      * split_and!; [done..|]. intros w ->%list_elem_of_singleton. apply Qle_refl.
      * simpl in E. destruct (best l e) as [[??]|]; [destruct (Qle_bool _ _)|]; done.
  - intros [|v l] e Hne; [done|]. simpl. destruct (best l e) as [[??]|]; [destruct (Qle_bool _ _)|];
      by eexists.
Qed.

(** ** Properties *)
(** C34. A reply from the cache is the stored answer to the most similar stored
    request: in every state reached from a first start by requests, two-phase
    operations and restarts with the same embedding model (no save stopping
    between its two files), a reply means that the cache was enabled, the
    request did not ask to skip it, and there is a stored entry of the requested
    model whose request messages embed to a vector of greatest inner product
    with the embedding of the messages, at least the threshold; the choices and
    the usage of the reply are those of the entry. *)
Theorem cache_hit_sound {E} `{!FlatIP E, !FlatIPLaws E} (encode : string → string → E) py_str ge_list loads
    m (s s' : CacheState (E := E)) uuid now body r :
  reachable encode py_str ge_list loads m s →
  check_semantic_cache encode py_str ge_list loads uuid now body s = (Ret (Some r), s') →
  is_semantic_cache_enabled s = true ∧
  ∃ c b e i md v, instance s = Some c ∧ loads body = Ret (JObj b) ∧
    truthy (dict_get "skip_cache" (JBool false) b) = false ∧
    embed encode py_str m (dict_get "messages" (JArr []) b) = Ret e ∧
    a_metadata (cdb c) !! i = Some md ∧ embed encode py_str m (en_request md) = Ret v ∧
    (∀ u, u ∈ ix_vecs (a_index (cdb c)) → (ip u e <= ip v e)%Q) ∧
    ge_threshold ge_list (ip v e)
      (or_default c (dict_get "cache_similarity_threshold" JNull b)) = Ret true ∧
    json_eqb (en_model md) (dict_get "model" (JStr "") b) = true ∧
    r = JsonReply 200 (cached_reply uuid now (dict_get "model" (JStr "") b)
          (mkHit (en_response md) (ip v e) (en_usage md))) [].
Proof.
  intros Hreach Hc. pose proof (reachable_ok _ _ _ _ _ _ Hreach) as Hok.
  unfold check_semantic_cache in Hc. destruct (is_semantic_cache_enabled s); [|done]. split; [done|].
  simpl in Hc. destruct (loads body) as [[| | | | | |b]|] eqn:Eb; try done;
    (destruct (instance s) as [c|] eqn:Ei; [|done]); try done.
  cbn [mbind outcome_bind jget] in Hc.
  destruct (truthy (dict_get "skip_cache" _ b)) eqn:Esk; [done|]. cbn [orb] in Hc.
  destruct (negb _); [done|]. destruct (log_first _) as [|]; [|done].
  destruct (search _ _ _ _ _ _ _) as [[h|]|] eqn:Es; [|done|done].
  cbn [mbind outcome_bind] in Hc. destruct (log_first (JArr _)) as [|]; [|done]. simplify_eq.
  destruct (search_hit _ _ _ _ _ _ _ _ _ (Hok c Ei) Es)
    as (e & i & md & v & He & Hmd & Hv & Hreq & Hmax & Hge & Hj & ->).
  exists c, b, e, i, md, v. by split_and!.
Qed.

(** ** A cache to try the theorems on *)
(** One embedding for texts that mention ["hi"], one for the others. *)
Definition ex_encode (_ t : string) : list Z :=
  match String.index 0 "hi" t with Some _ => [1; 0] | None => [0; 1] end%Z.
Definition ex_str (_ : json) : string := EmptyString.
Definition ex_ge (_ : Q) (_ : list json) : outcome bool := Raise TypeError.
Definition ex_messages : json := JArr [JObj [("role", JStr "user"); ("content", JStr "hi")]%string].
Definition ex_body : list (string * json) := [("model", JStr "m1"); ("messages", ex_messages)]%string.
Definition ex_answer : json := JObj [("content", JStr "hello")]%string.
Definition ex_loads (t : string) : outcome json :=
  if String.eqb t "req" then Ret (JObj ex_body)
  else Ret (JObj [("choices", JArr [JObj [("message", ex_answer)]])]%string).
Definition ex_started : CacheState (E := list Z) :=
  (start_cache true (λ _, Ret 2%nat) Written Written (mkDisk None None) "m" (JFloat (95 # 100))
     (mkState {["SemanticCache"%string]} false None 0 0 None)).2.
Definition ex_stored : CacheState (E := list Z) :=
  (store_in_semantic_cache ex_encode ex_str ex_loads Written "/v1/chat/completions" "POST" "req" "resp"
     ex_started).2.
Definition ex_reply : reply :=
  JsonReply 200 (cached_reply "u" 7 (JStr "m1") (mkHit [ex_answer] 1 no_usage)) [].

Lemma cache_hit_sound_witness :
  is_semantic_cache_enabled ex_stored = true ∧
  (check_semantic_cache ex_encode ex_str ex_ge ex_loads "u" 7 "req" ex_stored).1 = Ret (Some ex_reply).
Proof.
  split; [|vm_compute; reflexivity].
  apply (cache_hit_sound ex_encode ex_str ex_ge ex_loads "m" ex_stored
    (count_lookup 1 0 ex_stored) "u" 7 "req" ex_reply).
  - exists ex_started. split.
    + exists true, {["SemanticCache"%string]}, 2%nat, Written, Written, (JFloat (95 # 100)), (Ret tt).
      by split_and!.
    + apply rtc_once.
      apply (cs_store _ _ _ _ _ _ Written "/v1/chat/completions" "POST" "req" "resp"); [done|].
      vm_compute. reflexivity.
  - vm_compute. reflexivity.
Defined.

Lemma prepare_store_inv loads body chunk b msgs ms model usage :
  loads body = Ret (JObj b) →
  prepare_store loads body chunk = Ret (Some (msgs, ms, model, usage)) →
  msgs = dict_get "messages" (JArr []) b ∧ log_first msgs = Ret tt ∧ log_first (JArr ms) = Ret tt ∧
  truthy (dict_get "skip_cache" (JBool false) b) = false.
Proof.
  intros Hb. unfold prepare_store. rewrite Hb. cbn [mbind outcome_bind jget].
  destruct (truthy (dict_get "skip_cache" _ b)); [done|]. destruct (truthy _); [done|].
  destruct (loads chunk) as [resp|[]]; try done.
  destruct (log_first (dict_get "messages" _ b)) as [[]|] eqn:El; [|done]. cbn [mbind outcome_bind].
  destruct (response_messages resp) as [l|]; [|done]. cbn [mbind outcome_bind].
  destruct (jget "usage" _ resp) as [us|]; [|done]. cbn [mbind outcome_bind].
  destruct (log_first (JArr l)) as [[]|] eqn:El'; [|done]. cbn [mbind outcome_bind].
  intros [= <- <- <- <-]. by split_and!.
Qed.

(** Searching for what was stored last. *)
Lemma search_last {E} `{!FlatIP E, !FlatIPLaws E} (encode : string → string → E) py_str ge_list
    c msgs ms name usage e t w :
  adapter_ok encode py_str (embedding_model c) (cdb c) →
  embed encode py_str (embedding_model c) msgs = Ret e → dim e = ix_dim (a_index (cdb c)) →
  (∀ v, v ∈ ix_vecs (a_index (cdb c)) → (ip v e < ip e e)%Q) →
  default_similarity_threshold c = JFloat t → (t <= ip e e)%Q →
  search encode py_str ge_list msgs (JStr name) JNull
    (store encode py_str w msgs ms (JStr name) usage c).2 = Ret (Some (mkHit ms (ip e e) usage)).
Proof.
  intros Ha He Hdim Hless Ht Hle. unfold store, get_embedding. rewrite He.
  unfold adapter_store. rewrite Hdim, Nat.eqb_refl. simpl.
  unfold search, get_embedding. simpl. rewrite He. cbn [mbind outcome_bind].
  unfold adapter_search, or_default. simpl. rewrite length_app, Nat.add_comm. simpl.
  rewrite Hdim, Nat.eqb_refl. simpl. rewrite nearest_app by done. rewrite Ht. simpl.
  apply Qle_bool_iff in Hle. rewrite Hle. simpl.
  pose proof (Forall2_length _ _ _ Ha) as Hlen. rewrite Hlen, lookup_app_r, Nat.sub_diag by lia. simpl.
  by rewrite String.eqb_refl.
Qed.

(** What is stored is found again: when a chat completion has been answered
    and stored, the same request is answered from the cache with the same
    messages and usage, provided that every older entry is less similar to the
    request than the request is to itself and this similarity reaches the
    cache's threshold. *)
Lemma stored_chat_lookup {E} `{!FlatIP E, !FlatIPLaws E} (encode : string → string → E) py_str ge_list
    loads m (s : CacheState (E := E)) c w uuid now body chunk b name msgs ms usage e t :
  reachable encode py_str ge_list loads m s → instance s = Some c →
  is_semantic_cache_enabled s = true →
  loads body = Ret (JObj b) → dget "model"%string b = Some (JStr name) →
  truthy (dict_get "messages" (JArr []) b) = true →
  dict_get "cache_similarity_threshold" JNull b = JNull →
  prepare_store loads body chunk = Ret (Some (msgs, ms, JStr name, usage)) →
  embed encode py_str m msgs = Ret e → dim e = ix_dim (a_index (cdb c)) →
  (∀ v, v ∈ ix_vecs (a_index (cdb c)) → (ip v e < ip e e)%Q) →
  default_similarity_threshold c = JFloat t → (t <= ip e e)%Q →
  ∃ s1 s2, store_in_semantic_cache encode py_str loads w "/v1/chat/completions" "POST" body chunk s
      = (Ret tt, s1) ∧
    check_semantic_cache encode py_str ge_list loads uuid now body s1 =
      (Ret (Some (JsonReply 200
         (cached_reply uuid now (JStr name) (mkHit ms (ip e e) usage)) [])), s2) ∧
    hits s2 = (hits s + 1)%Z.
Proof.
  intros Hreach Hi Hen Hb Hmodel Hmsgs Hthr Hprep He Hdim Hless Ht Hle.
  pose proof (reachable_ok _ _ _ _ _ _ Hreach c Hi) as (Hm & Ha & _). subst m.
  destruct (prepare_store_inv _ _ _ _ _ _ _ _ Hb Hprep) as (-> & Hlog & Hlog' & Hskip).
  pose proof (search_last encode py_str ge_list c _ ms name usage e t w Ha He Hdim Hless Ht Hle) as Hs.
  unfold store_in_semantic_cache. rewrite Hen, Hi. cbn [negb]. rewrite decide_True by done.
  rewrite Hprep. eexists _, _. split; [done|]. unfold check_semantic_cache.
  change (is_semantic_cache_enabled (set_instance _ s)) with (is_semantic_cache_enabled s).
  rewrite Hen, Hb. cbn [negb instance set_instance mbind outcome_bind jget]. rewrite Hskip, Hmsgs, Hthr.
  cbn [negb orb]. rewrite Hlog. cbn [mbind outcome_bind].
  replace (dict_get "model" (JStr "") b) with (JStr name) by (unfold dict_get; by rewrite Hmodel).
  rewrite Hs. cbn [mbind outcome_bind h_response]. rewrite Hlog'. by split.
Qed.

(** A save that writes the index and fails on the metadata leaves files that do
    not belong together; after a restart a search fails. *)
Example old_metadata_breaks_search :
  let a := (adapter_store (E := list Z) MetadataOld [1; 0]%Z ex_messages [ex_answer] (JStr "m1") no_usage
              (adapter_init 2 Written Written (mkDisk None None))).2 in
  adapter_search ex_ge [1; 0]%Z (JStr "m1") (JFloat (1 # 2)) (adapter_init 2 Written Written (a_disk a))
    = Raise IndexError.
Proof. reflexivity. Qed.
