(* ===== verification/Backtrack.v ===== *)
(** * [re.finditer]: backtracking search with word boundaries

    The fragment of Python's [re] that the PII patterns use, with the order in
    which alternatives are tried, which decides where a match ends.  [matches]
    says which matches there are; [bt] tries them in Python's order; [finditer]
    yields the non-overlapping matches from left to right. *)
From stdpp Require Import base list strings.
From Stdlib Require Import Ascii.
From S2P Require Import Prelude Regex.

Inductive pat : Type :=
| PEps
| PChr (p : ascii → bool)
| PCat (r1 r2 : pat)
| PAlt (r1 r2 : pat)                       (* [r1|r2]; [r?] is [r|] *)
| PStar (greedy : bool) (p : ascii → bool) (* [c*] and [c*?] for a class [c] *)
| PWord.                                   (* [\b] *)

(** [\w] on the ASCII range *)
Definition is_word (a : ascii) : bool := is_alnum a || Ascii.eqb a "_".
Definition word_at (o : option ascii) : bool := match o with Some a => is_word a | None => false end.
Definition boundary (prev : option ascii) (s : list ascii) : bool := xorb (word_at prev) (word_at (head s)).

(** A position is the character before it and the text after it. *)
Inductive matches : pat → option ascii → list ascii → option ascii → list ascii → Prop :=
| MEps p s : matches PEps p s p s
| MChr f p a s : f a = true → matches (PChr f) p (a :: s) (Some a) s
| MCat r1 r2 p1 s1 p2 s2 p3 s3 :
    matches r1 p1 s1 p2 s2 → matches r2 p2 s2 p3 s3 → matches (PCat r1 r2) p1 s1 p3 s3
| MAlt1 r1 r2 p s p' s' : matches r1 p s p' s' → matches (PAlt r1 r2) p s p' s'
| MAlt2 r1 r2 p s p' s' : matches r2 p s p' s' → matches (PAlt r1 r2) p s p' s'
| MStar0 g f p s : matches (PStar g f) p s p s
| MStarS g f p a s p' s' :
    f a = true → matches (PStar g f) (Some a) s p' s' → matches (PStar g f) p (a :: s) p' s'
| MWord p s : boundary p s = true → matches PWord p s p s.

#[export] Hint Constructors matches : backtrack.

(** ** The matcher *)
Section Matcher.
Context {A : Type}.
Abbreviation cont := (option ascii → list ascii → option A).

Definition orelse (a b : option A) : option A := match a with Some x => Some x | None => b end.

(** Greedy tries one more character first, lazy tries to go on first. *)
Fixpoint star (greedy : bool) (f : ascii → bool) (prev : option ascii) (s : list ascii) (k : cont)
    : option A :=
  let more := match s with
              | a :: s => if f a then star greedy f (Some a) s k else None
              | [] => None
              end in
  if greedy then orelse more (k prev s) else orelse (k prev s) more.

Fixpoint bt (r : pat) (prev : option ascii) (s : list ascii) (k : cont) : option A :=
  match r with
  | PEps => k prev s
  | PChr f => match s with
              | a :: s => if f a then k (Some a) s else None
              | [] => None
              end
  | PCat r1 r2 => bt r1 prev s (λ p s, bt r2 p s k)
  | PAlt r1 r2 => orelse (bt r1 prev s k) (bt r2 prev s k)
  | PStar g f => star g f prev s k
  | PWord => if boundary prev s then k prev s else None
  end.
End Matcher.

(** The first match at a position: where it ends. *)
Definition match_at (r : pat) (prev : option ascii) (s : list ascii) : option (option ascii * list ascii) :=
  bt r prev s (λ p s, Some (p, s)).

(** [fuel] bounds the number of steps by the length of the text: every step
    consumes a character.  Empty matches are passed over; the patterns in use
    have none ([consumes]). *)
Fixpoint finditer_fuel (fuel : nat) (r : pat) (prev : option ascii) (s : list ascii) (pos : nat)
    : list (nat * list ascii) :=
  match fuel, s with
  | S fuel, a :: s' =>
      match match_at r prev s with
      | Some (p, rest) =>
          let n := length s - length rest in
          if Nat.eqb n 0 then finditer_fuel fuel r (Some a) s' (S pos)
          else (pos, take n s) :: finditer_fuel fuel r p rest (pos + n)
      | None => finditer_fuel fuel r (Some a) s' (S pos)
      end
  | _, _ => []
  end.

(** Start and text of every match. *)
Definition finditer (r : pat) (text : list ascii) : list (nat * list ascii) :=
  finditer_fuel (length text) r None text 0.

(** The pattern matches no empty text. *)
Fixpoint consumes (r : pat) : bool :=
  match r with
  | PChr _ => true
  | PCat r1 r2 => consumes r1 || consumes r2
  | PAlt r1 r2 => consumes r1 && consumes r2
  | _ => false
  end.

(** ** Derived forms *)
Definition POpt (r : pat) : pat := PAlt r PEps.
Definition PPlus (f : ascii → bool) : pat := PCat (PChr f) (PStar true f).
Definition PLit (a : ascii) : pat := PChr (Ascii.eqb a).
Fixpoint PRep (n : nat) (r : pat) : pat := match n with O => PEps | S n => PCat r (PRep n r) end.
Fixpoint PUpTo (m : nat) (r : pat) : pat :=
  match m with O => PEps | S m => POpt (PCat r (PUpTo m r)) end.
(** [r{n,m}], greedy *)
Definition PBetween (n m : nat) (r : pat) : pat := PCat (PRep n r) (PUpTo (m - n) r).

(** ** The matcher finds a match exactly when there is one *)
Lemma orelse_Some {A} (a b : option A) x : orelse a b = Some x → a = Some x ∨ b = Some x.
Proof. destruct a; [by left|by right]. Qed.

Lemma orelse_None {A} (a b : option A) : orelse a b = None ↔ a = None ∧ b = None.
Proof. destruct a; simpl; naive_solver. Qed.

Lemma star_sound {A} g f prev s k (x : A) :
  star g f prev s k = Some x → ∃ p' s', matches (PStar g f) prev s p' s' ∧ k p' s' = Some x.
Proof.
  revert prev. induction s as [|a s IH]; intros prev; simpl.
  - intros Hk. exists prev, []. split; [constructor|]. by destruct g, (k prev []).
  - assert ((if f a then star g f (Some a) s k else None) = Some x →
      ∃ p' s', matches (PStar g f) prev (a :: s) p' s' ∧ k p' s' = Some x) as Hmore.
    { destruct (f a) eqn:Hf; [|done]. intros (p' & s' & ? & ?)%IH. eauto with backtrack. }
    destruct g; intros [Hk|Hk]%orelse_Some; eauto with backtrack.
Qed.

Lemma star_complete {A} g f prev s (k : option ascii → list ascii → option A) p' s' :
  matches (PStar g f) prev s p' s' → star g f prev s k = None → k p' s' = None.
Proof.
  remember (PStar g f) as r eqn:Hr. intros Hm. revert Hr.
  induction Hm as [| | | | |g' f' p s|g' f' p a s p' s' Hf Hm IH|]; intros [= -> ->].
  - intros Hs. destruct s, g; simpl in Hs; [done|by destruct (k p [])|by apply orelse_None in Hs as [??]..].
  - simpl. rewrite Hf. destruct g; rewrite orelse_None; intros [??]; by apply IH.
Qed.

Lemma bt_sound {A} r prev s k (x : A) :
  bt r prev s k = Some x → ∃ p' s', matches r prev s p' s' ∧ k p' s' = Some x.
Proof.
  revert prev s k. induction r as [|f|r1 IH1 r2 IH2|r1 IH1 r2 IH2|g f|]; intros prev s k; simpl.
  - eauto with backtrack.
  - destruct s as [|a s]; [done|]. destruct (f a) eqn:Hf; [|done]. eauto with backtrack.
  - intros (p1 & s1 & H1 & (p2 & s2 & H2 & Hk)%IH2)%IH1. eauto with backtrack.
  - intros [(p' & s' & ? & ?)%IH1|(p' & s' & ? & ?)%IH2]%orelse_Some; eauto with backtrack.
  - apply star_sound.
  - destruct (boundary prev s) eqn:Hb; [|done]. eauto with backtrack.
Qed.

Lemma bt_complete {A} r prev s (k : option ascii → list ascii → option A) p' s' :
  matches r prev s p' s' → bt r prev s k = None → k p' s' = None.
Proof.
  revert prev s k p' s'. induction r as [|f|r1 IH1 r2 IH2|r1 IH1 r2 IH2|g f|];
    intros prev s k p' s' Hm; simpl; [| | | |by apply star_complete|]; inversion Hm; subst.
  - done.
  - by case_match.
  - intros Hb. eapply IH2; [done|]. by eapply (IH1 prev s (λ p s, bt r2 p s k)).
  - intros [??]%orelse_None. by eapply IH1.
  - intros [??]%orelse_None. by eapply IH2.
  - by case_match.
Qed.

Lemma match_at_sound r prev s p rest : match_at r prev s = Some (p, rest) → matches r prev s p rest.
Proof. intros (p' & s' & Hm & [= -> ->])%bt_sound. done. Qed.

Lemma match_at_complete r prev s : match_at r prev s = None ↔ ∀ p' s', ¬ matches r prev s p' s'.
Proof.
  split.
  - intros Hn p' s' Hm. by apply (bt_complete _ _ _ _ _ _ Hm) in Hn.
  - intros Hno. destruct (match_at r prev s) as [[p rest]|] eqn:E; [|done].
    apply match_at_sound in E. by apply Hno in E.
Qed.

(** ** Positions *)
Definition last_of (prev : option ascii) (v : list ascii) : option ascii :=
  match last v with Some a => Some a | None => prev end.

Lemma last_of_cons prev a v : last_of prev (a :: v) = last_of (Some a) v.
Proof.
  unfold last_of. destruct v as [|b v]; [done|]. rewrite last_cons_cons.
  destruct (last (b :: v)) eqn:E; [done|]. by apply last_None in E.
Qed.

Lemma last_of_app prev u v : last_of prev (u ++ v) = last_of (last_of prev u) v.
Proof. revert prev. induction u as [|a u IH]; intros prev; [done|]. simpl. rewrite !last_of_cons. apply IH. Qed.

Lemma matches_split r prev s p' s' :
  matches r prev s p' s' → ∃ v, s = v ++ s' ∧ p' = last_of prev v.
Proof.
  induction 1 as [p s|f p a s Hf|r1 r2 p1 s1 p2 s2 p3 s3 H1 IH1 H2 IH2|
    |r1 r2 p s p' s' Hm IH|g f p s|g f p a s p' s' Hf Hm IH|p s Hb]; eauto.
  - by exists [].
  - by exists [a].
  - destruct IH1 as (u & -> & ->), IH2 as (v & -> & ->). exists (u ++ v).
    by rewrite <- (assoc_L (++)), last_of_app.
  - by exists [].
  - destruct IH as (v & -> & ->). exists (a :: v). by rewrite last_of_cons.
  - by exists [].
Qed.

Lemma matches_consumes r prev s p' s' :
  consumes r = true → matches r prev s p' s' → length s' < length s.
Proof.
  intros Hc Hm. revert Hc.
  induction Hm as [| |r1 r2 p1 s1 p2 s2 p3 s3 Hm1 IH1 Hm2 IH2| | | | |]; simpl; intros Hc; try done.
  - lia.
  - apply matches_split in Hm1 as (u & -> & _). apply matches_split in Hm2 as (v & -> & _).
    rewrite !length_app in *. apply orb_true_iff in Hc as [Hc|Hc]; [specialize (IH1 Hc)|specialize (IH2 Hc)]; lia.
  - apply andb_true_iff in Hc as [Hc _]. auto.
  - apply andb_true_iff in Hc as [_ Hc]. auto.
Qed.

(** [v] occurs in [text] at [start] as a match of the pattern. *)
Definition occurs (r : pat) (text : list ascii) (start : nat) (v : list ascii) : Prop :=
  ∃ pre suf, text = pre ++ v ++ suf ∧ start = length pre ∧
    matches r (last pre) (v ++ suf) (last_of (last pre) v) suf.

Lemma last_of_last pre v : last_of (last pre) v = last (pre ++ v).
Proof.
  rewrite last_app. unfold last_of. by destruct (last v).
Qed.

Lemma finditer_fuel_sound fuel r pre s start v :
  (start, v) ∈ finditer_fuel fuel r (last pre) s (length pre) → occurs r (pre ++ s) start v ∧ v ≠ [].
Proof.
  revert pre s. induction fuel as [|fuel IH]; intros pre s; simpl; [by intros ?%elem_of_nil|].
  destruct s as [|a s]; [by intros ?%elem_of_nil|].
  assert ((start, v) ∈ finditer_fuel fuel r (Some a) s (S (length pre)) →
    occurs r (pre ++ a :: s) start v ∧ v ≠ []) as Hskip.
  { intros Hin. replace (pre ++ a :: s) with ((pre ++ [a]) ++ s) by by rewrite <- (assoc_L (++)).
    apply IH. rewrite last_snoc, length_app. simpl. by rewrite Nat.add_1_r. }
  destruct (match_at r (last pre) (a :: s)) as [[p rest]|] eqn:E; [|done].
  apply match_at_sound in E. pose proof (matches_split _ _ _ _ _ E) as (u & Hu & ->).
  rewrite Hu in *. rewrite length_app, Nat.add_sub. destruct (Nat.eqb (length u) 0) eqn:En; [done|].
  rewrite take_app_length. apply Nat.eqb_neq in En. intros [[= -> ->]|Hin]%elem_of_cons.
  - split; [|by destruct u]. by exists pre, rest.
  - rewrite (assoc_L (++)). apply IH. by rewrite <- last_of_last, length_app.
Qed.

Lemma finditer_fuel_complete fuel r prev s pos u v suf :
  length s ≤ fuel → consumes r = true → s = u ++ v ++ suf →
  matches r (last_of prev u) (v ++ suf) (last_of (last_of prev u) v) suf →
  finditer_fuel fuel r prev s pos ≠ [].
Proof.
  revert prev s pos u. induction fuel as [|fuel IH]; intros prev s pos u Hl Hc -> Hm.
  { pose proof (matches_consumes _ _ _ _ _ Hc Hm). rewrite !length_app in *. lia. }
  destruct (u ++ v ++ suf) as [|a s'] eqn:Es.
  { apply app_nil in Es as [-> Hnil]. rewrite Hnil in Hm.
    by pose proof (matches_consumes _ _ _ _ _ Hc Hm) as ?%Nat.nlt_0_r. }
  cbn [finditer_fuel]. destruct (match_at r prev (a :: s')) as [[p rest]|] eqn:E.
  - apply match_at_sound in E. apply (matches_consumes _ _ _ _ _ Hc) in E.
    destruct (Nat.eqb _ 0) eqn:En; [|done]. apply Nat.eqb_eq in En. simpl in *. lia.
  - destruct u as [|b u]; simplify_eq/=.
    + rewrite Es in Hm. by destruct (proj1 (match_at_complete r prev (a :: s')) E _ _ Hm).
    + rewrite last_of_cons in Hm. eapply (IH _ _ _ u); [|done|done|done]. lia.
Qed.

(** [finditer] yields occurrences only, and it yields one if there is any. *)
Lemma finditer_sound r text start v : (start, v) ∈ finditer r text → occurs r text start v ∧ v ≠ [].
Proof. apply (finditer_fuel_sound _ _ [] text). Qed.

Lemma finditer_nonempty r text :
  consumes r = true → finditer r text ≠ [] ↔ ∃ start v, occurs r text start v.
Proof.
  intros Hc. split.
  - destruct (finditer r text) as [|[start v] l] eqn:E; [done|]. intros _. exists start, v.
    apply finditer_sound. rewrite E. left.
  - intros (start & v & pre & suf & Ht & _ & Hm).
    eapply (finditer_fuel_complete _ _ None text 0 pre); [done|done|done|].
    unfold last_of at 1 3. by destruct (last pre).
Qed.
