(* ===== verification/Pii.v ===== *)
(** * PII detection: [experimental/pii/]

    The types, the configuration, the regular-expression analyzer and the
    adapter to Presidio, the factory and the module state, and the middleware
    that refuses requests.  The middleware uses analyzers through the interface
    [PIIAnalyzer].  Presidio's engine, [json.loads] and [json.dumps] are
    parameters; [json.dumps] escapes what is not ASCII.  A set of types is the
    list of its members in iteration order.  Timings and the log are left out. *)
From stdpp Require Import base list strings gmap.
From Stdlib Require Import Ascii QArith.
From S2P Require Import Prelude PyDict PyStr Json Regex Backtrack Request.

(** ** [types.py] *)
Inductive PIIType : Type :=
| EMAIL | PHONE | SSN | CREDIT_CARD | IP_ADDRESS | API_KEY | BANK_ACCOUNT | PASSPORT | DRIVERS_LICENSE
| TAX_ID | MEDICAL_RECORD | HEALTH_INFO | MAC_ADDRESS | NAME | DOB | PASSWORD | USERNAME | ADDRESS.

#[global] Instance PIIType_eq_dec : EqDecision PIIType.
Proof. solve_decision. Defined.

Definition all_types : list PIIType :=
  [EMAIL; PHONE; SSN; CREDIT_CARD; IP_ADDRESS; API_KEY; BANK_ACCOUNT; PASSPORT; DRIVERS_LICENSE;
   TAX_ID; MEDICAL_RECORD; HEALTH_INFO; MAC_ADDRESS; NAME; DOB; PASSWORD; USERNAME; ADDRESS].

Definition type_value (t : PIIType) : string :=
  match t with
  | EMAIL => "email" | PHONE => "phone" | SSN => "ssn" | CREDIT_CARD => "credit_card"
  | IP_ADDRESS => "ip_address" | API_KEY => "api_key" | BANK_ACCOUNT => "bank_account"
  | PASSPORT => "passport" | DRIVERS_LICENSE => "drivers_license" | TAX_ID => "tax_id"
  | MEDICAL_RECORD => "medical_record" | HEALTH_INFO => "health_info" | MAC_ADDRESS => "mac_address"
  | NAME => "name" | DOB => "date_of_birth" | PASSWORD => "password" | USERNAME => "username"
  | ADDRESS => "address"
  end.

(** [PIIType(v)] *)
Definition type_of_value (v : json) : outcome PIIType :=
  or_raise ValueError (head (filter (λ t, eq_str v (type_value t) = true) all_types)).

(** [s.add(t)] *)
Definition add_type (t : PIIType) (s : list PIIType) : list PIIType :=
  if decide (t ∈ s) then s else s ++ [t].

(** ** [config.py] *)
Record PIIConfig := mkPIIConfig {
  enabled : json;
  pii_types : option (list PIIType);
  score_threshold : json
}.

Fixpoint types_of (l : list json) : outcome (list PIIType) :=
  match l with
  | [] => Ret []
  | v :: l => t ← type_of_value v; ts ← types_of l; Ret (add_type t ts)
  end.

Definition config_from_dict (d : list (string * json)) : outcome PIIConfig :=
  types ← match dget "pii_types"%string d with
          | None => Ret None
          | Some v => l ← jiter v; ts ← types_of l; Ret (Some ts)
          end;
  Ret (mkPIIConfig (dict_get "enabled" (JBool true) d) types
         (dict_get "score_threshold" (JFloat (1 # 2)) d)).

Definition config_to_dict (c : PIIConfig) : list (string * json) :=
  [("enabled", enabled c);
   ("pii_types", match pii_types c with
                 | Some (t :: ts) => JArr ((λ t, JStr (type_value t)) <$> t :: ts)
                 | _ => JNull
                 end);
   ("score_threshold", score_threshold c)]%string.

(** ** [analyzers/base.py] *)
Record PIILocation := mkLocation {
  l_start : nat;
  l_end : nat;
  l_type : PIIType;
  l_value : string;
  l_score : Q
}.

Record PIIAnalysisResult := mkResult {
  has_pii : bool;
  detected_types : list PIIType;
  pii_locations : option (list PIILocation)
}.

Class PIIAnalyzer (A : Type) := {
  analyze : A → string → option (list PIIType) → json → outcome PIIAnalysisResult
}.

(** The result both analyzers build from what they found. *)
Definition result_of (found : list PIILocation) : PIIAnalysisResult :=
  let types := foldl (λ s l, add_type (l_type l) s) [] found in
  mkResult (match types with [] => false | _ => true end) types
    (match found with [] => None | _ => Some found end).

(** ** [analyzers/regex.py] *)
Definition class (s : string) (a : ascii) : bool := existsb (Ascii.eqb a) (String.list_ascii_of_string s).
Definition sep : pat := POpt (PChr (class "-.")).
Definition digit_run (n : nat) : pat := PRep n (PChr is_digit).

Definition email_pat : pat :=
  PCat (PPlus (λ a, is_alnum a || class "._%+-" a))
    (PCat (PLit "@") (PCat (PPlus (λ a, is_alnum a || class ".-" a))
      (PCat (PLit ".") (PCat (PRep 2 (PChr is_alpha)) (PStar true is_alpha))))).

Definition phone_pat : pat :=
  PCat PWord (PCat (POpt (PCat (POpt (PLit "+")) (PCat (PLit "1") sep)))
    (PCat (PStar true is_space)
      (PCat (PAlt (PCat (PLit "(") (PCat (digit_run 3) (PLit ")"))) (digit_run 3))
        (PCat sep (PCat (digit_run 3) (PCat sep (PCat (digit_run 4) PWord))))))).

Definition ssn_pat : pat :=
  PCat PWord (PCat (digit_run 3) (PCat sep (PCat (digit_run 2) (PCat sep (PCat (digit_run 4) PWord))))).

Definition credit_card_pat : pat :=
  PCat PWord (PCat (PBetween 13 16 (PCat (PChr is_digit) (PStar false (class " -")))) PWord).

Definition ip_address_pat : pat :=
  PCat PWord (PCat (PRep 3 (PCat (PBetween 1 3 (PChr is_digit)) (PLit ".")))
    (PCat (PBetween 1 3 (PChr is_digit)) PWord)).

Definition PII_PATTERNS : list (PIIType * pat) :=
  [(EMAIL, email_pat); (PHONE, phone_pat); (SSN, ssn_pat); (CREDIT_CARD, credit_card_pat);
   (IP_ADDRESS, ip_address_pat)].

Record RegexAnalyzer := mkRegexAnalyzer { patterns : list (PIIType * pat) }.

Definition regex_new : RegexAnalyzer := mkRegexAnalyzer [].
Definition regex_initialize (_ : RegexAnalyzer) : RegexAnalyzer := mkRegexAnalyzer PII_PATTERNS.
Definition regex_shutdown (_ : RegexAnalyzer) : RegexAnalyzer := mkRegexAnalyzer [].

(** [{t: self.patterns[t] for t in pii_types if t in self.patterns}], or all *)
Definition patterns_to_check (types : option (list PIIType)) (ps : list (PIIType * pat))
    : list (PIIType * pat) :=
  match types with
  | Some (t :: ts) => omap (λ t, (λ r, (t, r)) <$> dget t ps) (t :: ts)
  | _ => ps
  end.

Definition locations_of (text : list ascii) (tr : PIIType * pat) : list PIILocation :=
  (λ '(start, v), mkLocation start (start + length v) tr.1 (String.string_of_list_ascii v) 1)
    <$> finditer tr.2 text.

Definition regex_analyze (a : RegexAnalyzer) (text : string) (types : option (list PIIType))
    (_ : json) : outcome PIIAnalysisResult :=
  match patterns a with
  | [] => Raise RuntimeError
  | ps => Ret (result_of (flat_map (locations_of (String.list_ascii_of_string text))
                            (patterns_to_check types ps)))
  end.

#[global] Instance regex_is_analyzer : PIIAnalyzer RegexAnalyzer := {| analyze := regex_analyze |}.

(** ** [analyzers/presidio.py] *)
Definition PII_TO_PRESIDIO : list (PIIType * string) :=
  [(EMAIL, "EMAIL_ADDRESS"); (PHONE, "PHONE_NUMBER"); (SSN, "US_SSN"); (CREDIT_CARD, "CREDIT_CARD");
   (IP_ADDRESS, "IP_ADDRESS"); (API_KEY, "API_KEY")]%string.

Definition PRESIDIO_TO_PII : list (string * PIIType) := prod_swap <$> PII_TO_PRESIDIO.

(** A finding of the engine: entity type, start, end and score. *)
Record recognized := mkRecognized { rg_entity : string; rg_start : nat; rg_end : nat; rg_score : Q }.

(** [AnalyzerEngine.analyze]: text, entities, threshold. *)
Abbreviation engine := (string → option (list string) → json → outcome (list recognized)).

Record PresidioAnalyzer := mkPresidio { analyzer_engine : option engine }.

(** [missing] are the missing dependencies, [make] builds the engine; every
    failure is a [RuntimeError]. *)
Definition presidio_initialize (missing : list string) (make : outcome engine) (_ : PresidioAnalyzer)
    : outcome PresidioAnalyzer :=
  match missing, make with
  | [], Ret e => Ret (mkPresidio (Some e))
  | _, _ => Raise RuntimeError
  end.

Definition presidio_shutdown (_ : PresidioAnalyzer) : PresidioAnalyzer := mkPresidio None.

Definition presidio_location (text : string) (r : recognized) : option PIILocation :=
  (λ t, mkLocation (rg_start r) (rg_end r) t
     (String.string_of_list_ascii (take (rg_end r - rg_start r)
        (drop (rg_start r) (String.list_ascii_of_string text)))) (rg_score r))
    <$> dget (rg_entity r) PRESIDIO_TO_PII.

Definition presidio_analyze (a : PresidioAnalyzer) (text : string) (types : option (list PIIType))
    (thr : json) : outcome PIIAnalysisResult :=
  match analyzer_engine a with
  | None => Raise RuntimeError
  | Some e =>
      let entities := match types with
                      | Some (t :: ts) => Some (omap (λ t, dget t PII_TO_PRESIDIO) (t :: ts))
                      | _ => None
                      end in
      match e text entities thr with
      | Raise _ => Raise RuntimeError
      | Ret rs => Ret (result_of (omap (presidio_location text) rs))
      end
  end.

#[global] Instance presidio_is_analyzer : PIIAnalyzer PresidioAnalyzer := {| analyze := presidio_analyze |}.

(** ** [analyzers/factory.py] and the module state *)
Inductive analyzer : Type := Regex (a : RegexAnalyzer) | Presidio (a : PresidioAnalyzer).

#[global] Instance any_analyzer : PIIAnalyzer analyzer := {|
  analyze a := match a with Regex a => analyze a | Presidio a => analyze a end
|}.

Definition create_analyzer (missing : list string) (make : outcome engine) (analyzer_type : string)
    : outcome analyzer :=
  if String.eqb analyzer_type "presidio" then
    a ← presidio_initialize missing make (mkPresidio None); Ret (Presidio a)
  else if String.eqb analyzer_type "regex" then Ret (Regex (regex_initialize regex_new))
  else Raise ValueError.

Definition initialize_pii_detection (missing : list string) (make : outcome engine)
    (analyzer_type : string) : M (option analyzer) unit := λ s,
  match create_analyzer missing make analyzer_type with
  | Ret a => (Ret tt, Some a)
  | Raise e => (Raise e, s)
  end.

Definition shutdown_pii_detection : M (option analyzer) unit := λ _, (Ret tt, None).
Definition get_pii_analyzer (s : option analyzer) : option analyzer := s.
Definition is_pii_detection_enabled (s : option analyzer) : bool :=
  match s with Some _ => true | None => false end.

(** ** [middleware.py] *)
(** The counters: detections by path and type, scores by type, errors. *)
Record pii_metrics := mkMetrics {
  detected_total : list (string * PIIType);
  detection_scores : list (PIIType * Q);
  analyzer_errors : list exn
}.

Definition count_detected (path : string) (ts : list PIIType) (s : pii_metrics) : pii_metrics :=
  mkMetrics (detected_total s ++ ((λ t, (path, t)) <$> ts)) (detection_scores s) (analyzer_errors s).
Definition count_scores (ls : list PIILocation) (s : pii_metrics) : pii_metrics :=
  mkMetrics (detected_total s) (detection_scores s ++ ((λ l, (l_type l, l_score l)) <$> ls))
    (analyzer_errors s).
Definition count_error (e : exn) (s : pii_metrics) : pii_metrics :=
  mkMetrics (detected_total s) (detection_scores s) (analyzer_errors s ++ [e]).

Section Middleware.
Context {A : Type} `{!PIIAnalyzer A}.
Context (dumps : json → string).

Definition check_pii_content (text : string) (a : A) (c : PIIConfig)
    : M pii_metrics (option (bool * list PIIType)) := λ s,
  if str_empty text then (Ret None, s) else
  match analyze a text (pii_types c) (score_threshold c) with
  | Raise e => (Ret (Some (true, [])), count_error e s)
  | Ret r =>
      if negb (has_pii r) then (Ret None, s)
      else (Ret (Some (true, detected_types r)), count_scores (default [] (pii_locations r)) s)
  end.

Definition pii_reply (ts : list PIIType) : reply :=
  JsonReply 400 (JObj [("error", JObj [("message", JStr "PII detected in request");
    ("types", JArr ((λ t, JStr (type_value t)) <$> ts))])]%string) [].

(** [body] is what [request.json()] gives. *)
Definition check_pii (path : string) (body : outcome json) (a : A) (config : option PIIConfig)
    : M pii_metrics (option reply) := λ s,
  match config with
  | None => (Ret None, s)
  | Some c =>
      if negb (truthy (enabled c)) then (Ret None, s) else
      match body with
      | Raise e => (Ret None, count_error e s)
      | Ret b =>
          match check_pii_content (dumps b) a c s with
          | (Raise e, s) => (Ret None, count_error e s)
          | (Ret None, s) => (Ret None, s)
          | (Ret (Some (block, ts)), s) =>
              if block : bool then (Ret (Some (pii_reply ts)), count_detected path ts s) else (Ret None, s)
          end
      end
  end.
End Middleware.

(** ** What the regular-expression analyzer finds *)
Definition requested (types : option (list PIIType)) (t : PIIType) : Prop :=
  match types with Some (u :: us) => t ∈ u :: us | _ => True end.

(** The text contains a match of the pattern of a requested type. *)
Definition leaks (types : option (list PIIType)) (text : string) (t : PIIType) : Prop :=
  requested types t ∧
  ∃ p start v, (t, p) ∈ PII_PATTERNS ∧ occurs p (String.list_ascii_of_string text) start v.

Lemma elem_of_add_type t u s : t ∈ add_type u s ↔ t = u ∨ t ∈ s.
Proof. unfold add_type. case_decide; set_solver. Qed.

Lemma elem_of_types (found : list PIILocation) t :
  t ∈ detected_types (result_of found) ↔ t ∈ l_type <$> found.
Proof.
  simpl. assert (∀ acc, t ∈ foldl (λ s l, add_type (l_type l) s) acc found ↔
    t ∈ acc ∨ t ∈ l_type <$> found) as H; [|rewrite H; set_solver].
  induction found as [|l found IH]; intros acc; simpl; [set_solver|].
  rewrite IH, elem_of_add_type. set_solver.
Qed.

Lemma has_pii_types found :
  has_pii (result_of found) = true ↔ detected_types (result_of found) ≠ [].
Proof. simpl. by destruct (foldl _ _ _). Qed.

Lemma elem_of_patterns_to_check types t p :
  (t, p) ∈ patterns_to_check types PII_PATTERNS ↔ requested types t ∧ (t, p) ∈ PII_PATTERNS.
Proof.
  assert (∀ t p, dget t PII_PATTERNS = Some p ↔ (t, p) ∈ PII_PATTERNS) as Hget.
  { intros t' p'. split; [apply dget_elem|]. apply elem_dget. unfold dict_wf.
    apply (bool_decide_unpack _). reflexivity. }
  destruct types as [[|u us]|]; simpl; [set_solver| |set_solver].
  change ((t, p) ∈ omap (λ t0, pair t0 <$> dget t0 PII_PATTERNS) (u :: us) ↔
    t ∈ u :: us ∧ (t, p) ∈ PII_PATTERNS).
  rewrite list_elem_of_omap. rewrite <- Hget. split.
  - intros (t' & Ht & (p' & Hp & [= -> ->])%fmap_Some). done.
  - intros [Ht Hp]. exists t. split; [done|]. by rewrite Hp.
Qed.

Lemma patterns_consume t p : (t, p) ∈ PII_PATTERNS → consumes p = true.
Proof.
  unfold PII_PATTERNS. rewrite !elem_of_cons, elem_of_nil.
  intros Hp. destruct_or?; simplify_eq; done.
Qed.

(** Every location is an occurrence of its type's pattern. *)
Definition location_ok (text : list ascii) (l : PIILocation) : Prop :=
  ∃ p v, (l_type l, p) ∈ PII_PATTERNS ∧ l_value l = String.string_of_list_ascii v ∧
    l_end l = (l_start l + length v)%nat ∧ occurs p text (l_start l) v.

Lemma elem_of_locations text types l :
  l ∈ flat_map (locations_of text) (patterns_to_check types PII_PATTERNS) ↔
  ∃ p v, requested types (l_type l) ∧ (l_type l, p) ∈ PII_PATTERNS ∧ (l_start l, v) ∈ finditer p text ∧
    l = mkLocation (l_start l) (l_start l + length v) (l_type l) (String.string_of_list_ascii v) 1.
Proof.
  rewrite list_elem_of_In, in_flat_map. setoid_rewrite <- list_elem_of_In. split.
  - intros ([t p] & Ht & ([start v] & -> & Hin)%list_elem_of_fmap). exists p, v.
    apply elem_of_patterns_to_check in Ht as [??]. by split_and!.
  - intros (p & v & Hr & Hp & Hin & Hl). exists (l_type l, p). split.
    + by apply elem_of_patterns_to_check.
    + rewrite Hl. apply list_elem_of_fmap. by exists (l_start l, v).
Qed.

Lemma regex_detects text types thr :
  ∃ r, regex_analyze (regex_initialize regex_new) text types thr = Ret r ∧
    (has_pii r = true ↔ detected_types r ≠ []) ∧
    (∀ t, t ∈ detected_types r ↔ leaks types text t) ∧
    ∀ l, l ∈ default [] (pii_locations r) → location_ok (String.list_ascii_of_string text) l.
Proof.
  unfold regex_analyze. simpl. set (txt := String.list_ascii_of_string text).
  set (found := flat_map _ _). exists (result_of found). split; [done|].
  split; [apply has_pii_types|]. split.
  - intros t. rewrite elem_of_types, list_elem_of_fmap. unfold leaks. fold txt. split.
    + intros (l & -> & (p & v & Hr & Hp & Hin & _)%elem_of_locations). split; [done|].
      exists p, (l_start l), v. split; [done|]. by apply finditer_sound in Hin as [? _].
    + intros (Hr & p & start & v & Hp & Ho).
      destruct (finditer p txt) as [|[start' v'] rest] eqn:E.
      * destruct (proj2 (finditer_nonempty p txt (patterns_consume t p Hp))); eauto.
      * exists (mkLocation start' (start' + length v') t (String.string_of_list_ascii v') 1).
        split; [done|]. apply elem_of_locations. exists p, v'. split_and!; try done.
        rewrite E. left.
  - intros l Hl. assert (l ∈ found) as Hin by (simpl in Hl; by destruct found).
    apply elem_of_locations in Hin as (p & v & _ & Hp & Hin & Hl'). exists p, v.
    apply finditer_sound in Hin as [Ho _]. rewrite Hl'. by split_and!.
Qed.

(** The patterns on concrete texts. *)
Example regex_examples :
  let found t := (λ l, (l_type l, l_value l)) <$>
    default [] (match regex_analyze (regex_initialize regex_new) t None JNull with
                | Ret r => pii_locations r | Raise _ => None end) in
  found "a.b@c.org, d@e"%string = [(EMAIL, "a.b@c.org"%string)] ∧
  found "call (555)123-4567."%string = [(PHONE, " (555)123-4567"%string)] ∧
  found "call 1-555-123-4567."%string = [(PHONE, "1-555-123-4567"%string)] ∧
  found "ssn 123-45-6789"%string = [(SSN, "123-45-6789"%string)] ∧
  found "host 10.0.0.255!"%string = [(IP_ADDRESS, "10.0.0.255"%string)] ∧
  found "card 4111 1111 1111 1111 x"%string = [(CREDIT_CARD, "4111 1111 1111 1111"%string)].
Proof. vm_compute. repeat split; reflexivity. Qed.

(** ** Properties *)
(** C35. With the regular-expression analyzer the middleware refuses a request
    exactly when the JSON text of its body contains, at a position that respects
    the word boundaries, a match of the pattern of one of the configured types:
    the refusal is a 400 reply that names precisely the types found and counts
    each of them for the path, and a request without a match goes on without a
    trace in the metrics. *)
Theorem pii_blocks_exactly (dumps : json → string) path b c s :
  truthy (enabled c) = true → dumps b ≠ EmptyString →
  let analyzer := Regex (regex_initialize regex_new) in
  let leaked := leaks (pii_types c) (dumps b) in
  (∃ ts s', check_pii dumps path (Ret b) analyzer (Some c) s = (Ret (Some (pii_reply ts)), s') ∧
     ts ≠ [] ∧ (∀ t, t ∈ ts ↔ leaked t) ∧
     detected_total s' = detected_total s ++ (pair path <$> ts)) ∨
  (check_pii dumps path (Ret b) analyzer (Some c) s = (Ret None, s) ∧ ∀ t, ¬ leaked t).
Proof.
  intros Hen Hd analyzer leaked. unfold check_pii. rewrite Hen. cbn [negb].
  unfold check_pii_content. replace (str_empty (dumps b)) with false by (by destruct (dumps b)).
  destruct (regex_detects (dumps b) (pii_types c) (score_threshold c)) as (r & Hr & Hhas & Ht & _).
  change (analyze analyzer (dumps b) (pii_types c) (score_threshold c))
    with (regex_analyze (regex_initialize regex_new) (dumps b) (pii_types c) (score_threshold c)).
  rewrite Hr. destruct (has_pii r) eqn:Eh; cbn [negb].
  - left. eexists _, _. split; [done|]. split_and!; [by apply Hhas|done|done].
  - right. split; [done|]. intros t Hl. apply Ht in Hl.
    destruct (detected_types r) as [|u us] eqn:E; [by apply elem_of_nil in Hl|].
    by destruct Hhas as [_ Hh]; specialize (Hh ltac:(done)).
Qed.

Lemma pii_blocks_exactly_witness :
  let dumps v := match v with JStr t => t | _ => "null"%string end in
  let c := mkPIIConfig (JBool true) None (JFloat (1 # 2)) in
  let s0 := mkMetrics [] [] [] in
  (check_pii dumps "/v1/chat/completions" (Ret (JStr "mail bob@example.org now"))
      (Regex (regex_initialize regex_new)) (Some c) s0).1 = Ret (Some (pii_reply [EMAIL])) ∧
  ((∃ ts s', check_pii dumps "/p" (Ret (JStr "call 1-2-3")) (Regex (regex_initialize regex_new)) (Some c) s0
      = (Ret (Some (pii_reply ts)), s') ∧ ts ≠ [] ∧ (∀ t, t ∈ ts ↔ leaks None "call 1-2-3" t) ∧
      detected_total s' = [] ++ (pair "/p"%string <$> ts)) ∨
   (check_pii dumps "/p" (Ret (JStr "call 1-2-3")) (Regex (regex_initialize regex_new)) (Some c) s0
      = (Ret None, s0) ∧ ∀ t, ¬ leaks None "call 1-2-3" t)).
Proof.
  intros dumps c s0. split.
  - vm_compute. reflexivity.
  - apply (pii_blocks_exactly dumps "/p" (JStr "call 1-2-3") c s0); [reflexivity|discriminate].
Defined.

(** A configuration without types does not survive its own dictionary. *)
Example default_config_no_roundtrip :
  config_from_dict (config_to_dict (mkPIIConfig (JBool true) None (JFloat (1 # 2)))) = Raise TypeError.
Proof. reflexivity. Qed.

(** A request whose body is not JSON goes on unchecked, while a failing analyzer
    blocks. *)
Lemma pii_errors {A} `{!PIIAnalyzer A} dumps path (a : A) c s e :
  truthy (enabled c) = true →
  check_pii dumps path (Raise e) a (Some c) s = (Ret None, count_error e s) ∧
  ∀ b, dumps b ≠ EmptyString → analyze a (dumps b) (pii_types c) (score_threshold c) = Raise e →
    (check_pii dumps path (Ret b) a (Some c) s).1 = Ret (Some (pii_reply [])).
Proof.
  intros Hen. unfold check_pii, check_pii_content. rewrite Hen. split; [done|].
  intros b Hb Ha. simpl. rewrite Ha. by destruct (dumps b).
Qed.
