(* ===== verification/Main.v ===== *)
(** * The HTTP surface: [routers/main_router.py], [routers/metrics_router.py] and
    [stats/log_stats.py]

    The table of routes, the listings of models and engines, the health check,
    the chat handler with the semantic cache in front, and the Prometheus gauges
    that the metrics handler and the logging thread set.  Field validation of
    integers is pydantic's ([int_field]); thread liveness and the host's CPU,
    memory and disk figures are parameters.  The log text is left out. *)
From stdpp Require Import base list strings gmap.
From Stdlib Require Import Ascii QArith.
From S2P Require Import Prelude PyDict PyStr Json Endpoint RequestStats EngineStats Config Request SemanticCache.

(** ** The routes *)
Inductive handler : Type :=
| HChat | HGeneral | HSleep | HVersion | HModels | HEngines | HHealth | HTranscriptions.

Definition main_routes : list (string * string * handler) :=
  [("POST", "/v1/chat/completions", HChat); ("POST", "/v1/completions", HGeneral);
   ("POST", "/v1/embeddings", HGeneral); ("POST", "/tokenize", HGeneral);
   ("POST", "/detokenize", HGeneral); ("POST", "/v1/rerank", HGeneral); ("POST", "/rerank", HGeneral);
   ("POST", "/v1/score", HGeneral); ("POST", "/score", HGeneral); ("POST", "/sleep", HSleep);
   ("POST", "/wake_up", HSleep); ("GET", "/is_sleeping", HSleep); ("GET", "/version", HVersion);
   ("GET", "/v1/models", HModels); ("GET", "/engines", HEngines); ("GET", "/health", HHealth);
   ("POST", "/v1/audio/transcriptions", HTranscriptions)]%string.

(** ** [/v1/models] *)
Definition ValidationError : exn := OtherError "ValidationError".

Section Models.
Context (int_field : json → outcome json).

Definition str_field (v : json) : outcome json :=
  match v with JStr s => Ret (JStr s) | _ => Raise ValidationError end.
Definition opt_str_field (v : json) : outcome json :=
  match v with JNull => Ret JNull | _ => str_field v end.

(** [ModelCard(...)] and its dump: [root] keeps its default. *)
Definition model_card (id : string) (i : ModelInfo) : outcome json :=
  created ← int_field (mi_created i);
  owned_by ← str_field (mi_owned_by i);
  parent ← opt_str_field (mi_parent i);
  Ret (JObj [("id", JStr id); ("object", JStr "model"); ("created", created);
             ("owned_by", owned_by); ("root", JNull); ("parent", parent)]%string).

Fixpoint models_loop (items : list (string * ModelInfo)) (existing : gset string) (cards : list json)
    : outcome (gset string * list json) :=
  match items with
  | [] => Ret (existing, cards)
  | (id, i) :: items =>
      if decide (id ∈ existing) then models_loop items existing cards else
      card ← model_card id i;
      models_loop items ({[id]} ∪ existing) (cards ++ [card])
  end.

Fixpoint endpoints_cards (eps : list EndpointInfo) (existing : gset string) (cards : list json)
    : outcome (list json) :=
  match eps with
  | [] => Ret cards
  | e :: eps =>
      '(existing, cards) ← models_loop (model_info e) existing cards;
      endpoints_cards eps existing cards
  end.

Definition show_models (endpoints_now : outcome (list EndpointInfo)) : outcome reply :=
  eps ← endpoints_now;
  cards ← endpoints_cards eps ∅ [];
  Ret (JsonReply 200 (JObj [("object", JStr "list"); ("data", JArr cards)]%string) []).
End Models.

(** ** [/engines] *)
Definition engine_card (e : EndpointInfo) : json :=
  JObj [("engine_id", JStr (Id e)); ("serving_models", JArr (JStr <$> model_names e));
        ("created", JInt (added_timestamp e))]%string.

Fixpoint engines_loop (eps : list EndpointInfo) (existing : gset string) : list json :=
  match eps with
  | [] => []
  | e :: eps => if decide (Id e ∈ existing) then engines_loop eps existing
                else engine_card e :: engines_loop eps ({[Id e]} ∪ existing)
  end.

Definition get_engine_instances (endpoints_now : outcome (list EndpointInfo)) : outcome reply :=
  eps ← endpoints_now; Ret (JsonReply 200 (JArr (engines_loop eps ∅)) []).

Definition show_version (version : string) : reply :=
  JsonReply 200 (JObj [("version", JStr version)]%string) [].

(** ** [/health] *)
(** [dynamic_config] is the watcher's current configuration, if there is one. *)
Definition health (discovery_alive scraper_alive : bool) (dynamic_config : option (list (string * json)))
    : reply :=
  if negb discovery_alive then
    JsonReply 503 (JObj [("status", JStr "Service discovery module is down.")]%string) []
  else if negb scraper_alive then
    JsonReply 503 (JObj [("status", JStr "Engine stats scraper is down.")]%string) []
  else match dynamic_config with
       | Some c => JsonReply 200 (JObj [("status", JStr "healthy");
                     ("dynamic_config", JObj (sorted_by fst c))]%string) []
       | None => JsonReply 200 (JObj [("status", JStr "healthy")]%string) []
       end.

(** ** [/v1/chat/completions] *)
(** [check] is [check_semantic_cache] and [general] is [route_general_request] on
    this request. *)
Definition route_chat_completion {C G : Type} (semantic_cache_available : bool)
    (check : M C (option reply)) (general : M G reply) : M (C * G) reply := λ '(c, g),
  if semantic_cache_available then
    match check c with
    | (Raise e, c) => (Raise e, (c, g))
    | (Ret (Some r), c) => (Ret r, (c, g))
    | (Ret None, c) => let '(o, g) := general g in (o, (c, g))
    end
  else let '(o, g) := general g in (o, (c, g)).

(** ** The gauges *)
(** Values by metric and server label; the host's figures have an empty label. *)
Abbreviation gauges := (gmap (string * string) Q).

Definition request_gauges (st : RequestStats) : list (string * Q) :=
  [("vllm:current_qps", qps st);
   ("vllm:avg_decoding_length", avg_decoding_length st);
   ("vllm:num_prefill_requests", inject_Z (st_in_prefill st));
   ("vllm:num_decoding_requests", inject_Z (st_in_decoding st));
   ("vllm:num_requests_running", inject_Z (st_in_prefill st + st_in_decoding st));
   ("vllm:avg_latency", avg_latency st);
   ("vllm:avg_itl", avg_itl st);
   ("vllm:num_requests_swapped", inject_Z (num_swapped_requests st))]%string.

Definition engine_gauges (es : EngineStats) : list (string * Q) :=
  [("vllm:gpu_prefix_cache_hit_rate", gpu_prefix_cache_hit_rate es);
   ("vllm:gpu_prefix_cache_hits_total", gpu_prefix_cache_hits_total es);
   ("vllm:gpu_prefix_cache_queries_total", gpu_prefix_cache_queries_total es)]%string.

(** [x.labels(server=server).set(v)] for each pair *)
Definition set_gauges (server : string) (vs : list (string * Q)) (g : gauges) : gauges :=
  foldl (λ g '(name, v), <[(name, server) := v]> g) g vs.

Definition set_all {A} (values : A → list (string * Q)) (l : list (string * A)) (g : gauges) : gauges :=
  foldl (λ g '(server, a), set_gauges server (values a) g) g l.

Definition healthy_gauge (_ : EndpointInfo) : list (string * Q) := [("vllm:healthy_pods_total"%string, 1)].

Definition host_gauges (cpu memory disk : Q) : list (string * Q) :=
  [("router_cpu_usage_percent", cpu); ("router_memory_usage_percent", memory);
   ("router_disk_usage_percent", disk)]%string.

(** [/metrics]: the gauges it leaves, which are what it reports. *)
Definition metrics (cpu memory disk now : Q) (engine_stats : gmap string EngineStats)
    (endpoints_now : outcome (list EndpointInfo)) : M (RequestStatsMonitor * gauges) gauges := λ '(mon, g),
  let g := set_gauges "" (host_gauges cpu memory disk) g in
  match get_request_stats now mon with
  | (Raise e, mon) => (Raise e, (mon, g))
  | (Ret stats, mon) =>
      let g := set_all request_gauges (map_to_list stats) g in
      let g := set_all engine_gauges (map_to_list engine_stats) g in
      match endpoints_now with
      | Raise e => (Raise e, (mon, g))
      | Ret eps => let g := set_all healthy_gauge ((λ e, (url e, e)) <$> eps) g in (Ret g, (mon, g))
      end
  end.

(** One round of [log_stats]. *)
Definition log_round (now : Q) (engine_stats : gmap string EngineStats) (eps : list EndpointInfo)
    : M (RequestStatsMonitor * gauges) unit := λ '(mon, g),
  match get_request_stats now mon with
  | (Raise e, mon) => (Raise e, (mon, g))
  | (Ret stats, mon) =>
      (Ret tt, (mon, foldl (λ g e,
         let g := match engine_stats !! url e with
                  | Some es => set_gauges (url e) (engine_gauges es) g
                  | None => g
                  end in
         match stats !! url e with
         | Some st => set_gauges (url e) (request_gauges st) g
         | None => g
         end) g eps))
  end.

(** ** Lemmas: listings *)
Lemma endpoints_cards_flat int_field eps existing cards :
  endpoints_cards int_field eps existing cards =
  ('(_, cards) ← models_loop int_field (eps ≫= model_info) existing cards; Ret cards).
Proof.
  revert existing cards. induction eps as [|e eps IH]; intros existing cards; [done|].
  change ((e :: eps) ≫= model_info) with (model_info e ++ (eps ≫= model_info)).
  cbn [endpoints_cards]. generalize (model_info e). intros l. revert existing cards.
  induction l as [|[id i] l IHl]; intros existing cards; simpl; [apply IH|].
  case_decide; [apply IHl|]. unfold mbind, outcome_bind in *.
  destruct (model_card int_field id i) as [card|]; [apply IHl|done].
Qed.

(** What the loop adds: one card per new id, of its first occurrence. *)
Lemma models_loop_spec int_field items existing cards :
  (∀ id i, (id, i) ∈ items → ∃ card, model_card int_field id i = Ret card) →
  ∃ existing' new, models_loop int_field items existing cards = Ret (existing', cards ++ new.*2) ∧
    NoDup new.*1 ∧ (∀ id, id ∈ new.*1 ↔ id ∈ items.*1 ∧ id ∉ existing) ∧
    ∀ id card, (id, card) ∈ new → ∃ i, dget id items = Some i ∧ model_card int_field id i = Ret card.
Proof.
  revert existing cards. induction items as [|[id i] items IH]; intros existing cards Hok.
  { exists existing, []. simpl. rewrite app_nil_r. split_and!; [done|constructor|set_solver|set_solver]. }
  assert (∀ id' i', (id', i') ∈ items → ∃ card, model_card int_field id' i' = Ret card) as Hok'
    by (intros; apply Hok; by right).
  cbn [models_loop]. case_decide as Hin.
  - destruct (IH existing cards Hok') as (ex' & new & -> & Hnd & Hids & Hcards).
    exists ex', new. split_and!; [done|done| |].
    + intros id'. rewrite Hids. set_solver.
    + intros id' card' Hnew. assert (id' ∈ new.*1) as Hn by (apply list_elem_of_fmap; by exists (id', card')).
      apply Hids in Hn as [_ Hne]. simpl. rewrite decide_False by (by intros ->). by apply Hcards.
  - destruct (Hok id i) as [card Hc]; [left|]. rewrite Hc. cbn [mbind outcome_bind].
    destruct (IH ({[id]} ∪ existing) (cards ++ [card]) Hok') as (ex' & new & -> & Hnd & Hids & Hcards).
    exists ex', ((id, card) :: new). rewrite <- (assoc_L (++)). split_and!; [done| | |].
    + simpl. constructor; [|done]. rewrite Hids. set_solver.
    + intros id'. simpl. rewrite elem_of_cons, Hids. destruct (decide (id' = id)); set_solver.
    + intros id' card' [[= -> ->]|Hnew]%elem_of_cons; simpl; [rewrite decide_True by done; eauto|].
      assert (id' ∈ new.*1) as Hn by (apply list_elem_of_fmap; by exists (id', card')).
      apply Hids in Hn as [_ Hne]. rewrite decide_False by set_solver. by apply Hcards.
Qed.

(** ** Lemmas: gauges *)
Definition or_old (o old : option Q) : option Q := match o with Some v => Some v | None => old end.

Lemma set_gauges_lookup server vs g name s :
  NoDup vs.*1 →
  set_gauges server vs g !! (name, s) =
    if decide (s = server) then or_old (dget name vs) (g !! (name, s)) else g !! (name, s).
Proof.
  revert g. induction vs as [|[n v] vs IH]; intros g Hnd.
  { simpl. by case_decide. }
  simpl in Hnd. apply NoDup_cons in Hnd as [Hn Hnd].
  change (set_gauges server ((n, v) :: vs) g) with (set_gauges server vs (<[(n, server) := v]> g)).
  rewrite IH by done. simpl. case_decide as Hs; [subst s|by rewrite lookup_insert_ne by congruence].
  destruct (decide (name = n)) as [->|Hne].
  - rewrite lookup_insert_eq. simpl.
    replace (dget n vs) with (@None Q) by (symmetry; by apply dget_None). done.
  - by rewrite lookup_insert_ne by congruence.
Qed.

Lemma set_all_lookup {A} (values : A → list (string * Q)) l g name s :
  (∀ a, NoDup (values a).*1) → NoDup l.*1 →
  set_all values l g !! (name, s) =
    match dget s l with Some a => or_old (dget name (values a)) (g !! (name, s)) | None => g !! (name, s) end.
Proof.
  intros Hv. revert g. induction l as [|[server a] l IH]; intros g Hnd; [done|].
  simpl in Hnd. apply NoDup_cons in Hnd as [Hn Hnd].
  change (set_all values ((server, a) :: l) g) with (set_all values l (set_gauges server (values a) g)).
  rewrite IH, set_gauges_lookup by done. simpl. destruct (decide (s = server)) as [->|Hne]; [|done].
  by replace (dget server l) with (@None A) by (symmetry; by apply dget_None).
Qed.

Lemma set_all_healthy (eps : list EndpointInfo) g name s :
  set_all healthy_gauge ((λ e, (url e, e)) <$> eps) g !! (name, s) =
    if decide (name = "vllm:healthy_pods_total"%string ∧ s ∈ url <$> eps) then Some 1%Q
    else g !! (name, s).
Proof.
  revert g. induction eps as [|e eps IH]; intros g.
  { rewrite decide_False; [done|]. set_solver. }
  change (set_all healthy_gauge ((λ e, (url e, e)) <$> e :: eps) g)
    with (set_all healthy_gauge ((λ e, (url e, e)) <$> eps) (set_gauges (url e) (healthy_gauge e) g)).
  rewrite IH. destruct (decide (name = "vllm:healthy_pods_total"%string ∧ s ∈ url <$> eps)) as [[-> Hs]|Hn].
  { rewrite decide_True; [done|]. split; [done|]. csimpl. by right. }
  destruct (decide (name = "vllm:healthy_pods_total"%string ∧ s ∈ url <$> e :: eps)) as [[-> Hs]|Hn'].
  - csimpl in Hs. apply elem_of_cons in Hs as [->|Hs]; [|by destruct Hn]. apply lookup_insert_eq.
  - apply lookup_insert_ne. intros [= <- <-]. apply Hn'. split; [done|]. csimpl. left.
Qed.

Lemma dget_map_to_list {A} (m : gmap string A) k : dget k (map_to_list m) = m !! k.
Proof.
  destruct (m !! k) as [a|] eqn:E.
  - apply elem_dget; [apply NoDup_fst_map_to_list|]. by apply elem_of_map_to_list.
  - apply dget_None. intros ([k' a] & -> & Hk)%list_elem_of_fmap.
    apply elem_of_map_to_list in Hk. simpl in E. congruence.
Qed.

Create HintDb gauges.
Lemma request_gauges_nodup st : NoDup (request_gauges st).*1.
Proof. apply (bool_decide_unpack _). reflexivity. Qed.
Lemma engine_gauges_nodup e : NoDup (engine_gauges e).*1.
Proof. apply (bool_decide_unpack _). reflexivity. Qed.
Lemma host_gauges_nodup cpu memory disk : NoDup (host_gauges cpu memory disk).*1.
Proof. apply (bool_decide_unpack _). reflexivity. Qed.
#[export] Hint Resolve request_gauges_nodup engine_gauges_nodup host_gauges_nodup : gauges.
#[export] Hint Extern 1 (NoDup (map_to_list _).*1) => apply NoDup_fst_map_to_list : gauges.

(** The three groups have different names. *)
Lemma request_gauge_name name st v :
  dget name (request_gauges st) = Some v →
  name ≠ "vllm:healthy_pods_total"%string ∧ ∀ e, dget name (engine_gauges e) = None.
Proof. simpl. repeat case_decide; subst; done. Qed.

Lemma engine_gauge_name name e v :
  dget name (engine_gauges e) = Some v → name ≠ "vllm:healthy_pods_total"%string.
Proof. simpl. repeat case_decide; subst; done. Qed.

(** ** Properties *)
(** What [ModelCard] accepts. *)
Definition info_ok (int_field : json → outcome json) (i : ModelInfo) : Prop :=
  (∃ z, int_field (mi_created i) = Ret (JInt z)) ∧ (∃ o, mi_owned_by i = JStr o) ∧
  (mi_parent i = JNull ∨ ∃ p, mi_parent i = JStr p).

Lemma info_ok_card int_field id i : info_ok int_field i → ∃ card, model_card int_field id i = Ret card.
Proof.
  intros ([z Hz] & [o Ho] & Hp). unfold model_card. rewrite Hz, Ho. simpl.
  destruct Hp as [->|[p ->]]; simpl; eauto.
Qed.

(** The model listing names every model that some engine offers exactly
    once, with the creation time, owner and parent that the first engine
    offering it reports: when every engine sent well-typed model information,
    the reply is a list of cards with distinct ids, and the ids are those of all
    engines' models. *)
Theorem models_listed_once int_field eps :
  (∀ e id i, e ∈ eps → (id, i) ∈ model_info e → info_ok int_field i) →
  ∃ cards, show_models int_field (Ret eps) =
      Ret (JsonReply 200 (JObj [("object", JStr "list"); ("data", JArr cards.*2)]%string) []) ∧
    NoDup cards.*1 ∧
    (∀ id, id ∈ cards.*1 ↔ ∃ e, e ∈ eps ∧ id ∈ dkeys (model_info e)) ∧
    ∀ id card, (id, card) ∈ cards →
      ∃ i, dget id (eps ≫= model_info) = Some i ∧ model_card int_field id i = Ret card.
Proof.
  intros Hok. destruct (models_loop_spec int_field (eps ≫= model_info) ∅ [])
    as (ex' & new & Hloop & Hnd & Hids & Hcards).
  { intros id i (e & Hi & He)%list_elem_of_bind. eapply info_ok_card, Hok; eauto. }
  exists new. unfold show_models. cbn [mbind outcome_bind]. rewrite endpoints_cards_flat, Hloop.
  split_and!; try done. intros id. rewrite Hids, list_elem_of_fmap. unfold dkeys.
  setoid_rewrite list_elem_of_fmap. split.
  - intros [([id' i] & -> & (e & Hi & He)%list_elem_of_bind) _]. exists e. split; [done|]. by exists (id', i).
  - intros (e & He & [id' i] & -> & Hi). split; [|set_solver]. exists (id', i). split; [done|].
    apply list_elem_of_bind. eauto.
Qed.

Definition ex_info : ModelInfo :=
  mkModelInfo (JStr "m1") (JStr "model") (JInt 5) (JStr "vllm") JNull JNull false.
Definition ex_endpoint (u : string) : EndpointInfo :=
  mkEndpointInfo u ["m1"%string] u 3 None false None None None [("m1"%string, ex_info)].

Lemma models_listed_once_witness :
  ∃ cards : list (string * json),
    show_models Ret (Ret [ex_endpoint "http://a"; ex_endpoint "http://b"]) =
      Ret (JsonReply 200 (JObj [("object", JStr "list"); ("data", JArr cards.*2)]%string) []) ∧
    NoDup cards.*1 ∧
    (∀ id, id ∈ cards.*1 ↔ ∃ e, e ∈ [ex_endpoint "http://a"; ex_endpoint "http://b"] ∧
       id ∈ dkeys (model_info e)) ∧
    ∀ id card, (id, card) ∈ cards →
      ∃ i, dget id ([ex_endpoint "http://a"; ex_endpoint "http://b"] ≫= model_info) = Some i ∧
        model_card Ret id i = Ret card.
Proof.
  apply (models_listed_once Ret). intros e id i He Hi.
  assert (i = ex_info) as ->.
  { apply elem_of_cons in He as [->|He]; [|apply list_elem_of_singleton in He as ->];
      apply list_elem_of_singleton in Hi; by simplify_eq. }
  split_and!; [by exists 5%Z|by exists "vllm"%string|by left].
Defined.

(** [/metrics] reports the current statistics: for every engine with
    request statistics each of its gauges has the value the statistics give
    (running requests being the sum of prefilling and decoding ones), for every
    engine with engine statistics the cache gauges have theirs, every discovered
    engine counts as a healthy pod, and the gauges of a server that none of the
    three mentions keep their old values. *)
Theorem metrics_report_stats cpu memory disk now es eps mon g stats mon' :
  get_request_stats now mon = (Ret stats, mon') →
  ∃ g', metrics cpu memory disk now es (Ret eps) (mon, g) = (Ret g', (mon', g')) ∧
    (∀ server st name v, stats !! server = Some st → dget name (request_gauges st) = Some v →
       g' !! (name, server) = Some v) ∧
    (∀ server e name v, es !! server = Some e → dget name (engine_gauges e) = Some v →
       g' !! (name, server) = Some v) ∧
    (∀ e, e ∈ eps → g' !! ("vllm:healthy_pods_total"%string, url e) = Some 1%Q) ∧
    (∀ name server, server ≠ EmptyString → stats !! server = None → es !! server = None →
       server ∉ url <$> eps → g' !! (name, server) = g !! (name, server)).
Proof.
  intros Hs. unfold metrics. rewrite Hs. eexists. split; [done|].
  set (g1 := set_gauges _ _ g). split_and!.
  - intros server st name v Hl Hv. destruct (request_gauge_name _ _ _ Hv) as [Hn Hnone].
    rewrite set_all_healthy, decide_False by naive_solver.
    rewrite !set_all_lookup, !dget_map_to_list, Hl, Hv by auto with gauges.
    destruct (es !! server); [by rewrite Hnone|done].
  - intros server e name v Hl Hv.
    rewrite set_all_healthy, decide_False by (intros [? _]; by eapply engine_gauge_name).
    by rewrite set_all_lookup, dget_map_to_list, Hl, Hv by auto with gauges.
  - intros e Hin. rewrite set_all_healthy, decide_True; [done|]. split; [done|].
    by apply list_elem_of_fmap_2.
  - intros name server Hne H1 H2 H3. rewrite set_all_healthy, decide_False by naive_solver.
    rewrite !set_all_lookup, !dget_map_to_list, H1, H2 by auto with gauges.
    unfold g1. by rewrite set_gauges_lookup, decide_False by auto with gauges.
Qed.

Definition ex_monitor : RequestStatsMonitor :=
  match init_monitor (Some 10%Q) with
  | Ret m => (on_new_request "http://a" "r1" 1 m).2
  | Raise _ => mkRSM 0 ∅ ∅ ∅ ∅ ∅ ∅ ∅ ∅ ∅ ∅ None
  end.

Lemma metrics_report_stats_witness :
  ∃ g', metrics 5 10 20 2 ∅ (Ret [ex_endpoint "http://b"]) (ex_monitor, ∅)
      = (Ret g', ((get_request_stats 2 ex_monitor).2, g')) ∧
    g' !! ("vllm:healthy_pods_total"%string, "http://b"%string) = Some 1%Q.
Proof.
  destruct (metrics_report_stats 5 10 20 2 ∅ [ex_endpoint "http://b"] ex_monitor ∅
    (match (get_request_stats 2 ex_monitor).1 with Ret m => m | Raise _ => ∅ end)
    (get_request_stats 2 ex_monitor).2) as (g' & Hm & _ & _ & Hh & _).
  - vm_compute. reflexivity.
  - exists g'. split; [exact Hm|]. apply (Hh (ex_endpoint "http://b")). apply elem_of_cons. by left.
Defined.

(** Serving a chat request from the cache touches no engine. *)
Lemma cached_chat_stays {C G} (check : M C (option reply)) (general : M G reply) c c' g r :
  check c = (Ret (Some r), c') → route_chat_completion true check general (c, g) = (Ret r, (c', g)).
Proof. intros Hc. unfold route_chat_completion. by rewrite Hc. Qed.
