(* ===== verification/ChatCache.v ===== *)
(** * Chat completions through the semantic cache

    [/v1/chat/completions] first asks the semantic cache, and forwards the request
    otherwise; when the answer is complete, the request service hands it to the
    cache.  Here these parts are put together: [routers/main_router.py] with
    [semantic_cache_integration.py] and [request.py]. *)
From stdpp Require Import base list strings gmap.
From Stdlib Require Import Ascii QArith.
From S2P Require Import Prelude PyDict PyStr Json Endpoint RequestStats HashRing Routing Utils Config Request RequestSpec SemanticCache Main.

Section ChatCache.
Context {E : Type} `{!FlatIP E} {R : Type} `{!RouterOps R}.
Context (encode : string → string → E) (py_str : json → string) (ge_list : Q → list json → outcome bool).
Context (loads : string → outcome json).

(** The [await store_in_semantic_cache(...)] of a finished stream, for what the gate
    recorded since [g]. *)
Definition store_recorded (w : write_outcome) (g g' : @gate R) : M (CacheState (E := E)) unit := λ s,
  foldl (λ r entry, match r with
                    | (Ret _, s) => let '(endpoint, method, body, chunk) := entry in
                                    store_in_semantic_cache encode py_str loads w endpoint method body chunk s
                    | _ => r
                    end) (Ret tt, s) (drop (length (cache_stores g)) (cache_stores g')).

(** The handler on a request with this body, the cache and the gate. *)
Definition chat (uuid : string) (now : Z) (general : M (@gate R) reply) (body : string)
    : M (CacheState (E := E) * @gate R) reply :=
  route_chat_completion true (check_semantic_cache encode py_str ge_list loads uuid now body) general.
End ChatCache.

Lemma store_recorded_one {E} `{!FlatIP E} {R} encode py_str loads w (g g' : @gate R) entry (s : CacheState (E := E)) :
  cache_stores g' = cache_stores g ++ [entry] →
  store_recorded encode py_str loads w g g' s =
    store_in_semantic_cache encode py_str loads w entry.1.1.1 entry.1.1.2 entry.1.2 entry.2 s.
Proof. intros Hst. unfold store_recorded. rewrite Hst, drop_app_length. by destruct entry as [[[? ?] ?] ?]. Qed.

(** The whole answer, for a request that does not stream. *)
Lemma process_stream_stores {R : Type} t_first t_end rq body u id endpoint resp (g : @gate R) :
  Inv (monitor g) → br_error resp = None →
  ∃ g', process_stream true t_first t_end None rq body u id endpoint false resp g = (Ret tt, g') ∧
    cache_stores g' = cache_stores g ++ [(endpoint, rq_method rq, body, join "" (br_chunks resp))].
Proof.
  intros HI Herr. destruct (stream_loop_events t_first u id (br_chunks resp) g HI) as (m1 & _ & HI1 & Hloop).
  destruct (on_request_complete_ok u id t_end t_end m1 HI1) as (m2 & Hc & _).
  unfold process_stream, process_finish, mbind, M_bind. rewrite Hloop, Herr.
  unfold mret, M_ret, with_monitor. simpl. rewrite Hc. by eexists.
Qed.

(** C36. A chat request that was answered by an engine is answered from the cache
    when it comes again: once the stream of the engine's answer is complete and
    the request service has handed it to the cache, the same request gets the
    messages and the usage of that answer and no engine is involved, provided
    that the request does not stream or skip the cache and names a model and no
    alias, the cached vectors are less similar to it than it is to itself, and
    this reaches the threshold. *)
Theorem chat_answer_is_cached {E} `{!FlatIP E, !FlatIPLaws E} {R : Type} (encode : string → string → E) py_str
    ge_list loads m (s : CacheState (E := E)) c w uuid now rq u id resp t_first t_end b name msgs ms usage e t
    (g : @gate R) :
  Inv (monitor g) → br_error resp = None → rq_method rq = "POST"%string →
  reachable encode py_str ge_list loads m s → instance s = Some c → is_semantic_cache_enabled s = true →
  loads (rq_body rq) = Ret (JObj b) → dget "model"%string b = Some (JStr name) →
  truthy (dict_get "messages" (JArr []) b) = true → dict_get "cache_similarity_threshold" JNull b = JNull →
  prepare_store loads (rq_body rq) (join "" (br_chunks resp)) = Ret (Some (msgs, ms, JStr name, usage)) →
  embed encode py_str m msgs = Ret e → dim e = ix_dim (a_index (cdb c)) →
  (∀ v, v ∈ ix_vecs (a_index (cdb c)) → (ip v e < ip e e)%Q) →
  default_similarity_threshold c = JFloat t → (t <= ip e e)%Q →
  ∃ g1 s1 s2,
    process_stream true t_first t_end None rq (rq_body rq) u id "/v1/chat/completions" false resp g = (Ret tt, g1) ∧
    store_recorded encode py_str loads w g g1 s = (Ret tt, s1) ∧
    ∀ general, chat encode py_str ge_list loads uuid now general (rq_body rq) (s1, g1) =
      (Ret (JsonReply 200 (cached_reply uuid now (JStr name) (mkHit ms (ip e e) usage)) []), (s2, g1)).
Proof.
  intros HI Herr Hpost Hreach Hi Hen Hb Hmodel Hmsgs Hthr Hprep He Hdim Hless Ht Hle.
  destruct (process_stream_stores t_first t_end rq (rq_body rq) u id "/v1/chat/completions" resp g HI Herr) as (g1 & Hg & Hst).
  destruct (stored_chat_lookup encode py_str ge_list loads m s c w uuid now (rq_body rq) (join "" (br_chunks resp)) b name
    msgs ms usage e t Hreach Hi Hen Hb Hmodel Hmsgs Hthr Hprep He Hdim Hless Ht Hle) as (s1 & s2 & H1 & H2 & _).
  exists g1, s1, s2. split; [done|]. rewrite (store_recorded_one _ _ _ _ _ _ _ _ Hst). simpl. rewrite Hpost.
  split; [done|]. intros general. by apply cached_chat_stays.
Qed.

Definition ex_rq : request := mkRequest "POST" [] "req" [].
Definition ex_resp : backend_response := mkResponse 200 [] ["re"; "sp"]%string None.

Lemma chat_answer_is_cached_witness :
  ∃ g1 s1 s2,
    process_stream true 1 2 None ex_rq "req" "http://a:1" "r" "/v1/chat/completions" false ex_resp toy_gate = (Ret tt, g1) ∧
    store_recorded ex_encode ex_str ex_loads Written toy_gate g1 ex_started = (Ret tt, s1) ∧
    ∀ general, chat ex_encode ex_str ex_ge ex_loads "u" 7 general "req" (s1, g1) =
      (Ret (JsonReply 200 (cached_reply "u" 7 (JStr "m1") (mkHit [ex_answer] (ip [1; 0]%Z [1; 0]%Z) no_usage)) []), (s2, g1)).
Proof.
  apply (chat_answer_is_cached ex_encode ex_str ex_ge ex_loads "m" ex_started
    (default (mkCache "" (empty_adapter 0 (mkDisk None None)) JNull ∅ ∅ 0) (instance ex_started))
    Written "u" 7 ex_rq "http://a:1" "r" ex_resp 1 2 ex_body "m1" ex_messages [ex_answer] no_usage [1; 0]%Z (95 # 100) toy_gate);
    try (vm_compute; reflexivity).
  - apply fresh_monitor_inv. by intros H.
  - exists ex_started. split; [|apply rtc_refl].
    exists true, {["SemanticCache"%string]}, 2%nat, Written, Written, (JFloat (95 # 100)), (Ret tt).
    by split_and!.
  - intros v Hv. by apply elem_of_nil in Hv.
  - vm_compute. discriminate.
Defined.

(** ** Aliases *)
(** No entry of the cache is about the model [m]. *)
Definition no_entry {E} (m : string) (s : CacheState (E := E)) : Prop :=
  ∀ c, instance s = Some c → Forall (λ md, json_eqb (en_model md) (JStr m) = false) (a_metadata (cdb c)).

Lemma no_entry_misses {E} `{!FlatIP E} (encode : string → string → E) py_str ge_list loads uuid now body b m
    (s : CacheState (E := E)) r s' :
  loads body = Ret (JObj b) → dget "model"%string b = Some (JStr m) → no_entry m s →
  check_semantic_cache encode py_str ge_list loads uuid now body s ≠ (Ret (Some r), s').
Proof.
  intros Hb Hm Hno Hc. unfold check_semantic_cache in Hc. destruct (is_semantic_cache_enabled s); [|done].
  rewrite Hb in Hc. simpl in Hc. destruct (instance s) as [c|] eqn:Ei; [|done]. cbn [mbind outcome_bind] in Hc.
  destruct (truthy _ || _); [done|]. destruct (log_first _); [|done]. cbn [mbind outcome_bind] in Hc.
  replace (dict_get "model" (JStr "") b) with (JStr m) in Hc by (unfold dict_get; by rewrite Hm).
  unfold search, mbind, outcome_bind in Hc. destruct (get_embedding _ _ _ _) as [e|]; [|done].
  unfold adapter_search, mbind, outcome_bind in Hc. destruct (Nat.eqb _ 0); [done|].
  destruct (negb _); [done|]. destruct (nearest _ _) as [[i d]|]; [|done]. destruct (ge_threshold _ _ _) as [[]|]; try done.
  simpl in Hc. destruct (a_metadata (cdb c) !! i) as [md|] eqn:Emd; [|done]. simpl in Hc.
  pose proof (Forall_lookup_1 _ _ _ _ (Hno c Ei) Emd) as Hne. simpl in Hne. by rewrite Hne in Hc.
Qed.

Lemma store_model {E} `{!FlatIP E} (encode : string → string → E) py_str w endpoint method body chunk d m m' loads
    (s : CacheState (E := E)) :
  loads body = Ret (JObj d) → dget "model"%string d = Some (JStr m') → m' ≠ m → no_entry m s →
  no_entry m (store_in_semantic_cache encode py_str loads w endpoint method body chunk s).2.
Proof.
  intros Hd Hm' Hne Hno. unfold store_in_semantic_cache. destruct (negb _); [done|].
  destruct (instance s) as [c|] eqn:Ei; [|done]. case_decide; [|done].
  destruct (prepare_store loads body chunk) as [[[[[msgs ms] model] usage]|]|] eqn:Ep; try done.
  assert (model = JStr m') as ->.
  { unfold prepare_store in Ep. rewrite Hd in Ep. cbn [mbind outcome_bind jget] in Ep.
    destruct (truthy _); [done|]. destruct (truthy _); [done|]. destruct (loads chunk) as [resp|[]]; try done.
    cbn [mbind outcome_bind] in Ep. unfold mbind, outcome_bind in Ep.
    repeat case_match; simplify_eq. unfold dict_get. by rewrite Hm'. }
  intros c' [= <-]. unfold store. specialize (Hno c Ei). destruct (get_embedding _ _ _ _); [|done].
  unfold adapter_store. destruct (negb _); simpl; [done|]. apply Forall_app. split; [done|]. apply Forall_singleton.
  simpl. destruct (String.eqb_spec m' m); done.
Qed.

(** An answer to a request that names an alias is stored for the model behind the
    alias, but looked up for the alias: it is never found. *)
Lemma alias_never_cached {E} `{!FlatIP E} (encode : string → string → E) py_str ge_list loads dumps w endpoint method
    chunk uuid now aliases m m' body d (s : CacheState (E := E)) r s' :
  loads body = Ret (JObj d) → dget "model"%string d = Some (JStr m) → aliases ≫= dget m = Some m' → m' ≠ m →
  (∀ v, v = JObj (rewritten dumps aliases m body d).2 → loads (dumps v) = Ret v) → no_entry m s →
  check_semantic_cache encode py_str ge_list loads uuid now body
    (store_in_semantic_cache encode py_str loads w endpoint method (rewritten dumps aliases m body d).1 chunk s).2
    ≠ (Ret (Some r), s').
Proof.
  intros Hd Hm Ha Hne Hrt Hno. apply (no_entry_misses encode py_str ge_list loads uuid now body d m); [done|done|].
  eapply store_model; [by apply rewritten_loads| |exact Hne|done].
  rewrite (rewritten_model dumps aliases m body d Hm). unfold resolved. by rewrite Ha.
Qed.
