(* ===== verification/Lifecycle.v ===== *)
(** * The life of the process: background threads, the shared HTTP client and
    [app.lifespan]

    The scraper of engine statistics and the watcher of the configuration file
    are threads with a program counter and a [running] flag; a schedule is a
    list of turns of the main thread and of these two, each carrying what the
    outside world answers.  The main thread works off the statements of
    [lifespan] after its [yield]; a [join] waits for a dead thread.  Closing a
    service discovery may block (the Kubernetes ones join a watcher that waits for
    its stream, the static one waits for its event loop) and may raise
    ([DiscoveryThreads] has both); a turn says how the call it is in fares. *)
From stdpp Require Import base list strings gmap.
From Stdlib Require Import QArith.
From S2P Require Import Prelude PyDict PyStr Json Endpoint EngineStats HashRing Routing StaticDiscovery K8sDiscovery Config Dynamic.

Local Open Scope nat_scope.

(** ** [AiohttpClientWrapper] *)
(** The session in [async_client], the sessions that are open, and the number of
    the next session. *)
Record ClientWrapper := mkClient {
  async_client : option nat;
  open_sessions : gset nat;
  next_session : nat
}.

Definition client_start : M ClientWrapper unit := modify (λ c,
  mkClient (Some (next_session c)) ({[next_session c]} ∪ open_sessions c) (S (next_session c))).

Definition client_stop : M ClientWrapper unit := λ c,
  match async_client c with
  | None => (Raise AttributeError, c)
  | Some i => (Ret tt, mkClient None (open_sessions c ∖ {[i]}) (next_session c))
  end.

(** Calling the wrapper *)
Definition client_call (c : ClientWrapper) : outcome nat := or_raise AssertionError (async_client c).

(** ** A thread that works, naps and looks at its flag *)
(** At the test of [while self.running], in the body, at the test of
    [_sleep_or_break] with so many naps to come, in a nap, or ended. *)
Inductive pc : Type := Head | Work | Test (n : nat) | Nap (n : nat) | Dead.
#[global] Instance pc_eq_dec : EqDecision pc.
Proof. solve_decision. Defined.

Record thread := mkThread { t_running : bool; t_pc : pc }.

Definition spawned : thread := mkThread true Head.

(** [is_alive()] *)
Definition is_alive (t : thread) : bool := bool_decide (t_pc t ≠ Dead).

(** A test of [_sleep_or_break] with [n] naps to come. *)
Definition nap_test (running : bool) (n : nat) : pc :=
  match n with O => Head | S n => if running then Nap n else Head end.

(** One turn of the thread: an exception of the body ends it. *)
Definition thread_step {G} (naps : nat) (body : M G unit) (t : thread) (g : G) : thread * G :=
  let go p := mkThread (t_running t) p in
  match t_pc t with
  | Head => (go (if t_running t then Work else Dead), g)
  | Work => match body g with
            | (Ret _, g') => (go (Test naps), g')
            | (Raise _, g') => (go Dead, g')
            end
  | Test n => (go (nap_test (t_running t) n), g)
  | Nap n => (go (Test n), g)
  | Dead => (t, g)
  end.

(** [self.running = False] *)
Definition lower_flag (t : thread) : thread := mkThread false (t_pc t).

(** Turns a thread still takes after its flag is lowered. *)
Definition thread_rank (t : thread) : nat :=
  if t_running t then 4
  else match t_pc t with Dead => 0 | Head => 1 | Test _ => 2 | Nap _ | Work => 3 end.

(** ** The process *)
(** The statements of [lifespan] after the [yield]. *)
Inductive shut : Type :=
| StopClient | LowerScraper | JoinScraper | CloseDiscovery | LowerWatcher | JoinWatcher | CleanupRouters.
#[global] Instance shut_eq_dec : EqDecision shut.
Proof. solve_decision. Defined.

Definition lifespan_stop : list shut :=
  [StopClient; LowerScraper; JoinScraper; CloseDiscovery; LowerWatcher; JoinWatcher; CleanupRouters].

Section Process.
Context {ring : Type} `{!HashRing ring} {tokenizer : Type}.
Context (ids : list string) (t0 : Z) (load_kube_config : outcome unit).
Context (import_callbacks : string → string → outcome string).
Context (parse_families : string → outcome (list (list (string * Q)))) (md5 : string → string).
(** [int(self.scrape_interval / check_interval)] and the same for the watcher *)
Context (scrape_naps watch_naps : nat).

Local Abbreviation System := (@Dynamic.System ring tokenizer).

Record process := mkProcess {
  p_client : ClientWrapper;
  p_sys : System;
  p_stats : list (string * EngineStats);
  p_scraper : thread;
  p_watcher : option (thread * namespace);  (* with [current_config] *)
  p_todo : list shut;
  p_error : option exn
}.

Definition set_sys (s : System) (p : process) : process :=
  mkProcess (p_client p) s (p_stats p) (p_scraper p) (p_watcher p) (p_todo p) (p_error p).

Definition next_todo (p : process) : process :=
  mkProcess (p_client p) (p_sys p) (p_stats p) (p_scraper p) (p_watcher p) (tail (p_todo p)) (p_error p).

(** An exception of [lifespan] skips its other statements. *)
Definition abort (e : exn) (p : process) : process :=
  mkProcess (p_client p) (p_sys p) (p_stats p) (p_scraper p) (p_watcher p) [] (Some e).

(** [get_service_discovery().get_endpoint_info()] *)
Definition current_endpoints (now : Z) (s : System) : outcome (list EndpointInfo) :=
  d ← get_service_discovery s;
  match d with
  | DStatic sd => static_get_endpoint_info md5 now sd
  | DPodIP _ k => Ret (get_endpoint_info k)
  | DServiceName _ k => Ret (svc_get_endpoint_info k)
  end.

(** A turn, with what its calls return. *)
Inductive turn : Type :=
| TMain (cl : option close_results)
| TScraper (now : Z) (http_get : string → outcome string)
| TWatcher (cl : option close_results) (loaded : outcome namespace).

Definition scraper_turn (now : Z) (http_get : string → outcome string) (p : process) : process :=
  let '(t, stats) := thread_step scrape_naps
    (scrape_metrics parse_families http_get (current_endpoints now (p_sys p))) (p_scraper p) (p_stats p) in
  mkProcess (p_client p) (p_sys p) stats t (p_watcher p) (p_todo p) (p_error p).

(** [DynamicConfigWatcher.__init__] and the first half of its [close] *)
Definition watcher_thread (init_config : namespace) : thread * namespace := (spawned, init_config).
Definition lower_watcher (w : thread * namespace) : thread * namespace := (lower_flag w.1, w.2).

(** The body of [_watch_worker] catches every exception. *)
Definition watch_body (cl : close_results) (loaded : outcome namespace) : M (namespace * System) unit := λ '(c, s),
  (Ret tt, watch_once ids t0 load_kube_config import_callbacks cl loaded c s).

(** A turn of the watcher: with [None] the body has not returned yet, since the
    discovery it closes blocks. *)
Definition watcher_step (cl : option close_results) (loaded : outcome namespace) (w : thread * namespace) (s : System)
    : (thread * namespace) * System :=
  match cl, t_pc w.1 with
  | None, Work => (w, s)
  | _, _ =>
      let '(t, (c, s)) := thread_step watch_naps (watch_body (default closes_well cl) loaded) w.1 (w.2, s) in
      ((t, c), s)
  end.

Definition watcher_turn (cl : option close_results) (loaded : outcome namespace) (p : process) : process :=
  match p_watcher p with
  | None => p
  | Some w =>
      let '(w, s) := watcher_step cl loaded w (p_sys p) in
      mkProcess (p_client p) s (p_stats p) (p_scraper p) (Some w) (p_todo p) (p_error p)
  end.

(** [service_discovery.close()] when it returns *)
Definition close_discovery (d : discovery) (s : System) : System :=
  set_sd (service_discovery s) [d] s.

Definition cleanup (kv_result : outcome unit) : M System unit := λ s,
  let '(r, reg) := cleanup_routing_logic kv_result (registry s) in
  (r, mkSystem (service_discovery s) (closed_discoveries s) reg (app_router s) (app_callbacks s) (app_clients s)).

(** With [None] the [close()] of the discovery has not returned yet. *)
Definition main_turn (cl : option close_results) (p : process) : process :=
  match p_todo p with
  | [] => p
  | StopClient :: _ =>
      match client_stop (p_client p) with
      | (Raise e, _) => abort e p
      | (Ret _, c) => next_todo (mkProcess c (p_sys p) (p_stats p) (p_scraper p) (p_watcher p) (p_todo p) (p_error p))
      end
  | LowerScraper :: _ =>
      next_todo (mkProcess (p_client p) (p_sys p) (p_stats p) (lower_flag (p_scraper p)) (p_watcher p) (p_todo p) (p_error p))
  | JoinScraper :: _ => if is_alive (p_scraper p) then p else next_todo p
  | CloseDiscovery :: _ =>
      match get_service_discovery (p_sys p) with
      | Raise e => abort e p
      | Ret d =>
          match sd_result <$> cl with
          | None => p
          | Some (Raise e) => abort e p
          | Some (Ret _) => next_todo (set_sys (close_discovery d (p_sys p)) p)
          end
      end
  | LowerWatcher :: _ =>
      next_todo (mkProcess (p_client p) (p_sys p) (p_stats p) (p_scraper p)
        (lower_watcher <$> p_watcher p) (p_todo p) (p_error p))
  | JoinWatcher :: _ =>
      match p_watcher p with
      | Some (t, _) => if is_alive t then p else next_todo p
      | None => next_todo p
      end
  | CleanupRouters :: _ =>
      match cleanup (kv_result (default closes_well cl)) (p_sys p) with
      | (Raise e, s) => abort e (set_sys s p)
      | (Ret _, s) => next_todo (set_sys s p)
      end
  end.

Definition take_turn (t : turn) (p : process) : process :=
  match t with
  | TMain cl => main_turn cl p
  | TScraper now http_get => scraper_turn now http_get p
  | TWatcher cl loaded => watcher_turn cl loaded p
  end.

Definition run_turns (ts : list turn) (p : process) : process := foldl (λ p t, take_turn t p) p ts.

(** [lifespan] before the [yield]; [batch_init] is what initialising the batch
    processor gives, if there is one. *)
Definition discovery_sessions (now : Z) (d : discovery) : M App unit :=
  match d with
  | DStatic sd => static_initialize_client_sessions md5 now sd
  | DPodIP c k => λ a,
      if labels_given (kc_prefill c) (kc_decode c)
      then client_sessions_loop true (kc_prefill c) (kc_decode c) (get_endpoint_info k) a
      else (Ret tt, a)
  | DServiceName c k => svc_initialize_client_sessions (kc_prefill c) (kc_decode c) k
  end.

Definition lifespan_start (now : Z) (batch_init : option (outcome unit)) : M process unit := λ p,
  let '(_, c) := client_start (p_client p) in
  let p := mkProcess c (p_sys p) (p_stats p) (p_scraper p) (p_watcher p) lifespan_stop (p_error p) in
  match batch_init with
  | Some (Raise e) => (Raise e, p)
  | _ =>
      match get_service_discovery (p_sys p) with
      | Raise e => (Raise e, p)
      | Ret d =>
          let '(r, a) := discovery_sessions now d (app_clients (p_sys p)) in
          (r, set_sys (mkSystem (service_discovery (p_sys p)) (closed_discoveries (p_sys p)) (registry (p_sys p))
                 (app_router (p_sys p)) (app_callbacks (p_sys p)) a) p)
      end
  end.

(** [EngineStatsScraper(scrape_interval)] *)
Definition scraper_init (scrape_interval : json) : outcome thread :=
  if is_none scrape_interval then Raise ValueError else Ret spawned.
End Process.

(** ** Threads *)
Section Threads.
Context {G : Type} (naps : nat).
Implicit Types (body : M G unit) (t : thread) (g : G).

(** A turn leaves the flag alone; with the flag lowered it brings the thread
    closer to its end, and a dead thread stays so. *)
Lemma thread_step_rank body t g :
  t_running (thread_step naps body t g).1 = t_running t ∧
  (if t_running t then thread_rank (thread_step naps body t g).1 = 4
   else if is_alive t then thread_rank (thread_step naps body t g).1 < thread_rank t
   else (thread_step naps body t g).1 = t).
Proof.
  destruct t as [r p]. unfold thread_step, thread_rank, is_alive. simpl.
  destruct p as [| |[|n]|n|]; destruct r; simpl; try (split; [done|lia]); try done.
  all: destruct (body g) as [[] g']; simpl; split; done || lia.
Qed.

Lemma dead_stays body t g : t_pc t = Dead → thread_step naps body t g = (t, g).
Proof. intros H. unfold thread_step. by rewrite H. Qed.

(** The turns of one thread, its body being the same each time. *)
Definition thread_turns body (n : nat) (tg : thread * G) : thread * G :=
  Nat.iter n (λ tg, thread_step naps body tg.1 tg.2) tg.

Lemma nap_turns body r g n : r = true →
  thread_turns body (2 * n + 1) (mkThread r (Test n), g) = (mkThread r Head, g).
Proof.
  intros ->. induction n as [|n IH]; [done|]. unfold thread_turns in *.
  replace (2 * S n + 1) with (2 * n + 1 + 2) by lia. rewrite Nat.iter_add. exact IH.
Qed.

Lemma thread_round body g g' :
  body g = (Ret tt, g') → thread_turns body (2 * naps + 3) (spawned, g) = (spawned, g').
Proof.
  intros Hb. unfold thread_turns. replace (2 * naps + 3) with (2 * naps + 1 + 2) by lia.
  rewrite Nat.iter_add. simpl (Nat.iter 2 _ _). unfold spawned. cbn [thread_step fst snd t_pc t_running].
  rewrite Hb. by apply nap_turns.
Qed.
End Threads.

(** ** Shutting down *)
Section Shutdown.
Context {ring : Type} `{!HashRing ring} {tokenizer : Type}.
Context (ids : list string) (t0 : Z) (load_kube_config : outcome unit).
Context (import_callbacks : string → string → outcome string).
Context (parse_families : string → outcome (list (list (string * Q)))) (md5 : string → string).
Context (scrape_naps watch_naps : nat).
Implicit Types (p : @process ring tokenizer).
Local Abbreviation step :=
  (take_turn ids t0 load_kube_config import_callbacks parse_families md5 scrape_naps watch_naps).
Local Abbreviation run :=
  (run_turns ids t0 load_kube_config import_callbacks parse_families md5 scrape_naps watch_naps).

(** What is left to do. *)
Definition watcher_rank p : nat := match p_watcher p with Some (t, _) => thread_rank t | None => 0 end.
Definition rank p : nat := length (p_todo p) + thread_rank (p_scraper p) + watcher_rank p.

(** The registry of routers never has a class twice. *)
Definition registry_wf (s : @System ring tokenizer) : Prop := dict_wf (registry s).

Lemma initialize_registry_wf logic kw (reg : list (router_kind * @router ring tokenizer)) :
  dict_wf reg → dict_wf (initialize_routing_logic logic kw reg).2.
Proof.
  intros Hr. unfold initialize_routing_logic. destruct (routing_logic logic) as [k|]; [|done].
  unfold singleton_call. destruct (dget k reg); [done|]. destruct (new_router k kw); [|done]. by apply dset_wf.
Qed.

Lemma reconfigure_registry_wf kvc logic kw (reg : list (router_kind * @router ring tokenizer)) :
  dict_wf reg → dict_wf (reconfigure_routing_logic kvc logic kw reg).2.
Proof.
  intros Hr. unfold reconfigure_routing_logic, mbind, M_bind. pose proof (cleanup_spec kvc reg Hr) as H.
  destruct (cleanup_routing_logic kvc reg) as [[u|e] reg']; [|by destruct H as (_ & _ & ? & _)].
  destruct H as [_ ->]. apply initialize_registry_wf, dict_wf_nil.
Qed.

Lemma reconfigure_all_registry_wf cl c :
  keeps registry_wf (reconfigure_all (tokenizer := tokenizer) ids t0 load_kube_config import_callbacks cl c).
Proof.
  apply keeps_bind; [|intros _; apply keeps_bind; [|intros _]].
  - apply keeps_bind; [by apply keeps_lift|]. intros r s Hs. unfold reconfigure_service_discovery.
    destruct (Dynamic.service_discovery s); [|done]. destruct (create_service_discovery _ _ _ _ _); [|done].
    by destruct (sd_result cl).
  - intros s Hs. unfold watcher_reconfigure_routing_logic.
    pose proof (reconfigure_registry_wf (kv_result cl) (logic_of c) (watcher_kwargs c) (registry s) Hs) as Hr.
    by destruct (reconfigure_routing_logic _ _ _ (registry s)) as [[r|e] reg].
  - unfold reconfigure_callbacks. destruct (truthy _); [|by intros s].
    apply keeps_bind; [by apply keeps_lift|]. intros loc s Hs. unfold configure_custom_callbacks.
    by destruct (import_callbacks _ _).
Qed.

Lemma watch_once_registry_wf cl loaded c s :
  registry_wf s → registry_wf (watch_once ids t0 load_kube_config import_callbacks cl loaded c s).2.
Proof.
  intros Hs. unfold watch_once. destruct loaded as [config|]; [|done].
  destruct (config_eqb _ _); [done|]. pose proof (reconfigure_all_registry_wf cl config s Hs) as H.
  by destruct (reconfigure_all _ _ _ _ _ _ _) as [[] s'].
Qed.

Definition watcher_flag_lowered p : Prop := ∀ t c, p_watcher p = Some (t, c) → t_running t = false.
Definition watcher_dead p : Prop := ∀ t c, p_watcher p = Some (t, c) → t_pc t = Dead.

(** What holds when [k] statements are done without an exception. *)
Definition stopped_upto (k : nat) p : Prop :=
  match k with O => is_Some (async_client (p_client p)) | S _ => async_client (p_client p) = None end ∧
  (2 ≤ k → t_running (p_scraper p) = false) ∧
  (3 ≤ k → t_pc (p_scraper p) = Dead) ∧
  (4 ≤ k → p_watcher p = None →
     ∃ d, service_discovery (p_sys p) = Some d ∧ d ∈ closed_discoveries (p_sys p)) ∧
  (5 ≤ k → watcher_flag_lowered p) ∧
  (6 ≤ k → watcher_dead p) ∧
  (7 ≤ k → registry (p_sys p) = []).

Definition stopping p : Prop :=
  registry_wf (p_sys p) ∧
  ((∃ k, k ≤ 7 ∧ p_todo p = drop k lifespan_stop ∧ p_error p = None ∧ stopped_upto k p) ∨
   (p_todo p = [] ∧ is_Some (p_error p) ∧ async_client (p_client p) = None ∧ t_pc (p_scraper p) = Dead)).

(** ** The invariant of shutting down *)
Lemma scraper_turn_stopping now http p :
  stopping p → stopping (scraper_turn parse_families md5 scrape_naps now http p).
Proof.
  unfold scraper_turn. intros [Hr H].
  pose proof (thread_step_rank scrape_naps (scrape_metrics parse_families http (current_endpoints md5 now (p_sys p)))
    (p_scraper p) (p_stats p)) as [Hf _].
  pose proof (dead_stays scrape_naps (scrape_metrics parse_families http (current_endpoints md5 now (p_sys p)))
    (p_scraper p) (p_stats p)) as Hd.
  destruct (thread_step _ _ _ _) as [t stats]. simpl in Hf. split; [done|].
  destruct H as [(k & Hk & Ht & He & H1 & H2 & H3 & H4 & H5 & H6 & H7)|(Ht & He & Hc & Hp)]; [left|right].
  2:{ specialize (Hd Hp). injection Hd as -> _. done. }
  exists k. unfold stopped_upto in *. split_and!; simpl; try done.
  - intros H. rewrite Hf. auto.
  - intros H. specialize (Hd (H3 H)). injection Hd as -> _. auto.
Qed.

(** A turn of the watcher leaves its flag alone, does nothing once it is dead
    and keeps the registry well-formed. *)
Lemma watcher_step_spec cl loaded w (s : @System ring tokenizer) :
  let '(w', s') := watcher_step ids t0 load_kube_config import_callbacks watch_naps cl loaded w s in
  t_running w'.1 = t_running w.1 ∧ (t_pc w.1 = Dead → w' = w ∧ s' = s) ∧ (registry_wf s → registry_wf s').
Proof.
  unfold watcher_step. destruct w as [t c]. simpl.
  set (body := watch_body _ _ _ _ _ _).
  pose proof (thread_step_rank watch_naps body t (c, s)) as [Hf _].
  pose proof (dead_stays watch_naps body t (c, s)) as Hd.
  assert (registry_wf s → registry_wf (thread_step watch_naps body t (c, s)).2.2) as Hwf.
  { intros Hs. unfold thread_step. destruct (t_pc t) as [| |[]| |]; try done. by apply watch_once_registry_wf. }
  destruct (thread_step _ _ _ _) as [t' [c' s']]. simpl in Hf, Hwf.
  assert (t_pc t = Dead → (t', c') = (t, c) ∧ s' = s) as Hd' by (intros H; specialize (Hd H); by simplify_eq).
  destruct cl; [by destruct (t_pc t)|]. by destruct (t_pc t).
Qed.

Lemma watcher_step_ok cl loaded w (s : @System ring tokenizer) :
  system_ok s → system_ok (watcher_step ids t0 load_kube_config import_callbacks watch_naps cl loaded w s).2.
Proof.
  intros Hs. unfold watcher_step.
  assert (system_ok (thread_step watch_naps
    (watch_body ids t0 load_kube_config import_callbacks (default closes_well cl) loaded) w.1 (w.2, s)).2.2) as H.
  { unfold thread_step. destruct (t_pc w.1) as [| |[]| |]; try done. by apply watch_once_ok. }
  destruct (thread_step _ _ _ _) as [t' [c' s']]. by destruct cl, (t_pc w.1).
Qed.

Lemma watcher_turn_stopping cl loaded p :
  stopping p →
  stopping (watcher_turn ids t0 load_kube_config import_callbacks watch_naps cl loaded p).
Proof.
  unfold watcher_turn. intros [Hr H]. destruct (p_watcher p) as [[t c]|] eqn:Ew; [|done].
  pose proof (watcher_step_spec cl loaded (t, c) (p_sys p)) as Hs.
  destruct (watcher_step _ _ _ _ _ _ _ _ _) as [[t' c'] s']. destruct Hs as (Hf & Hd & Hwf). simpl in *.
  split; [by apply Hwf|].
  destruct H as [(k & Hk & Ht & He & H1 & H2 & H3 & H4 & H5 & H6 & H7)|H]; [left|by right].
  exists k. unfold stopped_upto, watcher_flag_lowered, watcher_dead in *. split_and!; simpl; try done.
  - intros H t1 c1 [= <- <-]. rewrite Hf. by apply (H5 H t c).
  - intros H t1 c1 [= <- <-]. destruct (Hd (H6 H t c Ew)) as [[= -> ->] _]. by apply (H6 H t c).
  - intros H. destruct (Hd (H6 ltac:(lia) t c Ew)) as [_ ->]. auto.
Qed.

(** A clause of [stopped_upto] that held already or does not apply yet. *)
Local Ltac clause :=
  first [done|lia|intros _; match goal with H : _ → ?G |- ?G => apply H; lia end|intros; lia].

Lemma main_turn_stopping cl p : stopping p → stopping (main_turn cl p).
Proof.
  intros [Hr [(k & Hk & Ht & He & H)|[Ht He]]]; [|unfold main_turn; rewrite Ht; split; [done|by right]].
  unfold stopped_upto in H. destruct H as (H1 & H2 & H3 & H4 & H5 & H6 & H7).
  unfold main_turn. rewrite Ht.
  destruct k as [|[|[|[|[|[|[|[|k]]]]]]]]; [simpl..|lia].
  - unfold client_stop. destruct H1 as [i ->]. split; [done|].
    left. exists 1. unfold stopped_upto. simpl. rewrite ?Ht. split_and!; clause.
  - split; [done|]. left. exists 2. unfold stopped_upto. simpl. rewrite ?Ht. split_and!; clause.
  - unfold is_alive. case_bool_decide as Ha; [by split; [|left; exists 2]|].
    split; [done|]. left. exists 3. unfold stopped_upto. simpl. rewrite ?Ht.
    split_and!; try clause.
  - unfold get_service_discovery. destruct (service_discovery (p_sys p)) as [d|] eqn:Ed; simpl.
    + destruct cl as [[[u|e] kvc]|]; simpl; (split; [done|]); [|right; split_and!; [done|by eexists|done|auto]|
        left; exists 3; unfold stopped_upto; split_and!; clause].
      left. exists 4. unfold stopped_upto. simpl. rewrite ?Ht. split_and!; try clause.
      intros _ _. exists d. split; [done|]. apply elem_of_app. right. by apply list_elem_of_singleton.
    + split; [done|]. right. split_and!; [done|by eexists|done|auto].
  - split; [done|]. left. exists 5. unfold stopped_upto, watcher_flag_lowered. simpl. rewrite ?Ht.
    split_and!; try clause.
    + intros _ Hw. apply fmap_None in Hw. apply H4; [lia|done].
    + intros _ t c ([t' c'] & _ & [= -> ->])%fmap_Some_1. done.
  - destruct (p_watcher p) as [[t c]|] eqn:Ew.
    + unfold is_alive. case_bool_decide as Ha; [split; [done|left; exists 5; unfold stopped_upto; rewrite ?Ew; done]|].
      split; [done|]. left. exists 6. unfold stopped_upto, watcher_flag_lowered, watcher_dead in *. simpl.
      rewrite ?Ht, ?Ew in *. split_and!; try clause.
      by intros _ t1 c1 [= <- <-].
    + split; [done|]. left. exists 6. unfold stopped_upto, watcher_flag_lowered, watcher_dead in *. simpl.
      rewrite ?Ht, ?Ew in *. split_and!; clause.
  - unfold cleanup. pose proof (cleanup_spec (kv_result (default closes_well cl)) (registry (p_sys p)) Hr) as Hc.
    destruct (cleanup_routing_logic _ _) as [[u|e] reg].
    + destruct Hc as [_ ->]. split; [apply dict_wf_nil|].
      left. exists 7. unfold stopped_upto, watcher_flag_lowered, watcher_dead in *. simpl. rewrite ?Ht.
      split_and!; clause.
    + destruct Hc as (_ & _ & Hw & _). split; [done|]. right. split_and!; [done|by eexists|done|auto with lia].
  - split; [done|]. left. exists 7. unfold stopped_upto. split_and!; auto.
Qed.

(** ** Shutting down ends *)
(** What counts of a thread: its place, once its flag is lowered. *)
Definition thread_key (t : thread) : option pc := if t_running t then None else Some (t_pc t).
Definition lingering (k : option pc) : bool :=
  match k with Some Dead | None => false | Some _ => true end.

Lemma thread_rank_key t t' : thread_key t = thread_key t' → thread_rank t = thread_rank t'.
Proof. unfold thread_key, thread_rank. destruct t as [[] a], t' as [[] b]; simpl; intros H; by simplify_eq. Qed.

Lemma thread_step_key {G} naps (body : M G unit) t g :
  thread_rank (thread_step naps body t g).1 < thread_rank t ∨
  thread_key (thread_step naps body t g).1 = thread_key t ∧ lingering (thread_key t) = false.
Proof.
  destruct (thread_step_rank naps body t g) as [Hf H]. unfold thread_key. rewrite Hf.
  destruct (t_running t) eqn:Er; [by right|]. unfold is_alive in H. case_bool_decide as Ha; [by left|].
  right. rewrite H. split; [done|]. by destruct (t_pc t).
Qed.

Lemma watcher_step_key cl loaded w (s : @System ring tokenizer) :
  let w' := (watcher_step ids t0 load_kube_config import_callbacks watch_naps cl loaded w s).1 in
  thread_rank w'.1 < thread_rank w.1 ∨
  thread_key w'.1 = thread_key w.1 ∧ (bool_decide (is_Some cl) && lingering (thread_key w.1)) = false.
Proof.
  unfold watcher_step. destruct w as [t c]. simpl.
  pose proof (thread_step_key watch_naps (watch_body ids t0 load_kube_config import_callbacks (default closes_well cl) loaded)
    t (c, s)) as H.
  destruct (thread_step _ _ _ _) as [t' [c' s']]. simpl in H.
  destruct cl as [cl|]; [by destruct (t_pc t)|]. destruct (t_pc t); simpl; naive_solver.
Qed.

(** Two processes that differ in nothing that matters for shutting down. *)
Definition key p : list shut * option pc * option (option pc) :=
  (p_todo p, thread_key (p_scraper p), (λ tc : thread * namespace, thread_key tc.1) <$> p_watcher p).

Lemma rank_key p q : key p = key q → rank p = rank q.
Proof.
  intros [= H1 H2 H3]. unfold rank, watcher_rank. rewrite H1. f_equal; [f_equal; by apply thread_rank_key|].
  destruct (p_watcher p) as [[t c]|], (p_watcher q) as [[t' c']|]; simplify_eq/=; [|done].
  by apply thread_rank_key.
Qed.

(** Which thread a turn moves on for sure. *)
Definition moves (t : turn) (k : list shut * option pc * option (option pc)) : bool :=
  let '(todo, scraper, watcher) := k in
  match t with
  | TMain cl => bool_decide (is_Some cl) && negb (bool_decide (todo = [])) && negb (lingering scraper)
             && negb (match watcher with Some w => lingering w | None => false end)
  | TScraper _ _ => lingering scraper
  | TWatcher cl _ => bool_decide (is_Some cl) && match watcher with Some w => lingering w | None => false end
  end.

Lemma main_turn_moves cl p :
  stopping p → rank (main_turn cl p) < rank p ∨ main_turn cl p = p ∧ moves (TMain cl) (key p) = false.
Proof.
  intros [_ [(k & Hk & Ht & He & H)|[Ht He]]].
  2:{ right. unfold main_turn, moves, key. rewrite Ht. by rewrite andb_false_r. }
  destruct H as (H1 & H2 & H3 & H4 & H5 & H6 & H7). unfold main_turn. rewrite Ht.
  unfold rank, watcher_rank, thread_rank, moves, key.
  destruct k as [|[|[|[|[|[|[|[|k]]]]]]]]; [simpl; rewrite ?Ht..|lia].
  - unfold client_stop. destruct (async_client (p_client p)); left; simpl; rewrite ?Ht; simpl; lia.
  - left. destruct (t_running (p_scraper p)), (t_pc (p_scraper p)); simpl; lia.
  - unfold is_alive, thread_key. rewrite H2 by lia.
    destruct (t_pc (p_scraper p)) eqn:Ep; simpl;
      [right; by rewrite ?andb_false_r..|left; rewrite ?Ep, ?H2 by lia; simpl; rewrite ?Ht; simpl; lia].
  - unfold get_service_discovery. destruct (service_discovery _); [|left; simpl; rewrite ?Ht; simpl; lia].
    destruct cl as [[[u|e] kvc]|]; [left; simpl; rewrite ?Ht; simpl; lia..|by right].
  - left. destruct (p_watcher p) as [[t c]|]; simpl; [|lia]. destruct (t_running t), (t_pc t); lia.
  - destruct (p_watcher p) as [[t c]|] eqn:Ew; [|left; simpl; rewrite ?Ht, ?Ew; simpl; lia].
    pose proof (H5 ltac:(lia) t c Ew) as Hf. unfold is_alive, thread_key. simpl. rewrite Hf.
    destruct (t_pc t) eqn:Ep; simpl;
      [right; by rewrite ?andb_false_r..|left; simpl; rewrite ?Ew, ?Ht, ?Hf, ?Ep; simpl; lia].
  - left. destruct (cleanup _ _) as [[u|e] s']; simpl; rewrite ?Ht; simpl; lia.
  - right. by rewrite andb_false_r.
Qed.

Lemma turn_stopping t p : stopping p → stopping (step t p).
Proof.
  destruct t; [apply main_turn_stopping|apply scraper_turn_stopping|apply watcher_turn_stopping].
Qed.

Lemma turn_moves t p :
  stopping p → rank (step t p) < rank p ∨ key (step t p) = key p ∧ moves t (key p) = false.
Proof.
  intros Hp. destruct t as [cl|now http|cl loaded].
  - destruct (main_turn_moves cl p Hp) as [H|[H1 H2]]; [by left|right]. simpl. by rewrite H1.
  - simpl. unfold scraper_turn.
    pose proof (thread_step_key scrape_naps (scrape_metrics parse_families http (current_endpoints md5 now (p_sys p)))
      (p_scraper p) (p_stats p)) as H.
    destruct (thread_step _ _ _ _) as [t stats]. simpl in H. unfold rank, watcher_rank, key. simpl.
    destruct H as [H|[-> H]]; [left; lia|right; split; [done|exact H]].
  - simpl. unfold watcher_turn, rank, watcher_rank, key.
    destruct (p_watcher p) as [[t c]|] eqn:Ew; [|by right; rewrite Ew, andb_false_r].
    pose proof (watcher_step_key cl loaded (t, c) (p_sys p)) as H.
    destruct (watcher_step _ _ _ _ _ _ _ _ _) as [[t' c'] s']. simpl in *.
    destruct H as [H|[-> H]]; [left; lia|right; split; [done|exact H]].
Qed.

Lemma run_stopping ts p : stopping p → stopping (run ts p).
Proof. revert p. induction ts as [|t ts IH]; intros p Hp; [done|]. by apply IH, turn_stopping. Qed.

Lemma run_moves ts p :
  stopping p →
  rank (run ts p) < rank p ∨ key (run ts p) = key p ∧ ∀ t, t ∈ ts → moves t (key p) = false.
Proof.
  revert p. induction ts as [|t ts IH]; intros p Hp; [right; by split; [|intros ? ?%elem_of_nil]|].
  change (run (t :: ts) p) with (run ts (step t p)).
  destruct (IH (step t p) (turn_stopping t p Hp)) as [H|[H1 H2]], (turn_moves t p Hp) as [H'|[H1' H2']].
  - left. lia.
  - left. apply rank_key in H1'. lia.
  - left. apply rank_key in H1. lia.
  - right. rewrite H1, H1'. split; [done|]. intros t' [->|Ht']%elem_of_cons; [done|].
    rewrite <- H1'. by apply H2.
Qed.

(** Every thread gets a turn in which the call it is in returns or raises. *)
Definition fair_round (ts : list turn) : Prop :=
  (∃ cl, TMain (Some cl) ∈ ts) ∧ (∃ now http, TScraper now http ∈ ts) ∧ ∃ cl loaded, TWatcher (Some cl) loaded ∈ ts.

Lemma fair_round_rank ts p : stopping p → fair_round ts → p_todo p ≠ [] → rank (run ts p) < rank p.
Proof.
  intros Hp ((cl & Hm) & (now & http & Hs) & (cl' & l & Hw)) Hne. destruct (run_moves ts p Hp) as [H|[_ H]]; [done|].
  pose proof (H _ Hm) as Hm'. pose proof (H _ Hs) as Hs'. pose proof (H _ Hw) as Hw'.
  unfold moves, key in Hm', Hs', Hw'. rewrite bool_decide_true in Hm', Hw' by done. simpl in Hm', Hw'.
  rewrite Hs', Hw', bool_decide_false in Hm' by done. done.
Qed.

Lemma done_stays ts p : stopping p → p_todo p = [] → p_todo (run ts p) = [].
Proof.
  revert p. induction ts as [|t ts IH]; intros p Hp Ht; [done|].
  apply IH; [by apply turn_stopping|]. destruct t; simpl.
  - unfold main_turn. by rewrite Ht.
  - unfold scraper_turn. by destruct (thread_step _ _ _ _).
  - unfold watcher_turn. destruct (p_watcher p) as [w|]; [|done].
    by destruct (watcher_step _ _ _ _ _ _ _ _ _).
Qed.

Lemma rounds_end rounds p :
  stopping p → Forall fair_round rounds → rank p ≤ length rounds → p_todo (run (concat rounds) p) = [].
Proof.
  intros Hp Hf. revert p Hp. induction Hf as [|ts rounds Ht Hf IH]; intros p Hp Hl.
  - apply length_zero_iff_nil. unfold rank in Hl. simpl in *. lia.
  - cbn [concat]. unfold run_turns. rewrite foldl_app. fold (run ts p).
    destruct (decide (p_todo p = [])) as [E|E].
    + apply done_stays; [by apply run_stopping|by apply done_stays].
    + apply IH; [by apply run_stopping|]. pose proof (fair_round_rank ts p Hp Ht E). simpl in Hl. lia.
Qed.

Lemma thread_rank_le t : thread_rank t ≤ 4.
Proof. unfold thread_rank. destruct (t_running t), (t_pc t); lia. Qed.

(** A process that begins to shut down. *)
Definition begins_stop p : Prop :=
  p_todo p = lifespan_stop ∧ p_error p = None ∧ registry_wf (p_sys p) ∧ is_Some (async_client (p_client p)).

Lemma begins_stopping p : begins_stop p → stopping p.
Proof.
  intros (Ht & He & Hr & Hc). split; [done|]. left. exists 0. split_and!; try done; [lia|].
  unfold stopped_upto. split_and!; [done|intros; lia..].
Qed.

(** Shutting down ends: whatever the scraper and the watcher of the configuration
    are doing and whatever the engines and the configuration file return
    meanwhile, 15 rounds in which every thread gets a turn that is not blocked are
    enough for [lifespan] to end. *)
Lemma stops_in_time p rounds :
  stopping p → Forall fair_round rounds → 15 ≤ length rounds → p_todo (run (concat rounds) p) = [].
Proof.
  intros Hp Hf Hl. apply rounds_end; [done|done|]. unfold rank, watcher_rank.
  pose proof (thread_rank_le (p_scraper p)).
  assert (length (p_todo p) ≤ 7).
  { destruct Hp as [_ [(k & _ & -> & _)|[-> _]]]; [|simpl; lia]. rewrite length_drop. change (length lifespan_stop) with 7. lia. }
  destruct (p_watcher p) as [[t c]|]; [pose proof (thread_rank_le t)|]; lia.
Qed.

(** What is left when the statements are done. *)
Definition all_closed p : Prop :=
  client_call (p_client p) = Raise AssertionError ∧
  is_alive (p_scraper p) = false ∧
  (∀ t c, p_watcher p = Some (t, c) → is_alive t = false) ∧
  registry (p_sys p) = [] ∧
  (p_watcher p = None →
   ∃ d, service_discovery (p_sys p) = Some d ∧ d ∈ closed_discoveries (p_sys p)).

Lemma stopping_closed p : stopping p → p_todo p = [] → p_error p = None → all_closed p.
Proof.
  intros [_ [(k & Hk & Hk' & _ & H)|(_ & [e He'] & _)]] Ht He; [|congruence].
  rewrite Ht in Hk'. assert (k = 7) as ->.
  { apply (f_equal length) in Hk'. rewrite length_drop in Hk'. change (length lifespan_stop) with 7 in Hk'.
    simpl in Hk'. lia. }
  destruct H as (H1 & H2 & H3 & H4 & H5 & H6 & H7). unfold all_closed, client_call, is_alive.
  simpl in H1. rewrite H1, H3 by lia. split_and!; auto with lia.
  intros t c Hw. by rewrite (H6 ltac:(lia) t c Hw).
Qed.

(** A statement that raised comes after the client and the scraper. *)
Lemma stopping_failed p : stopping p → is_Some (p_error p) →
  client_call (p_client p) = Raise AssertionError ∧ is_alive (p_scraper p) = false.
Proof.
  intros [_ [(k & _ & _ & He & _)|(_ & _ & Hc & Hp)]] [e He']; [congruence|].
  unfold client_call, is_alive. by rewrite Hc, Hp.
Qed.

(** While the [close()] of the discovery blocks, shutting down does not go on:
    the watcher keeps running and the routers stay. *)
Lemma blocked_close_waits ts p :
  p_todo p = drop 3 lifespan_stop → is_Some (service_discovery (p_sys p)) → registry_wf (p_sys p) →
  Forall (λ t, ∀ cl, t ≠ TMain (Some cl)) ts → p_todo (run ts p) = drop 3 lifespan_stop.
Proof.
  intros Ht Hd Hw Hts. revert p Ht Hd Hw. induction Hts as [|t ts Hn Hts IH]; intros p Ht Hd Hw; [done|].
  change (run (t :: ts) p) with (run ts (step t p)). destruct t as [cl|now http|cl loaded].
  - destruct cl as [cl|]; [by destruct (Hn cl)|]. simpl. unfold main_turn. rewrite Ht. simpl.
    unfold get_service_discovery. destruct Hd as [d Hd]. rewrite Hd. simpl. apply IH; [done|by rewrite Hd|done].
  - apply IH; simpl; unfold scraper_turn; by destruct (thread_step _ _ _ _).
  - pose proof (watcher_step_ok cl loaded) as Hs. simpl. unfold watcher_turn.
    destruct (p_watcher p) as [w|]; [|by apply IH]. specialize (Hs w (p_sys p) (conj Hw Hd)).
    destruct (watcher_step _ _ _ _ _ _ _ _ _) as [w' s']. destruct Hs as [Hs1 Hs2]. by apply IH.
Qed.

(** A completed shutdown leaves nothing running: in every schedule, once the
    statements of [lifespan] are done without an exception, the shared client
    is gone, the scraper and the watcher have ended, no router is registered, and
    without a watcher the installed service discovery has been closed. *)
Theorem shutdown_closes p ts :
  begins_stop p → p_todo (run ts p) = [] → p_error (run ts p) = None →
  let p' := run ts p in
  client_call (p_client p') = Raise AssertionError ∧
  is_alive (p_scraper p') = false ∧
  (∀ t c, p_watcher p' = Some (t, c) → is_alive t = false) ∧
  registry (p_sys p') = [] ∧
  (p_watcher p' = None →
   ∃ d, service_discovery (p_sys p') = Some d ∧ d ∈ closed_discoveries (p_sys p')).
Proof. intros Hp%begins_stopping Ht He. apply stopping_closed; [by apply run_stopping|done|done].
Qed.

(** ** A scraper that dies *)
Lemma dead_scraper_turn t p :
  t_pc (p_scraper p) = Dead → p_stats (step t p) = p_stats p ∧ t_pc (p_scraper (step t p)) = Dead.
Proof.
  intros Hd. destruct t as [cl|now http|cl loaded]; simpl.
  - unfold main_turn. by repeat case_match.
  - unfold scraper_turn. by rewrite dead_stays.
  - unfold watcher_turn. destruct (p_watcher p) as [w|]; [|done]. by destruct (watcher_step _ _ _ _ _ _ _ _ _).
Qed.

(** C22. One failing read of the endpoints ends the scraper for good: when
    [get_endpoint_info] raises in [_scrape_metrics], the thread ends, its health
    check fails from then on, and the engine statistics that routers and metrics use
    stay as they were whatever happens later. *)
Theorem scraper_dies p now http e ts :
  t_pc (p_scraper p) = Work → current_endpoints md5 now (p_sys p) = Raise e →
  let p' := run (TScraper now http :: ts) p in
  p_stats p' = p_stats p ∧ is_alive (p_scraper p') = false.
Proof.
  intros Hw He. change (run (TScraper now http :: ts) p) with (run ts (step (TScraper now http) p)).
  set (q := step (TScraper now http) p).
  assert (p_stats q = p_stats p ∧ t_pc (p_scraper q) = Dead) as [H1 H2].
  { unfold q. simpl. unfold scraper_turn, thread_step. by rewrite Hw, He. }
  rewrite <- H1. clearbody q. clear H1. revert q H2. induction ts as [|t ts IH]; intros q H2; simpl.
  - unfold is_alive. by rewrite H2.
  - destruct (dead_scraper_turn t q H2) as [H3 H4]. destruct (IH _ H4) as [H5 H6]. split; [|done].
    change (p_stats (run ts (step t q)) = p_stats q). congruence.
Qed.

(** One cycle of the scraper: a scrape, its naps, and back at the start. *)
Lemma scraper_round p now http eps :
  p_scraper p = spawned → current_endpoints md5 now (p_sys p) = Ret eps →
  run (replicate (2 * scrape_naps + 3) (TScraper now http)) p =
    mkProcess (p_client p) (p_sys p) (replace_stats (collect parse_families http eps) (p_stats p)) spawned
      (p_watcher p) (p_todo p) (p_error p).
Proof.
  intros Hs He.
  assert (∀ n q, p_sys q = p_sys p →
    run (replicate n (TScraper now http)) q =
    let '(t, g) := thread_turns scrape_naps (scrape_metrics parse_families http (Ret eps)) n
                     (p_scraper q, p_stats q) in
    mkProcess (p_client q) (p_sys q) g t (p_watcher q) (p_todo q) (p_error q)) as Hrun.
  { induction n as [|n IH]; intros q Hq; [by destruct q|]. rewrite replicate_S.
    change (run (?t :: ?ts) q) with (run ts (step t q)). rewrite IH.
    - unfold thread_turns. rewrite Nat.iter_succ_r. simpl. unfold scraper_turn. rewrite Hq, He.
      by destruct (thread_step _ _ _ _).
    - simpl. unfold scraper_turn. by destruct (thread_step _ _ _ _). }
  rewrite Hrun by done. rewrite Hs.
  by rewrite (thread_round scrape_naps _ _ (replace_stats (collect parse_families http eps) (p_stats p))).
Qed.
End Shutdown.

(** ** Examples *)
Definition toy_process : @process (gset string) unit :=
  mkProcess (mkClient (Some 0) {[0]} 1) toy_system [] (mkThread true Work)
    (Some (mkThread true (Nap 3), toy_cfg "session")) lifespan_stop None.

Definition toy_schedule : list turn :=
  concat (replicate 15 [TMain (Some closes_well); TScraper 0 (λ _, Raise RequestException);
    TWatcher (Some closes_well) (Raise FileNotFoundError)]).

Abbreviation toy_runs :=
  (run_turns ["i"%string] 5 (Ret tt) (λ _ _, Raise RuntimeError) (λ _, Raise ValueError) id 30 10).

Lemma toy_begins_stop : begins_stop toy_process.
Proof. split_and!; [done|done|apply dict_wf_nil|by eexists]. Qed.

Lemma shutdown_closes_witness :
  client_call (p_client (toy_runs toy_schedule toy_process)) = Raise AssertionError ∧
  is_alive (p_scraper (toy_runs toy_schedule toy_process)) = false ∧
  (∀ t c, p_watcher (toy_runs toy_schedule toy_process) = Some (t, c) → is_alive t = false) ∧
  registry (p_sys (toy_runs toy_schedule toy_process)) = [] ∧
  (p_watcher (toy_runs toy_schedule toy_process) = None →
   ∃ d, service_discovery (p_sys (toy_runs toy_schedule toy_process)) = Some d ∧
        d ∈ closed_discoveries (p_sys (toy_runs toy_schedule toy_process))).
Proof.
  apply (shutdown_closes ["i"%string] 5 (Ret tt) (λ _ _, Raise RuntimeError) (λ _, Raise ValueError) id 30 10
           toy_process toy_schedule toy_begins_stop); vm_compute; reflexivity.
Defined.

(** A static discovery with fewer labels than backends *)
Definition short_labels : @System (gset string) unit :=
  mkSystem (Some (DStatic (mkStatic ["http://a"; "http://b"]%string ["m"; "n"]%string None (Some ["l"%string]) None
    ["i"; "j"]%string 0 [] true LNone LNone))) [] [] None None no_app.

Definition short_process : @process (gset string) unit :=
  mkProcess (mkClient None ∅ 0) short_labels [] (mkThread true Work) None [] None.

Lemma scraper_dies_witness :
  p_stats (toy_runs [TScraper 0 (λ _, Raise RequestException); TMain None] short_process) = [] ∧
  is_alive (p_scraper (toy_runs [TScraper 0 (λ _, Raise RequestException); TMain None] short_process)) = false.
Proof.
  apply (scraper_dies ["i"%string] 5 (Ret tt) (λ _ _, Raise RuntimeError) (λ _, Raise ValueError) id 30 10
           short_process 0 (λ _, Raise RequestException) IndexError [TMain None]); vm_compute; reflexivity.
Defined.

(** The watcher finds a new configuration after the discovery was closed: the old
    one is closed a second time and the new one is installed and never closed. *)
Definition leaking_schedule : list turn :=
  let scrape := TScraper 0 (λ _, Raise RequestException) in
  let main := TMain (Some closes_well) in
  [main; main; scrape; scrape; scrape; main; main]
  ++ replicate 10 (TWatcher (Some closes_well) (Ret (toy_cfg "roundrobin"))) ++ [main]
  ++ replicate 3 (TWatcher (Some closes_well) (Raise FileNotFoundError)) ++ [main; main].

Lemma shutdown_leaks_discovery :
  let p := toy_runs leaking_schedule toy_process in
  p_todo p = [] ∧ p_error p = None ∧ service_discovery (p_sys p) = Some toy_new ∧
  closed_discoveries (p_sys p) = [toy_old; toy_old].
Proof. vm_compute. done. Qed.
