(* ===== verification/Startup.v ===== *)
(** * Start-up: [app.initialize_all] and [app.main]

    The singletons of the router are created in the order of the code:
    discovery, the scraper of engine statistics, the monitor of request
    statistics, the batch API, the watcher of the configuration, callbacks,
    routing logic, feature gates and semantic cache.  An exception keeps what
    was created before it.  The watcher's thread runs as soon as it is created: it
    takes turns, given by a schedule, before each of the later stages and before
    [initialize_all] returns.  Sentry and the web server are left out. *)
From stdpp Require Import base list strings gmap.
From Stdlib Require Import QArith.
From S2P Require Import Prelude PyDict PyStr Json Endpoint RequestStats EngineStats HashRing Routing Utils StaticDiscovery K8sDiscovery Config Dynamic Files SemanticCache Main Lifecycle.

Section Startup.
Context {ring : Type} `{!HashRing ring} {tokenizer : Type}.
Context (ids : list string) (t0 : Z) (load_kube_config : outcome unit).
Context (import_callbacks : string → string → outcome string).
Context {E : Type} `{!FlatIP E}.
(** The semantic cache: can it be imported, and what loading its model and its
    files gives. *)
Context (available : bool) (dim_of : string → outcome nat) (w w' : write_outcome) (on_disk : string → @disk E).
(** The naps of the watcher, and the turns its thread gets before each stage. *)
Context (watch_naps : nat) (meanwhile : nat → list (option close_results * outcome namespace)).

(** The singletons and what is attached to [app.state]. *)
Record router_app := mkRouterApp {
  ra_sys : @System ring tokenizer;
  ra_scraper : option thread;
  ra_monitor : option RequestStatsMonitor;
  ra_storage : option string;            (* the path of [app.state.batch_storage] *)
  ra_watcher : option (thread * namespace);
  ra_cache : @CacheState E;
  ra_log_thread : bool;
  ra_limits : Z * Z
}.

Definition new_router_app (sys : System) (limits : Z * Z) : router_app :=
  mkRouterApp sys None None None None (mkState ∅ false None 0 0 None) false limits.

Definition on_sys {A} (f : M System A) : M router_app A := λ a,
  let '(r, s) := f (ra_sys a) in
  (r, mkRouterApp s (ra_scraper a) (ra_monitor a) (ra_storage a) (ra_watcher a) (ra_cache a) (ra_log_thread a) (ra_limits a)).

Definition on_cache {A} (f : M CacheState A) : M router_app A := λ a,
  let '(r, c) := f (ra_cache a) in
  (r, mkRouterApp (ra_sys a) (ra_scraper a) (ra_monitor a) (ra_storage a) (ra_watcher a) c (ra_log_thread a) (ra_limits a)).

Definition start_scraper (args : namespace) : M router_app unit := λ a,
  match scraper_init (fieldv "engine_stats_interval" args) with
  | Raise e => (Raise e, a)
  | Ret t => (Ret tt, mkRouterApp (ra_sys a) (Some t) (ra_monitor a) (ra_storage a) (ra_watcher a) (ra_cache a)
                        (ra_log_thread a) (ra_limits a))
  end.

(** The window is a number, since [validate_args] has compared it with zero. *)
Definition stats_window_of (v : json) : outcome (option Q) :=
  if is_none v then Ret None else q ← or_raise TypeError (jnum v); Ret (Some q).

Definition start_monitor (args : namespace) : M router_app unit := λ a,
  match (q ← stats_window_of (fieldv "request_stats_window" args); init_monitor q) with
  | Raise e => (Raise e, a)
  | Ret m => (Ret tt, mkRouterApp (ra_sys a) (ra_scraper a) (Some m) (ra_storage a) (ra_watcher a) (ra_cache a)
                        (ra_log_thread a) (ra_limits a))
  end.

(** [from vllm_router.batch.local_processor import LocalBatchProcessor]: there is
    no package [vllm_router.batch]. *)
Definition import_local_processor : outcome unit := Raise (OtherError "ModuleNotFoundError").

Definition initialize_batch_processor (batch_processor_name : json) : outcome unit :=
  if eq_str batch_processor_name "local" then import_local_processor else Raise ValueError.

(** [initialize_storage] of the two options; a path that is no string is refused
    when the directory is made. *)
Definition open_storage (class path : json) : outcome string :=
  match class, path with
  | JStr c, JStr p => initialize_storage c p
  | JStr c, _ => _ ← initialize_storage c EmptyString; Raise TypeError
  | _, _ => Raise ValueError
  end.

Definition start_batch_api (args : namespace) : M router_app unit := λ a,
  if negb (truthy (fieldv "enable_batch_api" args)) then (Ret tt, a) else
  match open_storage (fieldv "file_storage_class" args) (fieldv "file_storage_path" args) with
  | Raise e => (Raise e, a)
  | Ret path =>
      (initialize_batch_processor (fieldv "batch_processor" args),
       mkRouterApp (ra_sys a) (ra_scraper a) (ra_monitor a) (Some path) (ra_watcher a) (ra_cache a)
         (ra_log_thread a) (ra_limits a))
  end.

Definition start_watcher (args : namespace) : M router_app unit := λ a,
  match watcher_init args with
  | Raise e => (Raise e, a)
  | Ret c => (Ret tt, mkRouterApp (ra_sys a) (ra_scraper a) (ra_monitor a) (ra_storage a) (watcher_thread <$> c)
                        (ra_cache a) (ra_log_thread a) (ra_limits a))
  end.

(** Turns of the watcher's thread, if there is one *)
Definition watcher_acts (a : router_app) (t : option close_results * outcome namespace) : router_app :=
  match ra_watcher a with
  | None => a
  | Some w =>
      let '(w, s) := watcher_step ids t0 load_kube_config import_callbacks watch_naps t.1 t.2 w (ra_sys a) in
      mkRouterApp s (ra_scraper a) (ra_monitor a) (ra_storage a) (Some w) (ra_cache a) (ra_log_thread a) (ra_limits a)
  end.

Definition watcher_runs (i : nat) : M router_app unit := modify (λ a, foldl watcher_acts a (meanwhile i)).

Definition set_gates (gates : gset string) (c : @CacheState E) : @CacheState E :=
  mkState gates (enabled_flag c) (instance c) (hits c) (misses c) (hit_ratio c).

(** The options of the cache exist only if it can be imported. *)
Definition start_semantic_cache (args : namespace) : M router_app unit :=
  model ← lift (if available then opt_str (fieldv "semantic_cache_model" args) else Ret None);
  let dir := match fieldv "semantic_cache_dir" args with JStr d => d | _ => EmptyString end in
  on_cache (start_cache available dim_of w w' (on_disk dir) (default EmptyString model)
              (fieldv "semantic_cache_threshold" args)).

Definition initialize_all (args : namespace) : M router_app unit :=
  _ ← on_sys (initialize_discovery ids t0 load_kube_config args);
  _ ← start_scraper args;
  _ ← start_monitor args;
  _ ← start_batch_api args;
  _ ← start_watcher args;
  _ ← watcher_runs 0;
  _ ← on_sys (initialize_callbacks import_callbacks args);
  _ ← watcher_runs 1;
  _ ← on_sys (initialize_routing args);
  _ ← watcher_runs 2;
  gates ← lift (opt_str (fieldv "feature_gates" args));
  _ ← on_cache (modify (set_gates (initialize_feature_gates gates ∅)));
  _ ← start_semantic_cache args;
  _ ← watcher_runs 3;
  _ ← on_sys attach_router;
  watcher_runs 4.

(** [main] up to [uvicorn.run] *)
Definition app_main (parsed : outcome namespace) : M router_app unit :=
  args ← lift parsed;
  _ ← initialize_all args;
  modify (λ a, mkRouterApp (ra_sys a) (ra_scraper a) (ra_monitor a) (ra_storage a) (ra_watcher a) (ra_cache a)
                 (truthy (fieldv "log_stats" args)) (set_ulimit 65535 (ra_limits a))).

(** The process when the web server starts *)
Definition serving (a : router_app) : option (@process ring tokenizer) :=
  scraper ← ra_scraper a;
  Some (mkProcess (mkClient None ∅ 0) (ra_sys a) [] scraper (ra_watcher a) [] None).

End Startup.

(** ** The thread of [log_stats] *)
(** It is a daemon that nobody stops; an exception ends it. *)
Record log_thread := mkLogThread { lt_alive : bool; lt_gauges : gauges }.

(** One round of its loop, with the endpoints and the engine statistics of that moment. *)
Definition log_turn {ring tokenizer : Type} (md5 : string → string) (t : Z) (now : Q)
    (engine_stats : list (string * EngineStats)) (s : @System ring tokenizer)
    (st : RequestStatsMonitor * log_thread) : RequestStatsMonitor * log_thread :=
  let '(mon, th) := st in
  if negb (lt_alive th) then st else
  match current_endpoints md5 t s with
  | Raise _ => (mon, mkLogThread false (lt_gauges th))
  | Ret eps =>
      let '(r, (mon, g)) := log_round now (list_to_map engine_stats) eps (mon, lt_gauges th) in
      (mon, mkLogThread (match r with Ret _ => true | Raise _ => false end) g)
  end.

(** A round in which the endpoints cannot be read ends the thread for good: the
    gauges it sets stay as they are, and it no longer reads the statistics. *)
Lemma log_thread_dies {ring tokenizer : Type} md5 t e (s : @System ring tokenizer) now es mon g rounds :
  current_endpoints md5 t s = Raise e →
  foldl (λ st '(t, now, es, s), log_turn md5 t now es s st) (mon, mkLogThread true g) ((t, now, es, s) :: rounds) =
  (mon, mkLogThread false g).
Proof.
  intros E. cbn [foldl]. unfold log_turn at 2. cbn [lt_alive negb]. rewrite E. cbn [lt_gauges].
  induction rounds as [|[[[t' now'] es'] s'] rounds IH]; [done|exact IH].
Qed.

(** ** What holds when start-up is done *)
Section Spec.
Context {ring : Type} `{!HashRing ring} {tokenizer : Type}.
Context (ids : list string) (t0 : Z) (load_kube_config : outcome unit).
Context (import_callbacks : string → string → outcome string).
Context {E : Type} `{!FlatIP E}.
Context (available : bool) (dim_of : string → outcome nat) (w w' : write_outcome) (on_disk : string → @disk E).
Context (watch_naps : nat) (meanwhile : nat → list (option close_results * outcome namespace)).
Implicit Types (a : @router_app ring tokenizer E) (args : namespace).
Local Abbreviation start_up :=
  (initialize_all ids t0 load_kube_config import_callbacks available dim_of w w' on_disk watch_naps meanwhile).
Local Abbreviation runs := (watcher_runs ids t0 load_kube_config import_callbacks watch_naps meanwhile).

(** A stage that returned *)
Lemma stage_Ret {S A B} (m : M S A) (f : A → M S B) s b s' :
  (m ≫= f) s = (Ret b, s') → ∃ x s1, m s = (Ret x, s1) ∧ f x s1 = (Ret b, s').
Proof. unfold mbind, M_bind. destruct (m s) as [[x|e] s1]; [|done]. intros H. by exists x, s1. Qed.

Lemma stage_eq {S A B} (m : M S A) (f : A → M S B) s x s1 : m s = (Ret x, s1) → (m ≫= f) s = f x s1.
Proof. intros H. unfold mbind, M_bind. by rewrite H. Qed.

Lemma on_sys_Ret {A} (f : M System A) a x a' :
  on_sys f a = (Ret x, a') →
  f (ra_sys a) = (Ret x, ra_sys a') ∧ ra_scraper a' = ra_scraper a ∧ ra_monitor a' = ra_monitor a ∧
  ra_watcher a' = ra_watcher a ∧ ra_cache a' = ra_cache a.
Proof. unfold on_sys. destruct (f (ra_sys a)) as [r s]. by intros [= -> <-]. Qed.

Lemma on_cache_Ret {A} (f : M CacheState A) a x a' :
  on_cache f a = (Ret x, a') →
  f (ra_cache a) = (Ret x, ra_cache a') ∧ ra_scraper a' = ra_scraper a ∧ ra_monitor a' = ra_monitor a ∧
  ra_watcher a' = ra_watcher a ∧ ra_sys a' = ra_sys a.
Proof. unfold on_cache. destruct (f (ra_cache a)) as [r s]. by intros [= -> <-]. Qed.

(** The batch API cannot be started: its processor cannot be imported. *)
Lemma start_batch_api_Ret args a x a' :
  start_batch_api args a = (Ret x, a') → truthy (fieldv "enable_batch_api" args) = false ∧ a' = a.
Proof.
  unfold start_batch_api. destruct (truthy _); simpl; [|by intros [= _ <-]].
  destruct (open_storage _ _); [|done]. unfold initialize_batch_processor. by destruct (eq_str _ _).
Qed.

Lemma initialize_discovery_Ret args (s s' : @System ring tokenizer) :
  initialize_discovery ids t0 load_kube_config args s = (Ret tt, s') →
  is_Some (service_discovery s') ∧ registry s' = registry s.
Proof.
  intros H. apply stage_Ret in H as (r & s1 & H1 & H). injection H1 as _ ->.
  unfold initialize_service_discovery in H. destruct (Dynamic.service_discovery s1); [done|].
  destruct (create_service_discovery _ _ _ _ _); [|done]. by injection H as <-.
Qed.

(** The routing logic that the options ask for is the only router. *)
Definition routed args (s : @System ring tokenizer) : Prop :=
  ∃ logic k kw r, as_str (fieldv "routing_logic" args) = Ret logic ∧ routing_logic logic = Some k ∧
    startup_kwargs args = Ret kw ∧ new_router k kw = Ret r ∧ registry s = [(k, r)].

Lemma initialize_callbacks_Ret args (s s' : @System ring tokenizer) x :
  initialize_callbacks import_callbacks args s = (Ret x, s') →
  registry s' = registry s ∧ service_discovery s' = service_discovery s.
Proof.
  unfold initialize_callbacks. destruct (truthy _); [|by intros [= _ <-]].
  intros H. apply stage_Ret in H as (loc & s2 & H2 & H). injection H2 as _ ->.
  unfold configure_custom_callbacks in H. destruct (import_callbacks _ _); [|done]. by injection H as _ <-.
Qed.

Lemma initialize_routing_Ret args (s s' : @System ring tokenizer) x :
  initialize_routing args s = (Ret x, s') →
  service_discovery s' = service_discovery s ∧ (registry_wf s → registry_wf s') ∧
  (registry s = [] → routed args s').
Proof.
  intros H. apply stage_Ret in H as (logic & s2 & H2 & H). injection H2 as Hlogic ->.
  apply stage_Ret in H as (kw & s3 & H3 & H). injection H3 as Hkw ->. unfold register_router in H.
  pose proof (initialize_registry_wf logic kw (registry s3)) as Hwf.
  destruct (initialize_routing_logic logic kw (registry s3)) as [[r|] reg] eqn:Ei; [|done].
  injection H as _ <-. split; [done|]. split; [done|]. intros Hr. rewrite Hr in Ei.
  unfold initialize_routing_logic in Ei. destruct (routing_logic logic) as [k|] eqn:Ek; [|done].
  unfold singleton_call in Ei. simpl in Ei. destruct (new_router k kw) as [r'|] eqn:Er; [|done].
  injection Ei as <- <-. by exists logic, k, kw, r'.
Qed.

(** *** The watcher meanwhile *)
(** Nothing but the watcher and the system changes, and without a watcher nothing. *)
Definition at_work (o : option (thread * namespace)) : Prop :=
  ∃ t c, o = Some (t, c) ∧ t_running t = true ∧ is_alive t = true.

Lemma watcher_step_lives cl loaded t c (s : @System ring tokenizer) :
  t_running t = true → is_alive t = true →
  at_work (Some (watcher_step ids t0 load_kube_config import_callbacks watch_naps cl loaded (t, c) s).1).
Proof.
  intros Hr Ha. unfold watcher_step. cbn [fst snd]. unfold is_alive in Ha. case_bool_decide as Hp; [|done].
  assert (∀ cl', let '(t', (c', _)) := thread_step watch_naps
            (watch_body ids t0 load_kube_config import_callbacks cl' loaded) t (c, s) in
          at_work (Some (t', c'))) as H.
  { intros cl'. unfold thread_step, at_work. rewrite Hr.
    destruct (t_pc t) as [| |[|n]|n|]; try done; simpl;
      try (destruct (watch_once _ _ _ _ _ _ _ _)); eexists _, _; done. }
  specialize (H (default closes_well cl)). destruct (thread_step _ _ _ _) as [t' [c' s']].
  destruct cl; [by destruct (t_pc t)|]. destruct (t_pc t) eqn:Ep; simpl; try exact H.
  exists t, c. unfold is_alive. by rewrite Ep.
Qed.

Record undisturbed a a' : Prop := {
  un_scraper : ra_scraper a' = ra_scraper a;
  un_monitor : ra_monitor a' = ra_monitor a;
  un_cache : ra_cache a' = ra_cache a;
  un_none : ra_watcher a = None → ra_watcher a' = None ∧ ra_sys a' = ra_sys a;
  un_some : at_work (ra_watcher a) → at_work (ra_watcher a');
  un_sys : system_ok (ra_sys a) → system_ok (ra_sys a');
  un_router : system_ok (ra_sys a) → is_Some (app_router (ra_sys a)) → is_Some (app_router (ra_sys a'))
}.

Lemma watcher_step_router cl loaded tc (s : @System ring tokenizer) :
  system_ok s → is_Some (app_router s) →
  is_Some (app_router (watcher_step ids t0 load_kube_config import_callbacks watch_naps cl loaded tc s).2).
Proof.
  intros Hs Hr. unfold watcher_step.
  assert (is_Some (app_router (thread_step watch_naps
    (watch_body ids t0 load_kube_config import_callbacks (default closes_well cl) loaded) tc.1 (tc.2, s)).2.2)) as H.
  { unfold thread_step. destruct (t_pc tc.1) as [| |[]| |]; try done. by apply watch_once_router. }
  destruct (thread_step _ _ _ _) as [t' [c' s']]. by destruct cl, (t_pc tc.1).
Qed.

Lemma watcher_acts_undisturbed a t :
  undisturbed a (watcher_acts ids t0 load_kube_config import_callbacks watch_naps a t).
Proof.
  unfold watcher_acts. destruct (ra_watcher a) as [[th c]|] eqn:Ew; [|by split].
  pose proof (watcher_step_ok ids t0 load_kube_config import_callbacks watch_naps t.1 t.2 (th, c) (ra_sys a)) as H1.
  pose proof (watcher_step_router t.1 t.2 (th, c) (ra_sys a)) as H2.
  pose proof (watcher_step_lives t.1 t.2 th c (ra_sys a)) as H3.
  destruct (watcher_step _ _ _ _ _ _ _ _ _) as [w1 s1]. split; try done; rewrite Ew; [done|].
  intros (th' & c' & [= <- <-] & Hr & Ha). by apply H3.
Qed.

Lemma undisturbed_trans a a' a'' : undisturbed a a' → undisturbed a' a'' → undisturbed a a''.
Proof.
  intros [H1 H2 H3 H4 H5 H6 H7] [K1 K2 K3 K4 K5 K6 K7]. split; try congruence; try tauto.
  - intros Hn. destruct (H4 Hn) as [G1 G2]. destruct (K4 G1) as [F1 F2]. split; congruence.
Qed.

Lemma runs_undisturbed i a x a' : runs i a = (Ret x, a') → undisturbed a a'.
Proof.
  unfold watcher_runs, modify. intros [= _ <-]. generalize (meanwhile i) as ts. intros ts. revert a.
  induction ts as [|t ts IH]; intros a; [by split|]. simpl.
  eapply undisturbed_trans; [apply watcher_acts_undisturbed|apply IH].
Qed.

(** The semantic cache is there exactly when it was asked for. *)
Definition cache_ready args (c : @CacheState E) : Prop :=
  is_semantic_cache_enabled c = is_enabled "SemanticCache" (feature_gates c) ∧
  (available = true → is_enabled "SemanticCache" (feature_gates c) = true →
   truthy (fieldv "semantic_cache_model" args) = true → is_Some (instance c)).

Lemma start_semantic_cache_Ret args a a' :
  enabled_flag (ra_cache a) = false →
  start_semantic_cache available dim_of w w' on_disk args a = (Ret tt, a') →
  cache_ready args (ra_cache a') ∧ feature_gates (ra_cache a') = feature_gates (ra_cache a) ∧
  ra_sys a' = ra_sys a ∧ ra_scraper a' = ra_scraper a ∧ ra_monitor a' = ra_monitor a ∧ ra_watcher a' = ra_watcher a.
Proof.
  intros Hf H. apply stage_Ret in H as (model & a1 & H1 & H). injection H1 as Hmodel ->.
  apply on_cache_Ret in H as (H & H2 & H3 & H4 & H5).
  enough (cache_ready args (ra_cache a') ∧ feature_gates (ra_cache a') = feature_gates (ra_cache a1)) as [? ?] by done.
  unfold cache_ready, is_semantic_cache_enabled. unfold start_cache in H.
  destruct available; simpl in H; [|injection H as <-; by rewrite Hf].
  destruct (is_enabled "SemanticCache" _) eqn:Eg; simpl in H; [|injection H as <-; by rewrite Hf, Eg].
  destruct (str_empty (default EmptyString model)) eqn:Em.
  - injection H as <-. simpl. rewrite Eg. split; [|done]. split; [done|]. intros _ _ Ht. exfalso.
    destruct (fieldv "semantic_cache_model" args) as [| | | |m| |]; simpl in *; try done.
    injection Hmodel as <-. simpl in *. by destruct m.
  - destruct (initialize_semantic_cache _ _ _ _ _ _ _) as [[c|] s1] eqn:Ei; [|done]. injection H as <-. simpl.
    assert (feature_gates s1 = feature_gates (ra_cache a1) ∧ enabled_flag s1 = true) as [-> ->].
    { unfold initialize_semantic_cache in Ei. simpl in Ei.
      destruct (instance (ra_cache a1)); [by injection Ei as _ <-|]. destruct (dim_of _); [|done]. by injection Ei as _ <-. }
    rewrite Eg. split; [|done]. split; [done|]. intros _ _ _. by eexists.
Qed.

Definition config_file args : bool :=
  truthy (fieldv "dynamic_config_yaml" args) || truthy (fieldv "dynamic_config_json" args).

Record started args a : Prop := {
  st_batch : truthy (fieldv "enable_batch_api" args) = false;
  st_discovery : is_Some (service_discovery (ra_sys a));
  st_scraper : ra_scraper a = Some spawned;
  st_monitor : ∃ q, stats_window_of (fieldv "request_stats_window" args) = Ret (Some q) ∧
               ∃ m, init_monitor (Some q) = Ret m ∧ ra_monitor a = Some m;
  st_watcher : if config_file args then at_work (ra_watcher a) else ra_watcher a = None;
  st_registry : dict_wf (registry (ra_sys a));
  st_attached : is_Some (app_router (ra_sys a));
  st_router : config_file args = false →
              routed args (ra_sys a) ∧ app_router (ra_sys a) = snd <$> head (registry (ra_sys a));
  st_gates : ∃ o, opt_str (fieldv "feature_gates" args) = Ret o ∧
             feature_gates (ra_cache a) = initialize_feature_gates o ∅;
  st_cache : cache_ready args (ra_cache a)
}.

Lemma start_scraper_Ret args a x a' :
  start_scraper args a = (Ret x, a') →
  ra_scraper a' = Some spawned ∧ ra_sys a' = ra_sys a ∧ ra_watcher a' = ra_watcher a ∧ ra_cache a' = ra_cache a.
Proof.
  unfold start_scraper, scraper_init. destruct (is_none _); [done|]. by intros [= _ <-].
Qed.

Lemma start_monitor_Ret args a x a' :
  start_monitor args a = (Ret x, a') →
  (∃ q, stats_window_of (fieldv "request_stats_window" args) = Ret (Some q) ∧
   ∃ m, init_monitor (Some q) = Ret m ∧ ra_monitor a' = Some m) ∧
  ra_scraper a' = ra_scraper a ∧ ra_sys a' = ra_sys a ∧ ra_watcher a' = ra_watcher a ∧ ra_cache a' = ra_cache a.
Proof.
  unfold start_monitor, mbind, outcome_bind. destruct (stats_window_of _) as [[q|]|]; [|done|done].
  destruct (init_monitor (Some q)) as [m|] eqn:Em; [|done]. intros [= _ <-]. split; [|done].
  exists q. split; [done|]. by exists m.
Qed.

Lemma start_watcher_Ret args a x a' :
  start_watcher args a = (Ret x, a') →
  (if config_file args then at_work (ra_watcher a') else ra_watcher a' = None) ∧
  ra_scraper a' = ra_scraper a ∧ ra_sys a' = ra_sys a ∧ ra_monitor a' = ra_monitor a ∧ ra_cache a' = ra_cache a.
Proof.
  unfold start_watcher, watcher_init. intros H. fold (config_file args) in H. destruct (config_file args).
  - unfold mbind, outcome_bind in H. destruct (from_args args) as [c|]; [|done]. injection H as _ <-. split; [|done].
    by exists spawned, c.
  - injection H as _ <-. done.
Qed.

Lemma attach_router_Ret (s s' : @System ring tokenizer) x :
  attach_router s = (Ret x, s') →
  service_discovery s' = service_discovery s ∧ registry s' = registry s ∧
  ∃ r, get_routing_logic (registry s) = Ret r ∧ app_router s' = Some r.
Proof.
  intros H. unfold attach_router in H. apply stage_Ret in H as (r & s1 & H1 & H). injection H1 as Hr ->. injection H as _ <-.
  split; [done|]. split; [done|]. by exists r.
Qed.

Lemma get_only_router (k : router_kind) (r : @router ring tokenizer) : get_routing_logic [(k, r)] = Ret r.
Proof. by destruct k. Qed.

(** *** The stages after the watcher *)
(** They leave the scraper, the monitor and the watcher alone. *)
Definition kept a a' : Prop :=
  ra_scraper a' = ra_scraper a ∧ ra_monitor a' = ra_monitor a ∧
  (at_work (ra_watcher a) → at_work (ra_watcher a')) ∧ (ra_watcher a = None → ra_watcher a' = None).

Lemma kept_trans a a' a'' : kept a a' → kept a' a'' → kept a a''.
Proof. unfold kept. intuition congruence. Qed.

Lemma undisturbed_kept a a' : undisturbed a a' → kept a a'.
Proof. intros []. split_and!; naive_solver. Qed.

Lemma same_kept a a' :
  ra_scraper a' = ra_scraper a → ra_monitor a' = ra_monitor a → ra_watcher a' = ra_watcher a → kept a a'.
Proof. intros ? ? Ew. unfold kept. rewrite Ew. done. Qed.

(** The callbacks and the routing logic *)
Lemma routing_stages args a0 a :
  system_ok (ra_sys a0) →
  (_ ← runs 0; _ ← on_sys (initialize_callbacks import_callbacks args); _ ← runs 1;
   _ ← on_sys (initialize_routing args); runs 2) a0 = (Ret tt, a) →
  kept a0 a ∧ system_ok (ra_sys a) ∧ ra_cache a = ra_cache a0 ∧
  (ra_watcher a0 = None → registry (ra_sys a0) = [] → routed args (ra_sys a)).
Proof.
  intros Hok H. apply stage_Ret in H as ([] & a1 & U1%runs_undisturbed & H).
  apply stage_Ret in H as ([] & a2 & (H2 & S2 & M2 & W2 & C2)%on_sys_Ret & H).
  apply initialize_callbacks_Ret in H2 as [R2 D2].
  apply stage_Ret in H as ([] & a3 & U3%runs_undisturbed & H).
  apply stage_Ret in H as ([] & a4 & (H4 & S4 & M4 & W4 & C4)%on_sys_Ret & U5%runs_undisturbed).
  apply initialize_routing_Ret in H4 as (D4 & R4 & Hrouted). split_and!.
  - eapply kept_trans; [apply undisturbed_kept, U1|]. eapply kept_trans; [by apply same_kept|].
    eapply kept_trans; [apply undisturbed_kept, U3|]. eapply kept_trans; [by apply same_kept|].
    apply undisturbed_kept, U5.
  - apply (un_sys _ _ U5). destruct (un_sys _ _ U1 Hok) as [Q1 Q2].
    assert (system_ok (ra_sys a3)) as [Q3 Q4].
    { apply (un_sys _ _ U3). split; [by rewrite R2|by rewrite D2]. }
    split; [by apply R4|by rewrite D4].
  - by rewrite (un_cache _ _ U5), C4, (un_cache _ _ U3), C2, (un_cache _ _ U1).
  - intros Hn Hr. destruct (un_none _ _ U1 Hn) as [N1 Y1]. rewrite <- W2 in N1.
    destruct (un_none _ _ U3 N1) as [N3 Y3]. rewrite <- W4 in N3. destruct (un_none _ _ U5 N3) as [_ ->].
    apply Hrouted. by rewrite Y3, R2, Y1.
Qed.

(** The gates, the semantic cache and the attached router *)
Lemma last_stages args a0 a :
  system_ok (ra_sys a0) → enabled_flag (ra_cache a0) = false →
  (gates ← lift (opt_str (fieldv "feature_gates" args));
   _ ← on_cache (modify (set_gates (initialize_feature_gates gates ∅)));
   _ ← start_semantic_cache available dim_of w w' on_disk args;
   _ ← runs 3; _ ← on_sys attach_router; runs 4) a0 = (Ret tt, a) →
  kept a0 a ∧ system_ok (ra_sys a) ∧ is_Some (app_router (ra_sys a)) ∧ cache_ready args (ra_cache a) ∧
  (∃ o, opt_str (fieldv "feature_gates" args) = Ret o ∧ feature_gates (ra_cache a) = initialize_feature_gates o ∅) ∧
  (ra_watcher a0 = None → routed args (ra_sys a0) →
   routed args (ra_sys a) ∧ app_router (ra_sys a) = snd <$> head (registry (ra_sys a))).
Proof.
  intros Hok Hf H. apply stage_Ret in H as (o & a1 & H1 & H). injection H1 as Ho ->.
  apply stage_Ret in H as ([] & a2 & (H2 & S2 & M2 & W2 & Y2)%on_cache_Ret & H). injection H2 as H2.
  apply stage_Ret in H as ([] & a3 & H3%start_semantic_cache_Ret & H); [|by rewrite <- H2].
  destruct H3 as (Hcache & G3 & Y3 & S3 & M3 & W3).
  apply stage_Ret in H as ([] & a4 & U4%runs_undisturbed & H).
  apply stage_Ret in H as ([] & a5 & (H5 & S5 & M5 & W5 & C5)%on_sys_Ret & U6%runs_undisturbed).
  apply attach_router_Ret in H5 as (D5 & R5 & r & Hr & Ha). rewrite <- Y2, <- Y3 in Hok.
  destruct (un_sys _ _ U4 Hok) as [Q1 Q2].
  assert (system_ok (ra_sys a5)) as Q3 by (split; [by rewrite R5|by rewrite D5]).
  assert (ra_cache a = ra_cache a3) as Hc by (by rewrite (un_cache _ _ U6), C5, (un_cache _ _ U4)).
  rewrite Hc. split_and!.
  - eapply kept_trans; [by apply same_kept|]. eapply kept_trans; [by apply same_kept|].
    eapply kept_trans; [apply undisturbed_kept, U4|]. eapply kept_trans; [by apply same_kept|].
    apply undisturbed_kept, U6.
  - by apply (un_sys _ _ U6).
  - apply (un_router _ _ U6 Q3). by rewrite Ha.
  - done.
  - exists o. split; [done|]. by rewrite G3, <- H2.
  - intros Hn (logic & k & kw & r' & E1 & E2 & E3 & E4 & E5). rewrite <- W2, <- W3 in Hn.
    destruct (un_none _ _ U4 Hn) as [N4 Y4]. rewrite <- W5 in N4. destruct (un_none _ _ U6 N4) as [_ ->].
    rewrite Y4, Y3, Y2, E5 in Hr. rewrite get_only_router in Hr. injection Hr as <-.
    rewrite R5, Y4, Y3, Y2, E5. split; [|done]. exists logic, k, kw, r'. split_and!; try done.
    by rewrite R5, Y4, Y3, Y2.
Qed.

Lemma start_up_started args sys limits a :
  registry sys = [] → start_up args (new_router_app sys limits) = (Ret tt, a) → started args a.
Proof.
  intros Hreg H. unfold initialize_all in H.
  apply stage_Ret in H as ([] & a1 & H1%on_sys_Ret & H). destruct H1 as (H1%initialize_discovery_Ret & _ & _ & W1 & C1).
  apply stage_Ret in H as ([] & a2 & (S2 & Y2 & W2 & C2)%start_scraper_Ret & H).
  apply stage_Ret in H as ([] & a3 & (M3 & S3 & Y3 & W3 & C3)%start_monitor_Ret & H).
  apply stage_Ret in H as ([] & a4 & [B4 ->]%start_batch_api_Ret & H).
  apply stage_Ret in H as ([] & a5 & (W5 & S5 & Y5 & M5 & C5)%start_watcher_Ret & H).
  destruct H1 as [D1 R1]. simpl in R1. rewrite Hreg, <- Y2, <- Y3, <- Y5 in R1. rewrite <- Y2, <- Y3, <- Y5 in D1.
  assert (system_ok (ra_sys a5)) as Hok5 by (split; [rewrite R1; apply dict_wf_nil|done]).
  rewrite <- M5 in M3. rewrite S2 in S3. rewrite S3 in S5.
  apply stage_Ret in H as ([] & a6 & H6 & H). apply stage_Ret in H as ([] & a7 & H7 & H).
  apply stage_Ret in H as ([] & a8 & H8 & H). apply stage_Ret in H as ([] & a9 & H9 & H).
  apply stage_Ret in H as ([] & a10 & H10 & H).
  destruct (routing_stages args a5 a10 Hok5) as (K1 & Hok10 & C10 & Hrouted).
  { do 4 (erewrite stage_eq by eassumption). done. }
  destruct (last_stages args a10 a Hok10) as (K2 & [Hreg' Hsd] & Happ & Hcache & Hgates & Hattached).
  { by rewrite C10, C5, C3, C2, C1. }
  { done. }
  destruct (kept_trans _ _ _ K1 K2) as (KS & KM & KW & KN). split; try done.
  - by rewrite KS.
  - by rewrite KM.
  - destruct (config_file args); auto.
  - intros Hcf. rewrite Hcf in W5. apply Hattached; [by apply K1|by apply Hrouted].
Qed.


(** ** From start to stop *)
Context (parse_families : string → outcome (list (list (string * Q)))) (md5 : string → string).
Context (scrape_naps : nat).
Local Abbreviation run :=
  (run_turns ids t0 load_kube_config import_callbacks parse_families md5 scrape_naps watch_naps).

Lemma lifespan_begins now (p p' : @process ring tokenizer) :
  p_error p = None → registry_wf (p_sys p) → lifespan_start md5 now None p = (Ret tt, p') → begins_stop p'.
Proof.
  intros He Hr. unfold lifespan_start, client_start, modify.
  cbn [p_sys]. destruct (get_service_discovery (p_sys p)) as [d|]; [|done].
  destruct (discovery_sessions md5 now d _) as [x cl]. intros [= -> <-]. by split_and!.
Qed.

(** C21. A router that was started with valid options, whatever its threads have
    done while it started and served, can be shut down as far as its calls return:
    when the server stops, 15 rounds in each of which every thread gets a turn
    that is not blocked in the [close()] of a service discovery take [lifespan] to its
    end.  Then the shared client is closed and the scraper has ended, even when a
    [close()] raised and cut the rest off; when none did, the watcher has
    ended too, no router is left, and without a watcher the discovery is
    closed.  Shutting down itself waits as long as that [close()] blocks. *)
Theorem started_router_stops args sys limits a p now p1 serve rounds :
  registry sys = [] → start_up args (new_router_app sys limits) = (Ret tt, a) →
  serving a = Some p → lifespan_start md5 now None p = (Ret tt, p1) →
  Forall fair_round rounds → 15 ≤ length rounds →
  let p' := run (serve ++ concat rounds) p1 in
  p_todo p' = [] ∧ (p_error p' = None → all_closed p') ∧
  client_call (p_client p') = Raise AssertionError ∧ is_alive (p_scraper p') = false.
Proof.
  intros Hreg Hs Hp Hl Hf Hn p'.
  assert (registry_wf (p_sys p) ∧ p_error p = None) as [Hw He].
  { unfold serving in Hp. destruct (ra_scraper a); [|done]. injection Hp as <-. split; [|done].
    exact (st_registry _ _ (start_up_started _ _ _ _ Hreg Hs)). }
  pose proof (begins_stopping _ (lifespan_begins _ _ _ He Hw Hl)) as Hb.
  pose proof (run_stopping ids t0 load_kube_config import_callbacks parse_families md5 scrape_naps watch_naps serve _ Hb) as H1.
  assert (p' = run (concat rounds) (run serve p1)) as -> by apply foldl_app.
  pose proof (stops_in_time ids t0 load_kube_config import_callbacks parse_families md5 scrape_naps watch_naps _ _ H1 Hf Hn) as H2.
  set (q := run (concat rounds) (run serve p1)) in *.
  assert (stopping q) as H4 by (by apply run_stopping).
  split; [done|]. split; [intros H3; by apply stopping_closed|].
  destruct (p_error q) as [e|] eqn:Eq; [by apply stopping_failed; [|rewrite Eq]|].
  destruct (stopping_closed q H4 H2 Eq) as (? & ? & _). done.
Qed.

End Spec.

(** ** A router for one engine *)
Definition wit_options : namespace :=
  dupdate [("service_discovery", JStr "static"); ("static_backends", JStr "http://localhost:1");
           ("static_models", JStr "m"); ("routing_logic", JStr "roundrobin")]%string (builtin_defaults true).
Definition wit_system : @System (gset string) unit := mkSystem None [] [] None None no_app.
Abbreviation wit_start_up :=
  (initialize_all (E := list Z) ["i"%string] 5 (Ret tt) (λ _ _, Raise RuntimeError) true (λ _, Ret 3%nat) Written Written
     (λ _, mkDisk None None) 10).
Definition wit_app : @router_app (gset string) unit (list Z) :=
  Eval vm_compute in (wit_start_up (λ _, []) wit_options (new_router_app wit_system (1024, 4096)%Z)).2.


(** With the batch API the same options do not start. *)
Lemma batch_api_does_not_start :
  (wit_start_up (λ _, []) (dset "enable_batch_api" (JBool true) wit_options)%string (new_router_app wit_system (1024, 4096)%Z)).1 =
  Raise (OtherError "ModuleNotFoundError").
Proof. vm_compute. reflexivity. Qed.

Definition wit_serving : @process (gset string) unit := Eval vm_compute in default short_process (serving wit_app).
Definition wit_begun : @process (gset string) unit := Eval vm_compute in (lifespan_start id 0 None wit_serving).2.
Definition wit_round : list turn := 
  [TMain (Some closes_well); TScraper 0 (λ _, Raise RequestException); TWatcher (Some closes_well) (Raise FileNotFoundError)].

Lemma started_router_stops_witness :
  p_todo (toy_runs (replicate 4 (TScraper 0 (λ _, Raise RequestException)) ++ concat (replicate 15 wit_round)) wit_begun) = [].
Proof.
  refine (proj1 (started_router_stops ["i"%string] 5 (Ret tt) (λ _ _, Raise RuntimeError) true (λ _, Ret 3%nat) Written
    Written (λ _, mkDisk None None) 10 (λ _, []) (λ _, Raise ValueError) id 30 wit_options wit_system (1024, 4096)%Z wit_app wit_serving 0
    wit_begun _ (replicate 15 wit_round) _ _ _ _ _ _)).
  - reflexivity.
  - vm_compute. reflexivity.
  - vm_compute. reflexivity.
  - vm_compute. reflexivity.
  - apply Forall_replicate. split_and!; [eexists; by left|eexists _, _; right; by left|eexists _, _; right; right; by left].
  - rewrite length_replicate. lia.
Defined.

(** Callbacks that cannot be imported end start-up after the watcher, whose
    thread is not a daemon, has been started. *)
Lemma failed_start_leaves_watcher :
  let '(r, a) := wit_start_up (λ _, []) (dset "callbacks" (JStr "mine.hooks") (dset "dynamic_config_json" (JStr "r.json") wit_options))%string
                   (new_router_app wit_system (1024, 4096)%Z) in
  r = Raise RuntimeError ∧ is_alive <$> (fst <$> ra_watcher a) = Some true.
Proof. vm_compute. done. Qed.

(** The first polls fall into start-up: with a configuration file that asks for a
    session router, both its router and that of the options are registered, and
    the one of the file is attached. *)
Lemma poll_during_start :
  let '(r, a) := wit_start_up
      (λ i, if decide (i = 0%nat) then replicate 2 (Some closes_well, Ret (dset "session_key" (JStr "x") (toy_cfg "session"))%string) else [])
      (dset "dynamic_config_json" (JStr "r.json") wit_options)%string (new_router_app wit_system (1024, 4096)%Z) in
  r = Ret tt ∧ dkeys (registry (ra_sys a)) = [KSession; KRoundRobin] ∧
  app_router (ra_sys a) = Some (RSession "x" ∅).
Proof. vm_compute. done. Qed.

(** The discovery raises when it is closed: the routers stay registered and the
    watcher, which there is none of here, would go on. *)
Lemma failing_close_cuts_shutdown :
  let p := toy_runs (replicate 2 (TMain (Some closes_well)) ++ replicate 4 (TScraper 0 (λ _, Raise RequestException))
             ++ replicate 3 (TMain (Some (mkCloses (Raise RuntimeError) (Ret tt))))) wit_begun in
  p_todo p = [] ∧ p_error p = Some RuntimeError ∧ dkeys (registry (p_sys p)) = [KRoundRobin].
Proof. vm_compute. done. Qed.
