(* ===== verification/JsonText.v ===== *)
(** * JSON texts: [json.dumps(sort_keys=True, separators=(",", ":"))] and [json.loads]

    [compact] is the text of a value, [sort_keys] orders the keys of every dict,
    [canonical_json] is both.  [JsonLoads] is the interface of [json.loads] that
    clients rely on: it inverts [compact] on values whose dicts have distinct
    keys, and its own values are such.  [text_loads], a parser of compact texts, satisfies it.  The text of a
    float is a parameter. *)
From stdpp Require Import base list strings gmap.
From Stdlib Require Import Ascii QArith.
From Stdlib Require Import Decimal DecimalString DecimalZ.
From S2P Require Import Prelude PyDict PyStr Json.

(** ** Induction over JSON values *)
Section Induction.
Context (P : json → Prop).
Context (Hnull : P JNull) (Hbool : ∀ b, P (JBool b)) (Hint : ∀ z, P (JInt z)).
Context (Hfloat : ∀ q, P (JFloat q)) (Hstr : ∀ s, P (JStr s)).
Context (Harr : ∀ l, Forall P l → P (JArr l)).
Context (Hobj : ∀ d, Forall (λ kv : string * json, P kv.2) d → P (JObj d)).

Fixpoint json_rect' (v : json) : P v :=
  match v with
  | JNull => Hnull
  | JBool b => Hbool b
  | JInt z => Hint z
  | JFloat q => Hfloat q
  | JStr s => Hstr s
  | JArr l => Harr l ((fix go l : Forall P l :=
      match l with [] => Forall_nil_2 _ | v :: l => Forall_cons_2 _ _ _ (json_rect' v) (go l) end) l)
  | JObj d => Hobj d ((fix go d : Forall (λ kv : string * json, P kv.2) d :=
      match d with [] => Forall_nil_2 _ | kv :: d => Forall_cons_2 _ _ _ (json_rect' kv.2) (go d) end) d)
  end.
End Induction.

(** Every dict has distinct keys, as every Python dict does. *)
Fixpoint json_wf (v : json) : Prop :=
  match v with
  | JArr l => (fix go l := match l with [] => True | v :: l => json_wf v ∧ go l end) l
  | JObj d => NoDup (dkeys d) ∧
      (fix go d := match d with [] => True | kv :: d => json_wf kv.2 ∧ go d end) d
  | _ => True
  end.

Fixpoint json_wfb (v : json) : bool :=
  match v with
  | JArr l => forallb json_wfb l
  | JObj d => bool_decide (NoDup (dkeys d)) && forallb (λ kv, json_wfb kv.2) d
  | _ => true
  end.

Lemma json_wf_arr l : json_wf (JArr l) ↔ Forall json_wf l.
Proof.
  simpl. induction l as [|v l IH]; [by split|]. rewrite Forall_cons, <- IH. done.
Qed.

Lemma json_wf_obj d : json_wf (JObj d) ↔ NoDup (dkeys d) ∧ Forall (λ kv, json_wf kv.2) d.
Proof.
  simpl. apply and_iff_compat_l. induction d as [|kv d IH]; [by split|].
  rewrite Forall_cons, <- IH. done.
Qed.

Lemma json_wfb_spec v : json_wfb v = true ↔ json_wf v.
Proof.
  induction v as [| | | | |l IH|d IH] using json_rect'; try done.
  - rewrite json_wf_arr. change (json_wfb (JArr l)) with (forallb json_wfb l).
    induction IH as [|v l Hv Hl IHl]; simpl; [by split|]. rewrite andb_true_iff, Forall_cons. naive_solver.
  - rewrite json_wf_obj.
    change (json_wfb (JObj d)) with (bool_decide (NoDup (dkeys d)) && forallb (λ kv, json_wfb kv.2) d).
    rewrite andb_true_iff, bool_decide_eq_true. apply and_iff_compat_l.
    induction IH as [|kv d Hv Hd IHd]; simpl; [by split|]. rewrite andb_true_iff, Forall_cons. naive_solver.
Qed.

(** ** Texts *)
Definition hex_digit (n : nat) : ascii :=
  Ascii.ascii_of_nat (if Nat.ltb n 10 then 48 + n else 87 + n).

(** The escapes of [py_encode_basestring] (without [ensure_ascii]). *)
Definition escape (a : ascii) : string :=
  let n := Ascii.nat_of_ascii a in
  if Nat.eqb n 34 then String "\" (String a EmptyString)
  else if Nat.eqb n 92 then String "\" (String a EmptyString)
  else if Nat.eqb n 10 then "\n"%string
  else if Nat.eqb n 13 then "\r"%string
  else if Nat.eqb n 9 then "\t"%string
  else if Nat.eqb n 12 then "\f"%string
  else if Nat.eqb n 8 then "\b"%string
  else if Nat.ltb n 32 then
    "\u00"%string +:+ String (hex_digit (n / 16)) (String (hex_digit (n mod 16)) EmptyString)
  else String a EmptyString.

Fixpoint escape_all (s : string) : string :=
  match s with EmptyString => EmptyString | String a s => escape a +:+ escape_all s end.

Definition dquote : ascii := Ascii.ascii_of_nat 34.
Definition quote (s : string) : string := String dquote (escape_all s +:+ String dquote EmptyString).

(** [str(z)] *)
Definition int_text (z : Z) : string := NilZero.string_of_int (Z.to_int z).

Section Text.
Context (float_repr : Q → string).

Fixpoint compact (v : json) : string :=
  match v with
  | JNull => "null"
  | JBool true => "true"
  | JBool false => "false"
  | JInt z => int_text z
  | JFloat q => float_repr q
  | JStr s => quote s
  | JArr l => String "[" (join "," (map compact l) +:+ "]")
  | JObj d => String "{" (join "," (map (λ kv, quote kv.1 +:+ String ":" (compact kv.2)) d) +:+ "}")
  end.

Fixpoint sort_keys (v : json) : json :=
  match v with
  | JArr l => JArr (map sort_keys l)
  | JObj d => JObj (sorted_by fst (map (λ kv, (kv.1, sort_keys kv.2)) d))
  | _ => v
  end.

Definition canonical_json (v : json) : string := compact (sort_keys v).

(** The interface of [json.loads]. *)
Class JsonLoads := {
  loads : string → outcome json;
  loads_compact v : json_wf v → loads (compact v) = Ret v;
  loads_wf t v : loads t = Ret v → json_wf v
}.
End Text.

(** ** Canonical texts *)
Lemma sort_keys_fst (d : list (string * json)) :
  (map (λ kv, (kv.1, sort_keys kv.2)) d).*1 = d.*1.
Proof. induction d as [|[k v] d IH]; [done|]. csimpl. by f_equal. Qed.

Lemma sort_keys_wf v : json_wf v → json_wf (sort_keys v).
Proof.
  induction v as [| | | | |l IH|d IH] using json_rect'; try done.
  - change (sort_keys (JArr l)) with (JArr (map sort_keys l)). rewrite !json_wf_arr. intros Hl.
    apply Forall_map. rewrite Forall_forall in *. intros x Hx. by apply IH, Hl.
  - change (sort_keys (JObj d)) with (JObj (sorted_by fst (map (λ kv, (kv.1, sort_keys kv.2)) d))).
    rewrite !json_wf_obj. unfold dkeys. rewrite sorted_by_perm, sort_keys_fst. intros [Hnd Hd].
    split; [done|]. apply Forall_map. rewrite Forall_forall in *. intros x Hx. by apply IH, Hd.
Qed.

(** The order of the keys does not show. *)
Lemma canonical_json_perm fr d d' :
  NoDup (dkeys d) → d ≡ₚ d' → canonical_json fr (JObj d) = canonical_json fr (JObj d').
Proof.
  intros Hnd Hp. unfold canonical_json. f_equal. simpl. f_equal. apply sorted_by_unique.
  - change (NoDup (map (λ kv, (kv.1, sort_keys kv.2)) d).*1). by rewrite sort_keys_fst.
  - by apply Permutation_map.
Qed.

Lemma sort_keys_dget d k :
  NoDup (dkeys d) → dget k (sorted_by fst (map (λ kv, (kv.1, sort_keys kv.2)) d)) = sort_keys <$> dget k d.
Proof.
  intros Hnd. destruct (dget k d) as [v|] eqn:E; simpl.
  - apply elem_dget.
    + unfold dict_wf, dkeys. by rewrite sorted_by_perm, sort_keys_fst.
    + rewrite sorted_by_perm. apply dget_elem in E. apply list_elem_of_fmap. by exists (k, v).
  - apply dget_None in E. apply dget_None. unfold dkeys in *. by rewrite sorted_by_perm, sort_keys_fst.
Qed.

(** ** A parser of compact texts *)
Fixpoint strip_prefix (p s : string) : option string :=
  match p, s with
  | EmptyString, _ => Some s
  | String a p, String b s => if Ascii.eqb a b then strip_prefix p s else None
  | _, _ => None
  end.

Definition hex_value (a : ascii) : nat :=
  let n := Ascii.nat_of_ascii a in if Nat.ltb n 58 then n - 48 else n - 87.

(** One character of a string literal; [None] at the closing quote. *)
Definition read_char (s : string) : option (option ascii * string) :=
  match s with
  | EmptyString => None
  | String a s =>
      let n := Ascii.nat_of_ascii a in
      if Nat.eqb n 34 then Some (None, s)
      else if Nat.eqb n 92 then
        match s with
        | EmptyString => None
        | String b s =>
            let m := Ascii.nat_of_ascii b in
            if Nat.eqb m 110 then Some (Some (Ascii.ascii_of_nat 10), s)
            else if Nat.eqb m 114 then Some (Some (Ascii.ascii_of_nat 13), s)
            else if Nat.eqb m 116 then Some (Some (Ascii.ascii_of_nat 9), s)
            else if Nat.eqb m 102 then Some (Some (Ascii.ascii_of_nat 12), s)
            else if Nat.eqb m 98 then Some (Some (Ascii.ascii_of_nat 8), s)
            else if Nat.eqb m 117 then
              match s with
              | String _ (String _ (String h (String l s))) =>
                  Some (Some (Ascii.ascii_of_nat (16 * hex_value h + hex_value l)), s)
              | _ => None
              end
            else Some (Some b, s)
        end
      else Some (Some a, s)
  end.

Fixpoint read_string (fuel : nat) (s : string) : option (string * string) :=
  match fuel with
  | O => None
  | S fuel =>
      match read_char s with
      | None => None
      | Some (None, s) => Some (EmptyString, s)
      | Some (Some a, s) => match read_string fuel s with
                            | Some (t, s) => Some (String a t, s)
                            | None => None
                            end
      end
  end.

Definition num_char (a : ascii) : bool :=
  let n := Ascii.nat_of_ascii a in Nat.eqb n 45 || (Nat.leb 48 n && Nat.leb n 57).

Fixpoint span_num (s : string) : string * string :=
  match s with
  | String a s' => if num_char a then let '(x, y) := span_num s' in (String a x, y) else (EmptyString, s)
  | EmptyString => (EmptyString, EmptyString)
  end.

Definition read_int (s : string) : option (Z * string) :=
  let '(x, y) := span_num s in
  match NilZero.int_of_string x with Some d => Some (Z.of_int d, y) | None => None end.

(** A fraction stands for a float: ["~1/3"]. *)
Definition frac_repr (q : Q) : string :=
  String "~" (int_text (Qnum q) +:+ String "/" (int_text (Zpos (Qden q)))).

Definition read_frac (s : string) : option (Q * string) :=
  match read_int s with
  | Some (n, String a s) =>
      if Ascii.eqb a "/" then
        match read_int s with Some (Zpos d, s) => Some (Qmake n d, s) | _ => None end
      else None
  | _ => None
  end.

Fixpoint parse (fuel : nat) (s : string) : option (json * string) :=
  match fuel, s with
  | S fuel, String a r =>
      if Ascii.eqb a "n" then r ← strip_prefix "ull" r; Some (JNull, r)
      else if Ascii.eqb a "t" then r ← strip_prefix "rue" r; Some (JBool true, r)
      else if Ascii.eqb a "f" then r ← strip_prefix "alse" r; Some (JBool false, r)
      else if Ascii.eqb a "~" then '(q, r) ← read_frac r; Some (JFloat q, r)
      else if Ascii.eqb a dquote then '(t, r) ← read_string (S (String.length r)) r; Some (JStr t, r)
      else if Ascii.eqb a "[" then
        match strip_prefix "]" r with
        | Some r => Some (JArr [], r)
        | None => '(l, r) ← parse_items fuel r; Some (JArr l, r)
        end
      else if Ascii.eqb a "{" then
        match strip_prefix "}" r with
        | Some r => Some (JObj [], r)
        | None => '(d, r) ← parse_members fuel r; Some (JObj d, r)
        end
      else '(z, r) ← read_int s; Some (JInt z, r)
  | _, _ => None
  end
with parse_items (fuel : nat) (s : string) : option (list json * string) :=
  match fuel with
  | O => None
  | S fuel =>
      '(v, r) ← parse fuel s;
      match strip_prefix "]" r with
      | Some r => Some ([v], r)
      | None => r ← strip_prefix "," r; '(l, r) ← parse_items fuel r; Some (v :: l, r)
      end
  end
with parse_members (fuel : nat) (s : string) : option (list (string * json) * string) :=
  match fuel with
  | O => None
  | S fuel =>
      r ← strip_prefix (String dquote EmptyString) s;
      '(k, r) ← read_string (S (String.length r)) r;
      r ← strip_prefix ":" r;
      '(v, r) ← parse fuel r;
      match strip_prefix "}" r with
      | Some r => Some ([(k, v)], r)
      | None => r ← strip_prefix "," r; '(d, r) ← parse_members fuel r; Some ((k, v) :: d, r)
      end
  end.

(** Texts with a repeated key are refused. *)
Definition parse_text (s : string) : outcome json :=
  match parse (S (String.length s)) s with
  | Some (v, EmptyString) => if json_wfb v then Ret v else Raise JSONDecodeError
  | _ => Raise JSONDecodeError
  end.

(** ** The parser inverts [compact] *)
Lemma strip_prefix_app p s : strip_prefix p (p +:+ s) = Some s.
Proof.
  induction p as [|a p IH]; [done|]. change (strip_prefix (String a p) (String a (p +:+ s)) = Some s).
  simpl. by rewrite Ascii.eqb_refl.
Qed.

Lemma read_char_escape a s : read_char (escape a +:+ s) = Some (Some a, s).
Proof. destruct a as [[] [] [] [] [] [] [] []]; reflexivity. Qed.

Lemma escape_length a : (1 ≤ String.length (escape a))%nat.
Proof. destruct a as [[] [] [] [] [] [] [] []]; vm_compute; lia. Qed.

Lemma read_string_quote fuel t s :
  (String.length t < fuel)%nat →
  read_string fuel (escape_all t +:+ String dquote s) = Some (t, s).
Proof.
  revert fuel. induction t as [|a t IH]; intros [|fuel] Hf; simpl in Hf; try lia; [done|].
  change (escape_all (String a t)) with (escape a +:+ escape_all t). rewrite str_app_assoc.
  cbn [read_string]. rewrite read_char_escape, IH by lia. done.
Qed.

Lemma escape_all_length t : (String.length t ≤ String.length (escape_all t))%nat.
Proof.
  induction t as [|a t IH]; [done|]. change (escape_all (String a t)) with (escape a +:+ escape_all t).
  rewrite str_app_length. pose proof (escape_length a). simpl. lia.
Qed.

Lemma span_num_app x s :
  (∀ a, str_has a x = true → num_char a = true) →
  match s with String a _ => num_char a = false | EmptyString => True end →
  span_num (x +:+ s) = (x, s).
Proof.
  intros Hx Hs. induction x as [|a x IH].
  - change (EmptyString +:+ s) with s. destruct s as [|b s]; [done|]. simpl. by rewrite Hs.
  - change (String a x +:+ s) with (String a (x +:+ s)). simpl.
    rewrite Hx by (simpl; by rewrite decide_True). rewrite IH; [done|].
    intros b Hb. apply Hx. simpl. by case_decide.
Qed.

Lemma uint_chars d a : str_has a (NilEmpty.string_of_uint d) = true → num_char a = true.
Proof. induction d; simpl; try done; case_decide; subst; auto. Qed.

Lemma int_text_chars z a : str_has a (int_text z) = true → num_char a = true.
Proof.
  assert (∀ d, str_has a (NilZero.string_of_uint d) = true → num_char a = true) as Hu.
  { intros d. destruct d; try apply uint_chars. simpl. case_decide; by subst. }
  unfold int_text. destruct (Z.to_int z) as [d|d]; [apply Hu|].
  change (NilZero.string_of_int (Neg d)) with (String "-" (NilZero.string_of_uint d)).
  simpl. case_decide; [by subst|apply Hu].
Qed.

Lemma pos_to_uint_not_nil p : Pos.to_uint p ≠ Nil.
Proof.
  intros H. pose proof (DecimalPos.Unsigned.of_to p) as Hp. rewrite H in Hp. done.
Qed.

Lemma read_int_text z s :
  match s with String a _ => num_char a = false | EmptyString => True end →
  read_int (int_text z +:+ s) = Some (z, s).
Proof.
  intros Hs. unfold read_int. rewrite span_num_app; [|apply int_text_chars|done].
  unfold int_text. rewrite NilZero.isi.
  - by rewrite DecimalZ.of_to.
  - destruct z; simpl; try done. intros [= H]. by apply pos_to_uint_not_nil in H.
  - destruct z; simpl; try done. intros [= H]. by apply pos_to_uint_not_nil in H.
Qed.

Definition delimited (s : string) : Prop :=
  match s with String a _ => num_char a = false | EmptyString => True end.

Lemma num_char_first a :
  num_char a = true →
  Forall (λ c, Ascii.eqb a c = false) ["n"; "t"; "f"; "~"; dquote; "["; "{"]%char.
Proof. destruct a as [[] [] [] [] [] [] [] []]; try done; intros _; by repeat constructor. Qed.

Lemma int_text_head z : ∃ a t, int_text z = String a t ∧ num_char a = true.
Proof.
  destruct (int_text z) as [|a t] eqn:E.
  - pose proof (read_int_text z EmptyString I) as H. by rewrite E in H.
  - exists a, t. split; [done|]. apply (int_text_chars z). rewrite E. simpl. by rewrite decide_True.
Qed.

Lemma str_cons_app a t s : String a t +:+ s = String a (t +:+ s).
Proof. done. Qed.

Section RoundTrip.
Abbreviation text := (compact frac_repr).

(** The claim for one value. *)
Definition parses (v : json) : Prop :=
  ∀ fuel s, (String.length (text v) ≤ fuel)%nat → delimited s → parse fuel (text v +:+ s) = Some (v, s).

Lemma text_length v : (1 ≤ String.length (text v))%nat.
Proof.
  destruct v as [|[]|z| | | |]; simpl; try lia.
  destruct (int_text_head z) as (a & t & -> & _). simpl. lia.
Qed.

Lemma quote_length k : (2 ≤ String.length (quote k))%nat.
Proof. unfold quote. simpl. rewrite str_app_length. simpl. lia. Qed.

Lemma parses_int z : parses (JInt z).
Proof.
  intros fuel s Hf Hs. pose proof (text_length (JInt z)) as Hl. destruct fuel as [|fuel]; [lia|].
  change (text (JInt z)) with (int_text z). pose proof (read_int_text z s Hs) as Hr.
  destruct (int_text_head z) as (a & t & E & Ha). rewrite E, str_cons_app in Hr |- *. simpl.
  apply num_char_first in Ha. rewrite !Forall_cons in Ha. destruct Ha as (-> & -> & -> & -> & -> & -> & -> & _).
  by rewrite Hr.
Qed.

Lemma parses_float q : parses (JFloat q).
Proof.
  intros fuel s Hf Hs. pose proof (text_length (JFloat q)) as Hl. destruct fuel as [|fuel]; [lia|].
  change (text (JFloat q)) with (String "~" (int_text (Qnum q) +:+ String "/" (int_text (Zpos (Qden q))))).
  rewrite str_cons_app, str_app_assoc, str_cons_app.
  cbn [parse]. simpl (Ascii.eqb _ _). cbv iota. unfold read_frac. rewrite read_int_text by done. simpl. rewrite read_int_text by done. simpl.
  by destruct q.
Qed.

Lemma read_quoted k r :
  read_string (S (String.length (escape_all k +:+ String dquote r))) (escape_all k +:+ String dquote r)
    = Some (k, r).
Proof.
  apply read_string_quote. rewrite str_app_length. pose proof (escape_all_length k). lia.
Qed.

Lemma quote_app k s : quote k +:+ s = String dquote (escape_all k +:+ String dquote s).
Proof. unfold quote. by rewrite str_cons_app, str_app_assoc. Qed.

Lemma parses_str t : parses (JStr t).
Proof.
  intros fuel s Hf Hs. pose proof (text_length (JStr t)) as Hl. destruct fuel as [|fuel]; [lia|].
  change (text (JStr t)) with (quote t). rewrite quote_app.
  cbn [parse]. simpl (Ascii.eqb _ _). cbv iota. by rewrite read_quoted.
Qed.

Lemma join_cons2 sep x y l : join sep (x :: y :: l) = x +:+ sep +:+ join sep (y :: l).
Proof. done. Qed.

Lemma strip_comma x : strip_prefix "," (String "," x) = Some x.
Proof. done. Qed.

Lemma strip_other c x : Ascii.eqb c "," = false → strip_prefix (String c EmptyString) (String "," x) = None.
Proof. intros H. simpl. by rewrite H. Qed.

Lemma parse_items_text l fuel s :
  l ≠ [] → Forall parses l → (String.length (join "," (map text l)) < fuel)%nat →
  parse_items fuel (join "," (map text l) +:+ String "]" s) = Some (l, s).
Proof.
  intros Hne Hl. revert fuel Hne. induction Hl as [|v l Hv Hl IH]; intros fuel Hne Hf; [done|].
  destruct fuel as [|fuel]; [lia|]. destruct l as [|w l].
  - cbn [parse_items map join] in *. rewrite Hv by (done || lia). done.
  - cbn [map] in Hf |- *. rewrite join_cons2 in Hf |- *. rewrite !str_app_length in Hf.
    rewrite !str_app_assoc. cbn [parse_items]. rewrite Hv by (done || lia).
    change ("," +:+ ?x) with (String "," x). cbn [mbind option_bind]. rewrite strip_other, strip_comma by done.
    cbn [mbind option_bind]. pose proof (text_length v). change (String.length ",") with 1%nat in Hf.
    change (map text (w :: l)) with (text w :: map text l) in IH.
    rewrite (IH fuel) by (done || lia). done.
Qed.

Definition member (kv : string * json) : string := quote kv.1 +:+ String ":" (text kv.2).

Lemma member_app kv s :
  member kv +:+ s = String dquote (escape_all kv.1 +:+ String dquote (String ":" (text kv.2 +:+ s))).
Proof. unfold member. by rewrite str_app_assoc, quote_app, str_cons_app. Qed.

Lemma member_length kv : (String.length (text kv.2) < String.length (member kv))%nat.
Proof. unfold member. rewrite str_app_length. simpl. lia. Qed.

Lemma parse_members_text d fuel s :
  d ≠ [] → Forall (λ kv, parses kv.2) d → (String.length (join "," (map member d)) < fuel)%nat →
  parse_members fuel (join "," (map member d) +:+ String "}" s) = Some (d, s).
Proof.
  intros Hne Hd. revert fuel Hne. induction Hd as [|[k v] d Hv Hd IH]; intros fuel Hne Hf; [done|].
  destruct fuel as [|fuel]; [lia|]. pose proof (member_length (k, v)) as Hm. simpl in Hv.
  change ((k, v).2) with v in Hm. destruct d as [|kv d].
  - cbn [map join] in *. rewrite member_app. cbn [parse_members].
    change (strip_prefix (String dquote EmptyString) (String dquote ?x)) with (Some x).
    cbn [mbind option_bind fst snd]. rewrite read_quoted. cbn [mbind option_bind].
    change (strip_prefix ":" (String ":" ?x)) with (Some x). cbn [mbind option_bind].
    by rewrite Hv by (done || lia).
  - cbn [map] in Hf |- *. rewrite join_cons2 in Hf |- *. rewrite !str_app_length in Hf.
    rewrite !str_app_assoc, member_app. cbn [parse_members].
    change (strip_prefix (String dquote EmptyString) (String dquote ?x)) with (Some x).
    cbn [mbind option_bind fst snd]. rewrite read_quoted. cbn [mbind option_bind].
    change (strip_prefix ":" (String ":" ?x)) with (Some x). cbn [mbind option_bind].
    rewrite Hv by (done || lia). change ("," +:+ ?x) with (String "," x).
    cbn [mbind option_bind]. rewrite strip_other, strip_comma by done. cbn [mbind option_bind].
    change (String.length ",") with 1%nat in Hf.
    change (map member (kv :: d)) with (member kv :: map member d) in IH.
    rewrite (IH fuel) by (done || lia). done.
Qed.

Lemma join_head sep y l : ∃ x, join sep (y :: l) = y +:+ x.
Proof.
  destruct l as [|z l]; [exists EmptyString; by rewrite str_app_nil_r|].
  exists (sep +:+ join sep (z :: l)). done.
Qed.

Lemma text_not_bracket v x : strip_prefix "]" (text v +:+ x) = None.
Proof.
  destruct v as [|[]|z|q|t|l|d]; try done.
  change (text (JInt z)) with (int_text z). destruct (int_text_head z) as (a & t & -> & Ha).
  rewrite str_cons_app. cbn [strip_prefix]. destruct (Ascii.eqb_spec "]" a) as [<-|]; done.
Qed.

Lemma parses_all v : parses v.
Proof.
  induction v as [|b|z|q|t|l IH|d IH] using json_rect'.
  - intros [|fuel] s Hf Hs; [simpl in Hf; lia|done].
  - destruct b; intros [|fuel] s Hf Hs; try (simpl in Hf; lia); done.
  - apply parses_int.
  - apply parses_float.
  - apply parses_str.
  - intros fuel s Hf Hs. destruct fuel as [|fuel]; [simpl in Hf; lia|].
    change (text (JArr l)) with (String "[" (join "," (map text l) +:+ "]")) in *.
    simpl in Hf. rewrite str_app_length in Hf. change (String.length "]") with 1%nat in Hf.
    rewrite str_cons_app, str_app_assoc. destruct l as [|v l]; [done|].
    cbn [parse]. simpl (Ascii.eqb _ _). cbv iota. change ("]" +:+ s) with (String "]" s).
    destruct (join_head "," (text v) (map text l)) as [x Hx].
    assert (strip_prefix "]" (join "," (map text (v :: l)) +:+ String "]" s) = None) as ->.
    { cbn [map]. rewrite Hx, str_app_assoc. apply text_not_bracket. }
    rewrite parse_items_text by (done || lia). done.
  - intros fuel s Hf Hs. destruct fuel as [|fuel]; [simpl in Hf; lia|].
    change (text (JObj d)) with (String "{" (join "," (map member d) +:+ "}")) in *.
    simpl in Hf. rewrite str_app_length in Hf. change (String.length "}") with 1%nat in Hf.
    rewrite str_cons_app, str_app_assoc. destruct d as [|kv d]; [done|].
    cbn [parse]. simpl (Ascii.eqb _ _). cbv iota. change ("}" +:+ s) with (String "}" s).
    destruct (join_head "," (member kv) (map member d)) as [x Hx].
    assert (strip_prefix "}" (join "," (map member (kv :: d)) +:+ String "}" s) = None) as ->.
    { cbn [map]. by rewrite Hx, str_app_assoc, member_app. }
    rewrite parse_members_text by (done || lia). done.
Qed.
End RoundTrip.

Lemma parse_text_compact v : json_wf v → parse_text (compact frac_repr v) = Ret v.
Proof.
  intros Hv%json_wfb_spec. unfold parse_text.
  pose proof (parses_all v (S (String.length (compact frac_repr v))) EmptyString) as H.
  rewrite str_app_nil_r in H. rewrite H; [by rewrite Hv|lia|done].
Qed.

#[global, refine] Instance text_loads : JsonLoads frac_repr := {|
  loads := parse_text;
  loads_compact := parse_text_compact
|}.
Proof.
  intros t v. unfold parse_text. repeat case_match; try done. intros [= <-]. by apply json_wfb_spec.
Defined.
