(* ===== verification/NvLog.v ===== *)
(** * Reading NVDBG logs: the parsing half of [debug/issue-6/analyze_nvlink_nvdbg.py]

    Each regular expression of the script is a small scanner that takes what
    [re] would: the patterns are such that the leftmost match is found by
    maximal runs.  Texts are byte strings whose words are ASCII. *)
From stdpp Require Import base list strings gmap.
From Stdlib Require Import Ascii.
From S2P Require Import Prelude PyDict PyStr Regex Backtrack JsonText.

Local Open Scope nat_scope.

(** ** Data *)
Record Event := mkEvent {
  e_line : nat;
  e_raw : string;
  e_msg : string;
  e_pod : string;
  e_container : string;
  e_tag : string;
  e_fields : list (string * string)
}.

Definition TAGS : list string :=
  ["INSTALL"; "EXPORT"; "IPC_OPEN_BEGIN"; "IPC_OPEN_OK"; "IPC_OPEN_FAIL"; "TRANSFER_ABORT"; "COPY_FAIL";
   "UNREGISTER"; "DTOR"; "RANGE_MISS"; "REMAP_HIT"]%string.

Definition unknown_pod : string := "<unknown-pod>".
Definition unknown_container : string := "<unknown-container>".

(** ** Scanners *)
(** The longest prefix in the class, and the rest. *)
Fixpoint span_while (f : ascii → bool) (s : string) : string * string :=
  match s with
  | EmptyString => (EmptyString, EmptyString)
  | String a s' => if f a then let '(x, y) := span_while f s' in (String a x, y) else (EmptyString, s)
  end.

(** [re.search]: the first position where the scanner matches. *)
Fixpoint re_search {A} (f : string → option A) (s : string) : option A :=
  match f s with
  | Some x => Some x
  | None => match s with EmptyString => None | String _ s => re_search f s end
  end.

(** The same for a pattern that starts with [\b] and a word character. *)
Fixpoint search_word {A} (f : string → option A) (prev : option ascii) (s : string) : option A :=
  match (if word_at prev then None else f s) with
  | Some x => Some x
  | None => match s with EmptyString => None | String a s => search_word f (Some a) s end
  end.

Definition non_space (a : ascii) : bool := negb (is_space a).

(** [.*$] at the start of the text. *)
Definition dot_line (s : string) : option string :=
  let '(x, y) := span_while dot s in
  match y with
  | EmptyString => Some x
  | String _ EmptyString => Some x
  | _ => None
  end.

(** [PREFIX_RE.match] *)
Definition prefix_match (line : string) : option (string * string * string) :=
  r ← strip_prefix "[pod/" line;
  match span_while (λ a, negb (Ascii.eqb a "/")) r with
  | (String _ _ as pod, String _ r) =>
      match span_while (λ a, negb (Ascii.eqb a "]")) r with
      | (String _ _ as container, String _ r) => msg ← dot_line (lstrip r); Some (pod, container, msg)
      | _ => None
      end
  | _ => None
  end.

Definition split_prefix (line : string) : string * string * string :=
  default (unknown_pod, unknown_container, line) (prefix_match line).

(** [TAG_RE] *)
Definition tag_char (a : ascii) : bool := is_upper a || Ascii.eqb a "_".
Definition tag_here (s : string) : option string :=
  r ← strip_prefix "[NVDBG][" s;
  match span_while tag_char r with
  | (String _ _ as t, String a _) => if Ascii.eqb a "]" then Some t else None
  | _ => None
  end.

(** [FIELD_RE] *)
Definition ident_start (a : ascii) : bool := is_alpha a || Ascii.eqb a "_".
Definition field_here (s : string) : option (string * string) :=
  match s with
  | String a _ =>
      if ident_start a then
        let '(k, r) := span_while is_word s in
        match r with
        | String b r => if Ascii.eqb b "=" then
                          match span_while non_space r with
                          | (String _ _ as v, _) => Some (k, v)
                          | _ => None
                          end
                        else None
        | EmptyString => None
        end
      else None
  | EmptyString => None
  end.

(** [FIELD_RE.finditer]: [skip] characters of the last match are still to be
    passed. *)
Fixpoint scan_fields (skip : nat) (prev : option ascii) (s : string) : list (string * string) :=
  match s with
  | EmptyString => []
  | String a s' =>
      match skip with
      | S n => scan_fields n (Some a) s'
      | O => match (if word_at prev then None else field_here s) with
             | Some (k, v) => (k, v) :: scan_fields (String.length k + String.length v) (Some a) s'
             | None => scan_fields O (Some a) s'
             end
      end
  end.

(** [\s+segment=] at the start of the text *)
Definition segment_here (s : string) : bool :=
  match s with
  | String a _ => is_space a && bool_decide (is_Some (strip_prefix "segment=" (lstrip s)))
  | EmptyString => false
  end.

(** [(.*?)\s+segment=] *)
Fixpoint lazy_segment (s : string) : option string :=
  if segment_here s then Some EmptyString
  else match s with
       | String a s => if dot a then String a <$> lazy_segment s else None
       | EmptyString => None
       end.

Definition err_string_here (s : string) : option string :=
  r ← strip_prefix "err_string=" s; lazy_segment r.

Definition parse_fields (msg : string) : list (string * string) :=
  let fields := dupdate (scan_fields 0 None msg) [] in
  match search_word err_string_here None msg with
  | Some x => dset "err_string"%string (strip x) fields
  | None => fields
  end.

(** [DECODE_PULL_FAIL_RE], without regard to case: the parts one after another
    ([.] does not pass a line end). *)
Definition lit_here (p s : string) : option string := strip_prefix p s.
Fixpoint search_line {A} (f : string → option A) (s : string) : option A :=
  match f s with
  | Some x => Some x
  | None => match s with
            | EmptyString => None
            | String a s => if dot a then search_line f s else None
            end
  end.
Definition returned_here (s : string) : option unit :=
  r ← strip_prefix "mooncake transfer engine returned" s;
  match r with
  | String a _ => if is_space a then _ ← strip_prefix "-1" (lstrip r); Some tt else None
  | EmptyString => None
  end.
Definition pull_fail_here (s : string) : option unit :=
  r ← strip_prefix "pulling kv_caches" s;
  search_line (λ s, r ← lit_here "failed" s; search_line returned_here r) r.
Definition decode_pull_fail (msg : string) : bool :=
  bool_decide (is_Some (re_search pull_fail_here (lower msg))).

(** [GUARDIAN_RE] *)
Definition guardian (msg : string) : bool :=
  bool_decide (is_Some (re_search (lit_here "[pd-cell-guardian]") msg)).

(** [PD_GPU_RE] *)
Definition gpu_keys : list string := ["reserved-cvd"; "selected-indices"; "selected-uuids"]%string.
Definition gpu_here (s : string) : option (string * string) :=
  r ← strip_prefix "[pd-gpu]" s;
  match r with
  | String a _ =>
      if is_space a then
        head (omap (λ key, r ← strip_prefix (key +:+ "=") (lstrip r);
                           match span_while non_space r with
                           | (String _ _ as v, _) => Some (key, v)
                           | _ => None
                           end) gpu_keys)
      else None
  | EmptyString => None
  end.

(** ** The log *)
Record Log := mkLogs {
  events : list Event;
  decode_failures : list (nat * string);
  guardian_lines : list (nat * string);
  gpu_maps : list ((string * string) * list (string * string))
}.

(** [s.rstrip("\n")] *)
Fixpoint rstrip_newlines (s : string) : string :=
  match s with
  | EmptyString => EmptyString
  | String a s => match rstrip_newlines s with
                  | EmptyString => if is_newline a then EmptyString else String a EmptyString
                  | t => String a t
                  end
  end.

(** The body of the loop. *)
Definition read_line (l : Log) (line_no : nat) (raw_line : string) : Log :=
  let raw := rstrip_newlines raw_line in
  let '(pod, container, msg) := split_prefix raw in
  let decode := if decode_pull_fail msg then decode_failures l ++ [(line_no, raw)] else decode_failures l in
  let guards := if guardian msg then guardian_lines l ++ [(line_no, raw)] else guardian_lines l in
  let maps := match re_search gpu_here msg with
              | Some (key, value) =>
                  dset (pod, container) (dset key value (default [] (dget (pod, container) (gpu_maps l)))) (gpu_maps l)
              | None => gpu_maps l
              end in
  match re_search tag_here msg with
  | None => mkLogs (events l) decode guards maps
  | Some tag =>
      mkLogs (events l ++ [mkEvent line_no raw msg pod container tag (parse_fields msg)]) decode guards maps
  end.

Fixpoint parse_from (l : Log) (line_no : nat) (lines : list string) : Log :=
  match lines with
  | [] => l
  | raw :: lines => parse_from (read_line l line_no raw) (S line_no) lines
  end.

Definition parse_log (lines : list string) : Log := parse_from (mkLogs [] [] [] []) 1 lines.

(** [text.splitlines(True)]: line ends are kept. *)
Definition is_break (a : ascii) : bool :=
  bool_decide (nat_of_ascii a ∈ [10; 11; 12; 13; 28; 29; 30; 133]).

Fixpoint splitlines (s : string) : list string :=
  match s with
  | EmptyString => []
  | String a s' =>
      if Nat.eqb (nat_of_ascii a) 13 then
        match s' with
        | String b s'' => if is_newline b then String a (String b EmptyString) :: splitlines s''
                          else String a EmptyString :: splitlines s'
        | EmptyString => [String a EmptyString]
        end
      else if is_break a then String a EmptyString :: splitlines s'
      else match splitlines s' with
           | [] => [String a EmptyString]
           | l :: ls => String a l :: ls
           end
  end.
