(* ===== verification/NvAnalysis.v ===== *)
(** * Correlating NVDBG events: the analysis half of
    [debug/issue-6/analyze_nvlink_nvdbg.py]

    Every [print] is a line of the result; the texts are the script's, in
    UTF-8.  Line numbers identify events. *)
From stdpp Require Import base list strings gmap sorting.
From Stdlib Require Import Ascii.
From S2P Require Import Prelude PyDict PyStr JsonText Regex NvLog.

Local Open Scope nat_scope.

Record Finding := mkFinding { f_name : string; f_level : string; f_detail : string }.

(** ** Fields *)
Definition field (k : string) (e : Event) : option string := dget k (e_fields e).

(** [int(value, 0)] *)
Definition digit_value (a : ascii) : option Z :=
  let n := Z.of_nat (nat_of_ascii a) in
  if is_digit a then Some (n - 48)%Z
  else if is_lower a then Some (n - 87)%Z
  else if is_upper a then Some (n - 55)%Z else None.

(** Digits of the base, with single underscores between them. *)
Fixpoint base_digits (base : Z) (after_digit : bool) (acc : Z) (s : string) : option Z :=
  match s with
  | EmptyString => if after_digit then Some acc else None
  | String a s =>
      if Ascii.eqb a "_" then if after_digit then base_digits base false acc s else None
      else d ← digit_value a; if (d <? base)%Z then base_digits base true (base * acc + d)%Z s else None
  end.

(** After the prefix of a base an underscore may come first. *)
Definition prefixed (base : Z) (s : string) : option Z :=
  match s with
  | String a t => if Ascii.eqb a "_" then base_digits base false 0 t else base_digits base false 0 s
  | EmptyString => None
  end.

Definition int0_unsigned (s : string) : option Z :=
  match s with
  | String a (String b t) =>
      if Ascii.eqb a "0" then
        match lower_ascii b with
        | "x"%char => prefixed 16 t
        | "o"%char => prefixed 8 t
        | "b"%char => prefixed 2 t
        | _ => (* a decimal zero may be repeated, other leading zeros are refused *)
            v ← base_digits 10 false 0 s; if (v =? 0)%Z then Some 0%Z else None
        end
      else base_digits 10 false 0 s
  | _ => base_digits 10 false 0 s
  end.

Definition int0 (s : string) : option Z :=
  match strip s with
  | String a t => if Ascii.eqb a "-" then Z.opp <$> int0_unsigned t
                  else if Ascii.eqb a "+" then int0_unsigned t else int0_unsigned (String a t)
  | EmptyString => None
  end.

Definition int_field (e : option Event) (key : string) : option Z :=
  e ← e; v ← field key e; int0 v.

Definition is_null_ctx (v : option string) : bool :=
  match v with
  | None => false
  | Some v => bool_decide (lower v ∈ ["0"; "0x0"; "(nil)"; "nullptr"; "null"]%string)
  end.

(** ** Correlation *)
Definition same_scope (a b : Event) : bool :=
  negb (bool_decide (e_pod a ≠ unknown_pod ∧ e_pod b ≠ unknown_pod ∧ e_pod a ≠ e_pod b)) &&
  negb (bool_decide (e_container a ≠ unknown_container ∧ e_container b ≠ unknown_container ∧
                     e_container a ≠ e_container b)).

(** The loop returns at the first difference. *)
Fixpoint match_loop (a b : Event) (keys : list string) (compared : nat) : bool :=
  match keys with
  | [] => 0 <? compared
  | key :: keys =>
      match field key a, field key b with
      | Some av, Some bv => if String.eqb av bv then match_loop a b keys (S compared) else false
      | _, _ => match_loop a b keys compared
      end
  end.
Definition match_fields (a b : Event) (keys : list string) : bool := match_loop a b keys 0.

(** [max] and [min] with [key=line_no]: the first of the best. *)
Definition latest (l : list Event) : option Event :=
  match l with
  | [] => None
  | e :: l => Some (foldl (λ m x, if e_line m <? e_line x then x else m) e l)
  end.
Definition earliest (l : list Event) : option Event :=
  match l with
  | [] => None
  | e :: l => Some (foldl (λ m x, if e_line x <? e_line m then x else m) e l)
  end.

Definition before_candidate (target : Event) (tag : string) (max_lines : nat) (e : Event) : bool :=
  String.eqb (e_tag e) tag && (e_line e <? e_line target) && (e_line target - e_line e <=? max_lines)
  && same_scope e target.

Definition after_candidate (target : Event) (tag : string) (max_lines : nat) (e : Event) : bool :=
  String.eqb (e_tag e) tag && (e_line target <? e_line e) && (e_line e - e_line target <=? max_lines)
  && same_scope e target.

Definition ipc_identity : list string := ["target_id"; "remote_base"; "handle_sig"]%string.

Definition nearest_before (evs : list Event) (target : Event) (tag : string) (max_lines : nat) : option Event :=
  let candidates := filter (λ e, before_candidate target tag max_lines e) evs in
  match candidates with
  | [] => None
  | _ => match filter (λ e, match_fields e target ipc_identity) candidates with
         | [] => latest candidates
         | exact => latest exact
         end
  end.

Definition nearest_after (evs : list Event) (target : Event) (tag : string) (max_lines : nat) : option Event :=
  let candidates := filter (λ e, after_candidate target tag max_lines e) evs in
  match candidates with
  | [] => None
  | _ => match filter (λ e, match_fields e target ["target_id"%string]) candidates with
         | [] => earliest candidates
         | exact => earliest exact
         end
  end.

(** [list.sort]: a stable sort by a boolean order. *)
Section Sort.
Context {A : Type} (le : A → A → bool).
Fixpoint insert_le (x : A) (l : list A) : list A :=
  match l with [] => [x] | y :: l' => if le x y then x :: l else y :: insert_le x l' end.
Definition sort_le (l : list A) : list A := foldr insert_le [] l.
End Sort.

Definition distance (a b : nat) : nat := (a - b) + (b - a).

(** The kind of a match, if there is one. *)
Definition export_kind (fail e : Event) : option string :=
  if negb (String.eqb (e_tag e) "EXPORT") then None else
  let sig := field "handle_sig" fail in
  let base := field "remote_base" fail in
  let sig_match := bool_decide (is_Some sig ∧ field "handle_sig" e = sig) in
  let base_match := bool_decide (is_Some base ∧ field "base" e = base) in
  kind ← (if sig_match && base_match then Some "handle+base"%string
          else if sig_match then Some "handle-only"%string
          else if base_match then Some "base-only"%string else None);
  Some (if bool_decide (e_pod fail ≠ unknown_pod ∧ e_pod e ≠ unknown_pod ∧ e_pod fail ≠ e_pod e)
        then kind +:+ "/other-pod" else kind).

(** The sort key, and the order of triples. *)
Definition export_key (fail : Event) (item : Event * string) : nat * nat * nat :=
  (if String.eqb item.2 "handle+base" then 0 else 1,
   if String.eqb (e_pod item.1) (e_pod fail) then 0 else 1,
   distance (e_line item.1) (e_line fail)).

Definition triple_le (x y : nat * nat * nat) : bool :=
  let '(a, b, c) := x in let '(a', b', c') := y in
  (a <? a') || ((a =? a') && ((b <? b') || ((b =? b') && (c <=? c')))).

Definition matching_exports (evs : list Event) (fail : Event) : list (Event * string) :=
  sort_le (λ x y, triple_le (export_key fail x) (export_key fail y))
    (omap (λ e, (λ k, (e, k)) <$> export_kind fail e) evs).

Definition matching_unregisters (evs : list Event) (fail : Event) (export : option Event) : list Event :=
  match export with
  | None => []
  | Some x =>
      match field "base" x with
      | None => []
      | Some base =>
          filter (λ e, e_tag e = "UNREGISTER"%string ∧ e_line e < e_line fail ∧ e_pod e = e_pod x ∧
                       e_container e = e_container x ∧ field "base" e = Some base) evs
      end
  end.

(** ** Findings *)
(** Optional values in an f-string *)
Definition show_str (v : option string) : string := default "None"%string v.
Definition show_int (v : option Z) : string := default "None"%string (int_text <$> v).
Definition cat (l : list string) : string := join EmptyString l.

Definition nonzero (v : option Z) : bool := match v with Some z => negb (z =? 0)%Z | None => false end.
Definition show_nat (n : nat) : string := int_text (Z.of_nat n).

(** H1: the current context of the importing thread. *)
Definition importer_context (fail : Event) : Finding :=
  let ctx := field "ctx" fail in
  let ctx_rc := int_field (Some fail) "ctx_rc" in
  let ctx_dev := int_field (Some fail) "ctx_device" in
  let dev_rc := int_field (Some fail) "dev_rc" in
  let name := "Importer current CUDA context"%string in
  if is_null_ctx ctx || nonzero ctx_rc || nonzero dev_rc then
    mkFinding name "HIGH" (cat ["IPC open failure 시 ctx="; show_str ctx; " ctx_rc="; show_int ctx_rc;
      " ctx_device="; show_int ctx_dev; " dev_rc="; show_int dev_rc; ". ";
      "Mooncake worker thread의 current CUcontext가 없거나 유효하지 않은 정황."]%string)
  else match ctx, ctx_dev with
  | Some _, Some _ =>
      mkFinding name "NOT_SEEN" (cat ["실패 시 current context는 존재: ctx="; show_str ctx; ", ctx_device=";
        show_int ctx_dev; ", "; "ctx_rc="; show_int ctx_rc; ", dev_rc="; show_int dev_rc; "."]%string)
  | _, _ => mkFinding name "UNKNOWN" "필요한 ctx/ctx_device 필드가 로그에 충분하지 않음."
  end.

(** H2: the device of the thread and that of the source pointer. *)
Definition worker_device (fail : Event) (abort : option Event) : Finding :=
  let ctx_dev := int_field (Some fail) "ctx_device" in
  let src_dev := int_field abort "source_device" in
  let ptr_rc := int_field abort "ptr_rc" in
  let name := "Worker ctx_device vs source_device"%string in
  let unmatched := mkFinding name "UNKNOWN" "matching TRANSFER_ABORT/source_device 정보를 찾지 못함." in
  match abort with
  | None => unmatched
  | Some _ =>
      match ptr_rc, src_dev, ctx_dev with
      | Some 0%Z, Some s, Some c =>
          if (s =? c)%Z then
            mkFinding name "NOT_SEEN" (cat ["ctx_device="; int_text c; " == source_device="; int_text s; "."]%string)
          else mkFinding name "HIGH" (cat ["ctx_device="; int_text c; ", source_device="; int_text s; ". ";
            "worker thread device binding 불일치. Mooncake per-device context/stream ";
            "초기화 문제와 강하게 부합."]%string)
      | _, _, _ =>
          if nonzero ptr_rc then
            mkFinding name "UNKNOWN" (cat ["실패 후 source pointer attribute 조회 자체가 실패(ptr_rc=";
              show_int ptr_rc; ")."]%string)
          else unmatched
      end
  end.

(** H2.5: the context of the thread and the one that owns the source pointer. *)
Definition owning_context (fail : Event) (abort : option Event) : Finding :=
  let ctx := field "ctx" fail in
  let source_ptr_ctx := a ← abort; field "source_ptr_ctx" a in
  let rc := int_field abort "source_ptr_ctx_rc" in
  let name := "Current ctx vs source pointer owning ctx"%string in
  match source_ptr_ctx with
  | None => mkFinding name "UNKNOWN" "새 debug build의 source_ptr_ctx 필드가 없음."
  | Some p =>
      if nonzero rc then
        mkFinding name "UNKNOWN" (cat ["CU_POINTER_ATTRIBUTE_CONTEXT query failed "; "(source_ptr_ctx_rc=";
          show_int rc; ")."]%string)
      else match ctx with
      | Some c =>
          if String.eqb p c then
            mkFinding name "NOT_SEEN" (cat ["current_ctx == source_ptr_ctx == "; c; "."]%string)
          else mkFinding name "HIGH" (cat ["IPC_OPEN_FAIL current_ctx="; c; ", "; "source_ptr_ctx="; p; ". ";
            "같은 device ordinal이어도 서로 다른 CUcontext. ";
            "CUDA IPC/peer mapping context restriction과 강하게 부합."]%string)
      | None => mkFinding name "UNKNOWN" (cat ["source_ptr_ctx="; p; ", current ctx 정보 부족."]%string)
      end
  end.

(** H3: an export of the same handle and base. *)
Definition export_match (evs : list Event) (exports : list (Event * string)) : Finding :=
  let name := "Remote IPC export/metadata match"%string in
  match exports with
  | (best, kind) :: _ =>
      if String.eqb kind "handle+base" then
        mkFinding name "NOT_SEEN" (cat ["동일 handle_sig + remote_base의 peer EXPORT 확인: "; e_container best;
          " line "; show_nat (e_line best); "."]%string)
      else mkFinding name "MEDIUM" (cat ["부분 일치만 확인("; kind; "): "; e_container best; " line ";
        show_nat (e_line best); ". "; "handle/base metadata 조합을 재확인할 가치가 있음."]%string)
  | [] =>
      let total := length (filter (λ e, e_tag e = "EXPORT"%string) evs) in
      mkFinding name (if Nat.eqb total 0 then "UNKNOWN" else "MEDIUM")
        (cat ["실패 remote_base/handle_sig와 일치하는 EXPORT를 제공된 로그에서 찾지 못함";
          if Nat.eqb total 0 then ". exporter startup 로그가 파일에 포함됐는지 먼저 확인."
          else cat [" (다른 EXPORT "; show_nat total; "건은 존재). stale/foreign metadata 후보."]]%string)
  end.

(** H4: the exported allocation was unregistered before the failure. *)
Definition allocation_lifecycle (evs : list Event) (fail : Event) (exports : list (Event * string)) : Finding :=
  let name := "Exporter allocation lifecycle"%string in
  let best_export := fst <$> head exports in
  match last (matching_unregisters evs fail best_export), best_export with
  | Some l, _ => mkFinding name "HIGH" (cat ["matching EXPORT base가 IPC open 전에 UNREGISTER됨: "; e_container l;
      " line "; show_nat (e_line l); ". stale handle 가능성."]%string)
  | None, Some _ =>
      mkFinding name "NOT_SEEN" "matching exporter allocation의 선행 UNREGISTER는 제공된 로그에서 보이지 않음."
  | None, None => mkFinding name "UNKNOWN" "matching exporter를 찾지 못해 lifecycle 상관분석 불가."
  end.

(** H5: the context before and after the call. *)
Definition context_changed (fail : Event) (begin : option Event) : Finding :=
  let ctx := field "ctx" fail in
  let ctx_dev := int_field (Some fail) "ctx_device" in
  let name := "Context changed across IPC open boundary"%string in
  match begin with
  | None => mkFinding name "UNKNOWN" "matching IPC_OPEN_BEGIN을 찾지 못함."
  | Some b =>
      let begin_ctx := field "ctx" b in
      let begin_dev := int_field begin "ctx_device" in
      if bool_decide (begin_ctx ≠ ctx ∨ begin_dev ≠ ctx_dev) then
        mkFinding name "HIGH" (cat ["BEGIN ctx="; show_str begin_ctx; "/dev="; show_int begin_dev; " -> ";
          "FAIL ctx="; show_str ctx; "/dev="; show_int ctx_dev; "."]%string)
      else mkFinding name "NOT_SEEN" (cat ["BEGIN/FAIL context 동일: ctx="; show_str ctx; ", device=";
        show_int ctx_dev; "."]%string)
  end.

Definition classify_fail (evs : list Event) (fail : Event) (begin abort : option Event)
    (exports : list (Event * string)) : list Finding :=
  [importer_context fail; worker_device fail abort; owning_context fail abort; export_match evs exports;
   allocation_lifecycle evs fail exports; context_changed fail begin].

(** ** Threads of one process with different outcomes *)
(** [repr] of a string of printable or control characters *)
Definition repr_char (quote_char a : ascii) : string :=
  let n := nat_of_ascii a in
  if Ascii.eqb a quote_char || Nat.eqb n 92 then String "\" (String a EmptyString)
  else if Nat.eqb n 10 then "\n"%string
  else if Nat.eqb n 13 then "\r"%string
  else if Nat.eqb n 9 then "\t"%string
  else if (n <? 32) || (n =? 127) then
    "\x"%string +:+ String (hex_digit (n / 16)) (String (hex_digit (n mod 16)) EmptyString)
  else String a EmptyString.

Fixpoint repr_chars (q : ascii) (s : string) : string :=
  match s with EmptyString => EmptyString | String a s => repr_char q a +:+ repr_chars q s end.

Definition squote : ascii := ascii_of_nat 39.
Definition py_repr (s : string) : string :=
  let q := if str_has squote s && negb (str_has dquote s) then dquote else squote in
  String q (repr_chars q s +:+ String q EmptyString).

Definition repr_list (l : list string) : string := "[" +:+ join ", " (py_repr <$> l) +:+ "]".

(** [set.add], [sorted(set)] *)
Definition set_add (s : string) (l : list string) : list string := if bool_decide (s ∈ l) then l else l ++ [s].
Definition sorted_set (l : list string) : list string := sorted_by id l.

Record group := mkGroup {
  ok_ctx : list string;
  fail_ctx : list string;
  ok_threads : list string;
  fail_threads : list string
}.

(** Tuples of strings in their order. *)
Fixpoint strs_le (x y : list string) : bool :=
  match x, y with
  | [], _ => true
  | _, [] => false
  | a :: x, b :: y => if String.eqb a b then strs_le x y else String.leb a b
  end.

Definition is_open (e : Event) : bool := bool_decide (e_tag e ∈ ["IPC_OPEN_OK"; "IPC_OPEN_FAIL"]%string).

Definition group_step (grouped : list (list string * group)) (e : Event) : list (list string * group) :=
  let key := [e_pod e; e_container e; default "?"%string (field "pid" e)] in
  let g := default (mkGroup [] [] [] []) (dget key grouped) in
  let sig := cat ["ctx="; default "?" (field "ctx" e); "/dev="; default "?" (field "ctx_device" e)]%string in
  let tid := default "?"%string (field "tid" e) in
  dset key (if String.eqb (e_tag e) "IPC_OPEN_OK"
            then mkGroup (set_add sig (ok_ctx g)) (fail_ctx g) (set_add tid (ok_threads g)) (fail_threads g)
            else mkGroup (ok_ctx g) (set_add sig (fail_ctx g)) (ok_threads g) (set_add tid (fail_threads g))) grouped.

Definition group_opens (evs : list Event) : list (list string * group) :=
  foldl group_step [] (filter (λ e, is_open e) evs).

Definition group_note (kg : list string * group) : option string :=
  let '(key, g) := kg in
  match key, ok_ctx g, fail_ctx g with
  | [pod; container; pid], _ :: _, _ :: _ =>
      Some (cat [pod; "/"; container; " pid="; pid; ": 같은 process에서 IPC_OPEN_OK와 FAIL 모두 존재; ";
        "OK contexts="; repr_list (sorted_set (ok_ctx g)); ", FAIL contexts="; repr_list (sorted_set (fail_ctx g)); ", ";
        "OK tids="; repr_list (sorted_set (ok_threads g)); ", FAIL tids="; repr_list (sorted_set (fail_threads g))]%string)
  | _, _, _ => None
  end.

Definition thread_context_summary (evs : list Event) : list string :=
  omap group_note (sort_le (λ x y, strs_le x.1 y.1) (group_opens evs)).

(** ** The report *)
Definition format_scope (e : Event) : string :=
  if String.eqb (e_pod e) unknown_pod && String.eqb (e_container e) unknown_container then "unknown"
  else e_pod e +:+ "/" +:+ e_container e.

Definition logical_to_uuid (maps : list ((string * string) * list (string * string))) (e : option Event)
    (logical_device : option Z) : option string :=
  e ← e; d ← logical_device;
  cvd ← dget "reserved-cvd"%string (default [] (dget (e_pod e, e_container e) maps));
  if str_empty cvd then None
  else if (d <? 0)%Z then None else split_on "," cvd !! Z.to_nat d.

Definition or_unknown (v : option string) : string :=
  match v with Some s => if str_empty s then "?"%string else s | None => "?"%string end.

Definition after_newline (s : string) : string := String (ascii_of_nat 10) s.

(** [f"{s:<n>}"] *)
Fixpoint pad (n : nat) (s : string) : string :=
  match n with
  | O => s
  | S n => match s with EmptyString => String " " (pad n EmptyString) | String a s => String a (pad n s) end
  end.

Definition pair_le (x y : string * string) : bool := strs_le [x.1; x.2] [y.1; y.2].

Definition gpu_line (kv : (string * string) * list (string * string)) : string :=
  let '((pod, container), m) := kv in
  let f k := default "?"%string (dget k m) in
  cat ["- "; pod; "/"; container; ": "; "reserved-cvd="; f "reserved-cvd"; " "; "selected-indices=";
       f "selected-indices"; " "; "selected-uuids="; f "selected-uuids"]%string.

(** One line of the pairing, and what identifies it. *)
Definition pair_entry (maps : list ((string * string) * list (string * string))) (evs : list Event) (e : Event)
    : list string * string :=
  let src_dev := int_field (Some e) "ctx_device" in
  let src_uuid := logical_to_uuid maps (Some e) src_dev in
  let peer := fst <$> head (matching_exports evs e) in
  let peer_dev := int_field peer "device" in
  let peer_uuid := logical_to_uuid maps peer peer_dev in
  ([e_tag e; e_container e; show_int src_dev; show_int peer_dev;
    cat [show_str src_uuid; "->"; show_str peer_uuid]%string],
   cat ["  "; e_tag e; ": "; e_container e; " logical="; show_int src_dev; " physical="; or_unknown src_uuid; " ";
        "-> "; default "peer?" (e_container <$> peer); " logical="; show_int peer_dev; " ";
        "physical="; or_unknown peer_uuid]%string).

Fixpoint show_new (shown : list (list string)) (entries : list (list string * string)) : list string :=
  match entries with
  | [] => []
  | (key, text) :: entries =>
      if bool_decide (key ∈ shown) then show_new shown entries else text :: show_new (key :: shown) entries
  end.

Definition print_gpu_mapping (maps : list ((string * string) * list (string * string))) (evs : list Event)
    : list string :=
  after_newline "=== 1.5 GPU RESERVATION / PHYSICAL PAIRING ===" ::
  match maps with
  | [] => ["[pd-gpu] reserved-cvd/selected-uuids 로그를 찾지 못했습니다. Pod startup부터 전체 로그를 포함하면 GOOD/BAD physical GPU pair를 비교할 수 있습니다."%string]
  | _ =>
      (gpu_line <$> sort_le (λ x y, pair_le x.1 y.1) maps) ++
      match filter (λ e, is_open e) evs with
      | [] => []
      | opens => "- IPC open physical-pair correlation:"%string :: show_new [] (pair_entry maps evs <$> opens)
      end
  end.

(** [collections.Counter] per scope *)
Definition count_tag (tag : string) (evs : list Event) : nat := length (filter (λ e, e_tag e = tag) evs).

Definition scopes (evs : list Event) : list (string * string) :=
  foldl (λ l e, if bool_decide ((e_pod e, e_container e) ∈ l) then l else l ++ [(e_pod e, e_container e)]) [] evs.

Definition scope_line (evs : list Event) (scope : string * string) : string :=
  let mine := filter (λ e, (e_pod e, e_container e) = scope) evs in
  cat ["- "; scope.1; "/"; scope.2; ": ";
       join ", " (omap (λ tag, let n := count_tag tag mine in
                               if Nat.eqb n 0 then None else Some (cat [tag; "="; show_nat n])) TAGS)]%string.

Definition print_counts (evs : list Event) (decode : list (nat * string)) : list string :=
  after_newline "=== 1. LOG PROFILE ===" ::
  match evs with
  | [] => ["NVDBG event를 찾지 못했습니다."%string]
  | _ => (scope_line evs <$> sort_le pair_le (scopes evs)) ++
         match decode with
         | [] => []
         | _ => [cat ["- vLLM Decode pull failure lines: "; show_nat (length decode)]%string]
         end
  end.

Definition or_q (k : string) (e : option Event) : string := default "?"%string (e ← e; field k e).

Definition failure_block (evs : list Event) (maps : list ((string * string) * list (string * string)))
    (idx : nat) (fail : Event) : list string :=
  let begin := nearest_before evs fail "IPC_OPEN_BEGIN" 40 in
  let abort := nearest_after evs fail "TRANSFER_ABORT" 40 in
  let exports := matching_exports evs fail in
  let f := Some fail in
  [after_newline (cat ["--- Failure #"; show_nat idx; ": "; format_scope fail; " line "; show_nat (e_line fail); " ---"]%string);
   cat ["raw: "; "err_code="; or_q "err_code" f; " "; "err_string="; or_q "err_string" f; " "; "ctx="; or_q "ctx" f; " ";
        "ctx_device="; or_q "ctx_device" f; " ";
        "ctx_physical_uuid="; or_unknown (logical_to_uuid maps f (int_field f "ctx_device")); " ";
        "source_ptr_ctx="; or_q "source_ptr_ctx" abort; " "; "target_id="; or_q "target_id" f; " ";
        "remote_base="; or_q "remote_base" f; " "; "handle_sig="; or_q "handle_sig" f]%string] ++
  ((λ x, cat ["["; pad 8 (f_level x); "] "; f_name x; ": "; f_detail x]%string) <$>
     classify_fail evs fail begin abort exports) ++
  match exports with
  | [] => []
  | (peer, kind) :: _ =>
      let p := Some peer in
      [cat ["[MATCH   ] peer EXPORT ("; kind; "): "; format_scope peer; " line "; show_nat (e_line peer); ", ";
            "device="; or_q "device" p; " ";
            "physical_uuid="; or_unknown (logical_to_uuid maps p (int_field p "device")); " ";
            "ctx_device="; or_q "ctx_device" p; " "; "base="; or_q "base" p; " ";
            "handle_sig="; or_q "handle_sig" p]%string]
  end.

Definition with_tag (tag : string) (evs : list Event) : list Event := filter (λ e, e_tag e = tag) evs.

Definition print_failures (evs : list Event) (maps : list ((string * string) * list (string * string)))
    (max_failures : nat) : list string :=
  let fails := with_tag "IPC_OPEN_FAIL" evs in
  after_newline "=== 2. IPC OPEN FAILURE ANALYSIS ===" ::
  match fails with
  | [] => [cat ["IPC_OPEN_FAIL 없음. IPC_OPEN_OK="; show_nat (length (with_tag "IPC_OPEN_OK" evs))]%string]
  | _ =>
      concat (imap (λ i fail, failure_block evs maps (S i) fail) (take max_failures fails)) ++
      if max_failures <? length fails
      then [after_newline (cat ["... "; show_nat (length fails - max_failures); " additional IPC_OPEN_FAIL cases omitted."]%string)]
      else []
  end.

Definition print_global_findings (evs : list Event) : list string :=
  let copy_fails := length (with_tag "COPY_FAIL" evs) in
  let range_misses := length (with_tag "RANGE_MISS" evs) in
  let dtors := length (with_tag "DTOR" evs) in
  let unregisters := length (with_tag "UNREGISTER" evs) in
  after_newline "=== 3. CROSS-EVENT CLUES ===" ::
  match thread_context_summary evs with
  | [] => ["- 동일 process 내 IPC_OPEN_OK/FAIL 혼재 패턴은 제공된 로그에서 확인되지 않음."%string]
  | notes =>
      ["[HIGH/MEDIUM] 동일 process에서 성공/실패가 섞임:"%string] ++
      ((λ note, "  - " +:+ note) <$> notes) ++
      [cat ["  -> static Helm/GPU assignment 문제보다 thread-local CUDA context/device ";
            "초기화 차이를 우선 확인할 가치가 큼."]%string]
  end ++
  [cat ["- COPY_FAIL="; show_nat copy_fails; ": ";
        if Nat.eqb copy_fails 0 then "현재 실패는 copy 이전 IPC-open 경계에 더 가깝다."
        else "IPC import 이후 copy 단계 문제도 존재."]%string;
   cat ["- RANGE_MISS="; show_nat range_misses; ": ";
        if Nat.eqb range_misses 0 then "metadata range lookup 실패는 보이지 않음."
        else "remote metadata address-range mismatch가 존재."]%string;
   cat ["- UNREGISTER="; show_nat unregisters; ", DTOR="; show_nat dtors]%string].

(** ** The evidence *)
(** Line numbers printed so far and the lines to print. *)
Definition emit (st : list nat * list (nat * string)) (l : nat * string) : list nat * list (nat * string) :=
  if bool_decide (l.1 ∈ st.1) then st else (l.1 :: st.1, st.2 ++ [l]).

Definition as_line (e : Event) : nat * string := (e_line e, e_raw e).

(** The first INSTALL of every scope, in the order of the scopes. *)
Definition installs_by_scope (evs : list Event) : list Event :=
  dvals (foldl (λ d e, if dmem (e_pod e, e_container e) d then d else dset (e_pod e, e_container e) e d) []
           (with_tag "INSTALL" evs)).

Definition failure_evidence (evs : list Event) (fail : Event) : list Event :=
  option_list (nearest_before evs fail "IPC_OPEN_BEGIN" 40) ++ [fail] ++
  option_list (nearest_after evs fail "TRANSFER_ABORT" 40) ++
  option_list (fst <$> head (matching_exports evs fail)).

Definition late_stage (e : Event) : bool :=
  bool_decide (e_tag e ∈ ["COPY_FAIL"; "RANGE_MISS"; "UNREGISTER"; "DTOR"]%string).

(** Everything that [print_evidence] offers to [emit_event], in order. *)
Definition offered (l : Log) (max_failures : nat) : list (nat * string) :=
  let evs := events l in
  (as_line <$> installs_by_scope evs) ++
  (as_line <$> concat (failure_evidence evs <$> take max_failures (with_tag "IPC_OPEN_FAIL" evs))) ++
  (as_line <$> filter (λ e, late_stage e) evs) ++
  take 2 (decode_failures l) ++
  drop (length (guardian_lines l) - 4) (guardian_lines l).

Definition evidence (l : Log) (max_failures : nat) : list (nat * string) :=
  (foldl emit ([], []) (offered l max_failures)).2.

Definition print_evidence (l : Log) (max_failures : nat) : list string :=
  after_newline "=== 4. MINIMAL EVIDENCE BLOCK (이 부분만 복사해도 됨) ===" ::
  ((λ nr : nat * string, cat ["L"; show_nat nr.1; " "; nr.2]%string) <$> evidence l max_failures).

(** ** [main] *)
Definition TAG_MEANING : list (string * string) :=
  [("INSTALL", "Mooncake nvlink_intra transport/segment generation 시작");
   ("EXPORT", "local CUDA allocation을 IPC handle로 export 성공");
   ("IPC_OPEN_BEGIN", "remote CUDA allocation을 cudaIpcOpenMemHandle() 하기 직전");
   ("IPC_OPEN_OK", "remote CUDA IPC mapping 성공");
   ("IPC_OPEN_FAIL", "cudaIpcOpenMemHandle() 실패");
   ("TRANSFER_ABORT", "IPC relocation 실패 때문에 해당 transfer request 중단");
   ("COPY_FAIL", "IPC open 이후 실제 cudaMemcpy() 단계 실패");
   ("UNREGISTER", "local exported allocation metadata 해제");
   ("DTOR", "IntraNodeNvlinkTransport 종료/IPC mapping 정리");
   ("RANGE_MISS", "remote metadata에서 requested address를 포함하는 buffer를 못 찾음");
   ("REMAP_HIT", "이미 open한 IPC mapping cache 재사용(trace 활성 시만 출력)")]%string.

Definition print_explanation : list string :=
  after_newline "=== NVDBG SECTION MEANING ===" ::
  ((λ tag, cat ["- "; pad 15 tag; " "; default EmptyString (dget tag TAG_MEANING)]%string) <$> TAGS).

(** The lines on standard output and the exit code for the text of an existing
    log file; [max(1, args.max_failures)] failures are shown. *)
Definition analyze (logfile text : string) (max_failures : Z) (explain : bool) : list string * Z :=
  let lines := splitlines text in
  let l := parse_log lines in
  let shown := Z.to_nat (Z.max 1 max_failures) in
  (["Mooncake nvlink_intra NVDBG analyzer"%string;
    ("input=" +:+ logfile);
    cat ["lines="; show_nat (length lines); " nvdbg_events="; show_nat (length (events l))]%string] ++
   print_counts (events l) (decode_failures l) ++
   print_gpu_mapping (gpu_maps l) (events l) ++
   print_failures (events l) (gpu_maps l) shown ++
   print_global_findings (events l) ++
   print_evidence l shown ++
   (if explain then print_explanation else []) ++
   match events l with
   | [] => [after_newline "TIP: debug build 로그에 [NVDBG]가 있는지 확인하세요. kubectl logs ... --all-containers --prefix 전체를 저장하는 것을 권장합니다."]
   | _ => []
   end,
   match events l with [] => 1%Z | _ => 0%Z end).

(** [found] is whether the file exists, [read] its text or the text of the
    [OSError]; the result is standard output, standard error and the exit code. *)
Definition analyzer_main (logfile : string) (found : bool) (read : string + string) (max_failures : Z)
    (explain : bool) : list string * list string * Z :=
  if negb found then ([], ["ERROR: file not found: " +:+ logfile], 2%Z) else
  match read with
  | inr exc => ([], [cat ["ERROR: cannot read "; logfile; ": "; exc]%string], 2%Z)
  | inl text => let '(out, code) := analyze logfile text max_failures explain in (out, [], code)
  end.
