(* ===== verification/NvSpec.v ===== *)
(** * What the NVDBG analyzer promises

    The log is read line by line as its reference definition says, a printed log is
    read back, the chosen peer export and neighbouring events are the
    best ones, and the evidence is made of distinct lines of the log. *)
From stdpp Require Import base list strings gmap sorting.
From Stdlib Require Import Ascii.
From S2P Require Import Prelude PyDict PyStr Regex Backtrack JsonText NvLog NvAnalysis.

Local Open Scope nat_scope.

(** ** Reading the log *)
(** What one line contributes. *)
Definition event_at (nl : nat * string) : option Event :=
  let raw := rstrip_newlines nl.2 in
  let '(pod, container, msg) := split_prefix raw in
  (λ tag, mkEvent nl.1 raw msg pod container tag (parse_fields msg)) <$> re_search tag_here msg.

Definition matches_line (f : string → bool) (nl : nat * string) : option (nat * string) :=
  let raw := rstrip_newlines nl.2 in
  if f (split_prefix raw).2 then Some (nl.1, raw) else None.

Definition gpu_at (nl : nat * string) : option ((string * string) * string * string) :=
  let '(pod, container, msg) := split_prefix (rstrip_newlines nl.2) in
  (λ kv, (pod, container, kv.1, kv.2)) <$> re_search gpu_here msg.

(** The last value written for a key of a container. *)
Definition gpu_value (lines : list (nat * string)) (scope : string * string) (key : string) : option string :=
  last (omap (λ nl, x ← gpu_at nl;
                    let '(sc, k, v) := x in if decide (sc = scope ∧ k = key) then Some v else None) lines).

Definition gpu_lookup (l : Log) (scope : string * string) (key : string) : option string :=
  dget key (default [] (dget scope (gpu_maps l))).

Definition numbered (start : nat) (lines : list string) : list (nat * string) :=
  zip (seq start (length lines)) lines.

Lemma read_line_spec l n raw :
  events (read_line l n raw) = events l ++ option_list (event_at (n, raw)) ∧
  decode_failures (read_line l n raw) = decode_failures l ++ option_list (matches_line decode_pull_fail (n, raw)) ∧
  guardian_lines (read_line l n raw) = guardian_lines l ++ option_list (matches_line guardian (n, raw)) ∧
  ∀ scope key, gpu_lookup (read_line l n raw) scope key =
    match gpu_at (n, raw) with
    | Some (sc, k, v) => if decide (sc = scope ∧ k = key) then Some v else gpu_lookup l scope key
    | None => gpu_lookup l scope key
    end.
Proof.
  unfold read_line, event_at, matches_line, gpu_at, gpu_lookup. simpl.
  destruct (split_prefix (rstrip_newlines raw)) as [[pod container] msg]. simpl.
  split_and!.
  - destruct (re_search tag_here msg); simpl; by rewrite ?app_nil_r.
  - destruct (re_search tag_here msg); simpl; destruct (decode_pull_fail msg); simpl; by rewrite ?app_nil_r.
  - destruct (re_search tag_here msg); simpl; destruct (guardian msg); simpl; by rewrite ?app_nil_r.
  - intros scope key. set (maps := match re_search gpu_here msg with Some _ => _ | None => _ end).
    transitivity (dget key (default [] (dget scope maps))); [by destruct (re_search tag_here msg)|].
    unfold maps. destruct (re_search gpu_here msg) as [[k v]|]; simpl; [|done].
    rewrite dget_dset. case_decide as H1; simpl.
    + subst scope. rewrite dget_dset. case_decide as H2; simpl; case_decide; naive_solver.
    + case_decide; naive_solver.
Qed.

Lemma parse_from_spec l n lines :
  let nls := numbered n lines in
  events (parse_from l n lines) = events l ++ omap event_at nls ∧
  decode_failures (parse_from l n lines) = decode_failures l ++ omap (matches_line decode_pull_fail) nls ∧
  guardian_lines (parse_from l n lines) = guardian_lines l ++ omap (matches_line guardian) nls ∧
  ∀ scope key, gpu_lookup (parse_from l n lines) scope key =
    match gpu_value nls scope key with Some v => Some v | None => gpu_lookup l scope key end.
Proof.
  revert l n. induction lines as [|raw lines IH]; intros l n; [simpl; by rewrite !app_nil_r|].
  destruct (read_line_spec l n raw) as (H1 & H2 & H3 & H4).
  destruct (IH (read_line l n raw) (S n)) as (I1 & I2 & I3 & I4).
  change (numbered n (raw :: lines)) with ((n, raw) :: numbered (S n) lines).
  cbn [parse_from omap list_omap] in *.
  rewrite I1, I2, I3, H1, H2, H3, <- !app_assoc.
  split_and!; [by destruct (event_at (n, raw))|by destruct (matches_line decode_pull_fail (n, raw))
    |by destruct (matches_line guardian (n, raw))|].
  intros scope key. rewrite I4, H4. unfold gpu_value. cbn [omap list_omap].
  destruct (gpu_at (n, raw)) as [[[sc k] v]|]; simpl; [|done].
  destruct (decide (sc = scope ∧ k = key)); [|done]. rewrite last_cons.
  by destruct (last _).
Qed.

(** [parse_log] is what its reference says: the events, the decode failures
    and the guardian lines are those of the lines one by one, in order and
    with their line numbers from 1, and the GPU map holds, for every container
    and key, the value of the last line that gives one. *)
Lemma parse_log_reference lines :
  let nls := numbered 1 lines in
  events (parse_log lines) = omap event_at nls ∧
  decode_failures (parse_log lines) = omap (matches_line decode_pull_fail) nls ∧
  guardian_lines (parse_log lines) = omap (matches_line guardian) nls ∧
  ∀ scope key, gpu_lookup (parse_log lines) scope key = gpu_value nls scope key.
Proof.
  destruct (parse_from_spec (mkLogs [] [] [] []) 1 lines) as (H1 & H2 & H3 & H4).
  split_and!; [done..|]. intros scope key. unfold parse_log. rewrite H4. by destruct (gpu_value _ _ _).
Qed.

(** ** Choosing among events *)
Lemma foldl_pick_elem (better : Event → Event → bool) e l :
  foldl (λ m x, if better m x then x else m) e l ∈ e :: l.
Proof.
  revert e. induction l as [|x l IH]; intros e; simpl; [by left|].
  specialize (IH (if better e x then x else e)). destruct (better e x); set_solver.
Qed.

Lemma latest_spec l :
  match latest l with
  | None => l = []
  | Some e => e ∈ l ∧ ∀ x, x ∈ l → e_line x ≤ e_line e
  end.
Proof.
  destruct l as [|e l]; [done|]. unfold latest. split; [apply (foldl_pick_elem (λ m x, e_line m <? e_line x))|].
  revert e. induction l as [|y l IH]; intros e x; simpl.
  - by intros ->%list_elem_of_singleton.
  - pose proof (IH (if e_line e <? e_line y then y else e)) as H.
    destruct (Nat.ltb_spec (e_line e) (e_line y)); intros [->|[->|Hx]%elem_of_cons]%elem_of_cons.
    + etrans; [|apply H; left]. lia.
    + apply H. left.
    + apply H. by right.
    + apply H. left.
    + etrans; [|apply H; left]. lia.
    + apply H. by right.
Qed.

Lemma earliest_spec l :
  match earliest l with
  | None => l = []
  | Some e => e ∈ l ∧ ∀ x, x ∈ l → e_line e ≤ e_line x
  end.
Proof.
  destruct l as [|e l]; [done|]. unfold earliest. split; [apply (foldl_pick_elem (λ m x, e_line x <? e_line m))|].
  revert e. induction l as [|y l IH]; intros e x; simpl.
  - by intros ->%list_elem_of_singleton.
  - pose proof (IH (if e_line y <? e_line e then y else e)) as H.
    destruct (Nat.ltb_spec (e_line y) (e_line e)); intros [->|[->|Hx]%elem_of_cons]%elem_of_cons.
    + etrans; [apply H; left|]. lia.
    + apply H. left.
    + apply H. by right.
    + apply H. left.
    + etrans; [apply H; left|]. lia.
    + apply H. by right.
Qed.

(** The nearer of the exact matches, or of all candidates when none is exact. *)
Definition nearest_choice (before : bool) (candidate exact : Event → bool) (evs : list Event) (r : option Event) : Prop :=
  let nearer e x := if before then e_line x ≤ e_line e else e_line e ≤ e_line x in
  match r with
  | None => ∀ x, x ∈ evs → candidate x = false
  | Some e => e ∈ evs ∧ candidate e = true ∧
      ∀ x, x ∈ evs → candidate x = true →
        if exact e then exact x = true → nearer e x else exact x = false ∧ nearer e x
  end.

Lemma choose_spec (before : bool) (candidate exact : Event → bool) (pick : list Event → option Event) evs :
  (∀ l, match pick l with
        | None => l = []
        | Some e => e ∈ l ∧ ∀ x, x ∈ l → if before then e_line x ≤ e_line e else e_line e ≤ e_line x
        end) →
  nearest_choice before candidate exact evs
    (match filter (λ e, candidate e) evs with
     | [] => None
     | _ => match filter (λ e, exact e) (filter (λ e, candidate e) evs) with
            | [] => pick (filter (λ e, candidate e) evs)
            | l => pick l
            end
     end).
Proof.
  intros Hpick. unfold nearest_choice.
  assert (∀ x, x ∈ filter (λ e, candidate e) evs ↔ candidate x = true ∧ x ∈ evs) as Hc.
  { intros x. rewrite list_elem_of_filter, Is_true_true. done. }
  set (cs := filter (λ e, candidate e) evs) in *.
  assert (∀ x, x ∈ filter (λ e, exact e) cs ↔ exact x = true ∧ x ∈ cs) as He.
  { intros x. rewrite list_elem_of_filter, Is_true_true. done. }
  set (es := filter (λ e, exact e) cs) in *. clearbody es.
  destruct cs as [|c cs'] eqn:Ecs.
  { intros x Hx. destruct (candidate x) eqn:E; [|done].
    assert (x ∈ []) as ?%elem_of_nil by (apply Hc; done). done. }
  assert (cs ≠ []) as Hcs by (by rewrite Ecs).
  rewrite <- Ecs in *. clear Ecs. destruct es as [|y es'] eqn:Ees.
  - specialize (Hpick cs). destruct (pick cs) as [e|]; [|done].
    destruct Hpick as [Hin Hmax]. apply Hc in Hin as [H1 H2]. split_and!; [done|done|].
    intros x Hx Hcx. assert (∀ z, z ∈ cs → exact z = false) as Hne.
    { intros z Hz. destruct (exact z) eqn:E; [|done].
      assert (z ∈ []) as ?%elem_of_nil by (apply He; done). done. }
    assert (x ∈ cs) as Hxc by (by apply Hc). rewrite (Hne e) by (by apply Hc). split; [by apply Hne|by apply Hmax].
  - assert (es ≠ []) as Hes by (by rewrite Ees).
    rewrite <- Ees in *. clear Ees. specialize (Hpick es). destruct (pick es) as [e|]; [|done].
    destruct Hpick as [Hin Hmax]. apply He in Hin as [Hex Hin]. apply Hc in Hin as [H1 H2].
    rewrite Hex. split_and!; [done|done|]. intros x Hx Hcx Hxx. apply Hmax, He. split; [done|]. by apply Hc.
Qed.

Lemma nearest_before_choice evs target tag n :
  nearest_choice true (before_candidate target tag n) (λ e, match_fields e target ipc_identity) evs
    (nearest_before evs target tag n).
Proof. apply (choose_spec true _ _ latest), latest_spec. Qed.

Lemma nearest_after_choice evs target tag n :
  nearest_choice false (after_candidate target tag n) (λ e, match_fields e target ["target_id"%string]) evs
    (nearest_after evs target tag n).
Proof. apply (choose_spec false _ _ earliest), earliest_spec. Qed.

(** The events a failure is correlated with are the right ones: the result of
    [nearest_before] ([nearest_after]) is a candidate, that is, it has the tag, lies
    within the given number of lines before (after) the failure and in its
    scope; it agrees with the failure in its identifying fields if any candidate
    does; and it is the nearest among those. There is a result whenever there
    is a candidate. *)
Theorem nearest_events evs target tag max_lines :
  nearest_choice true (before_candidate target tag max_lines) (λ e, match_fields e target ipc_identity) evs
    (nearest_before evs target tag max_lines) ∧
  nearest_choice false (after_candidate target tag max_lines) (λ e, match_fields e target ["target_id"%string]) evs
    (nearest_after evs target tag max_lines).
Proof. split; [apply nearest_before_choice|apply nearest_after_choice]. Qed.

Lemma nearest_before_elem evs target tag n e : nearest_before evs target tag n = Some e → e ∈ evs.
Proof. intros H. pose proof (nearest_before_choice evs target tag n) as Hn. rewrite H in Hn. by destruct Hn. Qed.

Lemma nearest_after_elem evs target tag n e : nearest_after evs target tag n = Some e → e ∈ evs.
Proof. intros H. pose proof (nearest_after_choice evs target tag n) as Hn. rewrite H in Hn. by destruct Hn. Qed.

(** ** The peer export *)
Section Sorting.
Context {A : Type} (le : A → A → bool).
Context (le_total : ∀ x y, le x y = false → le y x = true).
Context (le_trans : ∀ x y z, le x y = true → le y z = true → le x z = true).

Lemma insert_le_perm x l : insert_le le x l ≡ₚ x :: l.
Proof.
  induction l as [|y l IH]; simpl; [done|]. destruct (le x y); [done|]. rewrite IH. apply Permutation_swap.
Qed.

Lemma sort_le_perm l : sort_le le l ≡ₚ l.
Proof. induction l as [|x l IH]; [done|]. simpl. by rewrite insert_le_perm, IH. Qed.

Lemma sort_le_sorted l : StronglySorted (λ x y, le x y = true) (sort_le le l).
Proof.
  induction l as [|x l IH]; simpl; [constructor|]. induction IH as [|y l' Hl IH' Hy]; simpl.
  - repeat constructor.
  - destruct (le x y) eqn:E.
    + constructor; [by constructor|]. constructor; [done|]. apply (Forall_impl _ _ _ Hy). eauto.
    + constructor; [done|]. rewrite insert_le_perm. constructor; [by apply le_total|done].
Qed.
End Sorting.

Lemma triple_le_iff a b c a' b' c' :
  triple_le (a, b, c) (a', b', c') = true ↔ a < a' ∨ a = a' ∧ (b < b' ∨ b = b' ∧ c ≤ c').
Proof.
  unfold triple_le. rewrite !orb_true_iff, !andb_true_iff, !orb_true_iff, !andb_true_iff,
    !Nat.ltb_lt, !Nat.eqb_eq, Nat.leb_le. done.
Qed.

Lemma triple_le_total x y : triple_le x y = false → triple_le y x = true.
Proof.
  destruct x as [[a b] c], y as [[a' b'] c']. rewrite triple_le_iff. intros H.
  destruct (decide (a' < a ∨ a' = a ∧ (b' < b ∨ b' = b ∧ c' ≤ c))) as [|Hn]; [done|].
  assert (triple_le (a, b, c) (a', b', c') = true) by (apply triple_le_iff; lia). congruence.
Qed.

Lemma triple_le_trans x y z : triple_le x y = true → triple_le y z = true → triple_le x z = true.
Proof.
  destruct x as [[a b] c], y as [[a' b'] c'], z as [[a'' b''] c'']. rewrite !triple_le_iff. lia.
Qed.

Lemma matching_exports_elem evs fail e k :
  (e, k) ∈ matching_exports evs fail ↔ e ∈ evs ∧ export_kind fail e = Some k.
Proof.
  unfold matching_exports. rewrite sort_le_perm, list_elem_of_omap. split.
  - intros (x & Hx & (k' & Hk & [= -> ->])%fmap_Some). done.
  - intros [He Hk]. exists e. by rewrite Hk.
Qed.

(** The peer export that a failure is compared with is the best one: an
    export of the same handle or base, with both equal and not of another pod
    if there is such a one; then one of the failing
    pod if there is one of the same quality; then the one nearest in the log. Without a
    peer no event matches. *)
Theorem best_export evs fail :
  match matching_exports evs fail with
  | [] => ∀ e, e ∈ evs → export_kind fail e = None
  | (best, kind) :: _ =>
      best ∈ evs ∧ export_kind fail best = Some kind ∧
      ∀ e k, e ∈ evs → export_kind fail e = Some k →
        (k = "handle+base"%string → kind = "handle+base"%string) ∧
        ((k = "handle+base"%string ↔ kind = "handle+base"%string) →
         (e_pod e = e_pod fail → e_pod best = e_pod fail) ∧
         ((e_pod e = e_pod fail ↔ e_pod best = e_pod fail) →
          distance (e_line best) (e_line fail) ≤ distance (e_line e) (e_line fail)))
  end.
Proof.
  pose proof (matching_exports_elem evs fail) as Hel.
  assert (StronglySorted (λ x y, triple_le (export_key fail x) (export_key fail y) = true)
            (matching_exports evs fail)) as Hs.
  { apply sort_le_sorted; [intros x y; apply triple_le_total|intros x y z; apply triple_le_trans]. }
  destruct (matching_exports evs fail) as [|[best kind] rest].
  { intros e He. destruct (export_kind fail e) as [k|] eqn:E; [|done].
    assert ((e, k) ∈ []) as ?%elem_of_nil by (by apply Hel). done. }
  destruct (proj1 (Hel best kind)) as [H1 H2]; [by left|]. split_and!; [done|done|].
  intros e k He Hk.
  assert (triple_le (export_key fail (best, kind)) (export_key fail (e, k)) = true) as Hle.
  { assert ((e, k) ∈ (best, kind) :: rest) as [[= -> ->]|Hin]%elem_of_cons by (by apply Hel).
    - unfold export_key. apply triple_le_iff. lia.
    - apply StronglySorted_inv in Hs as [_ Hs]. rewrite Forall_forall in Hs. by apply Hs. }
  unfold export_key in Hle. apply triple_le_iff in Hle. simpl in Hle. revert Hle.
  destruct (String.eqb_spec kind "handle+base"), (String.eqb_spec k "handle+base"),
    (String.eqb_spec (e_pod best) (e_pod fail)), (String.eqb_spec (e_pod e) (e_pod fail)); intros Hle;
    split_and!; try tauto; try lia; intros Hiff; (split; [try tauto|intros Hp]); try lia; tauto.
Qed.

(** ** The evidence *)
(** A numbered line of the log. *)
Definition log_entry (lines : list string) (nr : nat * string) : Prop :=
  ∃ line, (nr.1, line) ∈ numbered 1 lines ∧ nr.2 = rstrip_newlines line.

Lemma numbered_lookup start lines n line :
  (n, line) ∈ numbered start lines ↔ start ≤ n ∧ lines !! (n - start) = Some line.
Proof.
  unfold numbered. revert start. induction lines as [|x lines IH]; intros start; simpl.
  - split; [by intros ?%elem_of_nil|]. by rewrite lookup_nil; intros [_ ?].
  - rewrite elem_of_cons, IH. split.
    + intros [[= -> ->]|[H1 H2]]; [by rewrite Nat.sub_diag|].
      split; [lia|]. by replace (n - start) with (S (n - S start)) by lia.
    + intros [H1 H2]. destruct (decide (n = start)) as [->|Hne].
      * rewrite Nat.sub_diag in H2. left. by injection H2 as ->.
      * right. split; [lia|]. replace (n - start) with (S (n - S start)) in H2 by lia. done.
Qed.

Lemma log_entry_unique lines a b : log_entry lines a → log_entry lines b → a.1 = b.1 → a = b.
Proof.
  intros (x & [H1 H2]%numbered_lookup & Ha) (y & [H3 H4]%numbered_lookup & Hb) E.
  destruct a as [n r], b as [n' r']. simpl in *. subst n'. congruence.
Qed.

Lemma event_entry lines e : e ∈ events (parse_log lines) → log_entry lines (as_line e).
Proof.
  destruct (parse_from_spec (mkLogs [] [] [] []) 1 lines) as (H & _). unfold parse_log. rewrite H. simpl.
  rewrite list_elem_of_omap. intros ([n line] & Hin & He). exists line. unfold event_at in He. simpl in He.
  destruct (split_prefix _) as [[pod container] msg]. apply fmap_Some in He as (tag & _ & ->). done.
Qed.

Lemma matches_entry lines f nr : nr ∈ omap (matches_line f) (numbered 1 lines) → log_entry lines nr.
Proof.
  rewrite list_elem_of_omap. intros ([n line] & Hin & He). exists line. unfold matches_line in He. simpl in He.
  destruct (f _); [|done]. by injection He as <-.
Qed.

Lemma dset_elem `{EqDecision K} {V : Type} (k : K) (v : V) d kv : kv ∈ dset k v d → kv.2 = v ∨ kv ∈ d.
Proof.
  induction d as [|[k' v'] d IH]; simpl.
  - intros ->%list_elem_of_singleton. by left.
  - case_decide; intros [->|Hin]%elem_of_cons; [by left|by right; right|by right; left|].
    destruct (IH Hin) as [?|?]; [by left|by right; right].
Qed.

Lemma installs_elem evs e : e ∈ installs_by_scope evs → e ∈ evs.
Proof.
  unfold installs_by_scope.
  assert (∀ l d, (∀ x, x ∈ dvals d → x ∈ evs) → (∀ x, x ∈ l → x ∈ evs) →
    ∀ x, x ∈ dvals (foldl (λ d e, if dmem (e_pod e, e_container e) d then d
                                   else dset (e_pod e, e_container e) e d) d l) → x ∈ evs) as H.
  { induction l as [|y l IH]; intros d Hd Hl; [done|]. simpl. apply IH; [|intros x Hx; apply Hl; by right].
    destruct (dmem (e_pod y, e_container y) d) eqn:Em; [done|].
    intros x (k & [Hx|Hk]%dset_elem)%dvals_elem; simpl in *.
    - subst. apply Hl. by left.
    - apply Hd, dvals_elem. by exists k. }
  apply H; [by intros x ?%elem_of_nil|]. intros x. unfold with_tag. rewrite list_elem_of_filter. tauto.
Qed.

Lemma elem_option_list {A} (o : option A) x : x ∈ option_list o ↔ o = Some x.
Proof.
  destruct o as [y|]; simpl; [rewrite list_elem_of_singleton; naive_solver|].
  split; [by intros ?%elem_of_nil|done].
Qed.

Lemma elem_concat {A} (ls : list (list A)) x : x ∈ concat ls → ∃ l, x ∈ l ∧ l ∈ ls.
Proof.
  intros (l & H1 & H2)%list_elem_of_In%in_concat. exists l. by rewrite !list_elem_of_In.
Qed.

Lemma failure_evidence_elem evs fail e : fail ∈ evs → e ∈ failure_evidence evs fail → e ∈ evs.
Proof.
  intros Hf. unfold failure_evidence. rewrite !elem_of_app, !elem_option_list, list_elem_of_singleton.
  intros [H|[->|[H|H]]]; [by eapply nearest_before_elem|done|by eapply nearest_after_elem|].
  apply fmap_Some in H as ([x k] & H & ->). apply head_Some_elem_of, matching_exports_elem in H. by destruct H.
Qed.

Lemma take_elem {A} n (l : list A) x : x ∈ take n l → x ∈ l.
Proof. rewrite <- (take_drop n l) at 2. rewrite elem_of_app. by left. Qed.

Lemma drop_elem {A} n (l : list A) x : x ∈ drop n l → x ∈ l.
Proof. rewrite <- (take_drop n l) at 2. rewrite elem_of_app. by right. Qed.

Lemma offered_entry lines m nr : nr ∈ offered (parse_log lines) m → log_entry lines nr.
Proof.
  destruct (parse_from_spec (mkLogs [] [] [] []) 1 lines) as (_ & Hd & Hg & _). fold (parse_log lines) in Hd, Hg.
  simpl in Hd, Hg. unfold offered.
  assert (∀ P : list Event, (∀ e, e ∈ P → e ∈ events (parse_log lines)) → nr ∈ as_line <$> P → log_entry lines nr) as Hev.
  { intros P HP (e & -> & He)%list_elem_of_fmap. by apply event_entry, HP. }
  rewrite !elem_of_app. intros [H|[H|[H|[H|H]]]].
  - revert H. apply Hev. apply installs_elem.
  - revert H. apply Hev. intros e (l & He & Hl)%elem_concat. apply list_elem_of_fmap in Hl as (fail & -> & Hl).
    apply (failure_evidence_elem _ fail); [|done]. apply take_elem in Hl.
    unfold with_tag in Hl. by apply list_elem_of_filter in Hl as [_ ?].
  - revert H. apply Hev. intros e. rewrite list_elem_of_filter. tauto.
  - apply take_elem in H. rewrite Hd in H. by apply matches_entry in H.
  - apply drop_elem in H. rewrite Hg in H. by apply matches_entry in H.
Qed.

(** Printing keeps the first offer of every line number. *)
Lemma emit_all l printed out :
  (∀ n, n ∈ printed ↔ n ∈ out.*1) → NoDup (out.*1) →
  let r := (foldl emit (printed, out) l).2 in
  NoDup (r.*1) ∧ (∀ x, x ∈ r → x ∈ out ∨ x ∈ l) ∧ (∀ x, x ∈ out → x ∈ r) ∧ ∀ x, x ∈ l → x.1 ∈ r.*1.
Proof.
  revert printed out. induction l as [|y l IH]; intros printed out Hp Hnd; simpl.
  { split_and!; [done|by left|done|by intros x ?%elem_of_nil]. }
  unfold emit at 2 4 6 8. simpl. case_bool_decide as Hy.
  - destruct (IH printed out Hp Hnd) as (H1 & H2 & H3 & H4). split_and!; try done.
    + intros x Hx. destruct (H2 x Hx); [by left|by right; right].
    + intros x [->|Hx]%elem_of_cons; [|by apply H4]. apply Hp in Hy.
      apply list_elem_of_fmap in Hy as (z & Ez & Hz). rewrite Ez. apply list_elem_of_fmap. by exists z; auto.
  - destruct (IH (y.1 :: printed) (out ++ [y])) as (H1 & H2 & H3 & H4).
    + intros n. rewrite elem_of_cons, Hp, fmap_app, elem_of_app. csimpl. rewrite list_elem_of_singleton. tauto.
    + rewrite fmap_app. csimpl. apply NoDup_app. split_and!; [done| |apply NoDup_singleton].
      intros n Hn ->%list_elem_of_singleton. by apply Hy, Hp.
    + split_and!; [done| | |].
      * intros x Hx. destruct (H2 x Hx) as [[?| ->%list_elem_of_singleton]%elem_of_app|?];
          [by left|by right; left|by right; right].
      * intros x Hx. apply H3, elem_of_app. by left.
      * intros x [->|Hx]%elem_of_cons; [|by apply H4]. apply list_elem_of_fmap. exists y. split; [done|].
        apply H3, elem_of_app. right. by apply list_elem_of_singleton.
Qed.

(** The evidence block quotes the log: its lines have distinct numbers, each is
    the text of the log's line of that number, and every line that is offered is
    in it: the first INSTALL of every container, the first failures with their
    BEGIN, ABORT and best EXPORT, every late-stage event, two decode failures and the
    last four guardian lines. *)
Theorem evidence_quotes_log lines m :
  let block := evidence (parse_log lines) m in
  NoDup (block.*1) ∧
  (∀ n raw, (n, raw) ∈ block → 1 ≤ n ∧ rstrip_newlines <$> lines !! (n - 1) = Some raw) ∧
  ∀ nr, nr ∈ offered (parse_log lines) m → nr ∈ block.
Proof.
  destruct (emit_all (offered (parse_log lines) m) [] []) as (H1 & H2 & _ & H4);
    [done|constructor|]. fold (evidence (parse_log lines) m) in *.
  assert (∀ x, x ∈ evidence (parse_log lines) m → log_entry lines x) as He.
  { intros x Hx. destruct (H2 x Hx) as [?%elem_of_nil|Ho]; [done|]. by eapply offered_entry. }
  split_and!; [done| |].
  - intros n raw Hx. apply He in Hx as (line & [Hn Hl]%numbered_lookup & Hr). simpl in *. by rewrite Hl, Hr.
  - intros nr Hnr. pose proof (H4 _ Hnr) as Hin. apply list_elem_of_fmap in Hin as (x & E & Hx).
    rewrite (log_entry_unique lines nr x); auto. by eapply offered_entry.
Qed.

(** ** Fields are read back *)
Fixpoint all_chars (f : ascii → bool) (s : string) : bool :=
  match s with EmptyString => true | String a s => f a && all_chars f s end.

Definition good_key (k : string) : bool :=
  match k with String a _ => ident_start a && all_chars is_word k | EmptyString => false end.
Definition good_value (v : string) : bool := negb (str_empty v) && all_chars non_space v.

(** What follows the header in a printed message. *)
Fixpoint fields_text (kvs : list (string * string)) : string :=
  match kvs with
  | [] => EmptyString
  | (k, v) :: kvs => String " " (k +:+ String "=" (v +:+ fields_text kvs))
  end.

Lemma span_while_app f x y :
  all_chars f x = true → match y with EmptyString => True | String a _ => f a = false end →
  span_while f (x +:+ y) = (x, y).
Proof.
  intros Hx Hy. induction x as [|a x IH].
  - change (EmptyString +:+ y) with y. destruct y as [|b y]; [done|]. simpl. by rewrite Hy.
  - rewrite str_cons_app. simpl in *. apply andb_true_iff in Hx as [-> Hx]. by rewrite IH.
Qed.

Lemma fields_text_start kvs : match fields_text kvs with EmptyString => True | String a _ => a = " "%char end.
Proof. by destruct kvs as [|[k v] kvs]. Qed.

Lemma field_here_text k v kvs :
  good_key k = true → good_value v = true →
  field_here (k +:+ String "=" (v +:+ fields_text kvs)) = Some (k, v).
Proof.
  intros Hk Hv. destruct k as [|a k]; [done|]. unfold good_key in Hk. apply andb_true_iff in Hk as [Ha Hk].
  rewrite str_cons_app. unfold field_here. rewrite Ha. rewrite <- str_cons_app.
  rewrite span_while_app by done. rewrite Ascii.eqb_refl.
  unfold good_value in Hv. apply andb_true_iff in Hv as [Hne Hv].
  rewrite span_while_app; [by destruct v|done|].
  pose proof (fields_text_start kvs) as Hs. destruct (fields_text kvs) as [|b t]; [done|]. by subst.
Qed.

Lemma scan_skip x prev s :
  ∃ prev', scan_fields (String.length x) prev (x +:+ s) = scan_fields 0 prev' s.
Proof.
  revert prev. induction x as [|a x IH]; intros prev; [by exists prev|]. rewrite str_cons_app. simpl. apply IH.
Qed.

Lemma scan_text prev kvs :
  Forall (λ kv, good_key kv.1 = true ∧ good_value kv.2 = true) kvs → scan_fields 0 prev (fields_text kvs) = kvs.
Proof.
  intros H. revert prev. induction H as [|[k v] kvs [Hk Hv] H IH]; intros prev; [done|].
  cbn [fields_text]. cbn [scan_fields].
  replace (if word_at prev then None else _) with (None (A := string * string)) by (by destruct (word_at prev)).
  pose proof (field_here_text k v kvs Hk Hv) as Hf. destruct k as [|a k]; [done|].
  rewrite str_cons_app in Hf |- *. cbn [scan_fields]. change (word_at (Some " "%char)) with false. cbv iota.
  rewrite Hf. f_equal.
  replace (String.length (String a k) + String.length v) with (String.length (k +:+ String "=" v)).
  - replace (k +:+ String "=" (v +:+ fields_text kvs)) with ((k +:+ String "=" v) +:+ fields_text kvs).
    + destruct (scan_skip (k +:+ String "=" v) (Some a) (fields_text kvs)) as [p ->]. apply IH.
    + by rewrite str_app_assoc, str_cons_app.
  - rewrite str_app_length. simpl. lia.
Qed.

Lemma header_no_field h kvs k r :
  no_char "=" h → span_while is_word (h +:+ fields_text kvs) = (k, r) →
  match r with String b _ => Ascii.eqb b "=" = false | EmptyString => True end.
Proof.
  unfold no_char. revert k r. induction h as [|a h IH]; intros k r Hh.
  - change (EmptyString +:+ fields_text kvs) with (fields_text kvs). destruct kvs as [|[k' v'] kvs]; simpl.
    + by intros [= <- <-].
    + by intros [= <- <-].
  - rewrite str_cons_app. simpl in Hh |- *. case_decide as Ha; [done|]. destruct (is_word a).
    + destruct (span_while is_word (h +:+ fields_text kvs)) as [x y]. intros [= <- <-]. by apply (IH x y).
    + intros [= <- <-]. by apply Ascii.eqb_neq.
Qed.

Lemma field_here_header a h kvs :
  no_char "=" (String a h) → field_here (String a h +:+ fields_text kvs) = None.
Proof.
  intros Hh. rewrite str_cons_app. unfold field_here. destruct (ident_start a); [|done].
  rewrite <- str_cons_app.
  destruct (span_while is_word (String a h +:+ fields_text kvs)) as [k r] eqn:E.
  pose proof (header_no_field _ _ _ _ Hh E) as Hr. destruct r as [|b r]; [done|]. by rewrite Hr.
Qed.

Lemma scan_header prev h kvs :
  no_char "=" h → ∃ prev', scan_fields 0 prev (h +:+ fields_text kvs) = scan_fields 0 prev' (fields_text kvs).
Proof.
  revert prev. induction h as [|a h IH]; intros prev Hh; [by exists prev|].
  pose proof (field_here_header a h kvs Hh) as Hf. rewrite str_cons_app in Hf |- *. cbn [scan_fields].
  rewrite Hf. replace (if word_at prev then None else None) with (None (A := string * string)) by (by destruct (word_at prev)).
  apply IH. unfold no_char in *. simpl in Hh. by case_decide.
Qed.

(** Printed fields are read back: from a message that is a header without an
    equals sign followed by [key=value] words with distinct identifiers and
    values without white space (which may contain equals signs), [parse_fields] gets
    exactly these values; only [err_string] may be taken further, up to the next
    [segment=]. *)
Lemma fields_roundtrip header kvs key :
  no_char "=" header → NoDup (kvs.*1) →
  Forall (λ kv, good_key kv.1 = true ∧ good_value kv.2 = true) kvs →
  key ≠ "err_string"%string →
  dget key (parse_fields (header +:+ fields_text kvs)) = dget key kvs.
Proof.
  intros Hh Hnd Hgood Hk. unfold parse_fields.
  destruct (scan_header None header kvs Hh) as [p ->]. rewrite scan_text by done.
  assert (dget key (dupdate kvs []) = dget key kvs) as Hd.
  { rewrite dget_dupdate by done. by destruct (dget key kvs). }
  destruct (search_word _ _ _); [|done]. by rewrite dget_dset_ne.
Qed.

Lemma fields_roundtrip_witness :
  dget "handle_sig"%string (parse_fields ("[NVDBG][EXPORT]" +:+
    fields_text [("base", "0x7f"); ("handle_sig", "a=b:1"); ("device", "3")]%string)) = Some "a=b:1"%string.
Proof.
  apply (fields_roundtrip "[NVDBG][EXPORT]" [("base", "0x7f"); ("handle_sig", "a=b:1"); ("device", "3")]%string
           "handle_sig"%string); [reflexivity| |by repeat constructor|done].
  apply (bool_decide_unpack _). vm_compute. done.
Defined.

(** ** A printed log is read back *)
(** The lines of a log: what the instrumented engine prints in a container of a
    pod, and other output. *)
Inductive output_line : Type :=
| Tagged (pod container tag : string) (kvs : list (string * string))
| Plain (text : string).

Definition line_feed : string := String (ascii_of_nat 10) EmptyString.
Definition tag_header (tag : string) : string := "[NVDBG][" +:+ (tag +:+ "]").
Definition tagged_text (pod container tag : string) (kvs : list (string * string)) : string :=
  "[pod/" +:+ (pod +:+ String "/" (container +:+ String "]" (String " " (tag_header tag +:+ fields_text kvs)))).

Definition print_line (o : output_line) : string :=
  match o with
  | Tagged pod container tag kvs => tagged_text pod container tag kvs +:+ line_feed
  | Plain text => text +:+ line_feed
  end.

(** Names without the character that ends them, tags of capital letters, distinct
    fields; other output without a bracket. *)
Definition printable (o : output_line) : Prop :=
  match o with
  | Tagged pod container tag kvs =>
      (pod ≠ EmptyString ∧ all_chars (λ a, negb (Ascii.eqb a "/") && dot a) pod = true) ∧
      (container ≠ EmptyString ∧ all_chars (λ a, negb (Ascii.eqb a "]") && dot a) container = true) ∧
      (tag ≠ EmptyString ∧ all_chars tag_char tag = true) ∧
      NoDup (kvs.*1) ∧ Forall (λ kv, good_key kv.1 = true ∧ good_value kv.2 = true) kvs
  | Plain text => all_chars (λ a, negb (Ascii.eqb a "[") && dot a) text = true
  end.

(** The event that a printed line must give. *)
Definition reads (e : Event) (no : nat * output_line) : Prop :=
  match no.2 with
  | Tagged pod container tag kvs =>
      e_line e = no.1 ∧ e_pod e = pod ∧ e_container e = container ∧ e_tag e = tag ∧
      e_raw e +:+ line_feed = print_line no.2 ∧
      ∀ key, key ≠ "err_string"%string → dget key (e_fields e) = dget key kvs
  | Plain _ => False
  end.

Definition is_tagged (no : nat * output_line) : bool := match no.2 with Tagged _ _ _ _ => true | Plain _ => false end.

Lemma all_chars_app f x y : all_chars f (x +:+ y) = all_chars f x && all_chars f y.
Proof. induction x as [|a x IH]; [done|]. rewrite str_cons_app. simpl. by rewrite IH, andb_assoc. Qed.

Lemma all_chars_impl (f g : ascii → bool) s :
  (∀ a, f a = true → g a = true) → all_chars f s = true → all_chars g s = true.
Proof. intros Hfg. induction s as [|a s IH]; [done|]. simpl. rewrite !andb_true_iff. naive_solver. Qed.

Lemma is_word_dot a : is_word a = true → dot a = true.
Proof. by destruct a as [[] [] [] [] [] [] [] []]. Qed.

Lemma non_space_dot a : non_space a = true → dot a = true.
Proof. by destruct a as [[] [] [] [] [] [] [] []]. Qed.

Lemma tag_char_dot a : tag_char a = true → dot a = true ∧ Ascii.eqb a "=" = false ∧ Ascii.eqb a "]" = false.
Proof. by destruct a as [[] [] [] [] [] [] [] []]. Qed.

Lemma fields_text_dot kvs :
  Forall (λ kv, good_key kv.1 = true ∧ good_value kv.2 = true) kvs → all_chars dot (fields_text kvs) = true.
Proof.
  induction 1 as [|[k v] kvs [Hk Hv] _ IH]; [done|]. cbn [fields_text fst snd] in *. simpl.
  rewrite all_chars_app. simpl. rewrite all_chars_app, IH, andb_true_r. apply andb_true_iff. split.
  - unfold good_key in Hk. destruct k as [|a k]; [done|]. apply andb_true_iff in Hk as [_ Hk].
    by eapply all_chars_impl, Hk; apply is_word_dot.
  - apply andb_true_iff in Hv as [_ Hv]. by eapply all_chars_impl, Hv; apply non_space_dot.
Qed.

Lemma rstrip_newlines_text s : all_chars dot s = true → rstrip_newlines (s +:+ line_feed) = s.
Proof.
  induction s as [|a s IH]; [done|]. rewrite str_cons_app. simpl. intros [Ha Hs]%andb_true_iff. rewrite IH by done.
  destruct s; [|done]. unfold dot in Ha. apply negb_true_iff in Ha. by rewrite Ha.
Qed.

Lemma dot_line_all s : all_chars dot s = true → dot_line s = Some s.
Proof.
  intros Hs. unfold dot_line. pose proof (span_while_app dot s EmptyString Hs I) as E.
  rewrite str_app_nil_r in E. by rewrite E.
Qed.

Lemma tag_header_found tag rest :
  tag ≠ EmptyString → all_chars tag_char tag = true → re_search tag_here (tag_header tag +:+ rest) = Some tag.
Proof.
  intros Hne Ht. assert (tag_here (tag_header tag +:+ rest) = Some tag) as E.
  { unfold tag_here, tag_header. rewrite !str_app_assoc, strip_prefix_app. cbn [mbind option_bind].
    rewrite span_while_app; [by destruct tag|done|done]. }
  unfold re_search. destruct (tag_header tag +:+ rest) as [|a t] eqn:Et; by rewrite E.
Qed.

Lemma no_char_all c s : all_chars (λ a, negb (Ascii.eqb a c)) s = true → no_char c s.
Proof.
  unfold no_char. induction s as [|a s IH]; [done|]. simpl. intros [Ha Hs]%andb_true_iff.
  apply negb_true_iff, Ascii.eqb_neq in Ha. rewrite decide_False by congruence. by apply IH.
Qed.

Lemma tag_header_no_eq tag : all_chars tag_char tag = true → no_char "=" (tag_header tag).
Proof.
  intros Ht. apply no_char_all. unfold tag_header. rewrite !all_chars_app.
  rewrite (all_chars_impl tag_char _ tag); [done| |done]. intros a Ha. by destruct (tag_char_dot a Ha) as (_ & -> & _).
Qed.

Lemma prefix_match_tagged pod container tag kvs :
  printable (Tagged pod container tag kvs) →
  prefix_match (tagged_text pod container tag kvs) = Some (pod, container, tag_header tag +:+ fields_text kvs).
Proof.
  intros ((Hp & Hpc) & (Hc & Hcc) & (Ht & Htc) & _ & Hk). unfold prefix_match, tagged_text. rewrite strip_prefix_app.
  cbn [mbind option_bind].
  rewrite span_while_app; [|eapply all_chars_impl, Hpc; intros a [? _]%andb_true_iff; done|done].
  destruct pod as [|p pod]; [done|].
  rewrite span_while_app; [|eapply all_chars_impl, Hcc; intros a [? _]%andb_true_iff; done|done].
  destruct container as [|c container]; [done|].
  change (lstrip (String " " (tag_header tag +:+ fields_text kvs))) with (tag_header tag +:+ fields_text kvs).
  rewrite dot_line_all; [done|]. unfold tag_header. rewrite !all_chars_app, fields_text_dot by done.
  rewrite (all_chars_impl tag_char _ tag); [done| |done]. intros a Ha. by destruct (tag_char_dot a Ha).
Qed.

Lemma tagged_text_dot pod container tag kvs :
  printable (Tagged pod container tag kvs) → all_chars dot (tagged_text pod container tag kvs) = true.
Proof.
  intros ((_ & Hpc) & (_ & Hcc) & (_ & Htc) & _ & Hk). unfold tagged_text, tag_header.
  rewrite !all_chars_app. simpl. rewrite !all_chars_app. simpl. rewrite !all_chars_app, fields_text_dot by done.
  assert (all_chars dot tag = true) as -> by (eapply all_chars_impl, Htc; intros a Ha; by destruct (tag_char_dot a Ha)).
  assert (all_chars dot pod = true) as -> by (eapply all_chars_impl, Hpc; by intros a [_ ?]%andb_true_iff).
  by assert (all_chars dot container = true) as -> by (eapply all_chars_impl, Hcc; by intros a [_ ?]%andb_true_iff).
Qed.

Lemma plain_no_tag text : all_chars (λ a, negb (Ascii.eqb a "[") && dot a) text = true → re_search tag_here text = None.
Proof.
  induction text as [|a s IH]; [done|]. simpl. intros [[Ha _]%andb_true_iff Hs]%andb_true_iff.
  apply negb_true_iff in Ha. unfold tag_here at 1. cbn [strip_prefix].
  rewrite Ascii.eqb_sym, Ha. cbn [mbind option_bind]. by apply IH.
Qed.

Lemma plain_no_prefix text :
  all_chars (λ a, negb (Ascii.eqb a "[") && dot a) text = true → prefix_match text = None.
Proof.
  destruct text as [|a s]; [done|]. simpl. intros [[Ha _]%andb_true_iff Hs]%andb_true_iff.
  apply negb_true_iff in Ha. unfold prefix_match. cbn [strip_prefix]. by rewrite Ascii.eqb_sym, Ha.
Qed.

(** One printed line gives its event, and other output none. *)
Lemma event_at_printed n o :
  printable o →
  match o with
  | Tagged _ _ _ _ => ∃ e, event_at (n, print_line o) = Some e ∧ reads e (n, o)
  | Plain _ => event_at (n, print_line o) = None
  end.
Proof.
  intros Ho. destruct o as [pod container tag kvs|text]; unfold event_at; cbn [fst snd print_line].
  - rewrite rstrip_newlines_text by by apply tagged_text_dot.
    unfold split_prefix. rewrite prefix_match_tagged by done. cbn [default]. unfold id.
    pose proof Ho as (_ & _ & (Ht & Htc) & Hnd & Hk). rewrite tag_header_found by done. eexists. split; [done|].
    split_and!; try done. intros key Hkey. simpl. apply fields_roundtrip; try done. by apply tag_header_no_eq.
  - simpl in Ho. rewrite rstrip_newlines_text; [|by eapply all_chars_impl, Ho; intros a [_ ?]%andb_true_iff].
    unfold split_prefix. rewrite plain_no_prefix by done. cbn [default]. unfold id. by rewrite plain_no_tag.
Qed.


