(* ===== verification/Decide.v ===== *)
(** * The audited decision client: [skills/jev-decide/scripts/decide.py]

    One run of the client: it builds and validates a request, sends it with
    bounded retries, appends a record to a hash-chained audit log and prints the
    answer or an error.  The environment of a run is an [environ]; what the server
    answers to each attempt, SHA-256 and [json.loads] are parameters.  Command
    line options come from [argparse] as an [args] record.  The audit log is the
    state that runs share; a failing system call is an argument of the run.
    [utf-8] is the identity on texts of code points below 256, except for
    [decode], which may refuse. *)
From stdpp Require Import base list strings gmap.
From Stdlib Require Import Ascii QArith Qround Qabs Qminmax.
From S2P Require Import Prelude PyDict PyStr Json JsonText Files.

(** ** Errors *)
(** A [ClientError], an [OSError] with its text, or an exception that [main]
    does not catch. *)
Inductive derr : Type :=
| ClientErr (message : string) (attempts : nat)
| OSErr (text : string)
| Escaping (e : exn).

Inductive dres (A : Type) : Type := Ok (a : A) | Err (e : derr).
Arguments Ok {A} a.
Arguments Err {A} e.

#[global] Instance dres_ret : MRet dres := @Ok.
#[global] Instance dres_bind : MBind dres := λ A B f r, match r with Ok a => f a | Err e => Err e end.

Definition client_error {A} (message : string) : dres A := Err (ClientErr message 0).

(** ** Constants *)
Definition VERSION : string := "0.3.0".
Definition FIELDS : list string :=
  ["kind"; "state"; "question"; "options"; "strategy"; "thinking"; "threshold"; "think_budget";
   "reasoning_effort"; "chat_template_kwargs"; "return_reasoning"; "debug"; "system2_only"]%string.
Definition KINDS : list string := ["choice"; "noul"; "score"]%string.
Definition RETRYABLE_HTTP_STATUSES : list Z := [408; 425; 429; 500; 502; 503; 504]%Z.
Fixpoint repeat_char (n : nat) (a : ascii) : string :=
  match n with O => EmptyString | S n => String a (repeat_char n a) end.
Definition ZERO_HASH : string := repeat_char 64 "0".

(** ** [urllib.parse] *)
Fixpoint str_filter (f : ascii → bool) (s : string) : string :=
  match s with
  | EmptyString => EmptyString
  | String a s => if f a then String a (str_filter f s) else str_filter f s
  end.

Fixpoint str_all (f : ascii → bool) (s : string) : bool :=
  match s with EmptyString => true | String a s => f a && str_all f s end.

Fixpoint lstrip_by (f : ascii → bool) (s : string) : string :=
  match s with
  | String a s' => if f a then lstrip_by f s' else s
  | EmptyString => EmptyString
  end.

(** The text before the first character of the class, and the rest. *)
Fixpoint span_until (f : ascii → bool) (s : string) : string * string :=
  match s with
  | EmptyString => (EmptyString, EmptyString)
  | String a s' => if f a then (EmptyString, s)
                   else let '(x, y) := span_until f s' in (String a x, y)
  end.

Definition in_class (cs : string) (a : ascii) : bool := str_has a cs.
Definition is_c0_or_space (a : ascii) : bool := Nat.leb (nat_of_ascii a) 32.
Definition is_unsafe (a : ascii) : bool := bool_decide (nat_of_ascii a ∈ [9; 10; 13]%nat).
Definition ascii_alpha (a : ascii) : bool :=
  let n := nat_of_ascii a in (Nat.leb 65 n && Nat.leb n 90) || (Nat.leb 97 n && Nat.leb n 122).
Definition ascii_digit (a : ascii) : bool :=
  let n := nat_of_ascii a in Nat.leb 48 n && Nat.leb n 57.
Definition scheme_char (a : ascii) : bool := ascii_alpha a || ascii_digit a || in_class "+-." a.
Definition is_scheme (s : string) : bool :=
  match s with String a _ => ascii_alpha a && str_all scheme_char s | EmptyString => false end.

Record split_url := mkSplit {
  u_scheme : string;
  u_netloc : string;
  u_path : string;
  u_query : string;
  u_fragment : string
}.

(** [netloc_ok] is the library's check of a network location (brackets and
    Unicode normalisation), which raises [ValueError]. *)
Definition urlsplit (netloc_ok : string → bool) (url : string) : dres split_url :=
  let url := str_filter (λ a, negb (is_unsafe a)) (lstrip_by is_c0_or_space url) in
  let '(scheme, url) :=
    match split_once ":" url with
    | Some (h, t) => if is_scheme h then (lower h, t) else (EmptyString, url)
    | None => (EmptyString, url)
    end in
  let '(netloc, url) :=
    match url with
    | String a (String b t) =>
        if Ascii.eqb a "/" && Ascii.eqb b "/" then span_until (in_class "/?#") t
        else (EmptyString, url)
    | _ => (EmptyString, url)
    end in
  if negb (netloc_ok netloc) then Err (Escaping ValueError) else
  let '(url, fragment) := default (url, EmptyString) (split_once "#" url) in
  let '(path, query) := default (url, EmptyString) (split_once "?" url) in
  Ok (mkSplit scheme netloc path query fragment).

(** The text before the last occurrence of [c], as [rpartition] gives it. *)
Fixpoint before_last (c : ascii) (s : string) : option string :=
  match s with
  | EmptyString => None
  | String a s => match before_last c s with
                  | Some u => Some (String a u)
                  | None => if Ascii.eqb a c then Some EmptyString else None
                  end
  end.

(** [parsed.username or parsed.password] *)
Definition has_credentials (netloc : string) : bool :=
  match before_last "@" netloc with
  | None => false
  | Some u => match split_once ":" u with
              | None => negb (str_empty u)
              | Some (name, password) => negb (str_empty name) || negb (str_empty password)
              end
  end.

(** [path.rstrip("/")] *)
Fixpoint rstrip_slash (s : string) : string :=
  match s with
  | EmptyString => EmptyString
  | String a s => match rstrip_slash s with
                  | EmptyString => if Ascii.eqb a "/" then EmptyString else String a EmptyString
                  | t => String a t
                  end
  end.

(** [s[:-len(suf)]] when [s.endswith(suf)] *)
Fixpoint strip_suffix (suf s : string) : option string :=
  if String.eqb s suf then Some EmptyString else
  match s with
  | EmptyString => None
  | String a s => String a <$> strip_suffix suf s
  end.

Definition endpoint (netloc_ok : string → bool) (base_url : string) (info : bool) : dres string :=
  if str_empty base_url then client_error "JEV_BASE_URL is required" else
  parsed ← urlsplit netloc_ok base_url;
  if negb (bool_decide (u_scheme parsed ∈ ["http"; "https"]%string)) || str_empty (u_netloc parsed)
  then client_error "JEV_BASE_URL must be an absolute http(s) URL" else
  if has_credentials (u_netloc parsed) || negb (str_empty (u_query parsed))
     || negb (str_empty (u_fragment parsed))
  then client_error "JEV_BASE_URL must not contain credentials, query, or fragment" else
  let path := rstrip_slash (u_path parsed) in
  let path := match strip_suffix "/v1/decide" path with
              | Some p => p
              | None => default path (strip_suffix "/v1" path)
              end in
  let suffix := if info then "/v1/decide/info"%string else "/v1/decide"%string in
  (* [urlunsplit]: the path starts with a slash *)
  Ok (u_scheme parsed +:+ "://" +:+ u_netloc parsed +:+ path +:+ suffix).

(** ** Numbers of the environment *)
(** Digits with single underscores between them: value and number of digits. *)
Fixpoint digit_run_from (s : string) (after_digit : bool) (acc : Z) (n : nat) : option (Z * nat) :=
  match s with
  | EmptyString => if after_digit then Some (acc, n) else None
  | String a s =>
      if ascii_digit a
      then digit_run_from s true (10 * acc + Z.of_nat (nat_of_ascii a - 48))%Z (S n)
      else if Ascii.eqb a "_" && after_digit then digit_run_from s false acc n else None
  end.
Definition digits_value (s : string) : option (Z * nat) := digit_run_from s false 0 0.

Definition take_sign (s : string) : Z * string :=
  match s with
  | String a t => if Ascii.eqb a "-" then ((-1)%Z, t) else if Ascii.eqb a "+" then (1%Z, t) else (1%Z, s)
  | EmptyString => (1%Z, s)
  end.

(** [int(s)], which refuses texts with more than 4300 digits *)
Definition py_int (s : string) : option Z :=
  let '(sg, t) := take_sign (strip s) in
  '(v, n) ← digits_value t; if (4300 <? Z.of_nat n)%Z then None else Some (sg * v)%Z.

(** [float(s)]: a finite number (as the decimal that is written), or infinite
    or not a number. *)
Inductive fnum : Type := Finite (q : Q) | NotFinite.

Definition pow10 (k : Z) : Q := if (k <? 0)%Z then (1 # Z.to_pos (10 ^ (- k))) else inject_Z (10 ^ k).

Definition to_float (q : Q) : fnum :=
  if Qle_bool (inject_Z (2 ^ 1024 - 2 ^ 970)) (Qabs q) then NotFinite else Finite q.

Definition mantissa (m : string) : option (Z * nat) :=
  match split_once "." m with
  | None => '(v, _) ← digits_value m; Some (v, O)
  | Some (a, b) =>
      match a, b with
      | EmptyString, EmptyString => None
      | EmptyString, _ => digits_value b
      | _, EmptyString => '(v, _) ← digits_value a; Some (v, O)
      | _, _ => '(v, _) ← digits_value a; '(f, n) ← digits_value b; Some (v * 10 ^ Z.of_nat n + f, n)%Z
      end
  end.

Definition py_float (s : string) : option fnum :=
  let '(sg, t) := take_sign (lower (strip s)) in
  if bool_decide (t ∈ ["inf"; "infinity"; "nan"]%string) then Some NotFinite else
  match split_once "e" t with
  | None => '(v, n) ← mantissa t; Some (to_float (inject_Z (sg * v) * pow10 (- Z.of_nat n)))
  | Some (m, e) =>
      let '(esg, e) := take_sign e in
      '(v, n) ← mantissa m; '(k, _) ← digits_value e;
      Some (to_float (inject_Z (sg * v) * pow10 (esg * k - Z.of_nat n)))
  end.

(** ** The environment of a run *)
Record environ := mkEnviron {
  env : string → option string;
  stdin : string;
  home : string;
  resolve : string → string;                (* [Path(p).expanduser().resolve()] *)
  read_bytes : string → string + string;    (* contents, or the text of the [OSError] *)
  decode : string → option string;          (* [bytes.decode("utf-8")] *)
  json_msg : string → string;               (* the message of a [JSONDecodeError] *)
  clock : string;                           (* [utc_now()] *)
  uuid : string                             (* [str(uuid.uuid4())] *)
}.

Record args := mkArgs {
  a_info : bool;
  a_request_file : option string;
  a_kind : option string;
  a_question : option string;
  a_state_json : option string;
  a_state_file : option string;
  a_evidence_file : list string;
  a_options : option (list string);
  a_strategy : option string;
  a_thinking : option string;
  a_argv : list string
}.

(** Values of [env_number] with the text the error message gives them. *)
Definition env_number (w : environ) (name default_text : string) (lo hi : string * Q) (integer : bool)
    : dres Q :=
  let raw := default default_text (env w name) in
  let between v :=
    if Qle_bool lo.2 v && Qle_bool v hi.2 then Ok v
    else client_error (name +:+ " must be between " +:+ lo.1 +:+ " and " +:+ hi.1) in
  if integer then
    match py_int raw with
    | None => client_error (name +:+ " must be numeric")
    | Some z => between (inject_Z z)
    end
  else
    match py_float raw with
    | None => client_error (name +:+ " must be numeric")
    | Some NotFinite => client_error (name +:+ " must be finite")
    | Some (Finite q) => between q
    end.

(** ** [validate] *)
Definition get (k : string) (d : list (string * json)) : json := dict_get k JNull d.

Definition good_option (v : json) : bool := match v with JStr s => negb (str_empty s) | _ => false end.

(** A float is refused unless it is finite.  A [JFloat] carries the decimal that
    is written, and one that no finite float is near to is an infinity when it
    is read; it also stands for [NaN].  An integer whose conversion to a
    float overflows makes [math.isfinite] raise. *)
Definition check_threshold (v : json) : dres unit :=
  match v with
  | JNull => Ok tt
  | JInt z => match to_float (inject_Z z) with
              | Finite _ => Ok tt
              | NotFinite => Err (Escaping (OtherError "OverflowError"))
              end
  | JFloat q => match to_float q with
                | Finite _ => Ok tt
                | NotFinite => client_error "threshold must be a finite number or null"
                end
  | _ => client_error "threshold must be a finite number or null"
  end.

(** [kind not in KINDS] raises on a list or a dict. *)
Definition check_kind (v : json) : dres string :=
  match v with
  | JStr s => if bool_decide (s ∈ KINDS) then Ok s else client_error "kind must be choice, noul, or score"
  | JArr _ | JObj _ => Err (Escaping TypeError)
  | _ => client_error "kind must be choice, noul, or score"
  end.

Definition check_options (kind : string) (options : json) : dres unit :=
  if String.eqb kind "choice" then
    match options with
    | JArr l => if Nat.leb 2 (length l) && Nat.leb (length l) 256 && forallb good_option l then Ok tt
                else client_error "choice requires 2-256 non-empty string options"
    | _ => client_error "choice requires 2-256 non-empty string options"
    end
  else if is_none options then Ok tt else client_error "options is valid only for choice".

Definition validate (body : json) : dres (list (string * json)) :=
  match body with
  | JObj d =>
      let unknown := sorted_by id (filter (λ k, k ∉ FIELDS) (dkeys d)) in
      match unknown with
      | _ :: _ => client_error ("unknown request fields: " +:+ join ", " unknown)
      | [] =>
          kind ← check_kind (get "kind" d);
          _ ← match get "question" d with
              | JStr s => if str_empty (strip s) then client_error "question must be a non-empty string"
                          else Ok tt
              | _ => client_error "question must be a non-empty string"
              end;
          _ ← check_options kind (get "options" d);
          _ ← check_threshold (get "threshold" d);
          Ok d
      end
  | _ => client_error "request must be a JSON object"
  end.

(** ** Building the request *)
Section Client.
Context (netloc_ok : string → bool) (sha256 : string → string) (float_repr : Q → string).
Context `{!JsonLoads float_repr}.

Abbreviation canonical := (canonical_json float_repr).

(** [sha256_json]: [None] for [None] *)
Definition sha256_json (v : option json) : json :=
  match v with None => JNull | Some v => JStr (sha256 (canonical v)) end.

Definition load_json (w : environ) (text source : string) : dres json :=
  match loads float_repr text with
  | Ret v => Ok v
  | Raise JSONDecodeError => client_error (source +:+ " is not valid JSON: " +:+ json_msg w text)
  | Raise e => Err (Escaping e)
  end.

(** A manifest entry of the evidence, and the path in it. *)
Definition manifest (label path data : string) : json :=
  JObj [("role", JStr label); ("path", JStr path); ("size_bytes", JInt (Z.of_nat (String.length data)));
        ("sha256", JStr (sha256 data))]%string.

Definition read_file (w : environ) (path_value label : string) : dres (string * (string * json)) :=
  let path := resolve w path_value in
  match read_bytes w path with
  | inr exc => client_error ("cannot read " +:+ label +:+ ": " +:+ exc)
  | inl data => Ok (data, (path, manifest label path data))
  end.

Definition decode_or (w : environ) (raw message : string) : dres string :=
  match decode w raw with Some t => Ok t | None => client_error message end.

(** [if x is not None: body[k] = x] *)
Definition set_opt (k : string) (v : option json) (d : list (string * json)) : list (string * json) :=
  match v with Some v => dset k v d | None => d end.

Definition body_from_file (w : environ) (file : string) : dres (list (string * json) * list (string * json)) :=
  '(text, evidence) ←
    (if String.eqb file "-" then Ok (stdin w, [])
     else '(raw, entry) ← read_file w file "request_file";
          text ← decode_or w raw "request file must be UTF-8"; Ok (text, [entry]));
  v ← load_json w text "request file";
  body ← validate v;
  Ok (body, evidence).

(** The state given on the command line, in a file or not at all. *)
Definition read_state (w : environ) (state_json state_file : option string)
    : dres (option json * list (string * json)) :=
  match state_json, state_file with
  | Some _, Some _ => client_error "use only one of --state-json and --state-file"
  | Some t, None => v ← load_json w t "--state-json"; Ok (Some v, [])
  | None, Some f =>
      '(raw, entry) ← read_file w f "state_file";
      text ← decode_or w raw "state file must be UTF-8";
      v ← load_json w text "--state-file"; Ok (Some v, [entry])
  | None, None => Ok (None, [])
  end.

Definition options_body (a : args) (kind question : string) (state : option json)
    : list (string * json) :=
  let body := [("kind", JStr kind); ("question", JStr question)]%string in
  let body := set_opt "state" state body in
  let body := set_opt "options" ((λ l, JArr (JStr <$> l)) <$> a_options a) body in
  let body := set_opt "strategy" (JStr <$> a_strategy a) body in
  set_opt "thinking" (JStr <$> a_thinking a) body.

Definition body_from_options (w : environ) (a : args) : dres (list (string * json) * list (string * json)) :=
  match a_kind a, a_question a with
  | Some kind, Some question =>
      if str_empty kind then client_error "--kind and --question are required" else
      '(state, evidence) ← read_state w (a_state_json a) (a_state_file a);
      body ← validate (JObj (options_body a kind question state));
      Ok (body, evidence)
  | _, _ => client_error "--kind and --question are required"
  end.

(** Files are bound once per path. *)
Fixpoint add_evidence (w : environ) (files : list string) (evidence : list (string * json))
    : dres (list (string * json)) :=
  match files with
  | [] => Ok evidence
  | f :: files =>
      '(_, entry) ← read_file w f "evidence_file";
      add_evidence w files
        (if bool_decide (entry.1 ∈ evidence.*1) then evidence else evidence ++ [entry])
  end.

Definition build_body (w : environ) (a : args) : dres (list (string * json) * list json) :=
  '(body, evidence) ←
    match a_request_file a with
    | Some f => if str_empty f then body_from_options w a else body_from_file w f
    | None => body_from_options w a
    end;
  evidence ← add_evidence w (a_evidence_file a) evidence;
  Ok (body, evidence.*2).

(** ** Sending with retries *)
Inductive net_reply : Type :=
| HttpError (code : Z) (detail : string)
| ConnectionFailed (reason : string)
| Answer (raw : string)
| Uncaught (e : exn).   (* an exception that is not an [OSError], as of a broken body *)

Record http_request := mkHttp {
  hr_url : string;
  hr_method : string;
  hr_headers : list (string * string);
  hr_data : option string
}.

(** Requests sent and sleeps taken, in order. *)
Record trace := mkTrace { sent : list http_request; sleeps : list Q }.

(** The network: what it answers to the n-th request of the run. *)
Context (net : nat → http_request → net_reply).

Definition retryable (r : net_reply) : bool :=
  match r with
  | HttpError code _ => bool_decide (code ∈ RETRYABLE_HTTP_STATUSES)
  | ConnectionFailed _ => true
  | Answer _ | Uncaught _ => false
  end.

(** What is made of the reply to attempt number [attempts] when it is final. *)
Definition final_result (attempts : nat) (r : net_reply) : dres (list (string * json) * nat) :=
  match r with
  | HttpError code detail =>
      Err (ClientErr ("upstream HTTP " +:+ int_text code +:+ ": " +:+ str_take 2000 detail) attempts)
  | ConnectionFailed reason => Err (ClientErr ("upstream connection failed: " +:+ reason) attempts)
  | Answer raw =>
      match loads float_repr raw with
      | Ret (JObj d) => Ok (d, attempts)
      | Ret _ => Err (ClientErr "upstream response must be a JSON object" attempts)
      | Raise JSONDecodeError => Err (ClientErr "upstream returned invalid JSON" attempts)
      | Raise e => Err (Escaping e)
      end
  | Uncaught e => Err (Escaping e)
  end.

Definition pause (backoff : Q) (retry_index : nat) : Q :=
  Qmin (backoff * inject_Z (2 ^ Z.of_nat retry_index)) 10.

(** [more] retries are left after attempt [retry_index]. *)
Fixpoint retry_loop (more retry_index : nat) (backoff : Q) (req : http_request) (tr : trace)
    : dres (list (string * json) * nat) * trace :=
  let tr := mkTrace (sent tr ++ [req]) (sleeps tr) in
  let r := net retry_index req in
  match more with
  | O => (final_result (S retry_index) r, tr)
  | S more =>
      if retryable r then
        retry_loop more (S retry_index) backoff req
          (if Qeq_bool backoff 0 then tr else mkTrace (sent tr) (sleeps tr ++ [pause backoff retry_index]))
      else (final_result (S retry_index) r, tr)
  end.

Definition request_headers (w : environ) (has_body : bool) : list (string * string) :=
  [("Accept", "application/json")]%string ++
  match env w "JEV_API_KEY" with
  | Some key => if str_empty key then [] else [("Authorization", "Bearer " +:+ key)]%string
  | None => []
  end ++
  (if has_body then [("Content-Type", "application/json")]%string else []).

Definition request_json (w : environ) (url method : string) (body : option (list (string * json)))
    : dres (list (string * json) * nat) * trace :=
  let none := mkTrace [] [] in
  match env_number w "JEV_TIMEOUT_SECONDS" "60" ("0.001"%string, (1 # 1000)) ("3600"%string, 3600) false,
        env_number w "JEV_MAX_RETRIES" "2" ("0"%string, 0) ("5"%string, 5) true,
        env_number w "JEV_RETRY_BACKOFF_SECONDS" "0.25" ("0"%string, 0) ("10"%string, 10) false with
  | Err e, _, _ | Ok _, Err e, _ | Ok _, Ok _, Err e => (Err e, none)
  | Ok _, Ok max_retries, Ok backoff =>
      retry_loop (Z.to_nat (Qfloor max_retries)) 0 backoff
        (mkHttp url method (request_headers w (bool_decide (is_Some body)))
           ((λ d, canonical (JObj d)) <$> body)) none
  end.

(** ** The audit log *)
Record log_file := mkLog { lf_regular : bool; lf_mode : Z; lf_content : string }.

(** The directory of the log (its mode, if it exists) and the log. *)
Record audit_state := mkAudit { dir_mode : option Z; log : option log_file }.

(** The system call that fails with an [OSError]. *)
Inductive fail_point : Type := FMkdir | FChmod | FOpen | FFchmod | FRead | FWrite | FSync.
#[global] Instance fail_point_eq_dec : EqDecision fail_point.
Proof. solve_decision. Defined.

(** What the system does to one append: the call that fails, and how many bytes
    the write takes if it does not take all of them.  The file is unbuffered
    and the number of bytes written is not looked at, so a short write is not an
    error for the code. *)
Record faults := mkFaults { failing : option (fail_point * string); short : option nat }.

Definition no_faults : faults := mkFaults None None.

Definition cut_to (n : option nat) (text : string) : string :=
  match n with Some n => str_take n text | None => text end.

Definition audit_log_path (w : environ) : string :=
  let set k := match env w k with Some s => if str_empty s then None else Some s | None => None end in
  match set "JEV_AUDIT_LOG"%string with
  | Some p => resolve w p
  | None =>
      let root := match set "XDG_STATE_HOME"%string with
                  | Some r => r
                  | None => path_join (home w) ".local/state"
                  end in
      resolve w (path_join root "jev-decide/audit.jsonl")
  end.

(** White space of [bytes.strip]. *)
Definition byte_space (a : ascii) : bool :=
  let n := nat_of_ascii a in Nat.eqb n 32 || (Nat.leb 9 n && Nat.leb n 13).

Definition line_break : ascii := ascii_of_nat 10.

(** The last line with something on it. *)
Definition last_line (content : string) : option string :=
  last (filter (λ l, str_all byte_space l = false) (split_on line_break content)).

Definition previous_hash (w : environ) (path content : string) : dres json :=
  let malformed := client_error ("audit log is malformed and was not appended: " +:+ path) in
  match last_line content with
  | None => Ok (JStr ZERO_HASH)
  | Some line =>
      match decode w line with
      | None => malformed
      | Some text =>
          match loads float_repr text with
          | Raise JSONDecodeError => malformed
          | Raise e => Err (Escaping e)
          | Ret (JObj d) => match dget "event_hash"%string d with Some h => Ok h | None => malformed end
          | Ret _ => Err (Escaping TypeError)
          end
      end
  end.

(** The event of a record: linked to the previous one and sealed. *)
Definition make_event (record : list (string * json)) (prev : json) : list (string * json) :=
  let event := dset "previous_event_hash"%string prev record in
  dset "event_hash"%string (JStr (sha256 (canonical (JObj event)))) event.

(** [path.parent] of an absolute path *)
Definition parent_dir (path : string) : string :=
  match before_last "/" path with
  | Some p => if str_empty p then "/"%string else p
  | None => "."%string
  end.

(** The [except OSError] clause, if the system call fails. *)
Definition io_error {A} (path : string) (fail : faults) (p : fail_point) : option (dres A) :=
  match failing fail with
  | Some (q, exc) => if decide (p = q)
                     then Some (client_error ("cannot write audit log " +:+ path +:+ ": " +:+ exc))
                     else None
  | None => None
  end.

Definition append_audit (w : environ) (fail : faults) (record : list (string * json))
    : audit_state → dres (string * list (string * json)) * audit_state := λ st,
  let path := audit_log_path w in
  let io p := io_error path fail p in
  let parent_existed := bool_decide (is_Some (dir_mode st)) in
  if io FMkdir is Some e then (e, st) else
  let st := mkAudit (Some (default 448%Z (dir_mode st))) (log st) in
  match (if parent_existed then None else io FChmod) with
  | Some e => (e, st)
  | None =>
      let st := if parent_existed then st else mkAudit (Some 448%Z) (log st) in
      if parent_existed && negb (Z.land (default 448%Z (dir_mode st)) 63 =? 0)%Z then
        (client_error ("audit directory permits group/other access: " +:+ parent_dir path), st)
      else
      if io FOpen is Some e then (e, st) else
      let f := default (mkLog true 384 EmptyString) (log st) in
      let st := mkAudit (dir_mode st) (Some f) in
      if negb (lf_regular f) then (client_error ("audit log is not a regular file: " +:+ path), st) else
      if io FFchmod is Some e then (e, st) else
      let f := mkLog true 384 (lf_content f) in
      let st := mkAudit (dir_mode st) (Some f) in
      if io FRead is Some e then (e, st) else
      match previous_hash w path (lf_content f) with
      | Err e => (Err e, st)
      | Ok prev =>
          if io FWrite is Some e then (e, st) else
          let event := make_event record prev in
          let st := mkAudit (dir_mode st)
                      (Some (mkLog true 384 (lf_content f +:+
                         cut_to (short fail) (canonical (JObj event) +:+ String line_break EmptyString)))) in
          if io FSync is Some e then (e, st) else (Ok (path, event), st)
      end
  end.

(** ** Records *)
Definition advisory : list (string * json) :=
  [("decision_authority", JStr "advisory_only");
   ("final_authorization", JStr "external_approval_or_waiver_required")]%string.

Definition public_metadata (w : environ) (request_hash response_hash : json) (attempts : nat)
    : json :=
  JObj ([("client_version", JStr VERSION); ("audit_id", JStr (uuid w));
         ("audit_log", JStr (audit_log_path w)); ("request_sha256", request_hash);
         ("response_sha256", response_hash); ("attempts", JInt (Z.of_nat attempts))]%string ++ advisory).

(** What a run has done so far. *)
Record progress := mkProgress {
  p_url : option string;
  p_request : option json;
  p_response : option json;
  p_evidence : list json;
  p_attempts : nat
}.

Definition audit_record (w : environ) (a : args) (p : progress) (error : option string)
    : list (string * json) :=
  [("schema_version", JInt 1); ("client_version", JStr VERSION); ("timestamp", JStr (clock w));
   ("audit_id", JStr (uuid w)); ("operation", JStr (if a_info a then "info" else "decide"));
   ("endpoint", default JNull (JStr <$> p_url p)); ("argv", JArr (JStr <$> a_argv a));
   ("request", default JNull (p_request p)); ("request_sha256", sha256_json (p_request p));
   ("response", default JNull (p_response p)); ("response_sha256", sha256_json (p_response p));
   ("evidence", JArr (p_evidence p)); ("attempts", JInt (Z.of_nat (p_attempts p)));
   ("outcome", JStr (match error with
                     | Some e => if str_empty e then "success" else "error"
                     | None => "success" end));
   ("error", default JNull (JStr <$> error))]%string ++ advisory.

(** ** [main] *)
Definition given (o : option string) : bool := match o with Some s => negb (str_empty s) | None => false end.

Definition decision_inputs (a : args) : bool :=
  given (a_request_file a) || given (a_kind a) || given (a_question a) || given (a_state_json a) ||
  given (a_state_file a) || match a_evidence_file a with [] => false | _ => true end.

(** The body of the [try] up to the answer: what was done, and the answer. *)
Definition perform (w : environ) (a : args) : progress * dres (list (string * json)) * trace :=
  let base := default EmptyString (env w "JEV_BASE_URL") in
  let none := mkTrace [] [] in
  let p0 := mkProgress None None None [] 0 in
  if a_info a then
    if decision_inputs a then (p0, client_error "--info cannot be combined with decision inputs", none) else
    match endpoint netloc_ok base true with
    | Err e => (p0, Err e, none)
    | Ok url =>
        let '(r, tr) := request_json w url "GET" None in
        match r with
        | Err e => (mkProgress (Some url) None None [] 0, Err e, tr)
        | Ok (d, n) => (mkProgress (Some url) None (Some (JObj d)) [] n, Ok d, tr)
        end
    end
  else
    match build_body w a with
    | Err e => (p0, Err e, none)
    | Ok (body, evidence) =>
        match endpoint netloc_ok base false with
        | Err e => (mkProgress None (Some (JObj body)) None evidence 0, Err e, none)
        | Ok url =>
            let '(r, tr) := request_json w url "POST" (Some body) in
            match r with
            | Err e => (mkProgress (Some url) (Some (JObj body)) None evidence 0, Err e, tr)
            | Ok (d, n) => (mkProgress (Some url) (Some (JObj body)) (Some (JObj d)) evidence n, Ok d, tr)
            end
        end
    end.

Inductive exit : Type :=
| Exit0 (stdout : json)
| Exit2 (stderr : json)
| Crash (e : exn).

Definition with_attempts (n : nat) (p : progress) : progress :=
  mkProgress (p_url p) (p_request p) (p_response p) (p_evidence p) (Nat.max (p_attempts p) n).

(** The [except] clause. *)
Definition report_error (w : environ) (a : args) (fail : faults) (p : progress)
    (error : string) (n : nat) (st : audit_state) : exit * audit_state :=
  let p := with_attempts n p in
  let payload message :=
    Exit2 (JObj [("error", JStr message);
                 ("_jev_client", public_metadata w (sha256_json (p_request p))
                                   (sha256_json (p_response p)) (p_attempts p))]%string) in
  match append_audit w fail (audit_record w a p (Some error)) st with
  | (Ok _, st) => (payload error, st)
  | (Err (ClientErr m _), st) => (payload (error +:+ "; audit logging also failed: " +:+ m), st)
  | (Err (OSErr m), st) => (Crash (OtherError m), st)
  | (Err (Escaping e), st) => (Crash e, st)
  end.

(** [fail1] and [fail2] are the faults of the two possible appends,
    [stdout_error] that of printing the answer. *)
Definition main (w : environ) (a : args) (fail1 fail2 : faults)
    (stdout_error : option string) (st : audit_state) : exit * audit_state :=
  let '(p, r, _) := perform w a in
  match r with
  | Err (Escaping e) => (Crash e, st)
  | Err (ClientErr m n) => report_error w a fail2 p m n st
  | Err (OSErr m) => report_error w a fail2 p m 0 st
  | Ok d =>
      match append_audit w fail1 (audit_record w a p None) st with
      | (Err (Escaping e), st) => (Crash e, st)
      | (Err (ClientErr m n), st) => report_error w a fail2 p m n st
      | (Err (OSErr m), st) => report_error w a fail2 p m 0 st
      | (Ok _, st) =>
          match stdout_error with
          | Some m => report_error w a fail2 p m 0 st
          | None => (Exit0 (JObj (dset "_jev_client"%string
                       (public_metadata w (sha256_json (p_request p)) (sha256_json (p_response p))
                          (p_attempts p)) d)), st)
          end
      end
  end.
End Client.
