(* ===== verification/DecideSpec.v ===== *)
(** * What the decision client promises

    Which requests pass validation, how often and how long it retries, how the
    service address is normalised, that the audit log is a hash chain in every
    reachable state, that the chain shows every change, and that every run that
    ends is recorded. *)
From stdpp Require Import base list strings gmap.
From Stdlib Require Import Ascii QArith Qround Qabs Qminmax.
From S2P Require Import Prelude PyDict PyStr Json JsonText Files Decide.

(** ** Valid requests *)
Definition valid_options (kind : string) (options : json) : Prop :=
  if decide (kind = "choice"%string) then
    ∃ l, options = JArr (JStr <$> l) ∧ (2 ≤ length l ≤ 256)%nat ∧ Forall (λ s, s ≠ EmptyString) l
  else options = JNull.

(** The numbers that a double holds: those that round to less than [2 ^ 1024]. *)
Definition in_float_range (q : Q) : Prop := Qabs q < inject_Z (2 ^ 1024 - 2 ^ 970).

Definition valid_threshold (v : json) : Prop :=
  v = JNull ∨ (∃ z, v = JInt z ∧ in_float_range (inject_Z z)) ∨ ∃ q, v = JFloat q ∧ in_float_range q.

Lemma to_float_range q : (if to_float q then True else False) ↔ in_float_range q.
Proof.
  unfold to_float, in_float_range. destruct (Qle_bool _ _) eqn:E.
  - apply Qle_bool_iff in E. split; [done|]. intros H. by apply Qle_not_lt in E.
  - split; [|done]. intros _. apply Qnot_le_lt. intros H%Qle_bool_iff. congruence.
Qed.

Definition valid_request (d : list (string * json)) : Prop :=
  (∀ k, k ∈ dkeys d → k ∈ FIELDS) ∧
  (∃ kind, get "kind" d = JStr kind ∧ kind ∈ KINDS ∧ valid_options kind (get "options" d)) ∧
  (∃ q, get "question" d = JStr q ∧ strip q ≠ EmptyString) ∧
  valid_threshold (get "threshold" d).

Lemma sorted_by_nil {A} (key : A → string) l : sorted_by key l = [] ↔ l = [].
Proof.
  split; [|by intros ->]. intros H. pose proof (sorted_by_perm key l) as Hp. rewrite H in Hp.
  by apply Permutation_nil_l in Hp.
Qed.

Lemma forallb_options l :
  forallb good_option l = true ↔ ∃ ss, l = JStr <$> ss ∧ Forall (λ s, s ≠ EmptyString) ss.
Proof.
  induction l as [|v l IH]; simpl.
  - split; [by exists []|done].
  - rewrite andb_true_iff, IH. split.
    + intros [Hv (ss & -> & Hss)]. destruct v as [| | | |s| |]; try done. exists (s :: ss).
      split; [done|]. constructor; [by destruct s|done].
    + intros ([|s ss] & [= -> ->] & Hss%Forall_cons). destruct Hss. split; [by destruct s|eauto].
Qed.

Lemma check_options_spec kind options : check_options kind options = Ok tt ↔ valid_options kind options.
Proof.
  unfold check_options, valid_options. destruct (String.eqb_spec kind "choice") as [->|Hk].
  - rewrite decide_True by done. destruct options as [| | | | |l|]; try (split; [done|naive_solver]).
    destruct (_ && forallb good_option l) eqn:E.
    + apply andb_true_iff in E as [[H1%Nat.leb_le H2%Nat.leb_le]%andb_true_iff (ss & -> & Hss)%forallb_options].
      split; [|done]. intros _. exists ss. rewrite length_fmap in *. done.
    + split; [done|]. intros (ss & [= ->] & [H1 H2] & Hss). revert E.
      assert (forallb good_option (JStr <$> ss) = true) as -> by (apply forallb_options; eauto).
      rewrite length_fmap. apply Nat.leb_le in H1, H2. by rewrite H1, H2.
  - rewrite decide_False by done. by destruct options.
Qed.

Lemma check_threshold_spec v : check_threshold v = Ok tt ↔ valid_threshold v.
Proof.
  unfold check_threshold, valid_threshold. destruct v as [|b|z|q|s|l|d].
  - split; [by left|done].
  - split; [done|]. by intros [|[(? & ? & _)|(? & ? & _)]].
  - pose proof (to_float_range (inject_Z z)) as Hr. destruct (to_float (inject_Z z)); split; try done.
    + intros _. right. left. exists z. by rewrite <- Hr.
    + intros [|[(? & [= <-] & Hq)|(? & ? & _)]]; [done|by apply Hr in Hq|done].
  - pose proof (to_float_range q) as Hr. destruct (to_float q); split; try done.
    + intros _. right. right. exists q. by rewrite <- Hr.
    + intros [|[(? & ? & _)|(? & [= <-] & Hq)]]; [done|done|by apply Hr in Hq].
  - split; [done|]. by intros [|[(? & ? & _)|(? & ? & _)]].
  - split; [done|]. by intros [|[(? & ? & _)|(? & ? & _)]].
  - split; [done|]. by intros [|[(? & ? & _)|(? & ? & _)]].
Qed.

Lemma unknown_nil (d : list (string * json)) :
  sorted_by id (filter (λ k, k ∉ FIELDS) (dkeys d)) = [] ↔ ∀ k, k ∈ dkeys d → k ∈ FIELDS.
Proof.
  rewrite sorted_by_nil. split.
  - intros H k Hk. destruct (decide (k ∈ FIELDS)) as [|Hn]; [done|]. exfalso.
    by apply (filter_nil_not_elem_of _ _ k H).
  - intros H. apply list_filter_none. intros k Hk Hn. by apply Hn, H.
Qed.

(** C17. [validate] is the type checker of requests: it accepts exactly the JSON
    objects whose fields are all known, whose kind is one of the three, whose
    question is a string with a visible character, whose options are 2 to 256
    non-empty strings for a choice and absent otherwise, and whose threshold is
    absent or a number, written as an integer or as a decimal, that is finite as
    a double; it returns the object unchanged. *)
Theorem validate_accepts v d : validate v = Ok d ↔ v = JObj d ∧ valid_request d.
Proof.
  unfold validate. destruct v as [| | | | | |d']; try (split; [done|naive_solver]).
  destruct (sorted_by id _) as [|k ks] eqn:Eu.
  2:{ split; [done|]. intros [[= ->] [Hk _]]. pose proof (proj2 (unknown_nil d) Hk). congruence. }
  pose proof (proj1 (unknown_nil d') Eu) as Hk. clear Eu. unfold check_kind. unfold mbind, dres_bind.
  assert (valid_request d' ↔
    (∃ kind, get "kind" d' = JStr kind ∧ kind ∈ KINDS ∧ valid_options kind (get "options" d')) ∧
    (∃ q, get "question" d' = JStr q ∧ strip q ≠ EmptyString) ∧
    valid_threshold (get "threshold" d')) as Hv by (unfold valid_request; naive_solver).
  assert (∀ P, (P ↔ d' = d ∧ valid_request d') → (P ↔ JObj d' = JObj d ∧ valid_request d)) as Hgoal
    by naive_solver.
  apply Hgoal. rewrite Hv. clear Hv Hgoal.
  destruct (get "kind" d') as [| | | |kind| |]; try (split; [done|naive_solver]).
  case_bool_decide as Hk2; [|split; [done|naive_solver]].
  destruct (get "question" d') as [| | | |q| |]; try (split; [done|naive_solver]).
  destruct (str_empty (strip q)) eqn:Eq.
  { split; [done|]. destruct (strip q) eqn:E; [|done]. naive_solver. }
  assert (strip q ≠ EmptyString) as Hq by (intros E; by rewrite E in Eq).
  pose proof (check_options_spec kind (get "options" d')) as Ho.
  pose proof (check_threshold_spec (get "threshold" d')) as Ht.
  destruct (check_options _ _) as [[]|]; [|split; [done|naive_solver]].
  destruct (check_threshold _) as [[]|]; [|split; [done|naive_solver]].
  split; [|naive_solver]. intros [= ->]. split; [done|]. naive_solver.
Qed.

(** ** Retries *)
Lemma env_number_range w name dt lo hi int v :
  env_number w name dt lo hi int = Ok v → lo.2 <= v ∧ v <= hi.2.
Proof.
  assert (∀ q, (if Qle_bool lo.2 q && Qle_bool q hi.2 then Ok q
                else client_error (name +:+ " must be between " +:+ lo.1 +:+ " and " +:+ hi.1)) = Ok v →
               lo.2 <= v ∧ v <= hi.2) as H.
  { intros q. destruct (_ && _) eqn:E; [|done]. intros [= <-].
    by apply andb_true_iff in E as [?%Qle_bool_iff ?%Qle_bool_iff]. }
  unfold env_number. destruct int.
  - destruct (py_int _); [apply H|done].
  - destruct (py_float _) as [[]|]; [apply H|done|done].
Qed.

Lemma env_number_error w name dt lo hi int e :
  env_number w name dt lo hi int = Err e → ∃ m, e = ClientErr m 0.
Proof.
  unfold env_number, client_error. destruct int.
  - destruct (py_int _); [destruct (_ && _)|]; naive_solver.
  - destruct (py_float _) as [[]|]; [destruct (_ && _)| |]; naive_solver.
Qed.

Lemma pause_range backoff i : 0 <= backoff → 0 <= pause backoff i ∧ pause backoff i <= 10.
Proof.
  intros Hb. unfold pause. split; [|apply Q.le_min_r]. apply Q.min_glb; [|done].
  apply Qmult_le_0_compat; [done|]. change 0 with (inject_Z 0). rewrite <- Zle_Qle. lia.
Qed.

Lemma retries_floor q : 0 <= q → q <= 5 → (Z.to_nat (Qfloor q) ≤ 5)%nat.
Proof.
  intros H0 H5. apply Qfloor_resp_le in H5. change (Qfloor 5) with 5%Z in H5. lia.
Qed.

Section Sending.
Context (float_repr : Q → string) `{!JsonLoads float_repr} (net : nat → http_request → net_reply).

(** The loop stops at the first reply that is not to be retried, or when the
    retries are used up. *)
Lemma retry_loop_spec more i backoff req tr :
  ∃ k, (k ≤ more)%nat ∧
    retry_loop float_repr net more i backoff req tr =
      (final_result float_repr (S (i + k)) (net (i + k)%nat req),
       mkTrace (sent tr ++ replicate (S k) req)
         (sleeps tr ++ if Qeq_bool backoff 0 then [] else pause backoff <$> seq i k)) ∧
    (∀ j, (j < k)%nat → retryable (net (i + j)%nat req) = true) ∧
    (k = more ∨ retryable (net (i + k)%nat req) = false).
Proof.
  revert i tr. induction more as [|more IH]; intros i tr; simpl.
  - exists O. rewrite Nat.add_0_r. split_and!; try done; [|lia|by left].
    destruct (Qeq_bool _ _); by rewrite app_nil_r.
  - destruct (retryable (net i req)) eqn:Er.
    + destruct (IH (S i) (if Qeq_bool backoff 0 then mkTrace (sent tr ++ [req]) (sleeps tr)
        else mkTrace (sent tr ++ [req]) (sleeps tr ++ [pause backoff i]))) as (k & Hk & E & Hr & Hend).
      exists (S k). rewrite <- !Nat.add_succ_comm. split_and!; [lia| | |destruct Hend; auto].
      * rewrite E. f_equal. destruct (Qeq_bool _ _); simpl; by rewrite <- !app_assoc.
      * intros [|j] Hj; [by rewrite Nat.add_0_r|]. rewrite <- Nat.add_succ_comm. apply Hr. lia.
    + exists O. rewrite Nat.add_0_r. split_and!; try done; [lia| |lia|by right].
      destruct (Qeq_bool _ _); by rewrite app_nil_r.
Qed.

(** C16. Sending is bounded: [request_json] sends at most six requests, all the
    same, sleeps less often than it sends and between 0 and 10 seconds each time,
    and either sends nothing and reports a configuration error, or every reply
    but the last one sent was worth a retry and the result, with the number of
    requests sent as its [attempts], is what is made of the last reply. *)
Theorem retries_bounded w url method body :
  let '(r, tr) := request_json float_repr net w url method body in
  let n := length (sent tr) in
  (n ≤ 6)%nat ∧ (length (sleeps tr) ≤ pred n)%nat ∧ Forall (λ s, 0 <= s ∧ s <= 10) (sleeps tr) ∧
  match sent tr with
  | [] => ∃ m, r = Err (ClientErr m 0)
  | req :: _ =>
      sent tr = replicate n req ∧
      (∀ j, (j < pred n)%nat → retryable (net j req) = true) ∧
      r = final_result float_repr n (net (pred n) req)
  end.
Proof.
  unfold request_json.
  destruct (env_number w "JEV_TIMEOUT_SECONDS" _ _ _ _) eqn:E1;
    [|apply env_number_error in E1 as [m ->]; split_and!; simpl; eauto; lia].
  destruct (env_number w "JEV_MAX_RETRIES" _ _ _ _) as [q|] eqn:E2;
    [|apply env_number_error in E2 as [m ->]; split_and!; simpl; eauto; lia].
  destruct (env_number w "JEV_RETRY_BACKOFF_SECONDS" _ _ _ _) as [backoff|] eqn:E3;
    [|apply env_number_error in E3 as [m ->]; split_and!; simpl; eauto; lia].
  apply env_number_range in E2 as [H0 H5], E3 as [Hb _].
  set (req := mkHttp _ _ _ _).
  destruct (retry_loop_spec (Z.to_nat (Qfloor q)) 0 backoff req (mkTrace [] [])) as (k & Hk & -> & Hr & _).
  pose proof (retries_floor q H0 H5). simpl. rewrite length_replicate. split_and!; try done; [lia| |].
  - destruct (Qeq_bool _ _); simpl; [lia|]. by rewrite length_fmap, length_seq.
  - destruct (Qeq_bool _ _); [done|]. apply Forall_fmap, Forall_true. intros i. by apply pause_range.
Qed.
End Sending.

(** ** Addresses *)
Lemma str_all_app f x y : str_all f (x +:+ y) = str_all f x && str_all f y.
Proof.
  induction x as [|a x IH]; [done|]. rewrite str_cons_app. simpl. by rewrite IH, andb_assoc.
Qed.

Lemma str_all_impl (f g : ascii → bool) s :
  (∀ a, f a = true → g a = true) → str_all f s = true → str_all g s = true.
Proof.
  intros H. induction s as [|a s IH]; [done|]. simpl. rewrite !andb_true_iff. naive_solver.
Qed.

Lemma str_filter_all f s : str_all f (str_filter f s) = true.
Proof. induction s as [|a s IH]; [done|]. simpl. destruct (f a) eqn:E; simpl; [by rewrite E|done]. Qed.

Lemma str_filter_id f s : str_all f s = true → str_filter f s = s.
Proof. induction s as [|a s IH]; [done|]. simpl. by intros [-> ?%IH]%andb_true_iff; f_equal. Qed.

Lemma split_once_Some c s x y :
  split_once c s = Some (x, y) → s = x +:+ String c y ∧ str_all (λ a, negb (Ascii.eqb a c)) x = true.
Proof.
  revert x. induction s as [|a s IH]; intros x; simpl; [done|]. case_decide as Ha.
  - intros [= <- <-]. by subst.
  - destruct (split_once c s) as [[x' y']|]; [|done]. intros [= <- <-].
    destruct (IH x' eq_refl) as [-> Hx]. rewrite str_cons_app. split; [done|]. simpl.
    by destruct (Ascii.eqb_spec a c).
Qed.

Lemma split_once_None c s :
  str_all (λ a, negb (Ascii.eqb a c)) s = true ↔ split_once c s = None.
Proof.
  induction s as [|a s IH]; [done|]. simpl. rewrite andb_true_iff, IH, negb_true_iff.
  destruct (Ascii.eqb_spec a c); case_decide; try done; [naive_solver|].
  destruct (split_once c s) as [[]|]; naive_solver.
Qed.

Lemma split_once_first c x y :
  str_all (λ a, negb (Ascii.eqb a c)) x = true → split_once c (x +:+ String c y) = Some (x, y).
Proof.
  induction x as [|a x IH]; simpl.
  - intros _. change (EmptyString +:+ String c y) with (String c y). simpl. by rewrite decide_True.
  - rewrite andb_true_iff, negb_true_iff. intros [Ha Hx].
    apply Ascii.eqb_neq in Ha. by rewrite decide_False, IH.
Qed.

(** A text that is empty or starts with a character of the class. *)
Definition starts (f : ascii → bool) (s : string) : bool :=
  match s with EmptyString => true | String a _ => f a end.

Lemma span_until_spec f s x y :
  span_until f s = (x, y) → s = x +:+ y ∧ str_all (λ a, negb (f a)) x = true ∧ starts f y = true.
Proof.
  revert x. induction s as [|a s IH]; intros x; simpl; [by intros [= <- <-]|].
  destruct (f a) eqn:E; [by intros [= <- <-]|]. destruct (span_until f s) as [x' y'].
  intros [= <- <-]. destruct (IH x' eq_refl) as (-> & Hx & Hy). rewrite str_cons_app. simpl. by rewrite E, Hx.
Qed.

Lemma span_until_app f x y :
  str_all (λ a, negb (f a)) x = true → starts f y = true → span_until f (x +:+ y) = (x, y).
Proof.
  intros Hx Hy. induction x as [|a x IH].
  - change (EmptyString +:+ y) with y. destruct y as [|a y]; [done|]. simpl in *. by rewrite Hy.
  - rewrite str_cons_app. simpl in *. apply andb_true_iff in Hx as [Ha%negb_true_iff Hx]. by rewrite Ha, IH.
Qed.

Lemma rstrip_slash_prefix s : ∃ y, s = rstrip_slash s +:+ y.
Proof.
  induction s as [|a s [y IH]]; [by exists EmptyString|]. simpl. destruct (rstrip_slash s) as [|b t].
  - destruct (Ascii.eqb a "/"); [by exists (String a s)|]. by exists s.
  - exists y. rewrite str_cons_app. by f_equal.
Qed.

Lemma rstrip_slash_app s t : rstrip_slash t ≠ EmptyString → rstrip_slash (s +:+ t) = s +:+ rstrip_slash t.
Proof.
  intros Ht. induction s as [|a s IH]; [done|]. rewrite !str_cons_app. simpl. rewrite IH.
  destruct (s +:+ rstrip_slash t) eqn:E; [|done]. destruct s; [|done].
  change (rstrip_slash t = EmptyString) in E. done.
Qed.

Lemma strip_suffix_Some suf s p : strip_suffix suf s = Some p → s = p +:+ suf.
Proof.
  revert p. induction s as [|a s IH]; intros p; cbn [strip_suffix].
  - destruct (String.eqb_spec "" suf) as [<-|]; [|done]. by intros [= <-].
  - destruct (String.eqb_spec (String a s) suf) as [<-|]; [by intros [= <-]|].
    destruct (strip_suffix suf s) as [q|]; [|done]. intros [= <-]. rewrite str_cons_app. f_equal. by apply IH.
Qed.

Lemma strip_suffix_app suf p : strip_suffix suf (p +:+ suf) = Some p.
Proof.
  induction p as [|a p IH].
  - change (EmptyString +:+ suf) with suf. unfold strip_suffix. destruct suf; by rewrite String.eqb_refl.
  - rewrite str_cons_app. cbn [strip_suffix]. destruct (String.eqb_spec (String a (p +:+ suf)) suf) as [E|_].
    + apply (f_equal String.length) in E. simpl in E. rewrite str_app_length in E. lia.
    + by rewrite IH.
Qed.

Lemma str_snoc_inj s t a b : s +:+ String a EmptyString = t +:+ String b EmptyString → a = b.
Proof.
  revert t. induction s as [|c s IH]; intros [|d t]; rewrite ?str_cons_app; intros H.
  - by injection H.
  - change (String a EmptyString = String d (t +:+ String b EmptyString)) in H. injection H as _ H.
    apply (f_equal String.length) in H. rewrite str_app_length in H. simpl in H. lia.
  - change (String c (s +:+ String a EmptyString) = String b EmptyString) in H. injection H as _ H.
    apply (f_equal String.length) in H. rewrite str_app_length in H. simpl in H. lia.
  - injection H as _ H. by apply (IH t).
Qed.

Section Addresses.
Context (netloc_ok : string → bool).

Definition safe_char (a : ascii) : bool := negb (is_unsafe a).
Definition netloc_char (a : ascii) : bool := negb (in_class "/?#" a) && safe_char a.
Definition path_char (a : ascii) : bool := negb (in_class "?#" a) && safe_char a.

(** What a network location and a path of a split address look like. *)
Definition good_netloc (n : string) : Prop :=
  str_all netloc_char n = true ∧ netloc_ok n = true ∧ n ≠ EmptyString ∧ has_credentials n = false.
Definition good_path (p : string) : Prop :=
  str_all path_char p = true ∧ starts (λ a, Ascii.eqb a "/") p = true.

Lemma good_path_prefix x y : good_path (x +:+ y) → good_path x.
Proof.
  unfold good_path. rewrite str_all_app, andb_true_iff. intros [[Hx _] Hs]. split; [done|]. by destruct x.
Qed.

Lemma good_path_app x y : good_path x → good_path y → good_path (x +:+ y).
Proof.
  unfold good_path. rewrite str_all_app. intros [-> Hs] [-> Hs']. split; [done|]. by destruct x.
Qed.

Lemma path_no c p : in_class "?#" c = true → str_all path_char p = true → split_once c p = None.
Proof.
  intros Hc Hp. apply split_once_None. revert Hp. apply str_all_impl. intros a Ha.
  destruct (Ascii.eqb_spec a c) as [->|]; [|done]. unfold path_char in Ha. by rewrite Hc in Ha.
Qed.

Lemma lower_length h : String.length (lower h) = String.length h.
Proof. induction h; simpl; congruence. Qed.

Lemma cut_at c s x y :
  default (s, EmptyString) (split_once c s) = (x, y) →
  (∃ z, s = x +:+ z) ∧ str_all (λ a, negb (Ascii.eqb a c)) x = true.
Proof.
  destruct (split_once c s) as [[x' y']|] eqn:E; simpl; intros [= <- <-].
  - apply split_once_Some in E as [-> Hx]. eauto.
  - apply split_once_None in E. split; [|done]. exists EmptyString. by rewrite str_app_nil_r.
Qed.

(** What is left of a text before its first fragment and query marks. *)
Lemma cut_path rest x f p q :
  str_all safe_char rest = true → starts (in_class "/?#") rest = true →
  default (rest, EmptyString) (split_once "#" rest) = (x, f) →
  default (x, EmptyString) (split_once "?" x) = (p, q) → good_path p.
Proof.
  intros Hsafe Hst [[z ->] Hx]%cut_at [[z' ->] Hp]%cut_at.
  rewrite !str_all_app, !andb_true_iff in *. destruct Hsafe as [[Hsafe _] _], Hx as [Hx _]. split.
  - clear Hst. induction p as [|a p IH]; [done|]. simpl in *. rewrite !andb_true_iff in *.
    destruct Hp as [Ha Hp], Hx as [Ha' Hx], Hsafe as [Ha'' Hsafe]. split; [|by apply IH].
    unfold path_char, in_class. rewrite Ha'', andb_true_r. 
    apply negb_true_iff, Ascii.eqb_neq in Ha, Ha'. simpl. repeat case_decide; subst; done.
  - destruct p as [|a p]; [done|]. rewrite !str_cons_app in Hst. simpl in *. 
    apply andb_true_iff in Hx as [Hx%negb_true_iff%Ascii.eqb_neq _], Hp as [Hp%negb_true_iff%Ascii.eqb_neq _].
    unfold in_class in Hst. simpl in Hst. repeat case_decide; subst; done.
Qed.

(** Splitting an address that is put together from its parts. *)
Lemma urlsplit_make scheme n p :
  scheme ∈ ["http"; "https"]%string → good_netloc n → good_path p →
  urlsplit netloc_ok (scheme +:+ "://" +:+ n +:+ p) = Ok (mkSplit scheme n p EmptyString EmptyString).
Proof.
  intros Hs (Hn & Hok & Hne & _) [Hp Hps].
  assert (str_all safe_char (n +:+ p) = true) as Hsafe.
  { rewrite str_all_app, andb_true_iff. split; [revert Hn|revert Hp]; apply str_all_impl;
      intros a; unfold netloc_char, path_char; by intros [_ ?]%andb_true_iff. }
  assert (span_until (in_class "/?#") (n +:+ p) = (n, p)) as Hspan.
  { apply span_until_app.
    - revert Hn. apply str_all_impl. intros a. unfold netloc_char. by intros [? _]%andb_true_iff.
    - destruct p as [|a p]; [done|]. simpl in Hps |- *. by apply Ascii.eqb_eq in Hps as ->. }
  unfold urlsplit. fold safe_char.
  assert (str_filter safe_char (lstrip_by is_c0_or_space (scheme +:+ "://" +:+ n +:+ p)) =
          scheme +:+ String ":" (String "/" (String "/" (n +:+ p)))) as ->.
  { apply list_elem_of_In in Hs. destruct Hs as [<-|[<-|[]]]; apply str_filter_id; exact Hsafe. }
  assert (split_once ":" (scheme +:+ String ":" (String "/" (String "/" (n +:+ p)))) =
          Some (scheme, String "/" (String "/" (n +:+ p)))) as ->.
  { apply split_once_first. apply list_elem_of_In in Hs. by destruct Hs as [<-|[<-|[]]]. }
  assert (is_scheme scheme = true ∧ lower scheme = scheme) as [-> ->].
  { apply list_elem_of_In in Hs. by destruct Hs as [<-|[<-|[]]]. }
  simpl. rewrite Hspan, Hok. simpl. rewrite (path_no "#" p) by done. simpl. by rewrite (path_no "?" p).
Qed.

(** The parts of an address. *)
Lemma urlsplit_parts url u :
  urlsplit netloc_ok url = Ok u → u_netloc u ≠ EmptyString →
  str_all netloc_char (u_netloc u) = true ∧ netloc_ok (u_netloc u) = true ∧ good_path (u_path u).
Proof.
  unfold urlsplit. fold safe_char.
  pose proof (str_filter_all safe_char (lstrip_by is_c0_or_space url)) as Hsafe.
  set (t := str_filter _ _) in *. clearbody t.
  set (sr := match split_once ":" t with Some (h, r) => _ | None => _ end).
  assert (str_all safe_char sr.2 = true) as Hr.
  { unfold sr. destruct (split_once ":" t) as [[h r]|] eqn:E; [|done].
    destruct (is_scheme h); [|done]. apply split_once_Some in E as [-> _].
    rewrite str_all_app in Hsafe. by apply andb_true_iff in Hsafe as [_ [_ ?]%andb_true_iff]. }
  clearbody sr. destruct sr as [scheme r]. simpl in Hr.
  destruct r as [|a [|b r]]; [..|destruct (Ascii.eqb a "/" && Ascii.eqb b "/")];
    [simpl; destruct (netloc_ok EmptyString); simpl; [|done];
     repeat (destruct (default _ _) as [? ?]); by intros [= <-]..| |].
  2:{ destruct (netloc_ok EmptyString); simpl; [|done].
      destruct (default _ _) as [x f]. destruct (default _ _) as [p q]. by intros [= <-]. }
  destruct (span_until (in_class "/?#") r) as [n rest] eqn:Hspan.
  apply span_until_spec in Hspan as (-> & Hn & Hst).
  destruct (netloc_ok n) eqn:Hok; simpl; [|done]. apply andb_true_iff in Hr as [_ [_ Hr]%andb_true_iff].
  rewrite str_all_app in Hr. apply andb_true_iff in Hr as [Hrn Hrr].
  destruct (default (rest, EmptyString) (split_once "#" rest)) as [x f] eqn:Ef.
  destruct (default (x, EmptyString) (split_once "?" x)) as [p q] eqn:Ep.
  intros [= <-] _. simpl. split_and!; [|done|by apply (cut_path rest x f p q)].
  clear -Hn Hrn. induction n as [|a n IH]; [done|]. simpl in *. unfold netloc_char.
  rewrite !andb_true_iff in *. naive_solver.
Qed.
(** The path that the client's suffix is added to. *)
Definition api_root (path : string) : string :=
  let path := rstrip_slash path in
  match strip_suffix "/v1/decide" path with
  | Some p => p
  | None => default path (strip_suffix "/v1" path)
  end.

Lemma api_root_good p : good_path p → good_path (api_root p).
Proof.
  intros Hp. destruct (rstrip_slash_prefix p) as [y Hy]. rewrite Hy in Hp. apply good_path_prefix in Hp.
  unfold api_root. destruct (strip_suffix "/v1/decide" _) eqn:E.
  - apply strip_suffix_Some in E. rewrite E in Hp. by apply good_path_prefix in Hp.
  - destruct (strip_suffix "/v1" _) eqn:E'; [|done]. apply strip_suffix_Some in E'.
    rewrite E' in Hp. by apply good_path_prefix in Hp.
Qed.

Lemma endpoint_make scheme n p info :
  scheme ∈ ["http"; "https"]%string → good_netloc n → good_path p →
  endpoint netloc_ok (scheme +:+ "://" +:+ n +:+ p) info =
    Ok (scheme +:+ "://" +:+ n +:+ api_root p +:+ if info then "/v1/decide/info" else "/v1/decide").
Proof.
  intros Hs Hn Hp. unfold endpoint. rewrite urlsplit_make by done.
  assert (str_empty (scheme +:+ "://" +:+ n +:+ p) = false) as ->.
  { apply list_elem_of_In in Hs. by destruct Hs as [<-|[<-|[]]]. }
  unfold mbind, dres_bind. simpl. rewrite bool_decide_true by done. destruct Hn as (_ & _ & Hne & ->).
  by destruct n.
Qed.

Lemma endpoint_parts base u :
  endpoint netloc_ok base false = Ok u →
  ∃ scheme n p, scheme ∈ ["http"; "https"]%string ∧ good_netloc n ∧ good_path p ∧
    u = scheme +:+ "://" +:+ n +:+ p +:+ "/v1/decide" ∧
    endpoint netloc_ok base true = Ok (scheme +:+ "://" +:+ n +:+ p +:+ "/v1/decide/info").
Proof.
  unfold endpoint. destruct (str_empty base); [done|].
  destruct (urlsplit netloc_ok base) as [s|] eqn:E; [|done]. unfold mbind, dres_bind.
  destruct (negb _ || str_empty (u_netloc s)) eqn:E1; [done|].
  destruct (has_credentials (u_netloc s) || _ || _) eqn:E2; [done|].
  apply orb_false_iff in E1 as [Hs%negb_false_iff%bool_decide_eq_true Hn].
  apply orb_false_iff in E2 as [[Hc _]%orb_false_iff _].
  assert (u_netloc s ≠ EmptyString) as Hne by (by destruct (u_netloc s)).
  destruct (urlsplit_parts _ _ E Hne) as (Ha & Hok & Hp). intros [= <-].
  exists (u_scheme s), (u_netloc s), (api_root (u_path s)). split_and!; try done. by apply api_root_good.
Qed.

Lemma api_root_decide p : api_root (p +:+ "/v1/decide") = p ∧ api_root (p +:+ "/v1/decide/") = p.
Proof.
  unfold api_root. rewrite !rstrip_slash_app by done.
  change (rstrip_slash "/v1/decide/") with "/v1/decide"%string.
  change (rstrip_slash "/v1/decide") with "/v1/decide"%string. by rewrite strip_suffix_app.
Qed.

Lemma api_root_v1 p : api_root (p +:+ "/v1") = p ∧ api_root (p +:+ "/v1/") = p.
Proof.
  unfold api_root. rewrite !rstrip_slash_app by done.
  change (rstrip_slash "/v1/") with "/v1"%string. change (rstrip_slash "/v1") with "/v1"%string.
  rewrite strip_suffix_app. destruct (strip_suffix "/v1/decide" _) as [q|] eqn:E; [|done].
  apply strip_suffix_Some in E. change "/v1"%string with ("/v" +:+ "1")%string in E.
  change "/v1/decide"%string with ("/v1/decid" +:+ "e")%string in E. rewrite <- !str_app_assoc in E.
  by apply str_snoc_inj in E.
Qed.

Definition base_forms : list string := ["/v1"; "/v1/"; "/v1/decide"; "/v1/decide/"]%string.

Lemma api_root_form p form : form ∈ base_forms → api_root (p +:+ form) = p.
Proof.
  destruct (api_root_decide p) as [H1 H2], (api_root_v1 p) as [H3 H4].
  intros H%list_elem_of_In. by repeat destruct H as [<-|H].
Qed.

Lemma base_form_good form : form ∈ base_forms → good_path form.
Proof. intros H%list_elem_of_In. by repeat destruct H as [<-|H]. Qed.

(** Addresses are normalised: when [endpoint] accepts a base address, the
    request address is a root followed by [/v1/decide], the information address is
    that followed by [/info], and giving the client the request address itself, the
    root with [/v1], or either with a final slash leads to the same request
    address; in particular [endpoint] is idempotent. *)
Theorem endpoint_normal base u :
  endpoint netloc_ok base false = Ok u →
  ∃ root, u = root +:+ "/v1/decide" ∧
    endpoint netloc_ok base true = Ok (u +:+ "/info") ∧
    Forall (λ form, endpoint netloc_ok (root +:+ form) false = Ok u) base_forms.
Proof.
  intros (scheme & n & p & Hs & Hn & Hp & -> & Hi)%endpoint_parts.
  exists (scheme +:+ "://" +:+ n +:+ p). rewrite !str_app_assoc. split_and!; [done|done|].
  apply Forall_forall. intros form Hf. rewrite !str_app_assoc.
  rewrite endpoint_make; [by rewrite api_root_form|done|done|].
  apply good_path_app; [done|]. by apply base_form_good.
Qed.
End Addresses.

Lemma endpoint_normal_witness :
  ∃ root, "http://jev:8080/api/v1/decide"%string = root +:+ "/v1/decide" ∧
    endpoint (λ _, true) "http://jev:8080/api/" true = Ok ("http://jev:8080/api/v1/decide" +:+ "/info") ∧
    Forall (λ form, endpoint (λ _, true) (root +:+ form) false = Ok "http://jev:8080/api/v1/decide"%string)
      base_forms.
Proof. apply (endpoint_normal (λ _, true) "http://jev:8080/api/"). vm_compute. reflexivity. Defined.
