(* ===== verification/DecideAudit.v ===== *)
(** * The audit log of the decision client

    Every run of [main] leaves the log a hash chain that starts from
    [ZERO_HASH], is append-only and records each run, but for the rest of an event
    that a short write cut off; two logs that end in the same hash are the same or
    show a collision of the hash function. *)
From stdpp Require Import base list strings gmap relations.
From Stdlib Require Import Ascii QArith.
From S2P Require Import Prelude PyDict PyStr Json JsonText Files Decide.

(** ** The text of the log *)
Definition log_text (st : audit_state) : string :=
  match log st with Some f => lf_content f | None => EmptyString end.

(** The log is absent, or a regular file that only its owner may use. *)
Definition private_log (st : audit_state) : Prop :=
  match log st with Some f => lf_regular f = true ∧ lf_mode f = 384%Z | None => True end.

Definition line (text : string) : string := text +:+ String line_break EmptyString.

Fixpoint lines (texts : list string) : string :=
  match texts with [] => EmptyString | t :: texts => line t +:+ lines texts end.

Lemma lines_app l l' : lines (l ++ l') = lines l +:+ lines l'.
Proof.
  induction l as [|t l IH]; [done|]. change ((t :: l) ++ l') with (t :: (l ++ l')). simpl.
  by rewrite IH, str_app_assoc.
Qed.

(** A line of the log: it has a visible character and no line break. *)
Definition log_line (t : string) : Prop := no_char line_break t ∧ str_all byte_space t = false.

Lemma split_lines l : Forall log_line l → split_on line_break (lines l) = l ++ [EmptyString].
Proof.
  induction 1 as [|t l [Ht _] Hl IH]; [done|]. simpl. unfold line. rewrite str_app_assoc.
  change (String line_break EmptyString +:+ lines l) with (String line_break (lines l)).
  by rewrite split_on_app, IH.
Qed.

Lemma last_line_lines l : Forall log_line l → last_line (lines l) = last l.
Proof.
  intros Hl. unfold last_line. rewrite split_lines by done.
  rewrite filter_app, (list_filter_all _ l).
  - rewrite filter_cons_False, filter_nil, app_nil_r by done. done.
  - rewrite Forall_forall in Hl. intros x Hx. by apply Hl.
Qed.

(** ** Texts of events *)
Lemma str_has_app c x y : str_has c (x +:+ y) = str_has c x || str_has c y.
Proof.
  induction x as [|a x IH]; [done|]. rewrite str_cons_app. simpl. case_decide; [done|]. apply IH.
Qed.

Lemma no_char_app c x y : no_char c (x +:+ y) ↔ no_char c x ∧ no_char c y.
Proof. unfold no_char. by rewrite str_has_app, orb_false_iff. Qed.

Lemma no_char_join c sep l : no_char c sep → Forall (no_char c) l → no_char c (join sep l).
Proof.
  intros Hs. induction 1 as [|x l Hx Hl IH]; [done|]. destruct l as [|y l]; [done|].
  rewrite join_cons2, !no_char_app. done.
Qed.

Lemma quote_line s : no_char line_break (quote s).
Proof.
  assert (no_char line_break (escape_all s)) as Hs.
  { induction s as [|a s IH]; [done|]. simpl. apply no_char_app. split; [|done].
    clear. by destruct a as [[] [] [] [] [] [] [] []]. }
  change (quote s) with (String dquote EmptyString +:+ (escape_all s +:+ String dquote EmptyString)).
  by rewrite !no_char_app.
Qed.

Lemma int_text_line z : no_char line_break (int_text z).
Proof. unfold no_char. destruct (str_has _ _) eqn:E; [|done]. by apply int_text_chars in E. Qed.

Lemma compact_line float_repr v :
  (∀ q, no_char line_break (float_repr q)) → no_char line_break (compact float_repr v).
Proof.
  intros Hf. induction v as [|[]|z|q|s|l IH|d IH] using json_rect'; try done.
  - apply int_text_line.
  - apply Hf.
  - apply quote_line.
  - change (compact float_repr (JArr l)) with ("[" +:+ (join "," (map (compact float_repr) l) +:+ "]")).
    rewrite !no_char_app. split_and!; try done. apply no_char_join; [done|]. by apply Forall_map.
  - change (compact float_repr (JObj d)) with
      ("{" +:+ (join "," (map (λ kv, quote kv.1 +:+ String ":" (compact float_repr kv.2)) d) +:+ "}")).
    rewrite !no_char_app. split_and!; try done. apply no_char_join; [done|]. apply Forall_map.
    apply (Forall_impl _ _ _ IH). intros kv Hkv. simpl. rewrite no_char_app. split; [apply quote_line|].
    change (no_char line_break (":" +:+ compact float_repr kv.2)). by rewrite no_char_app.
Qed.

Lemma canonical_log_line float_repr d :
  (∀ q, no_char line_break (float_repr q)) → log_line (canonical_json float_repr (JObj d)).
Proof. intros Hf. split; [by apply compact_line|done]. Qed.

(** ** Well-formed dicts *)
Lemma obj_wf_dget d : json_wf (JObj d) ↔ NoDup (dkeys d) ∧ ∀ k v, dget k d = Some v → json_wf v.
Proof.
  rewrite json_wf_obj, Forall_forall. split; intros [Hnd H]; (split; [done|]).
  - intros k v Hk. by apply (H (k, v)), dget_elem.
  - intros [k v] Hk. apply (H k v). by apply elem_dget.
Qed.

Lemma dset_json_wf k v d : json_wf (JObj d) → json_wf v → json_wf (JObj (dset k v d)).
Proof.
  rewrite !obj_wf_dget. intros [Hnd Hd] Hv. split; [by apply dset_wf|]. intros k' v'.
  rewrite dget_dset. case_decide; [by intros [= <-]|apply Hd].
Qed.

(** The canonical text of a dict determines its values up to the order of keys. *)
Lemma sort_keys_obj_inj d d' k :
  NoDup (dkeys d) → NoDup (dkeys d') → sort_keys (JObj d) = sort_keys (JObj d') →
  sort_keys <$> dget k d = sort_keys <$> dget k d'.
Proof.
  intros Hd Hd' [= H]. rewrite <- !sort_keys_dget by done. by rewrite H.
Qed.

Lemma sort_keys_obj_ext d d' :
  NoDup (dkeys d) → NoDup (dkeys d') → (∀ k, sort_keys <$> dget k d = sort_keys <$> dget k d') →
  sort_keys (JObj d) = sort_keys (JObj d').
Proof.
  intros Hd Hd' H. simpl. f_equal. apply sorted_by_unique.
  - change (NoDup (map (λ kv, (kv.1, sort_keys kv.2)) d).*1). by rewrite sort_keys_fst.
  - apply NoDup_Permutation.
    + apply (NoDup_fmap_1 fst). by rewrite sort_keys_fst.
    + apply (NoDup_fmap_1 fst). by rewrite sort_keys_fst.
    + intros [k v]. rewrite !list_elem_of_fmap.
      split; intros ([k' w] & [= -> ->] & Hw%elem_dget); try done;
        specialize (H k'); rewrite Hw in H; simpl in H; symmetry in H.
      * apply fmap_Some in H as (w' & Hw' & E). exists (k', w'). simpl. split; [by f_equal|by apply dget_elem].
      * symmetry in H. apply fmap_Some in H as (w' & Hw' & E). exists (k', w'). simpl.
        split; [by f_equal|by apply dget_elem].
Qed.

(** Setting a key keeps two dicts with the same text apart from order the same. *)
Lemma sort_keys_dset k v d d' :
  NoDup (dkeys d) → NoDup (dkeys d') → sort_keys (JObj d) = sort_keys (JObj d') →
  sort_keys (JObj (dset k v d)) = sort_keys (JObj (dset k v d')).
Proof.
  intros Hd Hd' E. apply sort_keys_obj_ext; [by apply dset_wf|by apply dset_wf|]. intros k'.
  rewrite !dget_dset. case_decide; [done|]. by apply sort_keys_obj_inj.
Qed.

(** ** Chains *)
Section Chain.
Context (sha256 : string → string) (float_repr : Q → string) `{!JsonLoads float_repr}.
Abbreviation canonical := (canonical_json float_repr).

(** The hash that seals a record that follows the hash [prev]: the one that the
    event carries. *)
Definition seal (prev : string) (record : list (string * json)) : string :=
  match dget "event_hash"%string (make_event sha256 float_repr record (JStr prev)) with
  | Some (JStr h) => h
  | _ => EmptyString
  end.

(** It is the hash of the canonical text of the event without it. *)
Lemma seal_hashes prev record :
  seal prev record = sha256 (canonical (JObj (dset "previous_event_hash" (JStr prev) record))).
Proof. unfold seal, make_event. by rewrite dget_dset_eq. Qed.

Definition event_text (prev : string) (record : list (string * json)) : string :=
  canonical (JObj (make_event sha256 float_repr record (JStr prev))).

(** [chain prev texts last]: the texts are events that continue [prev], each
    naming the hash of the one before it, and the last one has hash [last]. *)
Inductive chain (prev : string) : list string → string → Prop :=
| chain_nil : chain prev [] prev
| chain_cons record texts h :
    json_wf (JObj record) → chain (seal prev record) texts h →
    chain prev (event_text prev record :: texts) h.

Lemma chain_snoc prev texts h record :
  json_wf (JObj record) → chain prev texts h →
  chain prev (texts ++ [event_text h record]) (seal h record).
Proof.
  intros Hr. induction 1 as [|? record' texts h ? ? IH]; simpl.
  - apply chain_cons; [done|]. apply chain_nil.
  - by apply chain_cons.
Qed.

(** The last text of a chain carries its last hash. *)
Lemma chain_last prev texts h :
  chain prev texts h →
  (texts = [] ∧ h = prev) ∨
  ∃ texts' prev' record, json_wf (JObj record) ∧ texts = texts' ++ [event_text prev' record] ∧
    h = seal prev' record ∧ chain prev texts' prev'.
Proof.
  induction 1 as [|prev record texts h Hr Hc IH]; [by left|]. right.
  destruct IH as [[-> ->]|(texts' & p & r & Hr' & -> & -> & Hc')].
  - exists [], prev, record. split_and!; try done. apply chain_nil.
  - exists (event_text prev record :: texts'), p, r. split_and!; try done. by apply chain_cons.
Qed.

Lemma chain_lines prev texts h :
  (∀ q, no_char line_break (float_repr q)) → chain prev texts h → Forall log_line texts.
Proof. intros Hf. induction 1; constructor; [by apply canonical_log_line|done]. Qed.

Lemma make_event_wf prev record :
  json_wf (JObj record) → json_wf (JObj (make_event sha256 float_repr record (JStr prev))).
Proof. intros H. by apply dset_json_wf, I; apply dset_json_wf. Qed.

(** What [json.loads] makes of an event: its hash is the seal. *)
Lemma loads_event prev record :
  json_wf (JObj record) →
  ∃ d, loads float_repr (event_text prev record) = Ret (JObj d) ∧
       dget "event_hash"%string d = Some (JStr (seal prev record)).
Proof.
  intros Hr. pose proof (make_event_wf prev record Hr) as Hw.
  eexists. split.
  - unfold event_text, canonical_json. rewrite loads_compact by (by apply sort_keys_wf). reflexivity.
  - rewrite sort_keys_dget by (by apply obj_wf_dget in Hw as [? _]). unfold make_event.
    by rewrite dget_dset_eq, seal_hashes.
Qed.

Definition decodes (w : environ) : Prop := ∀ v, decode w (canonical v) = Some (canonical v).

Lemma previous_hash_chain w path texts h :
  (∀ q, no_char line_break (float_repr q)) → decodes w → chain ZERO_HASH texts h →
  previous_hash float_repr w path (lines texts) = Ok (JStr h).
Proof.
  intros Hf Hw Hc. unfold previous_hash. rewrite last_line_lines by (by eapply chain_lines).
  apply chain_last in Hc as [[-> ->]|(texts' & p & r & Hr & -> & -> & _)]; [done|]. rewrite last_snoc.
  unfold event_text. rewrite Hw. fold (event_text p r).
  destruct (loads_event p r Hr) as (d & -> & Hd). by rewrite Hd.
Qed.

(** The unsealed text determines the hash it names and the whole event. *)
Lemma event_determined prev record prev' record' :
  json_wf (JObj record) → json_wf (JObj record') →
  canonical (JObj (dset "previous_event_hash"%string (JStr prev) record)) =
    canonical (JObj (dset "previous_event_hash"%string (JStr prev') record')) →
  prev = prev' ∧ event_text prev record = event_text prev' record'.
Proof.
  intros Hr Hr' E. pose proof (dset_json_wf "previous_event_hash" (JStr prev) record Hr I) as Hw.
  pose proof (dset_json_wf "previous_event_hash" (JStr prev') record' Hr' I) as Hw'.
  assert (sort_keys (JObj (dset "previous_event_hash"%string (JStr prev) record)) =
          sort_keys (JObj (dset "previous_event_hash"%string (JStr prev') record'))) as Es.
  { pose proof (loads_compact _ _ (sort_keys_wf _ Hw)) as H1.
    pose proof (loads_compact _ _ (sort_keys_wf _ Hw')) as H2.
    unfold canonical_json in E. rewrite E in H1. congruence. }
  apply obj_wf_dget in Hw as [Hnd _], Hw' as [Hnd' _]. split.
  - pose proof (sort_keys_obj_inj _ _ "previous_event_hash"%string Hnd Hnd' Es) as H.
    rewrite !dget_dset_eq in H. by injection H.
  - unfold event_text, make_event, canonical_json. f_equal. fold (canonical_json float_repr).
    change (compact float_repr (sort_keys ?v)) with (canonical v). rewrite E. by apply sort_keys_dset.
Qed.

(** ** Appending *)
(** One append: nothing is written and an error is reported, or the event of the
    record is written, as far as the write goes (and [fsync] may still fail). *)
Lemma append_audit_spec w fail record st r st' :
  append_audit sha256 float_repr w fail record st = (r, st') →
  (log_text st' = log_text st ∧ (private_log st → private_log st') ∧ ∃ e, r = Err e) ∨
  ∃ prev, previous_hash float_repr w (audit_log_path w) (log_text st) = Ok prev ∧ private_log st' ∧
    let event := make_event sha256 float_repr record prev in
    log_text st' = log_text st +:+ cut_to (short fail) (line (canonical (JObj event))) ∧
    (r = Ok (audit_log_path w, event) ∨ ∃ e, r = Err (ClientErr e 0)).
Proof.
  unfold append_audit. cbv zeta.
  assert (∀ p e, io_error (A := string * list (string * json)) (audit_log_path w) fail p = Some e →
                 ∃ m, e = Err (ClientErr m 0)) as Hio.
  { intros p e. unfold io_error. destruct (failing fail) as [[q x]|]; [|done]. case_decide; naive_solver. }
  destruct (io_error _ _ FMkdir) as [e|] eqn:E0; [apply Hio in E0 as [? ->]; intros [= <- <-]; left; eauto|].
  destruct (if bool_decide (is_Some (dir_mode st)) then None else _) as [e|] eqn:E1.
  { case_bool_decide; [done|]. apply Hio in E1 as [? ->]. intros [= <- <-]; left; eauto. }
  set (st1 := if bool_decide _ then _ else _).
  assert (log st1 = log st) as Hl1 by (unfold st1; by case_bool_decide).
  assert (log_text st1 = log_text st) as Ht1 by (unfold log_text; by rewrite Hl1).
  assert (private_log st → private_log st1) as Hp1 by (unfold private_log; by rewrite Hl1).
  clearbody st1. destruct (_ && _); [intros [= <- <-]; left; eauto|].
  destruct (io_error _ _ FOpen) as [e|] eqn:EFOpen; [apply Hio in EFOpen as [? ->]; intros [= <- <-]; left; eauto|]. rewrite Hl1.
  set (f := default _ (log st)).
  assert (lf_content f = log_text st) as Hf by (unfold f, log_text; by destruct (log st)).
  assert (∀ m, private_log st → private_log (mkAudit m (Some f))) as Hpf
    by (intros m; unfold f, private_log; by destruct (log st)).
  destruct (lf_regular f); cbn [negb]; [|intros [= <- <-]; left; split_and!; eauto; done].
  destruct (io_error _ _ FFchmod) as [e|] eqn:EFFchmod; [apply Hio in EFFchmod as [? ->]; intros [= <- <-]; left; split_and!; eauto; done|].
  destruct (io_error _ _ FRead) as [e|] eqn:EFRead; [apply Hio in EFRead as [? ->]; intros [= <- <-]; left; split_and!; eauto; done|].
  rewrite Hf. destruct (previous_hash _ _ _ _) as [prev|e]; [|intros [= <- <-]; left; split_and!; eauto; done].
  destruct (io_error _ _ FWrite) as [e|] eqn:EFWrite; [apply Hio in EFWrite as [? ->]; intros [= <- <-]; left; split_and!; eauto; done|].
  intros H. right. exists prev. split; [done|].
  destruct (io_error _ _ FSync) as [e|] eqn:ES; [apply Hio in ES as [? ->]|]; injection H as <- <-; split_and!; eauto; done.
Qed.
End Chain.

(** ** What a run records is well formed *)
Lemma dres_bind_Ok {A B} (x : dres A) (f : A → dres B) b :
  (x ≫= f) = Ok b → ∃ a, x = Ok a ∧ f a = Ok b.
Proof. destruct x; [by eauto|done]. Qed.

Lemma validate_same v d : validate v = Ok d → v = JObj d.
Proof.
  unfold validate. destruct v; try done. destruct (sorted_by id _); [|done].
  intros H. repeat apply dres_bind_Ok in H as (? & _ & H). by injection H as ->.
Qed.

Section Records.
Context (netloc_ok : string → bool) (sha256 : string → string) (float_repr : Q → string).
Context `{!JsonLoads float_repr} (net : nat → http_request → net_reply).

Lemma load_json_wf w t src v : load_json float_repr w t src = Ok v → json_wf v.
Proof.
  unfold load_json. destruct (loads float_repr t) as [v'|e] eqn:E; [|by destruct e].
  intros [= <-]. by eapply loads_wf.
Qed.

Lemma read_file_wf w f label data entry :
  read_file sha256 w f label = Ok (data, entry) → json_wf entry.2.
Proof.
  unfold read_file. destruct (read_bytes _ _); [|done]. intros [= _ <-]. simpl.
  split; [|done]. by apply (bool_decide_unpack _).
Qed.

Definition entries_wf (l : list (string * json)) : Prop := Forall (λ e, json_wf e.2) l.

Lemma body_from_file_wf w f body ev :
  body_from_file sha256 float_repr w f = Ok (body, ev) → json_wf (JObj body) ∧ entries_wf ev.
Proof.
  intros ([text ev'] & Ht & H)%dres_bind_Ok.
  apply dres_bind_Ok in H as (v & Hv%load_json_wf & H).
  apply dres_bind_Ok in H as (b & ->%validate_same & [= <- <-]). split; [done|].
  destruct (String.eqb f "-"); [injection Ht as <- <-; constructor|].
  apply dres_bind_Ok in Ht as ([raw e] & He%read_file_wf & Ht).
  apply dres_bind_Ok in Ht as (? & _ & [= <- <-]). by repeat constructor.
Qed.

Lemma set_opt_wf k v d :
  json_wf (JObj d) → (∀ x, v = Some x → json_wf x) → json_wf (JObj (set_opt k v d)).
Proof. intros Hd Hv. destruct v as [v|]; [|done]. apply dset_json_wf; auto. Qed.

Lemma options_wf l : json_wf (JArr (JStr <$> l)).
Proof. apply json_wf_arr, Forall_fmap, Forall_true. done. Qed.

Lemma read_state_wf w sj sf s ev :
  read_state sha256 float_repr w sj sf = Ok (s, ev) → (∀ x, s = Some x → json_wf x) ∧ entries_wf ev.
Proof.
  unfold read_state. destruct sj as [t|], sf as [f|]; [done|..].
  - intros (v & Hv%load_json_wf & [= <- <-])%dres_bind_Ok. split; [by intros x [= <-]|constructor].
  - intros ([raw e] & He%read_file_wf & H)%dres_bind_Ok.
    apply dres_bind_Ok in H as (t & _ & H).
    apply dres_bind_Ok in H as (v & Hv%load_json_wf & [= <- <-]).
    split; [by intros x [= <-]|by repeat constructor].
  - intros [= <- <-]. split; [done|constructor].
Qed.

Lemma body_from_options_wf w a body ev :
  body_from_options sha256 float_repr w a = Ok (body, ev) → json_wf (JObj body) ∧ entries_wf ev.
Proof.
  unfold body_from_options.
  destruct (a_kind a) as [kind|]; [|done]. destruct (a_question a) as [q|]; [|done].
  destruct (str_empty kind); [done|].
  intros ([s ev'] & [Hs Hev]%read_state_wf & (b & Hb%validate_same & [= <- <-])%dres_bind_Ok)%dres_bind_Ok.
  injection Hb as <-. split; [|done].
  repeat apply set_opt_wf; try done; try (intros x (y & _ & ->)%fmap_Some; try done).
  - split; [|done]. by apply (bool_decide_unpack _).
  - apply options_wf.
Qed.

Lemma add_evidence_wf w files ev ev' :
  entries_wf ev → add_evidence sha256 w files ev = Ok ev' → entries_wf ev'.
Proof.
  revert ev. induction files as [|f files IH]; intros ev Hev; [by intros [= <-]|].
  intros ([raw e] & He%read_file_wf & H)%dres_bind_Ok. revert H. apply IH.
  case_bool_decide; [done|]. apply Forall_app. by repeat constructor.
Qed.

Lemma build_body_wf w a body ev :
  build_body sha256 float_repr w a = Ok (body, ev) → json_wf (JObj body) ∧ Forall json_wf ev.
Proof.
  intros ([b ev'] & Hb & (ev2 & He & [= <- <-])%dres_bind_Ok)%dres_bind_Ok.
  assert (json_wf (JObj b) ∧ entries_wf ev') as [Hw Hev].
  { destruct (a_request_file a) as [f|]; [destruct (str_empty f)|];
      eauto using body_from_file_wf, body_from_options_wf. }
  split; [done|]. apply Forall_fmap. by eapply add_evidence_wf.
Qed.

Lemma final_result_wf n r d k : final_result float_repr n r = Ok (d, k) → json_wf (JObj d).
Proof.
  unfold final_result. destruct r as [| |raw|]; try done. destruct (loads float_repr raw) as [v|e] eqn:E.
  - destruct v; try done. intros [= <- _]. by eapply loads_wf.
  - by destruct e.
Qed.

Lemma retry_loop_wf more i b req tr d n tr' :
  retry_loop float_repr net more i b req tr = (Ok (d, n), tr') → json_wf (JObj d).
Proof.
  revert i tr. induction more as [|more IH]; intros i tr; simpl.
  - intros [= H _]. by eapply final_result_wf.
  - destruct (retryable _); [apply IH|]. intros [= H _]. by eapply final_result_wf.
Qed.

Lemma request_json_wf w url method body d n tr :
  request_json float_repr net w url method body = (Ok (d, n), tr) → json_wf (JObj d).
Proof. unfold request_json. repeat (case_match; try done). apply retry_loop_wf. Qed.

(** What a run has gathered. *)
Definition progress_wf (p : progress) : Prop :=
  (∀ v, p_request p = Some v → json_wf v) ∧ (∀ v, p_response p = Some v → json_wf v) ∧
  Forall json_wf (p_evidence p).

Lemma perform_wf w a p r tr :
  perform netloc_ok sha256 float_repr net w a = (p, r, tr) → progress_wf p.
Proof.
  unfold perform. destruct (a_info a).
  - destruct (decision_inputs a); [by intros [= <- _ _]|].
    destruct (endpoint _ _ _) as [url|]; [|by intros [= <- _ _]].
    destruct (request_json _ _ _ _ _ _) as [[[d n]|] tr'] eqn:E; intros [= <- _ _]; [|done].
    apply request_json_wf in E. split_and!; simpl; naive_solver.
  - destruct (build_body _ _ _ _) as [[body ev]|] eqn:Eb; [|by intros [= <- _ _]].
    apply build_body_wf in Eb as [Hb Hev].
    destruct (endpoint _ _ _) as [url|]; [|by intros [= <- _ _]; split_and!; simpl; naive_solver].
    destruct (request_json _ _ _ _ _ _) as [[[d n]|] tr'] eqn:E; intros [= <- _ _].
    + apply request_json_wf in E. split_and!; simpl; naive_solver.
    + split_and!; simpl; naive_solver.
Qed.

Lemma audit_record_wf w a p e : progress_wf p → json_wf (JObj (audit_record sha256 float_repr w a p e)).
Proof.
  intros (Hq & Hr & He). apply json_wf_obj. split; [by apply (bool_decide_unpack _)|].
  repeat apply Forall_cons_2; try done; simpl.
  - by destruct (p_url p).
  - apply options_wf.
  - destruct (p_request p); simpl; [by apply Hq|done].
  - by destruct (p_request p).
  - destruct (p_response p); simpl; [by apply Hr|done].
  - by destruct (p_response p).
  - by apply json_wf_arr.
  - by destruct e.
Qed.
End Records.

(** ** Runs *)
Section Runs.
Context (netloc_ok : string → bool) (sha256 : string → string) (float_repr : Q → string).
Context `{!JsonLoads float_repr}.
Abbreviation canonical := (canonical_json float_repr).

(** One append of a well-formed record, with faults that [allowed] admits. *)
Definition appends (allowed : faults → Prop) (w : environ) (st st' : audit_state) : Prop :=
  ∃ fail record r, allowed fail ∧ json_wf (JObj record) ∧ append_audit sha256 float_repr w fail record st = (r, st').

Lemma report_error_appends allowed w a fail p error n st e st' :
  allowed fail → progress_wf p → report_error sha256 float_repr w a fail p error n st = (e, st') →
  appends allowed w st st'.
Proof.
  intros Hal Hp H. exists fail, (audit_record sha256 float_repr w a (with_attempts n p) (Some error)).
  unfold report_error in H. destruct (append_audit _ _ _ _ _ _) as [r st''].
  exists r. split; [done|]. split; [by apply audit_record_wf|]. destruct r as [|[]]; by injection H as _ <-.
Qed.

(** A run appends at most two records. *)
Lemma main_appends allowed net w a f1 f2 so st e st' :
  allowed f1 → allowed f2 →
  main netloc_ok sha256 float_repr net w a f1 f2 so st = (e, st') →
  st' = st ∨ appends allowed w st st' ∨ ∃ st1, appends allowed w st st1 ∧ appends allowed w st1 st'.
Proof.
  intros Hf1 Hf2. unfold main. destruct (perform _ _ _ _ _ _) as [[p r] tr] eqn:Ep. apply perform_wf in Ep.
  destruct r as [d|[m n|m|x]].
  2,3: intros H; right; left; by eapply report_error_appends.
  2: intros [= _ <-]; by left.
  destruct (append_audit _ _ _ _ _ _) as [r st1] eqn:Ea.
  assert (appends allowed w st st1) as H1 by (eexists _, _, _; split_and!; [exact Hf1|by apply audit_record_wf|done]).
  destruct r as [x|[m n|m|x]].
  - destruct so as [m|]; [|intros [= _ <-]; eauto].
    intros H. right. right. exists st1. split; [done|by eapply report_error_appends].
  - intros H. right. right. exists st1. split; [done|by eapply report_error_appends].
  - intros H. right. right. exists st1. split; [done|by eapply report_error_appends].
  - intros [= _ <-]. eauto.
Qed.

(** The log is private to its owner and a chain from [ZERO_HASH]. *)
Definition chained (st : audit_state) : Prop :=
  private_log st ∧ ∃ texts h, log_text st = lines texts ∧ chain sha256 float_repr ZERO_HASH texts h.

(** The log is a chain that goes on with an event that was cut off before its
    end, and with whatever was written after that. *)
Definition torn (st : audit_state) : Prop :=
  private_log st ∧ ∃ texts h record n rest,
    log_text st = lines texts +:+ (str_take n (line (event_text sha256 float_repr h record)) +:+ rest) ∧
    chain sha256 float_repr ZERO_HASH texts h ∧
    (n < String.length (line (event_text sha256 float_repr h record)))%nat.

(** Writes that take all the bytes. *)
Definition whole (f : faults) : Prop := short f = None.

(** One complete run with admitted faults, in any environment whose decoder reads
    what was encoded. *)
Inductive ran (allowed : faults → Prop) (st : audit_state) : audit_state → Prop :=
| ran_main net w a f1 f2 so e st' :
    decodes float_repr w → allowed f1 → allowed f2 →
    main netloc_ok sha256 float_repr net w a f1 f2 so st = (e, st') → ran allowed st st'.

Context (Hfloat : ∀ q, no_char line_break (float_repr q)).

Lemma str_take_ge n s : (String.length s ≤ n)%nat → str_take n s = s.
Proof.
  revert n. induction s as [|c s IH]; intros [|n] Hn; simpl in *; try done; [lia|]. f_equal. apply IH. lia.
Qed.

(** An append to a chain makes a longer one, or one with a torn event. *)
Lemma appends_chained allowed w st st' :
  decodes float_repr w → chained st → appends allowed w st st' →
  chained st' ∨ (torn st' ∧ ∃ fail, allowed fail ∧ ¬ whole fail).
Proof.
  intros Hw [Hp (texts & h & Ht & Hc)] (fail & record & r & Hal & Hr & Ha).
  apply append_audit_spec in Ha as [(E & Hp' & _)|(prev & Hprev & Hp' & E & _)].
  { left. split; [auto|]. rewrite E. eauto. }
  rewrite Ht, (previous_hash_chain sha256 float_repr w _ texts h Hfloat Hw Hc) in Hprev. injection Hprev as <-.
  fold (event_text sha256 float_repr h record) in E. set (ev := line _) in E.
  assert (cut_to (short fail) ev = ev ∨
    ∃ n, short fail = Some n ∧ cut_to (short fail) ev = str_take n ev ∧ (n < String.length ev)%nat) as [Hcut|(n & Hs & Hcut & Hn)].
  { destruct (short fail) as [n|]; [|by left]. destruct (decide (n < String.length ev)%nat); [right; by exists n|left].
    apply str_take_ge. lia. }
  - left. split; [done|]. exists (texts ++ [event_text sha256 float_repr h record]), (seal sha256 float_repr h record).
    split; [|by apply chain_snoc]. rewrite E, Ht, Hcut, lines_app. simpl. by rewrite str_app_nil_r.
  - right. split; [|exists fail; split; [done|]; unfold whole; by rewrite Hs].
    split; [done|]. exists texts, h, record, n, EmptyString. rewrite str_app_nil_r, E, Ht, Hcut. by split_and!.
Qed.

(** Nothing that is in the log is ever changed. *)
Lemma append_only allowed w st st' :
  appends allowed w st st' → (private_log st → private_log st') ∧ ∃ s, log_text st' = log_text st +:+ s.
Proof.
  intros (fail & record & r & _ & _ & [(E & Hp & _)|(prev & _ & Hp & E & _)]%append_audit_spec); rewrite E;
    (split; [done|]); [|by eexists]. exists EmptyString. by rewrite str_app_nil_r.
Qed.

Lemma appends_torn allowed w st st' : torn st → appends allowed w st st' → torn st'.
Proof.
  intros [Hp (texts & h & record & n & rest & Ht & Hc & Hn)] [Hp' [s Hs]]%append_only. split; [auto|].
  exists texts, h, record, n, (rest +:+ s). rewrite Hs, Ht, !str_app_assoc. by split_and!.
Qed.

(** The two kinds of logs, the second only if a short write is admitted. *)
Definition log_ok (allowed : faults → Prop) (st : audit_state) : Prop :=
  chained st ∨ (torn st ∧ ∃ fail, allowed fail ∧ ¬ whole fail).

Lemma ran_log_ok allowed st st' : log_ok allowed st → ran allowed st st' → log_ok allowed st'.
Proof.
  intros Hst [net w a f1 f2 so e st'' Hw H1 H2 H].
  assert (∀ st st', log_ok allowed st → appends allowed w st st' → log_ok allowed st') as Hstep.
  { intros s s' [Hs|[Hs Hf]] Ha; [by eapply appends_chained|]. right. split; [by eapply appends_torn|done]. }
  apply (main_appends allowed) in H as [->|[H|(st1 & Ha & Hb)]]; eauto.
Qed.

Lemma runs_log_ok allowed st st' : log st = None → rtc (ran allowed) st st' → log_ok allowed st'.
Proof.
  intros Hnone Hruns.
  assert (log_ok allowed st) as Hst.
  { left. unfold chained, private_log, log_text. rewrite Hnone. split; [done|]. exists [], ZERO_HASH.
    split; [done|apply chain_nil]. }
  clear Hnone. induction Hruns; eauto using ran_log_ok.
Qed.

End Runs.

(** ** Tampering *)
Definition collision (sha256 : string → string) : Prop := ∃ x y, x ≠ y ∧ sha256 x = sha256 y.

(** C15. Tampering shows: two chains from [ZERO_HASH] that end in the same hash
    have the same lines, so whoever keeps the last hash notices every change,
    removal, insertion or reordering of earlier records, unless the change
    exhibits a collision of the hash function or a text whose hash is
    [ZERO_HASH]. *)
Theorem audit_tamper_evident sha256 float_repr `{!JsonLoads float_repr} texts texts' h :
  chain sha256 float_repr ZERO_HASH texts h → chain sha256 float_repr ZERO_HASH texts' h →
  texts = texts' ∨ collision sha256 ∨ ∃ x, sha256 x = ZERO_HASH.
Proof.
  revert texts' h. induction texts as [|t texts IH] using rev_ind; intros texts' h Hc Hc';
    apply chain_last in Hc, Hc'.
  - destruct Hc as [[_ ->]|(? & ? & ? & _ & E & _)]; [|by destruct (app_cons_not_nil _ _ _ E)].
    destruct Hc' as [[-> _]|(? & ? & ? & _ & _ & E & _)]; [by left|]. right. right.
    rewrite seal_hashes in E. by eexists.
  - destruct Hc as [[E _]|(texts0 & p & r & Hr & [-> ->]%app_inj_tail & -> & Hc)];
      [by destruct texts|].
    destruct Hc' as [[_ E]|(texts0' & p' & r' & Hr' & -> & E & Hc')];
      [right; right; rewrite seal_hashes in E; by eexists|].
    rewrite !seal_hashes in E. set (x := canonical_json _ _) in E. set (y := canonical_json _ _) in E.
    destruct (decide (x = y)) as [Exy|Hne]; [|right; left; by exists x, y].
    destruct (event_determined sha256 float_repr p r p' r' Hr Hr' Exy) as [<- ->].
    destruct (IH texts0' p Hc Hc') as [->|?]; [by left|by right].
Qed.

(** ** Every run that ends is recorded *)
Section Audited.
Context (netloc_ok : string → bool) (sha256 : string → string) (float_repr : Q → string).
Context `{!JsonLoads float_repr} (net : nat → http_request → net_reply).

Lemma perform_response w a p d tr :
  perform netloc_ok sha256 float_repr net w a = (p, Ok d, tr) → p_response p = Some (JObj d).
Proof.
  unfold perform. destruct (a_info a).
  - destruct (decision_inputs a); [done|]. destruct (endpoint _ _ _); [|done].
    destruct (request_json _ _ _ _ _ _) as [[[d' n]|] tr']; [|done]. by intros [= <- <- _].
  - destruct (build_body _ _ _ _) as [[body ev]|]; [|done]. destruct (endpoint _ _ _); [|done].
    destruct (request_json _ _ _ _ _ _) as [[[d' n]|] tr']; [|done]. by intros [= <- <- _].
Qed.

(** A field of an event that is not a hash is the record's. *)
Lemma event_field record prev k :
  k ≠ "event_hash"%string → k ≠ "previous_event_hash"%string →
  get k (make_event sha256 float_repr record prev) = get k record.
Proof. intros H1 H2. unfold get, dict_get, make_event. by rewrite !dget_dset_ne. Qed.

(** The log ends with the line of an event with these fields, as far as the
    write went. *)
Definition last_recorded (w : environ) (fail : faults) (st : audit_state) (error response : json) : Prop :=
  ∃ before ev, log_text st = before +:+ cut_to (short fail) (line (canonical_json float_repr (JObj ev))) ∧
    get "audit_id" ev = JStr (uuid w) ∧ get "error" ev = error ∧ get "response" ev = response.

Lemma append_recorded w fail a p error st st' x :
  append_audit sha256 float_repr w fail (audit_record sha256 float_repr w a p error) st = (Ok x, st') →
  last_recorded w fail st' (default JNull (JStr <$> error)) (default JNull (p_response p)).
Proof.
  intros [(_ & _ & ? & [=])|(prev & _ & _ & E & _)]%append_audit_spec.
  eexists _, _. split; [exact E|]. by rewrite !event_field by done.
Qed.

(** What the error report says of the log. *)
Definition reported (w : environ) (fail : faults) (st : audit_state) (report : json) : Prop :=
  ∃ m meta, report = JObj [("error", JStr m); ("_jev_client", meta)]%string ∧
    ((∃ response, last_recorded w fail st (JStr m) response) ∨
     ∃ m0 m1, m = m0 +:+ "; audit logging also failed: " +:+ m1).

Lemma report_error_reported w a fail p error n st :
  match report_error sha256 float_repr w a fail p error n st with
  | (Exit0 _, _) => False
  | (Exit2 report, st') => reported w fail st' report
  | (Crash _, _) => True
  end.
Proof.
  unfold report_error. destruct (append_audit _ _ _ _ _ _) as [r st'] eqn:E.
  destruct r as [x|[m k|m|x]]; try done.
  - apply append_recorded in E. eexists _, _. split; [done|]. left. by eexists.
  - eexists _, _. split; [done|]. right. by eexists _, _.
Qed.

(** C14. No decision without a record: a run never changes what the log already
    holds; when it exits with 0, the answer it prints is the upstream's with the
    client's metadata, and the last line of the log is this run's event, without an
    error and with that answer; when it exits with 2, the last line is this
    run's event with the error it reports, or the report says that audit
    logging failed.  A short write keeps only the beginning of that last line,
    and the run does not notice. *)
Theorem run_is_audited w a f1 f2 so st :
  let '(e, st') := main netloc_ok sha256 float_repr net w a f1 f2 so st in
  (∃ added, log_text st' = log_text st +:+ added) ∧
  match e with
  | Exit0 out => ∃ d meta, out = JObj (dset "_jev_client"%string meta d) ∧
                           last_recorded w f1 st' JNull (JObj d)
  | Exit2 report => reported w f2 st' report
  | Crash _ => True
  end.
Proof.
  destruct (main _ _ _ _ _ _ _ _ _ _) as [e st'] eqn:E. split.
  { apply (main_appends _ _ _ (λ _, True)) in E as [->|[H|(st1 & H1 & H2)]]; [| | |done|done].
    - exists EmptyString. by rewrite str_app_nil_r.
    - by eapply append_only.
    - apply append_only in H1 as [_ [s E1]], H2 as [_ [s' E2]]. rewrite E2, E1, !str_app_assoc. by eexists. }
  revert E. unfold main. destruct (perform _ _ _ _ _ _) as [[p r] tr] eqn:Ep.
  assert (∀ m n st, report_error sha256 float_repr w a f2 p m n st = (e, st') →
    match e with Exit0 _ => False | Exit2 report => reported w f2 st' report | Crash _ => True end) as Hrep.
  { intros m n st0 H. pose proof (report_error_reported w a f2 p m n st0) as Hr. by rewrite H in Hr. }
  destruct r as [d|[m n|m|x]]; try (intros H%Hrep; by destruct e); [|by intros [= <- _]].
  apply perform_response in Ep.
  destruct (append_audit _ _ _ _ _ _) as [[x|[m n|m|x]] st1] eqn:Ea;
    try (intros H%Hrep; by destruct e); [|by intros [= <- _]].
  destruct so; [intros H%Hrep; by destruct e|]. intros [= <- <-].
  apply append_recorded in Ea. rewrite Ep in Ea. eauto.
Qed.
End Audited.

(** ** Witnesses *)
Lemma frac_repr_line q : no_char line_break (frac_repr q).
Proof.
  change (frac_repr q) with ("~" +:+ (int_text (Qnum q) +:+ ("/" +:+ int_text (Zpos (Qden q))))).
  rewrite !no_char_app. by split_and!; try apply int_text_line.
Qed.

Definition toy_environ : environ :=
  mkEnviron (λ k, if String.eqb k "JEV_BASE_URL" then Some "http://jev"%string else None)
    EmptyString "/home/op" id (λ _, inr "missing"%string) Some id "2025-01-01T00:00:00Z" "id-1".

(** Asks for the service's information. *)
Definition toy_args : args := mkArgs true None None None None None [] None None None ["--info"%string].

Definition toy_net : nat → http_request → net_reply :=
  λ n _, if Nat.eqb n 0 then HttpError 503 "busy" else Answer "{}".

Definition toy_run (st : audit_state) : exit * audit_state :=
  main (λ _, true) (λ s, int_text (Z.of_nat (String.length s))) frac_repr toy_net toy_environ toy_args no_faults no_faults None st.

Definition toy_start : audit_state := mkAudit None None.


Lemma audit_tamper_evident_witness :
  ∃ t, chain (λ s, s) frac_repr ZERO_HASH [t] (seal (λ s, s) frac_repr ZERO_HASH []) ∧
    ([t] = [t] ∨ collision (λ s, s) ∨ ∃ x : string, x = ZERO_HASH).
Proof.
  exists (event_text (λ s, s) frac_repr ZERO_HASH []).
  assert (chain (λ s, s) frac_repr ZERO_HASH [event_text (λ s, s) frac_repr ZERO_HASH []]
            (seal (λ s, s) frac_repr ZERO_HASH [])) as Hc.
  { apply chain_cons; [by split; [constructor|]|apply chain_nil]. }
  split; [exact Hc|].
  exact (audit_tamper_evident (λ s, s) frac_repr _ _ _ Hc Hc).
Defined.
