(* ===== verification/Bench.v ===== *)
(** * The load generator: [benchmarks/multi-round-qa/multi-round-qa.py]

    Simulated users hold conversations of several rounds with the router.  A
    session is driven by the main thread ([step]); answers arrive in callbacks
    of the event loop's thread.  [_launch_new_request] hands the request over
    before it sets [has_unfinished_request], so a launch has two parts between
    which a callback may run; and [_on_request_finished] clears that flag before
    it records the answer, so a callback has two parts between which the main
    thread may go on.  The appends to the six lists of results are one step, so
    a summary that reads them between two appends, and raises because the
    columns differ in length, is not modelled.  Times are rationals; what the server streams is
    an argument; rows of a data frame are [Response]s with their user. *)
From stdpp Require Import base list strings gmap.
From Stdlib Require Import Ascii QArith Qround Qminmax.
From S2P Require Import Prelude PyDict PyStr JsonText.

Local Open Scope Z_scope.

(** ** Configuration *)
Record WorkloadConfig := mkWorkload {
  w_num_users : Z;
  w_system_prompt_len : Z;
  w_user_info_len : Z;
  w_answer_len : Z;
  w_num_rounds : Z;
  w_qps : Q;
  w_model : string;
  w_enable_user_id : bool
}.

Record UserConfig := mkUser {
  u_user_id : Z;
  u_system_prompt_len : Z;
  u_user_info_len : Z;
  u_answer_len : Z;
  u_gap : Q;
  u_num_rounds : Z;
  u_enable_user_id : bool
}.

(** [a / b] of numbers *)
Definition true_div (a b : Q) : outcome Q := if Qeq_bool b 0 then Raise ZeroDivisionError else Ret (a / b)%Q.

Definition new_user_config (user_id : Z) (w : WorkloadConfig) : outcome UserConfig :=
  gap ← true_div (inject_Z (w_num_users w)) (w_qps w);
  Ret (mkUser user_id (w_system_prompt_len w) (w_user_info_len w) (w_answer_len w) gap
         (w_num_rounds w) (w_enable_user_id w)).

(** ** [ChatHistory]: role and content of every message *)
Definition history := list (string * string).

Definition on_user_query (query : string) : M history unit := λ h,
  match last h with
  | None => (Ret tt, h ++ [("user", query)]%string)
  | Some (role, _) => if String.eqb role "assistant" then (Ret tt, h ++ [("user", query)]%string)
                      else (Raise AssertionError, h)
  end.

Definition on_system_response (response : string) : M history unit := λ h,
  match last h with
  | None => (Raise AssertionError, h)
  | Some (role, _) => if String.eqb role "user" then (Ret tt, h ++ [("assistant", response)]%string)
                      else (Raise AssertionError, h)
  end.

(** ** [RequestExecutor] *)
Record Response := mkResponse {
  r_body : string;
  r_ttft : Q;
  r_generation_time : Q;
  r_prompt_tokens : Z;
  r_generation_tokens : Z;
  r_launch_time : Q;
  r_finish_time : Q
}.

(** One item of the stream: the content of its first choice, if it has choices,
    its usage (completion and prompt tokens), and when it arrives. *)
Record tok := mkTok { k_content : option (option string); k_usage : option (Z * Z); k_time : Q }.

(** The loop over the stream: the text and the time of the first visible part. *)
Fixpoint tok_loop (toks : list tok) (words : string) (first : option Q) : string * option Q :=
  match toks with
  | [] => (words, first)
  | k :: toks =>
      match k_content k with
      | Some (Some s) =>
          tok_loop toks (words +:+ s)
            (match first with None => if str_empty s then None else Some (k_time k) | Some _ => first end)
      | _ => tok_loop toks words first
      end
  end.

(** [t1] and [t2] are the clock when the response is put together. *)
Definition async_launch_request (start : Q) (toks : list tok) (t1 t2 : Q) : outcome Response :=
  let '(words, first) := tok_loop toks EmptyString None in
  match last toks with
  | None => Raise UnboundLocalError
  | Some k =>
      '(tokens_out, tokens_prefill) ← or_raise AttributeError (k_usage k);
      first ← or_raise TypeError first;
      Ret (mkResponse words (first - start)%Q (t1 - first)%Q tokens_prefill tokens_out start t2)
  end.

Record chat_request := mkChatRequest { q_messages : history; q_max_tokens : Z; q_headers : list (string * string) }.

(** ** [UserSession] *)
(** One turn of a recorded conversation; the key [num_tokens] may be missing. *)
Record conversation := mkConv { v_value : string; v_num_tokens : option Z }.
Record sharegpt := mkShare { g_num_round : Z; g_conversations : list conversation }.

Record UserSession := mkSession {
  s_config : UserConfig;
  s_last_request_time : option Q;
  s_history : history;
  s_question_id : Z;
  s_sharegpt : option sharegpt;
  s_unfinished : bool;
  s_last_unfinished_log : Q;
  s_results : list Response;   (* the six lists, which are appended to together *)
  s_finished : bool
}.

Definition new_session (c : UserConfig) (data : option sharegpt) : UserSession :=
  mkSession c None [] 0 data false 0 [] false.

Definition start_with_gpt (d : sharegpt) : bool := negb (g_num_round d mod 2 =? 0).

(** [l[i]], from the end for a negative [i] *)
Definition py_item {A} (l : list A) (i : Z) : outcome A :=
  let j := if i <? 0 then Z.of_nat (length l) + i else i in
  if j <? 0 then Raise IndexError else or_raise IndexError (l !! Z.to_nat j).

Definition conversation_at (d : sharegpt) (i : Z) : outcome conversation := py_item (g_conversations d) i.

Definition gen_dummy_text (n : Z) : string := join " " (replicate (Z.to_nat n) "hi"%string).

Definition build_system_prompt (c : UserConfig) : string :=
  join EmptyString ["Hi, here's some system prompt: "; gen_dummy_text (u_system_prompt_len c); ".";
    "For user "; int_text (u_user_id c); ", "; "here are some other context: ";
    gen_dummy_text (u_user_info_len c); "."]%string.

Definition set_question (q : Z) (s : UserSession) : UserSession :=
  mkSession (s_config s) (s_last_request_time s) (s_history s) q (s_sharegpt s) (s_unfinished s)
    (s_last_unfinished_log s) (s_results s) (s_finished s).

Definition set_history (h : history) (s : UserSession) : UserSession :=
  mkSession (s_config s) (s_last_request_time s) h (s_question_id s) (s_sharegpt s) (s_unfinished s)
    (s_last_unfinished_log s) (s_results s) (s_finished s).

Definition build_new_question : M UserSession string := λ s,
  let s := set_question (s_question_id s + 1) s in
  (Ret (join EmptyString ["Here's question #"; int_text (s_question_id s); ": can you tell me ";
          "a new long story with a happy ending?"]%string), s).

(** A method of the history, called on the session that holds it. *)
Definition on_history {A} (m : M history A) : M UserSession A := λ s,
  let '(r, h) := m (s_history s) in (r, set_history h s).

Definition next_prompt : M UserSession string := λ s,
  match s_sharegpt s with
  | None => build_new_question s
  | Some d =>
      match conversation_at d (2 * s_question_id s + if start_with_gpt d then 1 else 0) with
      | Raise e => (Raise e, s)
      | Ret c => (Ret (v_value c), set_question (s_question_id s + 1) s)
      end
  end.

Definition max_tokens_of (s : UserSession) : outcome Z :=
  match s_sharegpt s with
  | None => Ret (u_answer_len (s_config s))
  | Some d =>
      c ← conversation_at d (if start_with_gpt d then 2 * s_question_id s else 2 * s_question_id s - 1);
      n ← or_raise (KeyError "num_tokens") (v_num_tokens c);
      Ret (n `min` u_answer_len (s_config s))
  end.

(** [_launch_new_request] up to the call of the executor: the request. *)
Definition launch_begin : M UserSession chat_request :=
  prompt ← next_prompt;
  h ← gets s_history;
  c ← gets s_config;
  let prompt := match h with [] => build_system_prompt c +:+ prompt | _ => prompt end in
  _ ← on_history (on_user_query prompt);
  s ← gets id;
  max_tokens ← lift (max_tokens_of s);
  mret (mkChatRequest (s_history s) max_tokens [("x-user-id", int_text (u_user_id c))]%string).

(** The assignments after the call. *)
Definition launch_end (timestamp : Q) (s : UserSession) : UserSession :=
  mkSession (s_config s) (Some timestamp) (s_history s) (s_question_id s) (s_sharegpt s) true
    (s_last_unfinished_log s) (s_results s) (s_finished s).

Definition update_result (response : Response) (s : UserSession) : UserSession :=
  mkSession (s_config s) (s_last_request_time s) (s_history s) (s_question_id s) (s_sharegpt s) (s_unfinished s)
    (s_last_unfinished_log s) (s_results s ++ [response]) (s_finished s).

(** [_on_request_finished] up to the call of [_update_result] *)
Definition on_request_finished (response : Response) : M UserSession unit :=
  _ ← on_history (on_system_response (r_body response));
  modify (λ s, mkSession (s_config s) (s_last_request_time s) (s_history s) (s_question_id s) (s_sharegpt s) false
       (s_last_unfinished_log s) (s_results s) (s_finished s)).

(** [int(x)] of a float that is not negative *)
Definition py_trunc (x : Q) : Z := if Qle_bool 0 x then Qfloor x else - Qfloor (- x).

Definition set_internal_state (offset timestamp : Q) : M UserSession unit := λ s,
  match s_history s with
  | _ :: _ => (Raise AssertionError, s)
  | [] =>
      match true_div offset (u_gap (s_config s)) with
      | Raise e => (Raise e, s)
      | Ret x =>
          let passed := py_trunc x + 1 in
          let passed_time := (inject_Z (passed - 1) * u_gap (s_config s))%Q in
          (Ret tt, mkSession (s_config s) (Some (timestamp - offset + passed_time)%Q) (s_history s) passed
                     (s_sharegpt s) (s_unfinished s) (s_last_unfinished_log s) (s_results s) (s_finished s))
      end
  end.

(** [step] up to a call of the executor: [Some request] if there is one. *)
Definition step_begin (timestamp : Q) : M UserSession (option chat_request) := λ s,
  if (u_num_rounds (s_config s) <=? s_question_id s) && negb (s_unfinished s) then
    (Ret None, mkSession (s_config s) (s_last_request_time s) (s_history s) (s_question_id s) (s_sharegpt s)
                 (s_unfinished s) (s_last_unfinished_log s) (s_results s) true)
  else
  match s_last_request_time s with
  | None => (q ← launch_begin; mret (Some q)) s
  | Some t =>
      if Qltb (u_gap (s_config s)) (timestamp - t) then
        if s_unfinished s then
          (Ret None, if Qltb 10 (timestamp - s_last_unfinished_log s)
                     then mkSession (s_config s) (s_last_request_time s) (s_history s) (s_question_id s) (s_sharegpt s)
                            (s_unfinished s) timestamp (s_results s) (s_finished s)
                     else s)
        else (q ← launch_begin; mret (Some q)) s
      else (Ret None, s)
  end.

(** ** One session and the requests on their way *)
Record client := mkSim {
  c_session : UserSession;
  c_in_flight : list chat_request;
  c_launching : option Q;     (* the main thread is inside a launch *)
  c_sent : list chat_request;      (* every request so far *)
  c_error : option exn;       (* what ended the main thread *)
  c_lost : list exn;          (* exceptions of callbacks, which are only logged *)
  c_recording : option Response   (* a callback has still to record it *)
}.

(** The session when the callback that is running has recorded its response *)
Definition recorded_session (c : client) : UserSession :=
  match c_recording c with Some r => update_result r (c_session c) | None => c_session c end.

Inductive act : Type :=
| StepBegin (timestamp : Q)
| StepEnd
| Complete (i : nat) (response : Response)
| Recorded
| Fail (i : nat).

(** One action.  The event loop's thread ends one callback before it starts
    another; an exception of the request leaves the callback without effect. *)
Definition client_act (a : act) (c : client) : client :=
  match a with
  | StepBegin t =>
      match c_launching c, c_error c with
      | None, None =>
          match step_begin t (c_session c) with
          | (Ret None, s) => mkSim s (c_in_flight c) None (c_sent c) None (c_lost c) (c_recording c)
          | (Ret (Some q), s) => mkSim s (c_in_flight c ++ [q]) (Some t) (c_sent c ++ [q]) None (c_lost c) (c_recording c)
          | (Raise e, s) => mkSim s (c_in_flight c) None (c_sent c) (Some e) (c_lost c) (c_recording c)
          end
      | _, _ => c
      end
  | StepEnd =>
      match c_launching c with
      | Some t => mkSim (launch_end t (c_session c)) (c_in_flight c) None (c_sent c) (c_error c) (c_lost c)
                    (c_recording c)
      | None => c
      end
  | Complete i response =>
      match c_in_flight c !! i with
      | None => c
      | Some _ =>
          let '(r, s) := on_request_finished response (recorded_session c) in
          mkSim s (delete i (c_in_flight c)) (c_launching c) (c_sent c) (c_error c)
            (match r with Ret _ => c_lost c | Raise e => c_lost c ++ [e] end)
            (match r with Ret _ => Some response | Raise _ => None end)
      end
  | Recorded =>
      mkSim (recorded_session c) (c_in_flight c) (c_launching c) (c_sent c) (c_error c) (c_lost c) None
  | Fail i => mkSim (c_session c) (delete i (c_in_flight c)) (c_launching c) (c_sent c) (c_error c) (c_lost c)
                (c_recording c)
  end.

Definition client_acts (l : list act) (c : client) : client := foldl (λ c a, client_act a c) c l.

Definition new_client (s : UserSession) : client := mkSim s [] None [] None [] None.

(** ** [UserSessionManager] *)
Record manager := mkManager {
  m_config : WorkloadConfig;
  m_sessions : list client;
  m_gap_between_users : Q;
  m_ramp_up_time : Q;
  m_user_id : Z;
  m_last_user_join : Q;
  m_summaries : list (Z * list Response);   (* [summary()] of the sessions that are gone *)
  m_start_time : option Q;
  m_need_ramp_up : bool;
  m_sharegpt : option (list sharegpt)
}.

(** [ShareGPT.json] is already loaded; conversations that are too short are left out. *)
Definition new_manager (w : WorkloadConfig) (init_user_id : Z) (data : option (list sharegpt)) : outcome manager :=
  gap ← true_div (inject_Z (w_num_users w)) (w_qps w);
  let alive := (gap * inject_Z (w_num_rounds w - 1))%Q in
  gap_users ← true_div alive (inject_Z (w_num_users w));
  Ret (mkManager w [] gap_users (inject_Z (w_num_users w) * gap_users)%Q init_user_id 0 [] None true
         (filter (λ d, 2 * w_num_rounds w < g_num_round d) <$> data)).

Definition with_sessions (l : list client) (m : manager) : manager :=
  mkManager (m_config m) l (m_gap_between_users m) (m_ramp_up_time m) (m_user_id m) (m_last_user_join m)
    (m_summaries m) (m_start_time m) (m_need_ramp_up m) (m_sharegpt m).

(** [self.sharegpt_data[self.user_id]] *)
Definition user_data (m : manager) (user_id : Z) : outcome (option sharegpt) :=
  match m_sharegpt m with
  | None => Ret None
  | Some l => d ← py_item l user_id; Ret (Some d)
  end.

Definition create_user_session : M manager unit := λ m,
  let user_id := m_user_id m + 1 in
  let m := mkManager (m_config m) (m_sessions m) (m_gap_between_users m) (m_ramp_up_time m) user_id
             (m_last_user_join m) (m_summaries m) (m_start_time m) (m_need_ramp_up m) (m_sharegpt m) in
  match (c ← new_user_config user_id (m_config m); d ← user_data m user_id; Ret (new_session c d)) with
  | Raise e => (Raise e, m)
  | Ret s => (Ret tt, with_sessions (m_sessions m ++ [new_client s]) m)
  end.

(** Calls a method of the session that was created last. *)
Definition on_last_session (f : M UserSession unit) : M manager unit := λ m,
  match last (m_sessions m) with
  | None => (Raise IndexError, m)
  | Some c =>
      let '(r, s) := f (c_session c) in
      (r, with_sessions (take (length (m_sessions m) - 1) (m_sessions m) ++
            [mkSim s (c_in_flight c) (c_launching c) (c_sent c) (c_error c) (c_lost c) (c_recording c)]) m)
  end.

(** The loop of [_ramp_up] with [n] rounds to go. *)
Fixpoint ramp_loop (n : nat) (i : Z) (timestamp : Q) : M manager unit :=
  match n with
  | O => mret tt
  | S n =>
      _ ← create_user_session;
      offset ← gets (λ m, m_ramp_up_time m - inject_Z i * m_gap_between_users m)%Q;
      if Qltb offset 0 then mret tt
      else _ ← on_last_session (set_internal_state offset timestamp); ramp_loop n (i + 1) timestamp
  end.

Definition ramp_up (timestamp : Q) : M manager unit :=
  n ← gets (λ m, w_num_users (m_config m));
  _ ← ramp_loop (Z.to_nat n) 0 timestamp;
  modify (λ m, mkManager (m_config m) (m_sessions m) (m_gap_between_users m) (m_ramp_up_time m) (m_user_id m)
                 (m_last_user_join m) (m_summaries m) (m_start_time m) false (m_sharegpt m)).

Definition session_user (c : client) : Z := u_user_id (s_config (c_session c)).
Definition summary (c : client) : Z * list Response := (session_user c, s_results (c_session c)).
Definition is_finished (c : client) : bool := s_finished (c_session c).

Definition remove_finished_sessions (m : manager) : manager :=
  mkManager (m_config m) (filter (λ c, is_finished c = false) (m_sessions m)) (m_gap_between_users m)
    (m_ramp_up_time m) (m_user_id m) (m_last_user_join m)
    (m_summaries m ++ (summary <$> filter (λ c, is_finished c = true) (m_sessions m)))
    (m_start_time m) (m_need_ramp_up m) (m_sharegpt m).

(** Every session takes a step; [mid] are the callbacks that run while the
    session launches a request. The first exception ends the loop. *)
Fixpoint step_sessions (timestamp : Q) (mid : list (list act)) (l : list client) : outcome unit * list client :=
  match l with
  | [] => (Ret tt, [])
  | c :: l =>
      let c := client_act StepEnd (client_acts (default [] (head mid)) (client_act (StepBegin timestamp) c)) in
      match c_error c with
      | Some e => (Raise e, c :: l)
      | None => let '(r, l) := step_sessions timestamp (tail mid) l in (r, c :: l)
      end
  end.

Definition manager_step (timestamp : Q) (mid : list (list act)) : M manager unit :=
  need ← gets m_need_ramp_up;
  _ ← (if (need : bool) then ramp_up timestamp else mret tt);
  _ ← modify (λ m, mkManager (m_config m) (m_sessions m) (m_gap_between_users m) (m_ramp_up_time m) (m_user_id m)
                     (m_last_user_join m) (m_summaries m) (Some (default timestamp (m_start_time m)))
                     (m_need_ramp_up m) (m_sharegpt m));
  join ← gets (λ m, Qltb (m_gap_between_users m) (timestamp - m_last_user_join m));
  _ ← (if (join : bool) then
         _ ← create_user_session;
         modify (λ m, mkManager (m_config m) (m_sessions m) (m_gap_between_users m) (m_ramp_up_time m) (m_user_id m)
                        timestamp (m_summaries m) (m_start_time m) (m_need_ramp_up m) (m_sharegpt m))
       else mret tt);
  _ ← (λ m, let '(r, l) := step_sessions timestamp mid (m_sessions m) in (r, with_sessions l m));
  modify remove_finished_sessions.

(** Callbacks between two steps: the [i]-th session. *)
Definition callback (i : nat) (a : act) (m : manager) : manager := with_sessions (alter (client_act a) i (m_sessions m)) m.
