(* ===== verification/BenchSpec.v ===== *)
(** * What the load generator promises

    The protocol of one session under every interleaving of the main thread and
    the callbacks, what becomes of a session whose answer is lost, and that
    the manager accounts for every user. *)
From stdpp Require Import base list strings gmap.
From Stdlib Require Import Ascii QArith Qround Qminmax Lqa.
From S2P Require Import Prelude PyDict PyStr JsonText Bench.

Local Open Scope Z_scope.

(** ** Histories *)
(** User and assistant alternate, the user first. *)
Fixpoint alternates (user : bool) (h : history) : Prop :=
  match h with
  | [] => True
  | (role, _) :: h => role = (if user then "user" else "assistant")%string ∧ alternates (negb user) h
  end.

Definition turns (h : history) : bool := Nat.even (length h).

Lemma alternates_snoc user h role content :
  alternates user h →
  role = (if xorb user (Nat.odd (length h)) then "user" else "assistant")%string →
  alternates user (h ++ [(role, content)]).
Proof.
  revert user. induction h as [|[r c] h IH]; intros user Hh Hr; simpl in *.
  - by rewrite xorb_false_r in Hr.
  - destruct Hh as [-> Hh]. split; [done|]. apply IH; [done|]. rewrite Hr.
    rewrite Nat.odd_succ, <- Nat.negb_odd. by destruct user, (Nat.odd (length h)).
Qed.

Lemma alternates_last h role content user :
  alternates user h → last h = Some (role, content) →
  role = (if xorb user (Nat.even (length h)) then "user" else "assistant")%string.
Proof.
  revert user. induction h as [|[r c] h IH]; intros user Hh Hl; [done|]. destruct Hh as [-> Hh].
  destruct h as [|x h]; [injection Hl as <- _; by destruct user|].
  rewrite last_cons in Hl. destruct (last (x :: h)) as [[r' c']|] eqn:E.
  - injection Hl as -> ->. rewrite (IH (negb user) Hh eq_refl).
    change (length ((if user then "user"%string else "assistant"%string, c) :: x :: h)) with (S (length (x :: h))).
    rewrite Nat.even_succ, <- Nat.negb_even. by destruct user, (Nat.even (length (x :: h))).
  - apply last_None in E. done.
Qed.

(** A query is accepted exactly when it is the user's turn. *)
Lemma on_user_query_turn h q :
  alternates true h → turns h = true →
  on_user_query q h = (Ret tt, h ++ [("user", q)]%string) ∧ alternates true (h ++ [("user", q)]%string).
Proof.
  intros Hh Ht. unfold turns in Ht. split.
  - unfold on_user_query. destruct (last h) as [[role c]|] eqn:El; [|done].
    rewrite (alternates_last _ _ _ _ Hh El), Ht. done.
  - apply alternates_snoc; [done|]. by rewrite <- Nat.negb_even, Ht.
Qed.

Lemma on_system_response_turn h r :
  alternates true h → turns h = false →
  on_system_response r h = (Ret tt, h ++ [("assistant", r)]%string) ∧
  alternates true (h ++ [("assistant", r)]%string).
Proof.
  intros Hh Ht. unfold turns in Ht. split.
  - unfold on_system_response. destruct (last h) as [[role c]|] eqn:El.
    + rewrite (alternates_last _ _ _ _ Hh El), Ht. done.
    + apply last_None in El. by rewrite El in Ht.
  - apply alternates_snoc; [done|]. by rewrite <- Nat.negb_even, Ht.
Qed.

Lemma turns_snoc h x : turns (h ++ [x]) = negb (turns h).
Proof. unfold turns. rewrite length_app, Nat.add_1_r, Nat.even_succ. by rewrite Nat.negb_even. Qed.

(** ** Launching *)
Definition launched (s s' : UserSession) : Prop :=
  ∃ prompt, s' = set_question (s_question_id s + 1) (set_history (s_history s ++ [("user", prompt)]%string) s).

Lemma conversation_at_raise d i e : conversation_at d i = Raise e → e = IndexError.
Proof.
  unfold conversation_at, py_item. case_match; [by intros [= <-]|]. destruct (g_conversations d !! _); simpl; [done|].
  by intros [= <-].
Qed.

(** What recorded conversations that are too short or incomplete give *)
Definition data_error (e : exn) : Prop := e = IndexError ∨ e = KeyError "num_tokens".

Lemma max_tokens_raise s e : max_tokens_of s = Raise e → data_error e.
Proof.
  unfold max_tokens_of, mbind, outcome_bind. destruct (s_sharegpt s) as [d|]; [|done].
  destruct (conversation_at d _) as [c|] eqn:E; [|intros [= <-]; left; by eapply conversation_at_raise].
  destruct (v_num_tokens c); [done|]. intros [= <-]. by right.
Qed.

Lemma next_prompt_spec s :
  match next_prompt s with
  | (Ret _, s') => s' = set_question (s_question_id s + 1) s
  | (Raise e, s') => data_error e ∧ s' = s
  end.
Proof.
  unfold next_prompt. destruct (s_sharegpt s) as [d|]; [|done].
  destruct (conversation_at d _) eqn:E; [done|]. split; [|done]. left. by eapply conversation_at_raise.
Qed.

Lemma launch_begin_spec s :
  alternates true (s_history s) → turns (s_history s) = true →
  match launch_begin s with
  | (Ret q, s') => launched s s' ∧ q_messages q = s_history s'
  | (Raise e, s') => data_error e ∧ (s' = s ∨ launched s s')
  end.
Proof.
  intros Hh Ht. unfold launch_begin. unfold mbind at 1, M_bind at 1.
  pose proof (next_prompt_spec s) as Hn. destruct (next_prompt s) as [[prompt|e] s1]; [|naive_solver].
  subst s1. unfold mbind at 1, M_bind at 1, gets at 1. unfold mbind at 1, M_bind at 1, gets at 1.
  set (p := match s_history _ with [] => _ | _ => _ end). clearbody p.
  unfold mbind at 1, M_bind at 1, on_history. change (s_history (set_question (s_question_id s + 1) s)) with (s_history s).
  destruct (on_user_query_turn (s_history s) p Hh Ht) as [-> _]. set (s' := set_history _ _).
  assert (launched s s') as Hl by (by exists p).
  unfold mbind at 1, M_bind at 1, gets. unfold mbind, M_bind, lift. simpl.
  destruct (max_tokens_of s') eqn:E; [done|]. apply max_tokens_raise in E. naive_solver.
Qed.

(** A step launches only when nothing is unfinished and rounds are left. *)
Lemma step_begin_spec t s :
  alternates true (s_history s) → turns (s_history s) = true ∨ s_unfinished s = true →
  (s_unfinished s = true → is_Some (s_last_request_time s)) →
  match step_begin t s with
  | (Ret None, s') =>
      s_config s' = s_config s ∧ s_history s' = s_history s ∧ s_question_id s' = s_question_id s ∧
      s_unfinished s' = s_unfinished s ∧ s_last_request_time s' = s_last_request_time s ∧
      s_results s' = s_results s ∧
      (s_finished s' = true → s_finished s = true ∨ s_unfinished s = false ∧ u_num_rounds (s_config s) ≤ s_question_id s)
  | (Ret (Some q), s') =>
      s_unfinished s = false ∧ s_question_id s < u_num_rounds (s_config s) ∧ launched s s' ∧
      q_messages q = s_history s'
  | (Raise e, s') =>
      s_unfinished s = false ∧ s_question_id s < u_num_rounds (s_config s) ∧ data_error e ∧ (s' = s ∨ launched s s')
  end.
Proof.
  intros Hh Ht Hu. unfold step_begin.
  destruct (Z.leb_spec (u_num_rounds (s_config s)) (s_question_id s)) as [Hq|Hq], (s_unfinished s) eqn:Eu; simpl.
  1,3: destruct (Hu eq_refl) as [t0 Et]; rewrite Et; repeat case_match; simplify_eq; simpl; naive_solver.
  - naive_solver.
  - destruct Ht as [Ht|?]; [|done]. pose proof (launch_begin_spec s Hh Ht) as Hl.
    assert (match (q ← launch_begin; mret (Some q)) s with
            | (Ret None, s') => False
            | (Ret (Some q), s') => launched s s' ∧ q_messages q = s_history s'
            | (Raise e, s') => data_error e ∧ (s' = s ∨ launched s s')
            end) as Hl'.
    { unfold mbind, M_bind. by destruct (launch_begin s) as [[q|e] s']. }
    destruct (s_last_request_time s) as [t0|] eqn:Et.
    + destruct (Qltb _ _); [|by split_and!; auto]. destruct ((q ← launch_begin; mret (Some q)) s) as [[[q|]|e] s']; naive_solver.
    + destruct ((q ← launch_begin; mret (Some q)) s) as [[[q|]|e] s']; naive_solver.
Qed.

(** ** The protocol of a session *)
(** Messages of the user in an alternating history *)
Definition asked (h : history) : nat := Nat.div2 (S (length h)).
Arguments asked : simpl never.

Record protocol (rounds q0 : Z) (c : client) : Prop := {
  p_rounds : u_num_rounds (s_config (c_session c)) = rounds;
  p_alternates : alternates true (s_history (c_session c));
  p_flight : c_in_flight c = [] ∨ ∃ q, c_in_flight c = [q] ∧ turns (s_history (c_session c)) = false;
  p_idle : c_launching c = None → c_error c = None → s_unfinished (c_session c) = false →
           c_in_flight c = [] ∧ turns (s_history (c_session c)) = true;
  p_time : s_unfinished (c_session c) = true → is_Some (s_last_request_time (c_session c));
  p_launch : is_Some (c_launching c) → c_error c = None ∧ s_unfinished (c_session c) = false;
  p_lost : c_lost c = [];
  p_error : ∀ e, c_error c = Some e → data_error e;
  p_count : c_error c = None →
            s_question_id (c_session c) = q0 + Z.of_nat (length (c_sent c)) ∧
            length (c_sent c) = asked (s_history (c_session c));
  p_results : (length (s_results (c_session c)) + length (option_list (c_recording c)) + asked (s_history (c_session c)) =
               length (s_history (c_session c)))%nat;
  p_finished : s_finished (c_session c) = true →
               c_launching c = None ∧ c_error c = None ∧ s_unfinished (c_session c) = false ∧
               rounds ≤ s_question_id (c_session c);
  p_sent : Z.of_nat (length (c_sent c)) ≤ 0 `max` (rounds - q0);
  p_messages : ∀ i q, c_sent c !! i = Some q →
               length (q_messages q) = (2 * i + 1)%nat ∧ q_messages q `prefix_of` s_history (c_session c)
}.

Lemma asked_answer h x : turns h = false → asked (h ++ [x]) = asked h.
Proof.
  unfold turns, asked. intros H. rewrite length_app, Nat.add_1_r.
  rewrite <- Nat.negb_odd in H. apply negb_false_iff, Nat.odd_spec in H as [k ->].
  replace (S (2 * k + 1)) with (2 * S k)%nat by lia. rewrite Nat.div2_succ_double, Nat.div2_double. done.
Qed.

Lemma asked_query h x : turns h = true → asked (h ++ [x]) = S (asked h) ∧ length h = (2 * asked h)%nat.
Proof.
  unfold turns, asked. intros H. rewrite length_app, Nat.add_1_r. apply Nat.even_spec in H as [k ->].
  rewrite Nat.div2_succ_double. replace (S (S (2 * k))) with (2 * S k)%nat by lia. by rewrite Nat.div2_double.
Qed.

Lemma protocol_fail rounds q0 c i : protocol rounds q0 c → protocol rounds q0 (client_act (Fail i) c).
Proof.
  intros [Hr Ha Hf Hi Ht Hl Hlo He Hc Hre Hfi Hs Hm]. split; simpl; try done.
  - destruct Hf as [->|(q & -> & Hq)]; [by left|]. destruct i; [by left|right; by exists q].
  - intros H1 H2 H3. destruct (Hi H1 H2 H3) as [-> ?]. done.
Qed.

Lemma protocol_end rounds q0 c : protocol rounds q0 c → protocol rounds q0 (client_act StepEnd c).
Proof.
  intros P. unfold client_act. destruct (c_launching c) as [t|] eqn:El; [|done].
  destruct P as [Hr Ha Hf Hi Ht Hl Hlo He Hc Hre Hfi Hs Hm]. split; simpl; try done.
  intros H. destruct (Hfi H) as [? _]. congruence.
Qed.

Lemma on_request_finished_turn s r :
  alternates true (s_history s) → turns (s_history s) = false →
  ∃ s', on_request_finished r s = (Ret tt, s') ∧ s_config s' = s_config s ∧
    s_history s' = s_history s ++ [("assistant", r_body r)]%string ∧ s_question_id s' = s_question_id s ∧
    s_unfinished s' = false ∧ s_last_request_time s' = s_last_request_time s ∧
    s_results s' = s_results s ∧ s_finished s' = s_finished s.
Proof.
  intros Ha Ht. destruct (on_system_response_turn (s_history s) (r_body r) Ha Ht) as [E _].
  unfold on_request_finished, mbind, M_bind, on_history. rewrite E. eexists. split; [reflexivity|]. done.
Qed.

(** Recording changes the results only. *)
Lemma recorded_session_spec c :
  s_config (recorded_session c) = s_config (c_session c) ∧
  s_last_request_time (recorded_session c) = s_last_request_time (c_session c) ∧
  s_history (recorded_session c) = s_history (c_session c) ∧
  s_question_id (recorded_session c) = s_question_id (c_session c) ∧
  s_sharegpt (recorded_session c) = s_sharegpt (c_session c) ∧
  s_unfinished (recorded_session c) = s_unfinished (c_session c) ∧
  s_results (recorded_session c) = s_results (c_session c) ++ option_list (c_recording c) ∧
  s_finished (recorded_session c) = s_finished (c_session c).
Proof. unfold recorded_session. destruct (c_recording c); simpl; rewrite ?app_nil_r; done. Qed.

Lemma protocol_recorded rounds q0 c : protocol rounds q0 c → protocol rounds q0 (client_act Recorded c).
Proof.
  intros [Hr Ha Hf Hi Ht Hl Hlo He Hc Hre Hfi Hs Hm].
  destruct (recorded_session_spec c) as (E1 & E2 & E3 & E4 & E5 & E6 & E7 & E8).
  split; cbn [client_act c_session c_in_flight c_launching c_sent c_error c_lost c_recording option_list];
    rewrite ?E1, ?E2, ?E3, ?E4, ?E5, ?E6, ?E7, ?E8, ?length_app; try done. simpl. lia.
Qed.

Lemma protocol_complete rounds q0 c i r : protocol rounds q0 c → protocol rounds q0 (client_act (Complete i r) c).
Proof.
  intros P. unfold client_act. destruct (c_in_flight c !! i) as [q|] eqn:Ei; [|done].
  destruct P as [Hr Ha Hf Hi Ht Hl Hlo He Hc Hre Hfi Hs Hm]. destruct Hf as [Hf|(q' & Hf & Hq)]; rewrite Hf in Ei; [done|].
  destruct i; [|done]. rewrite Hf.
  destruct (recorded_session_spec c) as (R1 & R2 & R3 & R4 & R5 & R6 & R7 & R8). rewrite <- R3 in Ha, Hq.
  destruct (on_request_finished_turn _ r Ha Hq) as (s' & -> & Ec & Eh & Eq & Eu & El & Er & Efin).
  destruct (on_system_response_turn _ (r_body r) Ha Hq) as [_ Ha'].
  rewrite R3 in Ha, Hq, Eh, Ha'. rewrite R1 in Ec. rewrite R2 in El. rewrite R4 in Eq. rewrite R7 in Er. rewrite R8 in Efin.
  split; simpl; rewrite ?Ec, ?Eh, ?Eq, ?Eu, ?El, ?Er, ?Efin; try done.
  - by left.
  - intros _ _ _. by rewrite turns_snoc, Hq.
  - intros HL. by destruct (Hl HL).
  - intros HE. rewrite asked_answer by done. by apply Hc.
  - rewrite asked_answer, !length_app by done. simpl. lia.
  - intros H. destruct (Hfi H) as (HL & HE & HU & _). destruct (Hi HL HE HU) as [HI _]. by rewrite Hf in HI.
  - intros j q1 Hj. destruct (Hm j q1 Hj) as [? ?]. split; [done|]. by apply prefix_app_r.
Qed.

(** A launch adds one question to the history and counts it. *)
Lemma protocol_launched rounds q0 c s' q t :
  protocol rounds q0 c → c_launching c = None → c_error c = None → s_unfinished (c_session c) = false →
  s_question_id (c_session c) < rounds → launched (c_session c) s' → q_messages q = s_history s' →
  protocol rounds q0 (mkSim s' (c_in_flight c ++ [q]) (Some t) (c_sent c ++ [q]) None (c_lost c) (c_recording c)).
Proof.
  intros [Hr Ha Hf Hi Ht Hl Hlo He Hc Hre Hfi Hs Hm] HL HE HU Hq [p ->] Hqm. destruct (Hi HL HE HU) as [Hfl Hturn].
  destruct (Hc HE) as [Hid Hn]. destruct (asked_query _ ("user", p)%string Hturn) as [Ha1 Ha2].
  destruct (on_user_query_turn _ p Ha Hturn) as [_ Ha'].
  split; simpl in *; rewrite ?Hfl; try done.
  - right. exists q. by rewrite turns_snoc, Hturn.
  - intros _. rewrite length_app, Ha1. simpl. lia.
  - rewrite length_app, Ha1. simpl. lia.
  - intros H. destruct (Hfi H) as (_ & _ & _ & ?). lia.
  - rewrite length_app. simpl. lia.
  - intros i q1 Hi1. apply lookup_app_Some in Hi1 as [Hi1|[Hi1 Hi2]].
    + destruct (Hm i q1 Hi1) as [? ?]. split; [done|]. by apply prefix_app_r.
    + apply list_lookup_singleton_Some in Hi2 as [Hi2 ->]. rewrite Hqm, length_app. simpl. split; [lia|done].
Qed.

(** A launch that raises ends the main thread. *)
Lemma protocol_raised rounds q0 c s' e :
  data_error e → protocol rounds q0 c → c_launching c = None → c_error c = None → s_unfinished (c_session c) = false →
  s_question_id (c_session c) < rounds → s' = c_session c ∨ launched (c_session c) s' →
  protocol rounds q0 (mkSim s' (c_in_flight c) None (c_sent c) (Some e) (c_lost c) (c_recording c)).
Proof.
  intros Hde [Hr Ha Hf Hi Ht Hl Hlo He Hc Hre Hfi Hs Hm] HL HE HU Hq Hs'. destruct (Hi HL HE HU) as [Hfl Hturn].
  destruct Hs' as [->|[p ->]]; split; simpl; rewrite ?Hfl; try done; try (by left); try (by right);
    try (by intros [? ?]); try (by intros ? [= <-]).
  - intros H. destruct (Hfi H) as (_ & _ & _ & ?). lia.
  - by destruct (on_user_query_turn _ p Ha Hturn) as [_ Ha'].
  - destruct (asked_query _ ("user", p)%string Hturn) as [-> _]. rewrite length_app. simpl. lia.
  - intros H. destruct (Hfi H) as (_ & _ & _ & ?). lia.
  - intros i q1 Hi1. destruct (Hm i q1 Hi1) as [? ?]. split; [done|]. by apply prefix_app_r.
Qed.

Lemma protocol_begin rounds q0 c t : protocol rounds q0 c → protocol rounds q0 (client_act (StepBegin t) c).
Proof.
  intros P. unfold client_act. destruct (c_launching c) eqn:HL; [done|]. destruct (c_error c) eqn:HE; [done|].
  assert (turns (s_history (c_session c)) = true ∨ s_unfinished (c_session c) = true) as Hor.
  { destruct (s_unfinished (c_session c)) eqn:HU; [by right|left]. by apply (p_idle _ _ _ P). }
  pose proof (step_begin_spec t (c_session c) (p_alternates _ _ _ P) Hor (p_time _ _ _ P)) as Hstep.
  destruct (step_begin t (c_session c)) as [[[q|]|e] s'].
  - destruct Hstep as (HU & Hq & Hlau & Hm). rewrite (p_rounds _ _ _ P) in Hq. by apply protocol_launched.
  - destruct Hstep as (Ec & Eh & Eq & Eu & Et & Er & Efi).
    destruct P as [Hr Ha Hf Hi Ht Hl Hlo He Hc Hre Hfi Hs Hm].
    split; simpl; rewrite ?Ec, ?Eh, ?Eq, ?Eu, ?Et, ?Er; try done.
    + intros _ _. by apply Hi.
    + intros _. by apply Hc.
    + intros H. destruct (Efi H) as [H'|[? ?]]; [by destruct (Hfi H') as (? & ? & ? & ?)|]. by rewrite Hr in *.
  - destruct Hstep as (HU & Hq & Hde & Hlau). rewrite (p_rounds _ _ _ P) in Hq. by apply protocol_raised.
Qed.

Lemma protocol_acts rounds q0 l c : protocol rounds q0 c → protocol rounds q0 (client_acts l c).
Proof.
  revert c. induction l as [|a l IH]; intros c P; [done|]. apply IH.
  destruct a; [by apply protocol_begin|by apply protocol_end|by apply protocol_complete|by apply protocol_recorded
    |by apply protocol_fail].
Qed.

(** A session before its first request: new, or placed in the middle of its
    life by [set_internal_state]. *)
Record fresh (s : UserSession) : Prop := {
  f_history : s_history s = [];
  f_unfinished : s_unfinished s = false;
  f_finished : s_finished s = false;
  f_results : s_results s = []
}.

Lemma fresh_new c d : fresh (new_session c d).
Proof. done. Qed.

Lemma fresh_internal_state offset t s : fresh s → fresh (set_internal_state offset t s).2.
Proof.
  intros [Hh Hu Hf Hr]. unfold set_internal_state. rewrite Hh. by destruct (true_div offset _).
Qed.

Lemma protocol_fresh s : fresh s → protocol (u_num_rounds (s_config s)) (s_question_id s) (new_client s).
Proof.
  intros [Hh Hu Hf Hr]. split; simpl; rewrite ?Hh, ?Hu, ?Hf, ?Hr; try done; try (by left); try lia.
  - intros _. split; [lia|done].
Qed.

(** A session that is marked as finished has sent exactly the rounds it had
    left, and every answer is among the results its summary reports, unless its
    callback has still to record it. *)
Lemma finished_counts s l :
  fresh s →
  let c := client_acts l (new_client s) in
  is_finished c = true →
  c_in_flight c = [] ∧ (length (summary c).2 + length (option_list (c_recording c)) = length (c_sent c))%nat ∧
  Z.of_nat (length (c_sent c)) = 0 `max` (u_num_rounds (s_config s) - s_question_id s).
Proof.
  intros Hs c Hfin. pose proof (protocol_acts _ _ l _ (protocol_fresh s Hs)) as [Hr Ha Hf Hi Ht Hl Hlo He Hc Hre Hfi Hse Hm].
  fold c in Hr, Ha, Hf, Hi, Ht, Hl, Hlo, He, Hc, Hre, Hfi, Hse, Hm.
  destruct (Hfi Hfin) as (HL & HE & HU & Hq). destruct (Hi HL HE HU) as [Hfl Hturn].
  destruct (Hc HE) as [Hid Hn]. destruct (asked_query _ ("", "")%string Hturn) as [_ Ha2].
  split_and!; [done| |lia]. simpl. lia.
Qed.

Definition wit_config : UserConfig := mkUser 7 2 1 20 5 2 false.
Definition wit_session : UserSession := new_session wit_config None.
Definition wit_answer : Response := mkResponse "once" 1 1 10 20 0 2.



(** ** Lost answers *)
(** The session waits for an answer that is not on its way. *)
Record stuck (c : client) : Prop := {
  k_waits : s_unfinished (c_session c) = true;
  k_started : is_Some (s_last_request_time (c_session c));
  k_empty : c_in_flight c = [];
  k_idle : c_launching c = None
}.

Definition silent (c c' : client) : Prop :=
  c_sent c' = c_sent c ∧ is_finished c' = is_finished c ∧
  s_history (c_session c') = s_history (c_session c).

Lemma stuck_step t s :
  s_unfinished s = true → is_Some (s_last_request_time s) →
  ∃ s', step_begin t s = (Ret None, s') ∧ s_unfinished s' = true ∧ is_Some (s_last_request_time s') ∧
    s_finished s' = s_finished s ∧ s_results s' = s_results s ∧ s_history s' = s_history s.
Proof.
  intros Hu [t0 Ht]. unfold step_begin. rewrite Hu, Ht, andb_false_r.
  destruct (Qltb _ (t - t0)); [destruct (Qltb _ _)|]; eexists; (split; [reflexivity|]); simpl; rewrite ?Ht; eauto.
Qed.

Lemma stuck_act a c : stuck c → stuck (client_act a c) ∧ silent c (client_act a c).
Proof.
  intros [Hw Hs He Hi]. unfold client_act. destruct a; rewrite ?He, ?Hi; try done.
  2:{ destruct (recorded_session_spec c) as (_ & R2 & R3 & _ & _ & R6 & _ & R8). rewrite <- He.
      split; [split|]; simpl; rewrite ?R2, ?R6; try done. }
  destruct (c_error c); [done|]. destruct (stuck_step timestamp _ Hw Hs) as (s' & -> & Hu & Ht & Hf & Hr & Hh).
  by rewrite <- He.
Qed.

Lemma stuck_acts l c : stuck c → stuck (client_acts l c) ∧ silent c (client_acts l c).
Proof.
  revert c. induction l as [|a l IH]; intros c Hc; [done|]. destruct (stuck_act a c Hc) as [H1 (Ha & Hb & He)].
  destruct (IH _ H1) as [H2 (Ha' & Hb' & He')]. split; [done|].
  by repeat split; etrans.
Qed.

(** The ways an answer is lost: it arrives before the main thread has noted
    that it waits for it, or the request fails. *)
Inductive loses : list act → Prop :=
| LoseEarly r : loses [Complete 0 r; StepEnd]
| LoseFailed : loses [StepEnd; Fail 0]
| LoseFailedEarly : loses [Fail 0; StepEnd].

Lemma loses_stuck s t q s' l :
  fresh s → step_begin t s = (Ret (Some q), s') → loses l →
  let c := client_acts (StepBegin t :: l) (new_client s) in
  stuck c ∧ c_sent c = [q] ∧ is_finished c = false.
Proof.
  intros Hs Hq Hl. pose proof (protocol_begin _ _ _ t (protocol_fresh s Hs)) as P. simpl.
  unfold client_act at 1 in P. simpl in P. rewrite Hq in P. simpl in P. rewrite Hq. simpl.
  assert (s_finished s' = false) as Hf.
  { apply not_true_is_false. intros H. by destruct (p_finished _ _ _ P H) as (? & _). }
  destruct Hl; simpl; [|done|done].
  destruct (p_flight _ _ _ P) as [?|(q' & Hq' & Hturn)]; [done|].
  unfold recorded_session. cbn [c_recording c_session].
  destruct (on_request_finished_turn s' r (p_alternates _ _ _ P) Hturn) as (s2 & -> & Ec & Eh & Eq & Eu & El & Er & Ef).
  simpl. by rewrite <- Ef in Hf.
Qed.

(** An answer that arrives between the call of the executor and the
    assignment of [has_unfinished_request], or that never comes because the
    request failed, leaves the session waiting for ever: whatever happens
    next, it sends no other request and is never finished or summarised. *)
Theorem lost_answer_sticks s t q s' l more :
  fresh s → step_begin t s = (Ret (Some q), s') → loses l →
  let c := client_acts (StepBegin t :: l ++ more) (new_client s) in
  c_sent c = [q] ∧ is_finished c = false ∧ c_in_flight c = [].
Proof.
  intros Hs Hq Hl c. destruct (loses_stuck s t q s' l Hs Hq Hl) as (Hk & Hsent & Hf).
  destruct (stuck_acts more _ Hk) as [Hk' (H1 & H2 & _)].
  assert (c = client_acts more (client_acts (StepBegin t :: l) (new_client s))) as ->.
  { subst c. change (StepBegin t :: l ++ more) with ((StepBegin t :: l) ++ more). apply foldl_app. }
  rewrite H1, H2. split_and!; [done|done|]. apply k_empty, Hk'.
Qed.

Lemma lost_answer_sticks_witness :
  is_finished (client_acts [StepBegin 1; Complete 0 wit_answer; StepEnd; StepBegin 7; StepBegin 1000]
                 (new_client wit_session)) = false.
Proof.
  refine (proj1 (proj2 (lost_answer_sticks wit_session 1 _ _ _ [StepBegin 7; StepBegin 1000] (fresh_new _ _) _
    (LoseEarly wit_answer)))).
  reflexivity.
Defined.

(** ** Prompt answers *)
(** Rounds that start [d] seconds after each other, with every answer recorded in
    between, and one more step. *)
Fixpoint rounds_from (t d : Q) (answers : list Response) : list act :=
  match answers with
  | [] => [StepBegin t]
  | r :: answers => StepBegin t :: StepEnd :: Complete 0 r :: Recorded :: rounds_from (t + d) d answers
  end.

(** The session may launch at [t]. *)
Definition due (t : Q) (s : UserSession) : Prop :=
  match s_last_request_time s with None => True | Some t0 => (u_gap (s_config s) < t - t0)%Q end.

Lemma launch_synthetic s :
  s_sharegpt s = None → alternates true (s_history s) → turns (s_history s) = true →
  ∃ q s', launch_begin s = (Ret q, s') ∧ launched s s'.
Proof.
  intros Hd Ha Ht. pose proof (launch_begin_spec s Ha Ht) as Hl.
  destruct (launch_begin s) as [[q|e] s'] eqn:E; [by exists q, s'; destruct Hl|exfalso].
  revert E. unfold launch_begin. unfold mbind at 1, M_bind at 1. unfold next_prompt. rewrite Hd. unfold build_new_question.
  unfold mbind at 1, M_bind at 1, gets at 1. unfold mbind at 1, M_bind at 1, gets at 1.
  set (p := match s_history _ with [] => _ | _ => _ end). clearbody p.
  unfold mbind at 1, M_bind at 1, on_history. change (s_history (set_question _ s)) with (s_history s).
  destruct (on_user_query_turn (s_history s) p Ha Ht) as [-> _].
  unfold mbind, M_bind, gets, lift, max_tokens_of. simpl. by rewrite Hd.
Qed.

Record ready (t : Q) (c : client) : Prop := {
  y_synthetic : s_sharegpt (c_session c) = None;
  y_alternates : alternates true (s_history (c_session c));
  y_turn : turns (s_history (c_session c)) = true;
  y_unfinished : s_unfinished (c_session c) = false;
  y_due : due t (c_session c);
  y_flight : c_in_flight c = [];
  y_launching : c_launching c = None;
  y_error : c_error c = None;
  y_recording : c_recording c = None
}.

Lemma step_begin_ready t s :
  s_sharegpt s = None → alternates true (s_history s) → turns (s_history s) = true →
  s_unfinished s = false → due t s → s_question_id s < u_num_rounds (s_config s) →
  ∃ q s', step_begin t s = (Ret (Some q), s') ∧ launched s s'.
Proof.
  intros Hd Ha Ht Hu Hdue Hq. destruct (launch_synthetic s Hd Ha Ht) as (q & s' & E & Hl). exists q, s'. split; [|done].
  assert ((q ← launch_begin; mret (Some q)) s = (Ret (Some q), s')) as E'.
  { unfold mbind, M_bind. by rewrite E. }
  unfold step_begin. rewrite (proj2 (Z.leb_gt _ _) Hq), Hu. cbn [andb negb].
  unfold due in Hdue. destruct (s_last_request_time s); [|done]. by rewrite (proj2 (Qltb_lt _ _) Hdue).
Qed.

Lemma one_round t d r c :
  ready t c → s_question_id (c_session c) < u_num_rounds (s_config (c_session c)) →
  (u_gap (s_config (c_session c)) < d)%Q →
  let c' := client_acts [StepBegin t; StepEnd; Complete 0 r; Recorded] c in
  ready (t + d) c' ∧ s_config (c_session c') = s_config (c_session c) ∧
  s_question_id (c_session c') = s_question_id (c_session c) + 1 ∧
  s_results (c_session c') = s_results (c_session c) ++ [r].
Proof.
  intros [Hd Ha Ht Hu Hdue Hf Hl He Hrec] Hq Hgap. simpl. rewrite Hl, He, Hf.
  destruct (step_begin_ready t _ Hd Ha Ht Hu Hdue Hq) as (q & s' & -> & [p ->]). simpl.
  set (s1 := launch_end t _).
  assert (alternates true (s_history s1)) as Ha1 by apply (on_user_query_turn _ p Ha Ht).
  assert (turns (s_history s1) = false) as Ht1 by (subst s1; simpl; by rewrite turns_snoc, Ht).
  destruct (on_system_response_turn _ (r_body r) Ha1 Ht1) as [Er Ha2].
  unfold recorded_session. cbn [c_recording c_session]. rewrite !Hrec.
  unfold on_request_finished, mbind, M_bind, on_history. rewrite !Er. simpl. split; [|done].
  split; simpl; try done.
  - exact (eq_trans (turns_snoc _ _) (f_equal negb Ht1)).
  - unfold due. simpl. lra.
Qed.

Lemma rounds_complete t d answers c :
  ready t c → (u_gap (s_config (c_session c)) < d)%Q →
  length answers = Z.to_nat (u_num_rounds (s_config (c_session c)) - s_question_id (c_session c)) →
  let c' := client_acts (rounds_from t d answers) c in
  is_finished c' = true ∧ s_results (c_session c') = s_results (c_session c) ++ answers ∧
  s_config (c_session c') = s_config (c_session c).
Proof.
  revert t c. induction answers as [|r answers IH]; intros t c Hc Hgap Hn.
  - destruct Hc as [Hd Ha Ht Hu Hdue Hf Hl He Hrec]. simpl in Hn. simpl. rewrite Hl, He.
    unfold step_begin. rewrite Hu, (proj2 (Z.leb_le _ _)) by lia. simpl. by rewrite app_nil_r.
  - simpl in Hn. destruct (one_round t d r c Hc ltac:(lia) Hgap) as (Hc' & Hcfg & Hid & Hres).
    change (rounds_from t d (r :: answers)) with ([StepBegin t; StepEnd; Complete 0 r; Recorded] ++ rounds_from (t + d) d answers).
    unfold client_acts at 1. rewrite foldl_app. fold (client_acts [StepBegin t; StepEnd; Complete 0 r; Recorded] c).
    set (c1 := client_acts [StepBegin t; StepEnd; Complete 0 r; Recorded] c) in *. clearbody c1.
    destruct (IH (t + d)%Q c1 Hc' ltac:(by rewrite Hcfg) ltac:(rewrite Hcfg, Hid; lia)) as (H1 & H2 & H3).
    unfold client_acts in H1, H2, H3. split; [done|]. by rewrite H2, H3, Hres, <- app_assoc.
Qed.

(** A new session with synthetic questions finishes when the main thread
    steps it at intervals longer than its gap and answers arrive in between:
    after as many answers as it has rounds left and one more step it is
    finished, and its results are exactly these answers, in order. *)
Theorem session_completes s t d answers :
  fresh s → s_sharegpt s = None → s_last_request_time s = None → (u_gap (s_config s) < d)%Q →
  length answers = Z.to_nat (u_num_rounds (s_config s) - s_question_id s) →
  let c := client_acts (rounds_from t d answers) (new_client s) in
  is_finished c = true ∧ summary c = (u_user_id (s_config s), answers).
Proof.
  intros [Hh Hu Hf Hr] Hd Ht Hgap Hn c.
  destruct (rounds_complete t d answers (new_client s)) as (H1 & H2 & H3); [|done|done|].
  - split; simpl; rewrite ?Hh; try done. unfold due. by rewrite Ht.
  - split; [done|]. unfold summary, session_user. subst c. rewrite H2, H3. simpl. by rewrite Hr.
Qed.

Lemma session_completes_witness :
  is_finished (client_acts (rounds_from 1 6 [wit_answer; wit_answer]) (new_client wit_session)) = true.
Proof.
  refine (proj1 (session_completes wit_session 1 6 [wit_answer; wit_answer] (fresh_new _ _) eq_refl eq_refl _ eq_refl)).
  reflexivity.
Defined.

(** ** The manager's users *)
Definition users (m : manager) : list Z := (m_summaries m).*1 ++ (session_user <$> m_sessions m).

(** What a session keeps for its whole life *)
Definition origin (s : UserSession) : UserConfig * option sharegpt := (s_config s, s_sharegpt s).

Lemma launch_begin_origin k : keeps (λ s, origin s = k) launch_begin.
Proof.
  unfold launch_begin. apply keeps_bind; [|intros p; repeat (apply keeps_bind; [|intros]); auto with keeps_db].
  - intros s <-. unfold origin, next_prompt, build_new_question. destruct (s_sharegpt s) as [d|] eqn:E; [|by simpl; rewrite E].
    by destruct (conversation_at _ _); simpl; rewrite E.
  - intros s <-. unfold on_history. by destruct (on_user_query _ _).
Qed.

Lemma step_begin_origin k t : keeps (λ s, origin s = k) (step_begin t).
Proof.
  intros s Hk. pose proof (launch_begin_origin k s Hk) as Hl. unfold step_begin, mbind, M_bind.
  destruct (launch_begin s) as [[q|e] s']; repeat case_match; cbn in *; simplify_eq; try done; unfold origin in *; simpl in *; congruence.
Qed.

Lemma client_act_origin a c : origin (c_session (client_act a c)) = origin (c_session c).
Proof.
  unfold client_act. destruct a.
  - destruct (c_launching c), (c_error c); try done.
    rewrite <- (step_begin_origin (origin (c_session c)) timestamp (c_session c) eq_refl).
    by destruct (step_begin _ _) as [[[q|]|e] s'].
  - by destruct (c_launching c).
  - destruct (c_in_flight c !! i); [|done]. unfold on_request_finished, mbind, M_bind, on_history, origin.
    destruct (recorded_session_spec c) as (R1 & _ & _ & _ & R5 & _).
    destruct (on_system_response _ _) as [[[]|e] h]; simpl; by rewrite R1, R5.
  - unfold origin. destruct (recorded_session_spec c) as (R1 & _ & _ & _ & R5 & _). simpl. by rewrite R1, R5.
  - done.
Qed.

Lemma client_act_user a c : session_user (client_act a c) = session_user c.
Proof. unfold session_user. f_equal. exact (f_equal fst (client_act_origin a c)). Qed.

Lemma client_acts_user l c : session_user (client_acts l c) = session_user c.
Proof. revert c. induction l as [|a l IH]; intros c; [done|]. etrans; [apply IH|apply client_act_user]. Qed.

(** A session the manager made, after some actions. *)
Definition genuine (rounds : Z) (c : client) : Prop :=
  ∃ s l, fresh s ∧ u_num_rounds (s_config s) = rounds ∧ c = client_acts l (new_client s).

Lemma genuine_act rounds a c : genuine rounds c → genuine rounds (client_act a c).
Proof.
  intros (s & l & Hs & Hr & ->). exists s, (l ++ [a]). split_and!; try done.
  unfold client_acts. by rewrite foldl_app.
Qed.

Lemma genuine_acts rounds l c : genuine rounds c → genuine rounds (client_acts l c).
Proof. revert c. induction l as [|a l IH]; intros c Hc; [done|]. apply IH. by apply genuine_act. Qed.

(** What a summary reports: one row for every request of a session whose
    requests have all been answered, but for one whose callback is still
    recording its answer. *)
Definition tallied (rounds : Z) (p : Z * list Response) : Prop :=
  ∃ c, genuine rounds c ∧ summary c = p ∧ c_in_flight c = [] ∧
    (length p.2 + length (option_list (c_recording c)) = length (c_sent c))%nat.

Lemma genuine_tallied rounds c : genuine rounds c → is_finished c = true → tallied rounds (summary c).
Proof.
  intros (s & l & Hs & Hr & Ec) Hf. exists c. subst c.
  destruct (finished_counts s l Hs Hf) as (H1 & H2 & _). split_and!; try done. by exists s, l.
Qed.

Record managed (rounds init : Z) (m : manager) : Prop := {
  g_rounds : w_num_rounds (m_config m) = rounds;
  g_init : init ≤ m_user_id m;
  g_users : users m ≡ₚ seqZ (init + 1) (m_user_id m - init);
  g_sessions : Forall (genuine rounds) (m_sessions m);
  g_summaries : Forall (tallied rounds) (m_summaries m)
}.

(** The bookkeeping fields do not matter. *)
Lemma managed_same rounds init m m' :
  m_config m' = m_config m → m_user_id m' = m_user_id m → m_sessions m' = m_sessions m →
  m_summaries m' = m_summaries m → managed rounds init m → managed rounds init m'.
Proof. intros E1 E2 E3 E4 [H1 H2 H3 H4 H5]. unfold users in H3. by split; unfold users; rewrite ?E1, ?E2, ?E3, ?E4. Qed.

Lemma managed_create rounds init m u m' :
  managed rounds init m → create_user_session m = (Ret u, m') →
  managed rounds init m' ∧ ∃ s, last (m_sessions m') = Some (new_client s) ∧ fresh s.
Proof.
  intros [H1 H2 H3 H4 H5]. unfold create_user_session, new_user_config, mbind, outcome_bind.
  destruct (true_div _ _) as [gap|]; [|done]. destruct (user_data _ _) as [d|]; [|done].
  intros [= <- <-]. split; [split|]; simpl; try done; [lia| | |].
  - unfold users in *. simpl. rewrite fmap_app, app_assoc, H3. simpl.
    replace (m_user_id m + 1 - init) with ((m_user_id m - init) + 1) by lia.
    rewrite seqZ_app by lia. simpl. rewrite Permutation_app_head; [done|].
    replace (init + 1 + (m_user_id m - init)) with (m_user_id m + 1) by lia. done.
  - apply Forall_app. split; [done|]. apply Forall_singleton.
    by exists (new_session (mkUser (m_user_id m + 1) (w_system_prompt_len (m_config m)) (w_user_info_len (m_config m))
      (w_answer_len (m_config m)) gap (w_num_rounds (m_config m)) (w_enable_user_id (m_config m))) d), [].
  - rewrite last_snoc. by eexists.
Qed.

Lemma set_internal_state_config offset t s : s_config (set_internal_state offset t s).2 = s_config s.
Proof. unfold set_internal_state. destruct (s_history s); [|done]. by destruct (true_div _ _). Qed.

Lemma managed_internal rounds init offset t m s :
  managed rounds init m → last (m_sessions m) = Some (new_client s) → fresh s →
  managed rounds init (on_last_session (set_internal_state offset t) m).2.
Proof.
  intros [H1 H2 H3 H4 H5] Hl Hs. unfold on_last_session. rewrite Hl. simpl.
  pose proof (fresh_internal_state offset t s Hs) as Hs'. pose proof (set_internal_state_config offset t s) as Ec.
  destruct (set_internal_state offset t s) as [r s'] eqn:Es. simpl in *.
  apply last_Some in Hl as [l El]. rewrite El in *.
  replace (take (length (l ++ [new_client s]) - 1) (l ++ [new_client s])) with l
    by (rewrite length_app, Nat.add_sub, take_app_length; done).
  apply Forall_app in H4 as [H4 Hg]. apply Forall_singleton in Hg as (s0 & l0 & Hs0 & Hr0 & E0).
  assert (u_num_rounds (s_config s) = rounds) as Hrounds.
  { change (u_num_rounds (s_config (c_session (new_client s))) = rounds). rewrite E0, <- Hr0.
    apply (p_rounds _ _ _ (protocol_acts _ _ l0 _ (protocol_fresh s0 Hs0))). }
  split; simpl; try done.
  - unfold users in *. rewrite El in H3. simpl. rewrite fmap_app in *. rewrite <- H3.
    unfold session_user. simpl. by rewrite Ec.
  - apply Forall_app. split; [done|]. apply Forall_singleton. exists s', []. by rewrite Ec.
Qed.

Lemma managed_ramp_loop rounds init n i t : upholds (managed rounds init) (ramp_loop n i t).
Proof.
  revert i. induction n as [|n IH]; intros i m Hm; [done|]. cbn [ramp_loop]. unfold mbind at 1, M_bind at 1.
  destruct (create_user_session m) as [[u|e] m1] eqn:E; [|done].
  destruct (managed_create _ _ _ _ _ Hm E) as (Hm1 & s & Hl & Hs). unfold mbind at 1, M_bind at 1, gets at 1.
  destruct (Qltb _ 0); [done|]. unfold mbind, M_bind.
  pose proof (managed_internal _ _ (m_ramp_up_time m1 - inject_Z i * m_gap_between_users m1)%Q t _ _ Hm1 Hl Hs) as Hm2.
  destruct (on_last_session _ m1) as [[u'|e] m2]; [by apply IH|done].
Qed.

Lemma managed_modify rounds init f :
  (∀ m, m_config (f m) = m_config m ∧ m_user_id (f m) = m_user_id m ∧ m_sessions (f m) = m_sessions m ∧
        m_summaries (f m) = m_summaries m) →
  upholds (managed rounds init) (modify f).
Proof. intros Hf m Hm. simpl. destruct (Hf m) as (? & ? & ? & ?). by eapply managed_same. Qed.

Lemma step_sessions_genuine rounds t mid l :
  Forall (genuine rounds) l →
  Forall (genuine rounds) (step_sessions t mid l).2 ∧
  session_user <$> (step_sessions t mid l).2 = session_user <$> l.
Proof.
  revert mid. induction l as [|c l IH]; intros mid Hl; [done|]. apply Forall_cons in Hl as [Hc Hl].
  cbn [step_sessions]. set (c' := client_act StepEnd _).
  assert (genuine rounds c') as Hc' by (apply genuine_act, genuine_acts, genuine_act, Hc).
  assert (session_user c' = session_user c) as Hu.
  { unfold c'. rewrite client_act_user, client_acts_user. apply client_act_user. }
  clearbody c'. destruct (c_error c'); [simpl; rewrite Hu; split; [by constructor|done]|].
  destruct (IH (tail mid) Hl) as [H1 H2]. destruct (step_sessions t (tail mid) l) as [r l']. cbn [snd] in *.
  split; [by constructor|]. by rewrite !fmap_cons, Hu, H2.
Qed.

Lemma managed_sessions rounds init m l :
  managed rounds init m → Forall (genuine rounds) l → session_user <$> l = session_user <$> m_sessions m →
  managed rounds init (with_sessions l m).
Proof. intros [H1 H2 H3 H4 H5] Hl Hu. split; try done. unfold users in *. simpl. by rewrite Hu. Qed.

Lemma filter_split_permutation {A} (f : A → bool) (l : list A) :
  filter (λ x, f x = true) l ++ filter (λ x, f x = false) l ≡ₚ l.
Proof.
  induction l as [|x l IH]; [done|]. rewrite !filter_cons. destruct (f x) eqn:E; simpl; [by rewrite IH|].
  by rewrite <- Permutation_middle, IH.
Qed.

Lemma managed_remove rounds init : upholds (managed rounds init) (modify remove_finished_sessions).
Proof.
  intros m [H1 H2 H3 H4 H5]. simpl. split; simpl; try done.
  - unfold users in *. simpl. rewrite <- H3, fmap_app, <- app_assoc, Permutation_app_head; [done|].
    rewrite <- list_fmap_compose. change (fst ∘ summary) with session_user. rewrite <- fmap_app.
    by rewrite filter_split_permutation.
  - apply Forall_forall. intros c Hc. apply list_elem_of_filter in Hc as [_ Hc]. by eapply Forall_forall in H4.
  - apply Forall_app. split; [done|]. apply Forall_fmap, Forall_forall. intros c Hc.
    apply list_elem_of_filter in Hc as [Hf Hc]. apply genuine_tallied; [|done]. by eapply Forall_forall in H4.
Qed.

Lemma managed_step rounds init t mid : upholds (managed rounds init) (manager_step t mid).
Proof.
  unfold manager_step. apply upholds_bind; [by apply keeps_upholds, keeps_gets|intros need].
  apply upholds_bind; [|intros _; apply upholds_bind; [by apply managed_modify|intros _]].
  { destruct need; [|by intros m]. unfold ramp_up. apply upholds_bind; [by apply keeps_upholds, keeps_gets|intros n].
    apply upholds_bind; [apply managed_ramp_loop|intros _]. by apply managed_modify. }
  apply upholds_bind; [by apply keeps_upholds, keeps_gets|intros join].
  apply upholds_bind; [|intros _; apply upholds_bind; [|intros _; apply managed_remove]].
  - destruct join; [|by intros m]. apply upholds_bind; [|intros _; by apply managed_modify].
    intros m Hm. destruct (create_user_session m) as [[u|e] m'] eqn:E; [|done]. by eapply managed_create in E as [? _].
  - intros m Hm. destruct (step_sessions_genuine rounds t mid _ (g_sessions _ _ _ Hm)) as [H1 H2].
    destruct (step_sessions t mid (m_sessions m)) as [[u|e] l]; [|done]. by apply managed_sessions.
Qed.

Lemma managed_callback rounds init i a m : managed rounds init m → managed rounds init (callback i a m).
Proof.
  intros Hm. apply managed_sessions; [done| |].
  - apply Forall_alter; [apply Hm|]. intros c _ Hc. by apply genuine_act.
  - generalize (m_sessions m) as l. clear. intros l. revert i. induction l as [|c l IH]; intros [|i]; simpl; try done.
    + by rewrite client_act_user.
    + f_equal. apply IH.
Qed.

(** What happens to a manager. *)
Inductive happening : Type :=
| ManagerStep (timestamp : Q) (mid : list (list act))
| Callback (i : nat) (a : act).

Definition manager_event (e : happening) : M manager unit :=
  match e with ManagerStep t mid => manager_step t mid | Callback i a => modify (callback i a) end.

Fixpoint manager_events (l : list happening) : M manager unit :=
  match l with [] => mret tt | e :: l => _ ← manager_event e; manager_events l end.

Lemma managed_events rounds init l : upholds (managed rounds init) (manager_events l).
Proof.
  induction l as [|e l IH]; [by intros m|]. apply upholds_bind; [|done].
  destruct e; [apply managed_step|]. intros m Hm. simpl. by apply managed_callback.
Qed.

Lemma managed_new w init data m : new_manager w init data = Ret m → managed (w_num_rounds w) init m.
Proof.
  unfold new_manager, mbind, outcome_bind. destruct (true_div _ _); [|done]. destruct (true_div _ _); [|done].
  intros [= <-]. split; simpl; try done. unfold users. simpl. by rewrite Z.sub_diag.
Qed.

(** Through every run of the manager that has not ended in an exception,
    with any callbacks between and during its steps: the users that are active
    and those whose sessions have been summarised are together exactly the ids
    handed out, each once, and every summary has one row for each request its
    session sent, but for one whose callback was still recording its answer. *)
Theorem users_accounted w init data l m0 m :
  new_manager w init data = Ret m0 → manager_events l m0 = (Ret tt, m) →
  (m_summaries m).*1 ++ (session_user <$> m_sessions m) ≡ₚ seqZ (init + 1) (m_user_id m - init) ∧
  Forall (tallied (w_num_rounds w)) (m_summaries m).
Proof.
  intros H0 Hl. pose proof (managed_events _ _ l _ (managed_new _ _ _ _ H0)) as Hm. rewrite Hl in Hm.
  split; [apply (g_users _ _ _ Hm)|apply (g_summaries _ _ _ Hm)].
Qed.

Definition wit_workload : WorkloadConfig := mkWorkload 2 2 1 20 2 1 "m" false.
Definition wit_events : list happening :=
  [ManagerStep 100 []; ManagerStep 103 []; Callback 0 (Complete 0 wit_answer); ManagerStep 104 []].

Definition wit_manager : manager :=
  Eval vm_compute in
  match new_manager wit_workload 0 None with
  | Ret m => m
  | Raise _ => mkManager wit_workload [] 0 0 0 0 [] None true None
  end.
Definition wit_after : manager := (manager_events wit_events wit_manager).2.

Lemma users_accounted_witness :
  (m_summaries wit_after).*1 = [1; 2] ∧ length (m_sessions wit_after) = 2%nat ∧
  (m_summaries wit_after).*1 ++ (session_user <$> m_sessions wit_after) ≡ₚ seqZ (0 + 1) (m_user_id wit_after - 0).
Proof.
  split; [vm_compute; reflexivity|split; [vm_compute; reflexivity|]].
  refine (proj1 (users_accounted wit_workload 0 None wit_events wit_manager wit_after _ _)).
  - vm_compute. reflexivity.
  - unfold wit_after. vm_compute. reflexivity.
Defined.
