(* ===== verification/BenchMain.v ===== *)
(** * The load generator's program: statistics, event loop thread and [main]

    [benchmarks/multi-round-qa/multi-round-qa.py] from [ProcessSummary] on, with
    [AsyncLoopWrapper] of [utils.py], on top of the manager of [Bench].  A data
    frame is its list of rows; clock readings, the answers of the server and
    the moments at which they arrive are arguments.  A keyboard interrupt
    arrives while the main thread sleeps. *)
From stdpp Require Import base list strings gmap.
From Stdlib Require Import Ascii QArith Qround Qminmax.
From S2P Require Import Prelude PyDict PyStr JsonText Bench.

Local Open Scope Z_scope.

(** ** Data frames *)
Record frame_row := mkRow { w_user_id : Z; w_question_id : Z; w_response : Response }.
Notation frame := (list frame_row).

(** The frame of [UserSession.summary] *)
Definition summary_rows (p : Z * list Response) : frame :=
  imap (λ i r, mkRow p.1 (Z.of_nat i + 1) r) p.2.

(** A number of Python or of numpy, where it may be not finite ([None]) *)
Inductive py_number : Type :=
| PyFloat (q : Q)
| NpFloat (q : option Q).

Definition value (n : py_number) : option Q := match n with PyFloat q => Some q | NpFloat o => o end.

Definition number_sub (a b : py_number) : py_number :=
  match a, b with
  | PyFloat x, PyFloat y => PyFloat (x - y)
  | _, _ => NpFloat (x ← value a; y ← value b; Some (x - y)%Q)
  end.

(** Division of an [int]: only Python's own floats raise. *)
Definition number_div (x : Z) (n : py_number) : outcome (option Q) :=
  match n with
  | PyFloat y => q ← true_div (inject_Z x) y; Ret (Some q)
  | NpFloat o => Ret (y ← o; if Qeq_bool y 0 then None else Some (inject_Z x / y)%Q)
  end.

Definition number_truthy (n : py_number) : bool := match value n with Some q => negb (Qeq_bool q 0) | None => true end.

(** [min] and [max] of a column *)
Fixpoint column_best (better : Q → Q → bool) (l : list Q) : option Q :=
  match l with
  | [] => None
  | x :: l => match column_best better l with
              | None => Some x
              | Some y => Some (if better y x then y else x)
              end
  end.
Definition column_min : list Q → option Q := column_best Qltb.
Definition column_max : list Q → option Q := column_best (λ x y, Qltb y x).

Definition q_sum (l : list Q) : Q := foldr Qplus 0%Q l.
Definition mean (l : list Q) : option Q :=
  match l with [] => None | _ => Some (q_sum l / inject_Z (Z.of_nat (length l)))%Q end.

Definition launch_time (w : frame_row) : Q := r_launch_time (w_response w).
Definition finish_time (w : frame_row) : Q := r_finish_time (w_response w).
Definition between (lo hi : Q) (x : Q) : bool := Qle_bool lo x && Qle_bool x hi.
Definition prompt_tokens (df : frame) : Z := foldr (λ w, Z.add (r_prompt_tokens (w_response w))) 0 df.
Definition generation_tokens (df : frame) : Z := foldr (λ w, Z.add (r_generation_tokens (w_response w))) 0 df.

(** What [ProcessSummary] prints *)
Record report := mkReport {
  p_qps : Q;
  p_speed : option Q;
  p_pending : Z;
  p_input_speed : option Q;
  p_output_speed : option Q;
  p_request_speed : option Q;
  p_ttft : option Q;
  p_range : py_number * py_number;
  p_total_time : py_number
}.

(** Both bounds are given and not zero: requests launched between them, and the
    rows that finished between them; otherwise everything. *)
Definition select_rows (df : frame) (start_time end_time : option py_number) : outcome (Z * frame) :=
  match start_time, end_time with
  | Some s, Some e =>
      if number_truthy s && number_truthy e then
        match value s, value e with
        | Some lo, Some hi =>
            Ret (Z.of_nat (length (filter (λ w, between lo hi (launch_time w) = true) df)),
                 filter (λ w, between lo hi (finish_time w) = true) df)
        | _, _ => Raise (OtherError "UndefinedVariableError")   (* the query would name [nan] *)
        end
      else Ret (Z.of_nat (length df), df)
  | _, _ => Ret (Z.of_nat (length df), df)
  end.

Definition request_speed (df : frame) : option Q :=
  speeds ← mapM (λ w, let t := r_generation_time (w_response w) in
                      if Qeq_bool t 0 then None else Some (inject_Z (r_generation_tokens (w_response w)) / t)%Q) df;
  mean speeds.

Definition ProcessSummary (df : frame) (start_time end_time : option py_number) (pending_queries : Z) (qps : option Q)
  : outcome (report * frame) :=
  '(launched_queries, df) ← select_rows df start_time end_time;
  let qps := default 0%Q qps in
  let start_time := default (NpFloat (column_min (launch_time <$> df))) start_time in
  let end_time := default (NpFloat (column_max (finish_time <$> df))) end_time in
  let total_time := number_sub end_time start_time in
  _ ← number_div (launched_queries + pending_queries) total_time;
  finished_qps ← number_div (Z.of_nat (length df)) total_time;
  input_speed ← number_div (prompt_tokens df) (NpFloat (value total_time));
  output_speed ← number_div (generation_tokens df) (NpFloat (value total_time));
  Ret (mkReport qps finished_qps pending_queries input_speed output_speed (request_speed df)
         (mean ((λ w, r_ttft (w_response w)) <$> df)) (start_time, end_time) total_time, df).

(** Python's [min(a, b)] of a float and a column's maximum, which may be missing *)
Definition min_number (a : Q) (b : option Q) : py_number :=
  match b with Some y => if Qltb y a then NpFloat (Some y) else PyFloat a | None => PyFloat a end.

Definition all_rows (m : manager) : frame :=
  mjoin (summary_rows <$> (m_summaries m ++ (summary <$> m_sessions m))).

Definition pending_queries_of (m : manager) : Z :=
  Z.of_nat (length (filter (λ c, s_unfinished (c_session c) = true) (m_sessions m))).

(** [UserSessionManager.summary]; [None] is the report when there is no session. *)
Definition manager_summary (m : manager) (start_time end_time : Q) : outcome (option report * frame) :=
  match m_summaries m, m_sessions m with
  | [], [] => Ret (None, [])
  | _, _ =>
      let df := all_rows m in
      start ← or_raise TypeError (m_start_time m);
      let start_time := if Qltb start start_time then start_time else start in
      let end_time := min_number end_time (column_max (finish_time <$> df)) in
      '(r, df) ← ProcessSummary df (Some (PyFloat start_time)) (Some end_time) (pending_queries_of m) (Some (w_qps (m_config m)));
      Ret (Some r, df)
  end.

(** [process_output]: the summary of a file that is already there *)
Definition process_output (df : frame) : outcome (report * frame) := ProcessSummary df None None 0 None.

(** ** The process: [AsyncLoopWrapper], the requests on the loop, the output *)
Record bench := mkBench {
  b_loop : option bool;        (* the event loop, once created: is it running? *)
  b_thread : option bool;      (* its thread, once started: is it alive? *)
  b_warm : list chat_request;  (* warm-up requests on their way *)
  b_manager : option manager;
  b_reports : list report;     (* what was printed *)
  b_csv : option frame         (* what was written to the output file *)
}.

Definition set_loop (loop thread : option bool) (b : bench) : bench :=
  mkBench loop thread (b_warm b) (b_manager b) (b_reports b) (b_csv b).
Definition set_warm (l : list chat_request) (b : bench) : bench :=
  mkBench (b_loop b) (b_thread b) l (b_manager b) (b_reports b) (b_csv b).
Definition set_manager (m : manager) (b : bench) : bench :=
  mkBench (b_loop b) (b_thread b) (b_warm b) (Some m) (b_reports b) (b_csv b).
Definition add_report (r : option report) (b : bench) : bench :=
  mkBench (b_loop b) (b_thread b) (b_warm b) (b_manager b) (b_reports b ++ option_list r) (b_csv b).
Definition set_csv (df : frame) (b : bench) : bench :=
  mkBench (b_loop b) (b_thread b) (b_warm b) (b_manager b) (b_reports b) (Some df).

Definition user_tasks (m : manager) : nat := sum_list_with (λ c, length (c_in_flight c)) (m_sessions m).
(** [asyncio.all_tasks] *)
Definition all_tasks (b : bench) : nat := length (b_warm b) + from_option user_tasks 0%nat (b_manager b).

(** A request ends: of the warm-up, or the [j]-th of the [i]-th session, with
    its response or ([None]) with an exception; or the callback of the [i]-th
    session goes on to record its response. *)
Inductive completion : Type :=
| WarmDone (i : nat) (ok : bool)
| UserDone (i j : nat) (response : option Response)
| RecordDone (i : nat).

Definition done_act (j : nat) (response : option Response) : act :=
  match response with Some r => Complete j r | None => Fail j end.

(** The task runs to its end, and its callback up to the recording; [None] if
    there is no such task, otherwise whether it failed. *)
Definition finish_task (t : completion) (b : bench) : option (bool * bench) :=
  match t with
  | WarmDone i ok => _ ← b_warm b !! i; Some (negb ok, set_warm (delete i (b_warm b)) b)
  | UserDone i j response =>
      m ← b_manager b; c ← m_sessions m !! i; _ ← c_in_flight c !! j;
      Some (bool_decide (response = None), set_manager (callback i (done_act j response) m) b)
  | RecordDone i =>
      m ← b_manager b; _ ← m_sessions m !! i; Some (false, set_manager (callback i Recorded m) b)
  end.

Definition finish_tasks (l : list completion) (b : bench) : bench :=
  foldl (λ b t, from_option snd b (finish_task t b)) b l.

(** The callbacks that are running come to their end. *)
Definition settle (b : bench) : bench :=
  match b_manager b with
  | Some m => set_manager (with_sessions (client_act Recorded <$> m_sessions m) m) b
  | None => b
  end.

(** [gather] on all tasks: it ends with the last of them or with the first that
    fails; what comes after a failure happens before the waiting thread goes
    on.  The callback of a task is scheduled before the one of [gather], so it
    has ended when the wait is over.  [false]: tasks are still running. *)
Fixpoint wait_for_tasks (l : list completion) (b : bench) : bool * bench :=
  if (all_tasks b =? 0)%nat then (true, settle b) else
  match l with
  | [] => (false, b)
  | t :: l =>
      match finish_task t b with
      | None => wait_for_tasks l b
      | Some (failed, b) => if (failed : bool) then (true, settle (finish_tasks l b)) else wait_for_tasks l b
      end
  end.

(** Waiting on a loop that does not run never ends; an exception is logged. *)
Definition WaitLoop (l : list completion) : M bench bool := λ b,
  match b_loop b with
  | None => (Raise AssertionError, b)
  | Some false => (Ret false, b)
  | Some true => let '(ok, b) := wait_for_tasks l b in (Ret ok, b)
  end.

Definition StartLoop : M bench unit := λ b,
  match b_loop b with
  | Some _ => (Ret tt, b)
  | None => (Ret tt, set_loop (Some true) (Some true) b)
  end.

Definition StopLoop (l : list completion) : M bench bool := λ b,
  match b_loop b, b_thread b with
  | Some _, Some _ =>
      (ok ← WaitLoop l;
       if (ok : bool) then _ ← modify (set_loop (Some false) (Some false)); mret true else mret false) b
  | _, _ => (Raise AssertionError, b)
  end.

Definition GetLoop : M bench unit := λ b,
  match b_loop b with None => (Raise AssertionError, b) | Some _ => (Ret tt, b) end.

Definition GetOrStartLoop : M bench unit := λ b,
  match b_loop b with None => StartLoop b | Some _ => (Ret tt, b) end.

Definition warmup_request (i : nat) : chat_request :=
  mkChatRequest [("user", join EmptyString ["WARMUP: Hi, I'm user "; int_text (Z.of_nat i); ". Here are some text: ";
    join EmptyString (replicate 100 "hi "); "."])]%string 100 [].

Definition warmup_engine (l : list completion) : M bench bool :=
  _ ← modify (λ b, set_warm (b_warm b ++ (warmup_request <$> seq 0 10)) b);
  WaitLoop l.

(** ** The command line *)
(** The options given, with the types of [add_argument] applied *)
Record given_options := mkGiven {
  g_num_users : option Z;
  g_shared_system_prompt : option Z;
  g_user_history_prompt : option Z;
  g_answer_len : option Z;
  g_num_rounds : option Z;
  g_qps : option Q;
  g_model : option string;
  g_api_key : option string;
  g_base_url : option string;
  g_time : option Z;
  g_output : option string;
  g_init_user_id : option Z;
  g_request_with_user_id : bool;
  g_log_interval : option Z;
  g_verbose : bool;
  g_use_sharegpt : bool;
  g_process_summary : option string
}.

Record bench_args := mkBenchArgs {
  a_workload : WorkloadConfig;
  a_api_key : string;
  a_base_url : string;
  a_time : option Z;
  a_output : string;
  a_init_user_id : Z;
  a_log_interval : Z;
  a_sharegpt : bool
}.

Definition required {A} (o : option A) : outcome A := or_raise (OtherError "SystemExit") o.

(** [parse_arguments], and the [WorkloadConfig] that [main] makes of its result *)
Definition parse_arguments (g : given_options) : outcome bench_args :=
  num_users ← required (g_num_users g);
  system_prompt ← required (g_shared_system_prompt g);
  history_prompt ← required (g_user_history_prompt g);
  answer_len ← required (g_answer_len g);
  num_rounds ← required (g_num_rounds g);
  qps ← required (g_qps g);
  model ← required (g_model g);
  base_url ← required (g_base_url g);
  (* [--process-summary] is known to the other parser only *)
  _ ← match g_process_summary g with Some _ => Raise (OtherError "SystemExit") | None => Ret tt end;
  Ret (mkBenchArgs (mkWorkload num_users system_prompt history_prompt answer_len num_rounds qps model
                      (g_request_with_user_id g))
         (default "EMPTY" (g_api_key g)) base_url (g_time g) (default "summary.csv" (g_output g))
         (default 0 (g_init_user_id g)) (default 30 (g_log_interval g)) (g_use_sharegpt g))%string.

(** ** [main] *)
(** One round of the loop: the clock at every call of [time.time], the callbacks
    during the step and what ends while the thread sleeps. *)
Record bench_turn := mkTurn {
  t_step : Q;
  t_mid : list (list act);
  t_sleep : list completion;
  t_interrupt : bool;
  t_log : Q;
  t_summary : Q;
  t_last : Q;
  t_check : Q
}.

Record bench_env := mkBenchEnv {
  e_file : option frame;              (* the file named by [--process-summary] *)
  e_sharegpt : option (list sharegpt);
  e_warm : list completion;
  e_start : Q;
  e_turns : list bench_turn;
  e_final : list completion;
  e_now : Q
}.

Inductive stop : Type := TimeUp | Interrupted.

(** A method of the manager *)
Definition on_manager {A} (f : M manager A) : M bench A := λ b,
  match b_manager b with
  | None => (Raise (OtherError "NameError"), b)
  | Some m => let '(r, m) := f m in (r, set_manager m b)
  end.

Definition print_summary (start_time end_time : Q) : M bench frame := λ b,
  match b_manager b with
  | None => (Raise (OtherError "NameError"), b)
  | Some m =>
      match manager_summary m start_time end_time with
      | Raise e => (Raise e, b)
      | Ret (r, df) => (Ret df, add_report r b)
      end
  end.

(** [None]: the rounds given do not end the loop. *)
Fixpoint main_loop (a : bench_args) (start_time last_summary_time : Q) (turns : list bench_turn) : M bench (option stop) :=
  match turns with
  | [] => mret None
  | t :: turns =>
      _ ← on_manager (manager_step (t_step t) (t_mid t));
      _ ← modify (finish_tasks (t_sleep t));
      if t_interrupt t then mret (Some Interrupted) else
      last_summary_time ←
        (if Qltb (inject_Z (a_log_interval a)) (t_log t - last_summary_time)
         then _ ← print_summary last_summary_time (t_summary t); mret (t_last t)
         else mret last_summary_time);
      match a_time a with
      | Some limit => if Qltb (inject_Z limit) (t_check t - start_time) then mret (Some TimeUp)
                      else main_loop a start_time last_summary_time turns
      | None => main_loop a start_time last_summary_time turns
      end
  end.

(** The manager, which reads [ShareGPT.json] after its divisions *)
Definition load_manager (a : bench_args) (file : option (list sharegpt)) : outcome manager :=
  m ← new_manager (a_workload a) (a_init_user_id a) (if a_sharegpt a then file else None);
  if a_sharegpt a && bool_decide (file = None) then Raise FileNotFoundError else Ret m.

(** [true]: [main] has returned; [false]: it is still in the loop or waiting. *)
Definition run_bench (a : bench_args) (e : bench_env) : M bench bool :=
  _ ← GetOrStartLoop;
  warm ← warmup_engine (e_warm e);
  if negb warm then mret false else
  m ← lift (load_manager a (e_sharegpt e));
  _ ← modify (set_manager m);
  ended ← main_loop a (e_start e) (e_start e) (e_turns e);
  match ended with
  | None => mret false
  | Some _ =>
      stopped ← StopLoop (e_final e);
      if negb stopped then mret false else
      df ← print_summary 0 (e_now e);
      _ ← modify (set_csv df);
      mret true
  end.

Definition bench_main (g : given_options) (e : bench_env) : M bench bool :=
  match g_process_summary g with
  | Some name =>
      if str_empty name then a ← lift (parse_arguments g); run_bench a e
      else df ← lift (or_raise FileNotFoundError (e_file e));
           '(r, _) ← lift (process_output df);
           _ ← modify (add_report (Some r)); mret true
  | None => a ← lift (parse_arguments g); run_bench a e
  end.

Definition new_bench : bench := mkBench None None [] None [] None.
