(* ===== verification/BenchMainSpec.v ===== *)
(** * What the load generator's program promises

    The loop of [main] ends when a time limit is given, and the file it leaves
    has a row for every answer. *)
From stdpp Require Import base list strings gmap.
From Stdlib Require Import Ascii QArith Qround Qminmax Lqa.
From S2P Require Import Prelude PyDict PyStr JsonText Bench BenchSpec BenchMain.

Local Open Scope Z_scope.

(** ** The loop ends *)
(** Clocks do not run backwards, and every round sleeps for a tenth of a second. *)
Fixpoint paced (now : Q) (turns : list bench_turn) : Prop :=
  match turns with
  | [] => True
  | t :: turns => (now <= t_step t)%Q ∧ (t_step t + (1 # 10) <= t_check t)%Q ∧ paced (t_check t) turns
  end.

Definition tenths (k : Z) : Q := (inject_Z k * (1 # 10))%Q.

(** After the first turn: either it stops, or the limit is not reached yet. *)
Lemma main_loop_turn a limit start last t turns b :
  a_time a = Some limit →
  (main_loop a start last (t :: turns) b).1 ≠ Ret None ∨
  (t_check t - start <= inject_Z limit)%Q ∧
  ∃ last' b', main_loop a start last (t :: turns) b = main_loop a start last' turns b'.
Proof.
  intros Hl. cbn [main_loop]. unfold mbind, M_bind. destruct (on_manager _ b) as [[u|e] b1]; [|left; cbn; congruence].
  cbn [modify]. destruct (t_interrupt t); [left; cbn; congruence|].
  set (s := if Qltb _ _ then _ else _). destruct (s (finish_tasks (t_sleep t) b1)) as [[last'|e] b2]; [|left; cbn; congruence].
  clearbody s. rewrite Hl. destruct (Qltb (inject_Z limit) (t_check t - start)) eqn:E; [left; cbn; congruence|].
  right. split; [by apply Qltb_ge|]. by exists last', b2.
Qed.

Lemma loop_ends a limit start turns : a_time a = Some limit → ∀ last now k b,
  paced now turns → (start + tenths k <= now)%Q → 0 < Z.of_nat (length turns) →
  10 * limit < k + Z.of_nat (length turns) → (main_loop a start last turns b).1 ≠ Ret None.
Proof.
  intros Hl. induction turns as [|t turns IH]; intros last now k b Hp Hk Hn Hb; [simpl in Hn; lia|].
  destruct Hp as (H1 & H2 & H3). destruct (main_loop_turn a limit start last t turns b Hl) as [?|(Hc & last' & b' & ->)]; [done|].
  assert (start + tenths (k + 1) <= t_check t)%Q as Hk'.
  { unfold tenths in *. rewrite inject_Z_plus. change (inject_Z 1) with 1%Q. lra. }
  assert (k + 1 ≤ 10 * limit) as Hle.
  { unfold tenths in Hk'. rewrite Zle_Qle, inject_Z_mult. change (inject_Z 10) with 10%Q. lra. }
  cbn [length] in *. apply (IH last' (t_check t) (k + 1)); try done; lia.
Qed.

(** ** The invariants of the process *)
Definition alive (b : bench) : Prop := b_loop b = Some true ∧ b_thread b = Some true.

Lemma finish_task_loop t b x b' :
  finish_task t b = Some (x, b') → b_loop b' = b_loop b ∧ b_thread b' = b_thread b ∧ b_csv b' = b_csv b.
Proof.
  destruct t as [i ok|i j r|i]; simpl.
  - destruct (b_warm b !! i); simpl; [|done]. by intros [= <- <-].
  - destruct (b_manager b) as [m|]; simpl; [|done]. destruct (m_sessions m !! i); simpl; [|done].
    destruct (_ !! j); simpl; [|done]. by intros [= <- <-].
  - destruct (b_manager b) as [m|]; simpl; [|done]. destruct (m_sessions m !! i); simpl; [|done]. by intros [= <- <-].
Qed.

Lemma settle_same b : b_loop (settle b) = b_loop b ∧ b_thread (settle b) = b_thread b ∧ all_tasks (settle b) = all_tasks b.
Proof.
  unfold settle, all_tasks. destruct (b_manager b) as [m|] eqn:E; [|by rewrite E]. simpl. split_and!; try done. f_equal.
  unfold user_tasks. simpl. induction (m_sessions m) as [|c l IH]; [done|]. rewrite fmap_cons. simpl. by f_equal.
Qed.

Lemma settled b m : b_manager (settle b) = Some m → Forall (λ c, c_recording c = None) (m_sessions m).
Proof.
  unfold settle. destruct (b_manager b) as [m'|] eqn:E; [|congruence]. intros [= <-]. simpl. by apply Forall_fmap, Forall_true.
Qed.

(** No step of a live session has raised. *)
Definition healthy (m : manager) : Prop := Forall (λ c, c_error c = None) (m_sessions m).

Lemma callback_healthy i j r m : healthy m → healthy (callback i (done_act j r) m).
Proof.
  intros Hm. apply Forall_alter; [done|]. intros c _ Hc. destruct r as [r|]; simpl; [|done].
  destruct (c_in_flight c !! j); [|done]. by destruct (on_request_finished r (recorded_session c)).
Qed.

Lemma recorded_healthy i m : healthy m → healthy (callback i Recorded m).
Proof. intros Hm. by apply Forall_alter. Qed.

Lemma healthy_create : upholds healthy create_user_session.
Proof.
  intros m Hm. unfold create_user_session. destruct (_ ≫= _); [|done].
  apply Forall_app. split; [done|]. by apply Forall_singleton.
Qed.

Lemma healthy_internal f : upholds healthy (on_last_session f).
Proof.
  intros m Hm. unfold on_last_session. destruct (last (m_sessions m)) as [c|] eqn:El; [|done].
  destruct (f (c_session c)) as [[u|e] s]; [|done]. apply Forall_app. split; [by apply Forall_take|].
  apply Forall_singleton. simpl. apply last_Some_elem_of in El. by eapply Forall_forall in Hm.
Qed.

Lemma healthy_modify f : (∀ m, m_sessions (f m) = m_sessions m) → upholds healthy (modify f).
Proof. intros Hf m Hm. unfold healthy. simpl. by rewrite Hf. Qed.

Lemma healthy_ramp_loop n i t : upholds healthy (ramp_loop n i t).
Proof.
  revert i. induction n as [|n IH]; intros i; [by intros m|]. cbn [ramp_loop].
  apply upholds_bind; [apply healthy_create|intros _]. apply upholds_bind; [by apply keeps_upholds, keeps_gets|intros o].
  destruct (Qltb o 0); [by intros m|]. apply upholds_bind; [apply healthy_internal|intros _]. apply IH.
Qed.

Lemma step_sessions_healthy t mid l l' : step_sessions t mid l = (Ret tt, l') → Forall (λ c, c_error c = None) l'.
Proof.
  revert mid l'. induction l as [|c l IH]; intros mid l'; cbn [step_sessions]; [by intros [= <-]|].
  set (c' := client_act StepEnd _). clearbody c'. destruct (c_error c') eqn:E; [done|].
  destruct (step_sessions t (tail mid) l) as [r l1] eqn:Es. intros [= -> <-]. constructor; [done|]. by eapply IH.
Qed.

Lemma healthy_step t mid : upholds healthy (manager_step t mid).
Proof.
  unfold manager_step. apply upholds_bind; [by apply keeps_upholds, keeps_gets|intros need].
  apply upholds_bind; [|intros _; apply upholds_bind; [by apply healthy_modify|intros _]].
  { destruct need; [|by intros m]. unfold ramp_up. apply upholds_bind; [by apply keeps_upholds, keeps_gets|intros n].
    apply upholds_bind; [apply healthy_ramp_loop|intros _]. by apply healthy_modify. }
  apply upholds_bind; [by apply keeps_upholds, keeps_gets|intros join].
  apply upholds_bind; [|intros _; apply upholds_bind; [|intros _]].
  - destruct join; [|by intros m]. apply upholds_bind; [apply healthy_create|intros _; by apply healthy_modify].
  - intros m Hm. destruct (step_sessions t mid (m_sessions m)) as [[[]|e] l] eqn:E; [|done].
    by eapply step_sessions_healthy.
  - intros m Hm. simpl. apply Forall_forall. intros c [_ Hc]%list_elem_of_filter. by eapply Forall_forall in Hm.
Qed.

Section Process.
Variables (rounds init : Z).

(** The loop runs, and the manager is in order. *)
Definition in_order (b : bench) : Prop :=
  alive b ∧ ∀ m, b_manager b = Some m → managed rounds init m ∧ healthy m.

Lemma in_order_task t b x b' : finish_task t b = Some (x, b') → in_order b → in_order b'.
Proof.
  intros E [Ha Hm]. pose proof (finish_task_loop _ _ _ _ E) as (E1 & E2 & _). split; [unfold alive; by rewrite E1, E2|].
  destruct t as [i ok|i j r|i]; simpl in E.
  - destruct (b_warm b !! i); simpl in E; [|done]. injection E as <- <-. done.
  - destruct (b_manager b) as [m|] eqn:Em; simpl in E; [|done]. destruct (m_sessions m !! i); simpl in E; [|done].
    destruct (_ !! j); simpl in E; [|done]. injection E as <- <-. intros m' [= <-].
    destruct (Hm m eq_refl). split; [by apply managed_callback|by apply callback_healthy].
  - destruct (b_manager b) as [m|] eqn:Em; simpl in E; [|done]. destruct (m_sessions m !! i); simpl in E; [|done].
    injection E as <- <-. intros m' [= <-]. destruct (Hm m eq_refl).
    split; [by apply managed_callback|by apply recorded_healthy].
Qed.

Lemma in_order_settle b : in_order b → in_order (settle b).
Proof.
  intros [[H1 H2] Hm]. destruct (settle_same b) as (E1 & E2 & _). split; [unfold alive; by rewrite E1, E2|].
  unfold settle. destruct (b_manager b) as [m|] eqn:Em; [|by rewrite Em]. intros m' [= <-].
  destruct (Hm m eq_refl) as [Hg Hh]. split.
  - apply managed_sessions; [done| |].
    + apply Forall_fmap. apply (Forall_impl _ _ _ (g_sessions _ _ _ Hg)). intros c. apply genuine_act.
    + rewrite <- list_fmap_compose. apply list_fmap_ext. intros _ c _. apply client_act_user.
  - unfold healthy in *. simpl. apply Forall_fmap. by apply (Forall_impl _ _ _ Hh).
Qed.

Lemma in_order_tasks l b : in_order b → in_order (finish_tasks l b).
Proof.
  revert b. induction l as [|t l IH]; intros b Hb; [done|]. apply IH. cbn.
  destruct (finish_task t b) as [[x b']|] eqn:E; [|done]. by eapply in_order_task.
Qed.

Lemma in_order_wait l b : in_order b → in_order (wait_for_tasks l b).2.
Proof.
  revert b. induction l as [|t l IH]; intros b Hb; cbn [wait_for_tasks]; destruct (all_tasks b =? 0)%nat;
    try done; try by apply in_order_settle.
  destruct (finish_task t b) as [[[] b']|] eqn:E; [|by eapply IH, in_order_task|by apply IH].
  apply in_order_settle, in_order_tasks. by eapply in_order_task.
Qed.

Lemma in_order_summary s e : keeps in_order (print_summary s e).
Proof.
  intros b Hb. unfold print_summary. destruct (b_manager b) as [m|] eqn:E; [|done].
  destruct (manager_summary m s e) as [[r df]|]; [|done]. destruct Hb as [Ha Hm]. split; [done|]. by apply Hm.
Qed.

Lemma in_order_loop a start last turns : upholds in_order (main_loop a start last turns).
Proof.
  revert last. induction turns as [|t turns IH]; intros last; [by intros b|]. cbn [main_loop].
  apply upholds_bind; [|intros _].
  { intros b [Ha Hm]. unfold on_manager. destruct (b_manager b) as [m|] eqn:E; [|done]. destruct (Hm m eq_refl) as [H1 H2].
    pose proof (managed_step rounds init (t_step t) (t_mid t) m H1). pose proof (healthy_step (t_step t) (t_mid t) m H2).
    destruct (manager_step _ _ m) as [[u|e] m']; [|done]. split; [done|]. by intros ? [= <-]. }
  apply upholds_bind; [intros b Hb; by apply in_order_tasks|intros _]. destruct (t_interrupt t); [by intros b|].
  apply upholds_bind; [|intros last'; destruct (a_time a); [destruct (Qltb _ _); [by intros b|]|]; apply IH].
  destruct (Qltb _ _); [|by intros b]. apply upholds_bind; [by apply keeps_upholds, in_order_summary|by intros _ b].
Qed.

End Process.

(** ** The final report *)
Lemma column_max_ge l x : x ∈ l → ∃ y, column_max l = Some y ∧ (x <= y)%Q.
Proof.
  unfold column_max. induction 1 as [x l|x y l Hx (z & Hz & Hle)]; simpl.
  - destruct (column_best _ l) as [y|]; [|by exists x; split; [done|apply Qle_refl]].
    eexists. split; [done|]. destruct (Qltb x y) eqn:E; [by apply Qlt_le_weak, Qltb_lt|apply Qle_refl].
  - rewrite Hz. eexists. split; [done|]. destruct (Qltb y z) eqn:E; [done|].
    apply Qltb_ge in E. by eapply Qle_trans.
Qed.

(** Every row finished between the start of the manager and [now]. *)
Definition timely (m : manager) (now : Q) : Prop :=
  (0 <= default 0 (m_start_time m))%Q ∧
  Forall (λ w, default 0 (m_start_time m) <= finish_time w ∧ finish_time w <= now)%Q (all_rows m).

Lemma select_all df lo e hi n df' :
  value e = Some hi → Forall (λ w, lo <= finish_time w ∧ finish_time w <= hi)%Q df →
  select_rows df (Some (PyFloat lo)) (Some e) = Ret (n, df') → df' = df.
Proof.
  intros He Hdf. unfold select_rows. rewrite He. simpl. destruct (_ && _); [|by intros [= _ <-]].
  intros [= _ <-]. apply list_filter_all. intros w Hw. rewrite Forall_forall in Hdf. destruct (Hdf w Hw) as [H1 H2].
  unfold between. by rewrite andb_true_iff, !Qle_bool_iff.
Qed.

Lemma min_number_bound m now :
  Forall (λ w, finish_time w <= now)%Q (all_rows m) →
  ∃ hi, value (min_number now (column_max (finish_time <$> all_rows m))) = Some hi ∧
        Forall (λ w, finish_time w <= hi)%Q (all_rows m).
Proof.
  intros Hdf. unfold min_number. destruct (column_max _) as [y|] eqn:E; [|by exists now].
  destruct (Qltb y now); [|by exists now]. exists y. split; [done|]. apply Forall_forall. intros w Hw.
  destruct (column_max_ge (finish_time <$> all_rows m) (finish_time w)) as (z & Hz & Hle);
    [by apply list_elem_of_fmap_2|]. rewrite E in Hz. by injection Hz as ->.
Qed.

Lemma final_summary m now r df :
  timely m now → manager_summary m 0 now = Ret (r, df) → df = all_rows m.
Proof.
  intros [Hs Hdf] E. unfold manager_summary in E.
  assert (m_summaries m = [] ∧ m_sessions m = [] ∧ df = [] ∨ ∃ start, m_start_time m = Some start ∧
    ∃ r', ProcessSummary (all_rows m) (Some (PyFloat (if Qltb start 0 then 0 else start)))
      (Some (min_number now (column_max (finish_time <$> all_rows m)))) (pending_queries_of m) (Some (w_qps (m_config m))) = Ret (r', df))
    as [(E1 & E2 & ->)|(start & Es & r' & Ep)].
  { destruct (m_summaries m), (m_sessions m); [left; by injection E as _ <-| | |];
      (right; destruct (m_start_time m) as [start|]; [|done]; exists start; split; [done|];
       unfold mbind, outcome_bind in E; simpl in E; destruct (ProcessSummary _ _ _ _ _) as [[r' df']|]; [|done];
       injection E as _ <-; by exists r'). }
  { unfold all_rows. by rewrite E1, E2. }
  rewrite Es in Hs, Hdf. simpl in Hs, Hdf. apply Qltb_ge in Hs. rewrite Hs in Ep.
  destruct (min_number_bound m now) as (hi & Hhi & Hle); [by eapply Forall_impl; [exact Hdf|intros w []]|].
  unfold ProcessSummary in Ep. destruct (select_rows _ _ _) as [[n df']|] eqn:Esel; [|done].
  assert (df' = all_rows m) as ->.
  { eapply select_all; [exact Hhi| |exact Esel]. rewrite Forall_forall in *. intros w Hw. split; [by apply Hdf|by apply Hle]. }
  unfold mbind, outcome_bind in Ep. do 4 (destruct (number_div _ _); [|done]). congruence.
Qed.

(** ** The whole run *)
Definition succeeds (t : completion) : Prop :=
  match t with WarmDone _ ok => ok = true | UserDone _ _ r => is_Some r | RecordDone _ => True end.

Lemma finish_task_succeeds t b failed b' : succeeds t → finish_task t b = Some (failed, b') → failed = false.
Proof.
  destruct t as [i ok|i j r|i]; simpl.
  - intros ->. destruct (b_warm b !! i); simpl; [|done]. by intros [= <- _].
  - intros [x ->]. destruct (b_manager b) as [m|]; simpl; [|done]. destruct (m_sessions m !! i); simpl; [|done].
    destruct (_ !! j); simpl; [|done]. by intros [= <- _].
  - destruct (b_manager b) as [m|]; simpl; [|done]. destruct (m_sessions m !! i); simpl; [|done]. by intros _ [= <- _].
Qed.

Lemma wait_all l b b' : Forall succeeds l → wait_for_tasks l b = (true, b') → all_tasks b' = 0%nat.
Proof.
  revert b. induction l as [|t l IH]; intros b Hl; cbn [wait_for_tasks];
    destruct (Nat.eqb_spec (all_tasks b) 0) as [H0|H0];
    try (intros [= <-]; by destruct (settle_same b) as (_ & _ & ->)).
  apply Forall_cons in Hl as [Ht Hl]. destruct (finish_task t b) as [[failed b1]|] eqn:E; [|by apply IH].
  rewrite (finish_task_succeeds _ _ _ _ Ht E). by apply IH.
Qed.

Lemma wait_settled l b b' m :
  wait_for_tasks l b = (true, b') → b_manager b' = Some m → Forall (λ c, c_recording c = None) (m_sessions m).
Proof.
  revert b. induction l as [|t l IH]; intros b; cbn [wait_for_tasks]; destruct (all_tasks b =? 0)%nat;
    try (intros [= <-]; apply settled).
  destruct (finish_task t b) as [[[] b1]|]; [intros [= <-]; apply settled|apply IH|apply IH].
Qed.

(** The part of a run that has ended before the last summary *)
Record run_result (a : bench_args) (e : bench_env) (b b1 : bench) (m : manager) : Prop := {
  rr_order : in_order (w_num_rounds (a_workload a)) (a_init_user_id a) b1;
  rr_manager : b_manager b1 = Some m;
  rr_settled : Forall (λ c, c_recording c = None) (m_sessions m);
  rr_waited : Forall succeeds (e_final e) → all_tasks b1 = 0%nat;
  rr_end : ∃ r df, manager_summary m 0 (e_now e) = Ret (r, df) ∧
           b = set_csv df (add_report r (set_loop (Some false) (Some false) b1))
}.

(** The process when the warm-up requests have been launched *)
Definition launched_loop : bench := set_loop (Some true) (Some true) new_bench.
Definition warming : bench := set_warm (warmup_request <$> seq 0 10) launched_loop.

Lemma warmup_started l : warmup_engine l launched_loop = let '(ok, b) := wait_for_tasks l warming in (Ret ok, b).
Proof. done. Qed.

Lemma in_order_started rounds init l : in_order rounds init (wait_for_tasks l warming).2.
Proof. apply in_order_wait. split; [by split|done]. Qed.

Lemma load_manager_spec a file m :
  load_manager a file = Ret m → managed (w_num_rounds (a_workload a)) (a_init_user_id a) m ∧ healthy m.
Proof.
  unfold load_manager. destruct (new_manager _ _ _) as [m'|] eqn:E; [|done]. simpl.
  destruct (_ && _); [done|]. intros [= <-]. split; [by eapply managed_new|].
  unfold new_manager, mbind, outcome_bind in E. do 2 (destruct (true_div _ _); [|done]). injection E as <-. by constructor.
Qed.

Lemma in_order_manager rounds init m b :
  in_order rounds init b → managed rounds init m → healthy m → in_order rounds init (set_manager m b).
Proof. intros [Ha _] H1 H2. split; [done|]. by intros ? [= <-]. Qed.

(** The stages of a run *)
Lemma run_bench_eq a e :
  run_bench a e new_bench =
  let '(warm, b0) := wait_for_tasks (e_warm e) warming in
  if (warm : bool) then
    match load_manager a (e_sharegpt e) with
    | Raise x => (Raise x, b0)
    | Ret m =>
        match main_loop a (e_start e) (e_start e) (e_turns e) (set_manager m b0) with
        | (Raise x, b1) => (Raise x, b1)
        | (Ret None, b1) => (Ret false, b1)
        | (Ret (Some _), b1) =>
            let '(stopped, b2) := wait_for_tasks (e_final e) b1 in
            if (stopped : bool)
            then (df ← print_summary 0 (e_now e); _ ← modify (set_csv df); mret true) (set_loop (Some false) (Some false) b2)
            else (Ret false, b2)
        end
    end
  else (Ret false, b0).
Proof.
  pose proof (in_order_started (w_num_rounds (a_workload a)) (a_init_user_id a) (e_warm e)) as Hw.
  unfold run_bench. unfold mbind at 1, M_bind at 1. change (GetOrStartLoop new_bench) with (@Ret unit tt, launched_loop).
  cbv iota beta. unfold mbind at 1, M_bind at 1. rewrite warmup_started.
  destruct (wait_for_tasks (e_warm e) warming) as [[] b0]; [|done]. cbn [negb snd] in *.
  unfold mbind at 1, M_bind at 1, lift. destruct (load_manager a (e_sharegpt e)) as [m|] eqn:Em; [|done].
  apply load_manager_spec in Em as [H1 H2]. unfold mbind at 1 2, M_bind at 1 2. cbn [modify].
  pose proof (in_order_loop _ _ a (e_start e) (e_start e) (e_turns e) _ (in_order_manager _ _ _ _ Hw H1 H2)) as Hl.
  destruct (main_loop _ _ _ _ _) as [[[x|]|] b1]; [|done|done]. destruct Hl as [[E1 E2] _].
  unfold mbind at 1, M_bind at 1, StopLoop. rewrite E1, E2. unfold WaitLoop. unfold mbind at 1, M_bind at 1. rewrite E1.
  by destruct (wait_for_tasks (e_final e) b1) as [[] b2].
Qed.

Lemma run_bench_stages a e b : run_bench a e new_bench = (Ret true, b) → ∃ b1 m, run_result a e b b1 m.
Proof.
  rewrite run_bench_eq. pose proof (in_order_started (w_num_rounds (a_workload a)) (a_init_user_id a) (e_warm e)) as Hw.
  destruct (wait_for_tasks (e_warm e) warming) as [[] b0]; [|done]. cbn [snd] in Hw.
  destruct (load_manager a (e_sharegpt e)) as [m0|] eqn:Em; [|done]. apply load_manager_spec in Em as [H1 H2].
  pose proof (in_order_loop _ _ a (e_start e) (e_start e) (e_turns e) _ (in_order_manager _ _ _ _ Hw H1 H2)) as Hl.
  destruct (main_loop _ _ _ _ _) as [[[x|]|] b1]; [|done|done].
  pose proof (in_order_wait _ _ (e_final e) b1 Hl) as H3. pose proof (wait_all (e_final e) b1) as Hall.
  pose proof (wait_settled (e_final e) b1) as Hset.
  destruct (wait_for_tasks (e_final e) b1) as [[] b2]; [|done]. cbn [snd] in H3.
  unfold mbind, M_bind, modify, mret, M_ret, print_summary. cbn [set_loop b_manager].
  destruct (b_manager b2) as [m|] eqn:Eb; [|done]. destruct (manager_summary m 0 (e_now e)) as [[r df]|] eqn:Es; [|done].
  intros [= <-]. exists b2, m. split; try done; [by eapply Hset|intros Hf; by apply Hall|]. by exists r, df.
Qed.

Lemma alive_tasks l b : alive b → alive (finish_tasks l b).
Proof.
  revert b. induction l as [|t l IH]; intros b Hb; [done|]. apply IH. cbn.
  destruct (finish_task t b) as [[x b']|] eqn:E; [|done]. destruct (finish_task_loop _ _ _ _ E) as (E1 & E2 & _).
  unfold alive. cbn. by rewrite E1, E2.
Qed.

Lemma alive_loop a start last turns : keeps alive (main_loop a start last turns).
Proof.
  revert last. induction turns as [|t turns IH]; intros last; [by intros b|]. cbn [main_loop].
  apply keeps_bind; [|intros _; apply keeps_bind; [intros b; apply alive_tasks|intros _]].
  { intros b Hb. unfold on_manager. destruct (b_manager b) as [m|]; [|done]. by destruct (manager_step _ _ m). }
  destruct (t_interrupt t); [by intros b|].
  apply keeps_bind; [|intros last'; destruct (a_time a); [destruct (Qltb _ _); [by intros b|]|]; apply IH].
  destruct (Qltb _ _); [|by intros b]. apply keeps_bind; [|by intros _ b].
  intros b Hb. unfold print_summary. destruct (b_manager b) as [m|]; [|done]. by destruct (manager_summary _ _ _) as [[]|].
Qed.

(** An exception ends the main thread only: the event loop's thread, which is
    not a daemon, goes on, unless it was the last summary that raised. *)
Lemma crash_leaves_thread a e x b :
  run_bench a e new_bench = (Raise x, b) →
  b_thread b = Some true ∨ print_summary 0 (e_now e) b = (Raise x, b).
Proof.
  rewrite run_bench_eq. pose proof (in_order_started (w_num_rounds (a_workload a)) (a_init_user_id a) (e_warm e)) as Hw.
  destruct (wait_for_tasks (e_warm e) warming) as [[] b0]; [|done]. cbn [snd] in Hw.
  destruct (load_manager a (e_sharegpt e)) as [m0|] eqn:Em; [|intros [= _ <-]; left; by destruct Hw as [[]]].
  apply load_manager_spec in Em as [H1 H2]. pose proof (in_order_manager _ _ _ _ Hw H1 H2) as H3.
  pose proof (alive_loop a (e_start e) (e_start e) (e_turns e) _ (proj1 H3)) as Ha.
  pose proof (in_order_loop _ _ a (e_start e) (e_start e) (e_turns e) _ H3) as Hl.
  destruct (main_loop _ _ _ _ _) as [[[y|]|] b1]; [|done|intros [= _ <-]; left; apply Ha].
  pose proof (in_order_wait _ _ (e_final e) b1 Hl) as H4.
  destruct (wait_for_tasks (e_final e) b1) as [[] b2]; [|done].
  unfold mbind, M_bind. destruct (print_summary 0 (e_now e) _) as [[df|y'] b3] eqn:Es; [done|]. intros [= <- <-]. right.
  unfold print_summary in *. repeat (case_match; simplify_eq); congruence.
Qed.

Lemma genuine_counts rounds c :
  genuine rounds c → c_error c = None → c_recording c = None →
  (length (summary c).2 ≤ length (c_sent c) ≤ S (length (summary c).2))%nat.
Proof.
  intros (s & l & Hs & _ & ->) He Hrec. pose proof (protocol_acts _ _ l _ (protocol_fresh s Hs)) as P.
  pose proof (p_count _ _ _ P He) as [_ Hn]. pose proof (p_results _ _ _ P) as Hr. rewrite Hrec in Hr. simpl in Hr.
  unfold summary. cbn [snd].
  rewrite Hn. unfold asked in *. set (n := length (s_history _)) in *. clearbody n.
  pose proof (Nat.div2_odd (S n)) as Hd. destruct (Nat.odd (S n)); simpl Nat.b2n in Hd; lia.
Qed.

Lemma wait_blocked l b b' : wait_for_tasks l b = (false, b') → all_tasks b' ≠ 0%nat.
Proof.
  revert b. induction l as [|t l IH]; intros b; cbn [wait_for_tasks];
    destruct (Nat.eqb_spec (all_tasks b) 0) as [H0|H0]; try done; [by intros [= <-]|].
  destruct (finish_task t b) as [[[] b1]|]; [done|apply IH|apply IH].
Qed.

(** C24. A run of the load generator that has returned: the event loop's thread
    is stopped; the users whose sessions were summarised and those still active
    are the ids handed out, each once; every session, summarised or active, has a
    row for each of its requests but possibly the last one (of a summarised
    session that one was answered too, but the callback had not recorded the
    answer when the main thread took the summary); when no request fails while
    the loop is being stopped, none is left on its way; and, if every recorded
    answer came in after the first step and before the end, the output file has
    exactly the recorded rows, in order. *)
Theorem report_complete a e b :
  run_bench a e new_bench = (Ret true, b) →
  b_loop b = Some false ∧ b_thread b = Some false ∧
  ∃ m, b_manager b = Some m ∧
    (m_summaries m).*1 ++ (session_user <$> m_sessions m)
      ≡ₚ seqZ (a_init_user_id a + 1) (m_user_id m - a_init_user_id a) ∧
    Forall (λ p, ∃ c, genuine (w_num_rounds (a_workload a)) c ∧ summary c = p ∧ c_in_flight c = [] ∧
                   length p.2 ≤ length (c_sent c) ≤ S (length p.2))%nat (m_summaries m) ∧
    Forall (λ c, length (summary c).2 ≤ length (c_sent c) ≤ S (length (summary c).2))%nat (m_sessions m) ∧
    (Forall succeeds (e_final e) → user_tasks m = 0%nat) ∧
    (timely m (e_now e) → b_csv b = Some (all_rows m)).
Proof.
  intros (b1 & m & [[Ha Hm] Eb Hset Hw (r & df & Es & ->)])%run_bench_stages. destruct (Hm m Eb) as [Hg Hh].
  split; [done|]. split; [done|]. exists m. split_and!; try done.
  - apply (g_users _ _ _ Hg).
  - eapply Forall_impl; [apply (g_summaries _ _ _ Hg)|]. intros p (c & Hc & Hp & Hf & Hn). exists c.
    split_and!; try done; destruct (c_recording c); simpl in Hn; lia.
  - pose proof (g_sessions _ _ _ Hg) as Hs. unfold healthy in Hh. rewrite Forall_forall in *. intros c Hc.
    eapply genuine_counts; [by apply Hs|by apply Hh|by apply Hset].
  - intros Hf. specialize (Hw Hf). unfold all_tasks in Hw. rewrite Eb in Hw. simpl in Hw. lia.
  - intros Ht. simpl. f_equal. by eapply final_summary.
Qed.

(** C25. With a time limit the load generator ends: as soon as there are more
    than ten rounds for each second of the limit, it has returned or raised, or
    it waits for a request that the server has not answered. *)
Theorem bench_ends a e limit :
  a_time a = Some limit → paced (e_start e) (e_turns e) →
  (0 < length (e_turns e))%nat → 10 * limit < Z.of_nat (length (e_turns e)) →
  (run_bench a e new_bench).1 = Ret false → all_tasks (run_bench a e new_bench).2 ≠ 0%nat.
Proof.
  intros Ht Hp H0 Hn. rewrite run_bench_eq. pose proof (wait_blocked (e_warm e) warming) as Hb.
  destruct (wait_for_tasks (e_warm e) warming) as [[] b0]; [|intros _; by apply Hb].
  destruct (load_manager a (e_sharegpt e)) as [m0|]; [|done].
  pose proof (loop_ends a limit (e_start e) (e_turns e) Ht (e_start e) (e_start e) 0 (set_manager m0 b0) Hp) as Hloop.
  destruct (main_loop _ _ _ _ _) as [[[x|]|] b1]; [| |done].
  - pose proof (wait_blocked (e_final e) b1) as Hf.
    destruct (wait_for_tasks (e_final e) b1) as [[] b2]; [|intros _; by apply Hf].
    unfold mbind, M_bind. by destruct (print_summary _ _ _) as [[]].
  - exfalso. apply Hloop; try done; [|lia]. unfold tenths. rewrite Qmult_0_l, Qplus_0_r. apply Qle_refl.
Qed.

(** ** A run with one answer *)
Definition wit_args : bench_args := mkBenchArgs wit_workload "EMPTY" "http://engine" (Some 1) "summary.csv" 0 30 false.
Definition wit_turn (k : nat) : bench_turn :=
  let t := (100 + inject_Z (Z.of_nat k) * (1 # 5))%Q in mkTurn t [] [] false (t + (1 # 10)) t t (t + (1 # 10)).
Definition wit_env (final : list completion) : bench_env :=
  mkBenchEnv None None (replicate 10 (WarmDone 0 true)) 100 (wit_turn <$> seq 0 11) final 104.
Definition wit_final : list completion := [UserDone 1 0 (Some (mkResponse "once" 1 1 10 20 100 102))].
Definition wit_bench : bench := (run_bench wit_args (wit_env wit_final) new_bench).2.

Lemma report_complete_witness :
  option_map length (b_csv wit_bench) = Some 1%nat ∧
  match b_manager wit_bench with Some m => timely m 104 ∧ b_csv wit_bench = Some (all_rows m) | None => False end.
Proof.
  split; [vm_compute; reflexivity|].
  refine (match report_complete wit_args (wit_env wit_final) wit_bench _ with
          | conj _ (conj _ (ex_intro _ m (conj Em (conj _ (conj _ (conj _ (conj _ Hcsv))))))) => _ end).
  - vm_compute. reflexivity.
  - rewrite Em. assert (timely m 104) as Ht; [|split; [exact Ht|exact (Hcsv Ht)]].
    apply (f_equal (λ o, match o with Some m => m | None => m end)) in Em. rewrite <- Em.
    split; [vm_compute; discriminate|]. vm_compute. constructor; [split; vm_compute; discriminate|constructor].
Defined.

(** When the answer does not come, the run waits for it. *)
Lemma bench_ends_witness : all_tasks (run_bench wit_args (wit_env []) new_bench).2 ≠ 0%nat.
Proof.
  apply (bench_ends wit_args (wit_env []) 1); [reflexivity| | | |vm_compute; reflexivity].
  - vm_compute. repeat split; discriminate.
  - vm_compute. lia.
  - vm_compute. reflexivity.
Defined.
