(* ===== verification/BenchData.v ===== *)
(** * Recorded conversations: [benchmarks/multi-round-qa/data_preprocessing.py]

    The script counts the tokens of every recorded conversation; the load
    generator replays them.  The tokenizer is an argument.  The theorems are
    about the two programs together: when a run on preprocessed data can fail. *)
From stdpp Require Import base list strings gmap.
From Stdlib Require Import Ascii QArith Qround Qminmax Lqa.
From S2P Require Import Prelude PyDict PyStr JsonText Bench BenchSpec.

Local Open Scope Z_scope.

(** ** The script *)
(** A turn as it was recorded: ["from"] and ["value"]. *)
Record raw_turn := mkRaw { x_from : string; x_value : string }.

Section Preprocess.
Context (estimate_num_tokens : string → Z).

(** [conv["num_tokens"]] is set for the model's turns. *)
Definition count_turn (x : raw_turn) : conversation :=
  mkConv (x_value x) (if String.eqb (x_from x) "gpt" then Some (estimate_num_tokens (x_value x)) else None).

Definition tokens_of (who : string) (l : list raw_turn) : list Z :=
  (λ x, estimate_num_tokens (x_value x)) <$> filter (λ x, x_from x = who) l.

(** [float(np.mean(l))] and [float(np.max(l))], and 0 for an empty list *)
Definition average (l : list Z) : Q :=
  match l with [] => 0 | _ => inject_Z (foldr Z.add 0%Z l) / inject_Z (Z.of_nat (length l)) end%Q.
Definition maximum (l : list Z) : Q :=
  match l with [] => 0%Q | x :: l => inject_Z (foldr Z.max x l) end.

Record prepared := mkPrepared {
  d_share : sharegpt;
  d_average_human_token : Q;
  d_max_human_token : Q;
  d_average_gpt_token : Q;
  d_max_gpt_token : Q
}.

Definition prepare (l : list raw_turn) : prepared :=
  mkPrepared (mkShare (Z.of_nat (length l)) (count_turn <$> l))
    (average (tokens_of "human" l)) (maximum (tokens_of "human" l))
    (average (tokens_of "gpt" l)) (maximum (tokens_of "gpt" l)).

(** [l[:n]] *)
Definition slice_to {A} (n : Z) (l : list A) : list A :=
  take (Z.to_nat (if n <? 0 then Z.of_nat (length l) + n else n)) l.

(** [del l[i]] for an index that is not negative *)
Definition del_item {A} (i : nat) (l : list A) : outcome (list A) :=
  if decide (i < length l)%nat then Ret (delete i l) else Raise IndexError.

(** The whole script: what it writes to [ShareGPT.json]. *)
Definition preprocess (parse : Q) (data : list (list raw_turn)) : outcome (list prepared) :=
  let data := slice_to (py_trunc (inject_Z (Z.of_nat (length data)) * parse)) data in
  del_item 260 (prepare <$> data).
End Preprocess.

(** ** What a session needs of its conversation *)
(** The model has the last word and the speakers alternate. *)
Definition dialogue (l : list raw_turn) : Prop :=
  ∀ i x, l !! i = Some x → (x_from x = "gpt"%string ↔ Nat.even (length l - 1 - i) = true).

(** Long enough for [rounds] questions, with the number of tokens at the answers. *)
Record recorded (rounds : Z) (d : sharegpt) : Prop := {
  c_long : 2 * rounds < g_num_round d;
  c_length : g_num_round d = Z.of_nat (length (g_conversations d));
  c_answers : ∀ i c, g_conversations d !! i = Some c →
              Nat.even (length (g_conversations d) - 1 - i) = true → is_Some (v_num_tokens c)
}.

Lemma prepare_recorded tokens rounds l :
  dialogue l → 2 * rounds < Z.of_nat (length l) → recorded rounds (d_share (prepare tokens l)).
Proof.
  intros Hd Hl. split; simpl; [done|by rewrite length_fmap|]. rewrite length_fmap. intros i c Hc He.
  rewrite list_lookup_fmap in Hc. destruct (l !! i) as [x|] eqn:Hx; [|done]. injection Hc as <-. simpl.
  apply (Hd i x Hx) in He. rewrite He. by eexists.
Qed.

Lemma conversation_at_ok d i :
  0 ≤ i < Z.of_nat (length (g_conversations d)) →
  ∃ c, conversation_at d i = Ret c ∧ g_conversations d !! Z.to_nat i = Some c.
Proof.
  intros Hi. destruct (lookup_lt_is_Some_2 (g_conversations d) (Z.to_nat i)) as [c Hc]; [lia|]. exists c.
  unfold conversation_at, py_item. rewrite (proj2 (Z.ltb_ge i 0)) by lia. rewrite (proj2 (Z.ltb_ge i 0)) by lia.
  by rewrite Hc.
Qed.

(** The answer to the [q]-th question *)
Definition answer_index (d : sharegpt) (q : Z) : Z := if start_with_gpt d then 2 * q else 2 * q - 1.

Lemma answer_index_spec rounds d q :
  recorded rounds d → 1 ≤ q ≤ rounds →
  0 ≤ answer_index d q < Z.of_nat (length (g_conversations d)) ∧
  Nat.even (length (g_conversations d) - 1 - Z.to_nat (answer_index d q)) = true.
Proof.
  intros [Hl Hn _] Hq. rewrite Hn in Hl. unfold answer_index, start_with_gpt. rewrite Hn.
  set (n := length (g_conversations d)) in *. clearbody n.
  pose proof (Z.div_mod (Z.of_nat n) 2 ltac:(lia)) as Hdiv. pose proof (Z.mod_pos_bound (Z.of_nat n) 2 ltac:(lia)).
  destruct (Z.eqb_spec (Z.of_nat n mod 2) 0) as [E|E]; simpl; (split; [lia|]); apply Nat.even_spec.
  - exists (Z.to_nat (Z.of_nat n / 2 - q)). lia.
  - exists (Z.to_nat (Z.of_nat n / 2 - q)). lia.
Qed.

Lemma max_tokens_ok rounds s d :
  s_sharegpt s = Some d → recorded rounds d → 1 ≤ s_question_id s ≤ rounds → ∃ n, max_tokens_of s = Ret n.
Proof.
  intros Hs Hd Hq. destruct (answer_index_spec rounds d (s_question_id s) Hd Hq) as [Hi He].
  destruct (conversation_at_ok d _ Hi) as (c & Hc & Hl). destruct (c_answers _ _ Hd _ _ Hl He) as [n Hn].
  unfold max_tokens_of. rewrite Hs. unfold answer_index in Hc. rewrite Hc. simpl. rewrite Hn. by eexists.
Qed.

Lemma next_prompt_ok rounds s d :
  s_sharegpt s = Some d → recorded rounds d → 0 ≤ s_question_id s < rounds →
  ∃ p, next_prompt s = (Ret p, set_question (s_question_id s + 1) s).
Proof.
  intros Hs [Hl Hn _] Hq. unfold next_prompt. rewrite Hs.
  destruct (conversation_at_ok d (2 * s_question_id s + if start_with_gpt d then 1 else 0)) as (c & -> & _);
    [destruct (start_with_gpt d); lia|]. by exists (v_value c).
Qed.

Lemma launch_recorded rounds s d :
  s_sharegpt s = Some d → recorded rounds d → 0 ≤ s_question_id s < rounds →
  alternates true (s_history s) → turns (s_history s) = true → ∃ q s', launch_begin s = (Ret q, s').
Proof.
  intros Hs Hd Hq Ha Ht. unfold launch_begin. unfold mbind at 1, M_bind at 1.
  destruct (next_prompt_ok rounds s d Hs Hd Hq) as [prompt ->].
  unfold mbind at 1, M_bind at 1, gets at 1. unfold mbind at 1, M_bind at 1, gets at 1.
  set (p := match s_history _ with [] => _ | _ => _ end). clearbody p.
  unfold mbind at 1, M_bind at 1, on_history. change (s_history (set_question _ s)) with (s_history s).
  destruct (on_user_query_turn (s_history s) p Ha Ht) as [-> _]. set (s' := set_history _ _).
  destruct (max_tokens_ok rounds s' d Hs Hd) as [n Hn]; [simpl; lia|].
  unfold mbind, M_bind, gets, lift, id. rewrite Hn. by eexists _, _.
Qed.

(** ** Sessions that replay a conversation *)
Record replays (rounds : Z) (c : client) : Prop := {
  rp_protocol : ∃ q0, 0 ≤ q0 ∧ protocol rounds q0 c;
  rp_data : ∃ d, s_sharegpt (c_session c) = Some d ∧ recorded rounds d;
  rp_error : c_error c = None
}.

Lemma step_begin_raises t s e s' : step_begin t s = (Raise e, s') → launch_begin s = (Raise e, s').
Proof.
  unfold step_begin, mbind, M_bind. destruct (launch_begin s) as [[q|e'] s1]; repeat case_match; intros; simplify_eq; done.
Qed.

(** A step of such a session does not raise. *)
Lemma replays_begin rounds t c :
  replays rounds c → c_launching c = None → ∃ o s, step_begin t (c_session c) = (Ret o, s).
Proof.
  intros [(q0 & Hq0 & P) (d & Hd & Hrec) He] Hl.
  destruct (step_begin t (c_session c)) as [[o|e] s] eqn:E; [by exists o, s|exfalso].
  assert (turns (s_history (c_session c)) = true ∨ s_unfinished (c_session c) = true) as Hor.
  { destruct (s_unfinished (c_session c)) eqn:HU; [by right|left]. by apply (p_idle _ _ _ P). }
  pose proof (step_begin_spec t _ (p_alternates _ _ _ P) Hor (p_time _ _ _ P)) as Hs. rewrite E in Hs.
  destruct Hs as (HU & Hq & _ & _). rewrite (p_rounds _ _ _ P) in Hq. destruct (p_count _ _ _ P He) as [Hid _].
  destruct (p_idle _ _ _ P Hl He HU) as [_ Ht]. apply step_begin_raises in E.
  destruct (launch_recorded rounds _ d Hd Hrec) as (q & s' & E'); [lia|apply (p_alternates _ _ _ P)|done|congruence].
Qed.

Lemma replays_act rounds a c : replays rounds c → replays rounds (client_act a c).
Proof.
  intros Hc. split.
  - destruct Hc as [(q0 & Hq0 & P) _ _]. exists q0. split; [done|]. by apply (protocol_acts rounds q0 [a]).
  - pose proof (f_equal snd (client_act_origin a c)) as E. simpl in E. rewrite E. apply Hc.
  - destruct a as [t| |i r| |i]; simpl; rewrite ?(rp_error _ _ Hc).
    + destruct (c_launching c) eqn:El; [apply Hc|].
      destruct (replays_begin rounds t c Hc El) as (o & s & ->). by destruct o.
    + destruct (c_launching c); [done|apply Hc].
    + destruct (c_in_flight c !! i); [|apply Hc]. by destruct (on_request_finished r (recorded_session c)).
    + done.
    + done.
Qed.

Lemma replays_acts rounds l c : replays rounds c → replays rounds (client_acts l c).
Proof. revert c. induction l as [|a l IH]; intros c Hc; [done|]. by apply IH, replays_act. Qed.

Lemma replays_new rounds s d :
  fresh s → 0 ≤ s_question_id s → u_num_rounds (s_config s) = rounds → s_sharegpt s = Some d → recorded rounds d →
  replays rounds (new_client s).
Proof.
  intros Hs Hq <- Hd Hrec. split; [|by exists d|done]. exists (s_question_id s). split; [done|]. by apply protocol_fresh.
Qed.

Lemma replays_sessions rounds t mid l :
  Forall (replays rounds) l → ∃ l', step_sessions t mid l = (Ret tt, l') ∧ Forall (replays rounds) l'.
Proof.
  revert mid. induction l as [|c l IH]; intros mid Hl; [by exists []|]. apply Forall_cons in Hl as [Hc Hl].
  cbn [step_sessions]. set (c' := client_act StepEnd _).
  assert (replays rounds c') as Hc' by (apply replays_act, replays_acts, replays_act, Hc).
  clearbody c'. rewrite (rp_error _ _ Hc'). destruct (IH (tail mid) Hl) as (l' & -> & Hl').
  exists (c' :: l'). split; [done|]. by constructor.
Qed.

(** ** The manager *)
Record replaying (rounds : Z) (m : manager) : Prop := {
  re_rounds : w_num_rounds (m_config m) = rounds;
  re_users : 0 < w_num_users (m_config m);
  re_qps : (0 < w_qps (m_config m))%Q;
  re_ids : 0 ≤ m_user_id m;
  re_data : ∃ l, m_sharegpt m = Some l ∧ Forall (recorded rounds) l;
  re_sessions : Forall (replays rounds) (m_sessions m)
}.

(** The users have used up the conversations. *)
Definition out_of_users (e : exn) (m : manager) : Prop :=
  e = IndexError ∧ ∃ l, m_sharegpt m = Some l ∧ Z.of_nat (length l) ≤ m_user_id m.

Lemma replaying_same rounds m m' :
  m_config m' = m_config m → m_user_id m' = m_user_id m → m_sessions m' = m_sessions m →
  m_sharegpt m' = m_sharegpt m → replaying rounds m → replaying rounds m'.
Proof. intros E1 E2 E3 E4 [H1 H2 H3 H4 H5 H6]. by split; rewrite ?E1, ?E2, ?E3, ?E4. Qed.

Lemma gap_positive w : 0 < w_num_users w → (0 < w_qps w)%Q →
  ∃ gap, true_div (inject_Z (w_num_users w)) (w_qps w) = Ret gap ∧ (0 < gap)%Q.
Proof.
  intros Hu Hq. unfold true_div. destruct (Qeq_bool (w_qps w) 0) eqn:E; [apply Qeq_bool_iff in E; lra|].
  eexists. split; [done|]. apply Qlt_shift_div_l; [done|]. rewrite Qmult_0_l. change 0%Q with (inject_Z 0). by rewrite <- Zlt_Qlt.
Qed.

(** A created session is new, has a positive gap and a conversation. *)
Record newcomer (rounds : Z) (s : UserSession) : Prop := {
  nc_fresh : fresh s;
  nc_question : s_question_id s = 0;
  nc_gap : (0 < u_gap (s_config s))%Q;
  nc_rounds : u_num_rounds (s_config s) = rounds;
  nc_data : ∃ d, s_sharegpt s = Some d ∧ recorded rounds d
}.

Lemma create_replaying rounds m :
  replaying rounds m →
  match create_user_session m with
  | (Ret _, m') => replaying rounds m' ∧ ∃ l s, m_sessions m' = l ++ [new_client s] ∧ newcomer rounds s
  | (Raise e, m') => out_of_users e m'
  end.
Proof.
  intros [H1 H2 H3 H4 (l & Hl & Hrec) H6]. unfold create_user_session, new_user_config, user_data. cbn [m_sharegpt m_config].
  destruct (gap_positive _ H2 H3) as (gap & -> & Hgap). rewrite Hl. unfold mbind, outcome_bind.
  unfold py_item. rewrite (proj2 (Z.ltb_ge (m_user_id m + 1) 0)) by lia. rewrite (proj2 (Z.ltb_ge (m_user_id m + 1) 0)) by lia.
  destruct (l !! Z.to_nat (m_user_id m + 1)) as [d|] eqn:Ed; simpl.
  - assert (recorded rounds d) as Hd by (by eapply Forall_lookup_1).
    set (s := new_session _ _). assert (newcomer rounds s) as Hs by (split; simpl; try done; by exists d).
    split; [split; simpl; try done; [lia|by exists l|]|by exists (m_sessions m), s].
    apply Forall_app. split; [done|]. apply Forall_singleton.
    destruct Hs as [Hf Hq _ Hr _]. eapply replays_new; try done.
  - split; [done|]. exists l. split; [done|]. simpl. apply lookup_ge_None in Ed. lia.
Qed.

Lemma internal_state_replays rounds offset t s :
  newcomer rounds s → (0 <= offset)%Q →
  ∃ s', set_internal_state offset t s = (Ret tt, s') ∧ replays rounds (new_client s').
Proof.
  intros [Hf Hq Hg Hr (d & Hd & Hrec)] Ho. pose proof (fresh_internal_state offset t s Hf) as Hf'.
  unfold set_internal_state in *. rewrite (f_history _ Hf) in *. unfold true_div in *.
  destruct (Qeq_bool (u_gap (s_config s)) 0) eqn:E; [apply Qeq_bool_iff in E; lra|].
  eexists. split; [reflexivity|]. eapply replays_new; try done. cbn [s_question_id].
  assert (0 <= offset / u_gap (s_config s))%Q as Hx by (apply Qle_shift_div_l; [done|lra]).
  unfold py_trunc. rewrite (proj2 (Qle_bool_iff _ _) Hx).
  pose proof (Qfloor_resp_le 0 _ Hx) as Hfl. change (Qfloor 0) with 0 in Hfl. lia.
Qed.

Lemma last_session_replaying rounds offset t m l s :
  replaying rounds m → m_sessions m = l ++ [new_client s] → newcomer rounds s → (0 <= offset)%Q →
  ∃ m', on_last_session (set_internal_state offset t) m = (Ret tt, m') ∧ replaying rounds m'.
Proof.
  intros Hm El Hs Ho. destruct (internal_state_replays rounds offset t s Hs Ho) as (s' & E & Hs').
  unfold on_last_session. rewrite El, last_snoc. simpl. rewrite E. eexists. split; [reflexivity|].
  destruct Hm as [H1 H2 H3 H4 H5 H6]. split; try done. cbn [m_sessions with_sessions].
  replace (take (length (l ++ [new_client s]) - 1) (l ++ [new_client s])) with l
    by (rewrite length_app, Nat.add_sub, take_app_length; done).
  rewrite El in H6. apply Forall_app in H6 as [H6 _]. apply Forall_app. split; [done|]. by apply Forall_singleton.
Qed.

Local Abbreviation safely rounds := (guarded (replaying rounds) out_of_users).

Lemma replaying_create rounds : safely rounds create_user_session.
Proof.
  intros m Hm. pose proof (create_replaying rounds m Hm) as H.
  destruct (create_user_session m) as [[u|e] m']; [apply H|done].
Qed.

Lemma replaying_ramp_loop rounds n i t : safely rounds (ramp_loop n i t).
Proof.
  revert i. induction n as [|n IH]; intros i m Hm; [done|]. cbn [ramp_loop]. unfold mbind at 1, M_bind at 1.
  pose proof (create_replaying rounds m Hm) as H. destruct (create_user_session m) as [[u|e] m1]; [|done].
  destruct H as (Hm1 & l & s & El & Hs). unfold mbind at 1, M_bind at 1, gets at 1.
  destruct (Qltb _ 0) eqn:E; [done|]. apply Qltb_ge in E.
  destruct (last_session_replaying rounds _ t m1 l s Hm1 El Hs E) as (m2 & E2 & Hm2).
  unfold mbind, M_bind. rewrite E2. by apply IH.
Qed.

Lemma replaying_modify rounds f :
  (∀ m, m_config (f m) = m_config m ∧ m_user_id (f m) = m_user_id m ∧ m_sessions (f m) = m_sessions m ∧
        m_sharegpt (f m) = m_sharegpt m) →
  safely rounds (modify f).
Proof. intros Hf. apply guarded_modify. intros m Hm. destruct (Hf m) as (? & ? & ? & ?). by eapply replaying_same. Qed.

Lemma replaying_sessions rounds m l :
  replaying rounds m → Forall (replays rounds) l → replaying rounds (with_sessions l m).
Proof. by intros [H1 H2 H3 H4 H5 H6] Hl. Qed.

Lemma replaying_step rounds t mid : safely rounds (manager_step t mid).
Proof.
  unfold manager_step. apply guarded_bind; [apply guarded_gets|intros need].
  apply guarded_bind; [|intros _; apply guarded_bind; [by apply replaying_modify|intros _]].
  { destruct need; [|by intros m]. unfold ramp_up. apply guarded_bind; [apply guarded_gets|intros n].
    apply guarded_bind; [apply replaying_ramp_loop|intros _]. by apply replaying_modify. }
  apply guarded_bind; [apply guarded_gets|intros join].
  apply guarded_bind; [|intros _; apply guarded_bind; [|intros _]].
  - destruct join; [|by intros m]. apply guarded_bind; [apply replaying_create|intros _; by apply replaying_modify].
  - intros m Hm. destruct (replays_sessions rounds t mid _ (re_sessions _ _ Hm)) as (l & -> & Hl). by apply replaying_sessions.
  - apply guarded_modify. intros m [H1 H2 H3 H4 H5 H6]. split; try done. simpl.
    apply Forall_forall. intros c [_ Hc]%list_elem_of_filter. by eapply Forall_forall in H6.
Qed.

Lemma replaying_events rounds l : safely rounds (manager_events l).
Proof.
  induction l as [|e l IH]; [by intros m|]. apply guarded_bind; [|done]. destruct e as [t mid|i a]; [apply replaying_step|].
  apply guarded_modify. intros m Hm. apply replaying_sessions; [done|]. apply Forall_alter; [apply Hm|].
  intros c _ Hc. by apply replays_act.
Qed.

Lemma new_replaying w init data m :
  0 < w_num_users w → (0 < w_qps w)%Q → 0 ≤ init →
  Forall (λ d, 2 * w_num_rounds w < g_num_round d → recorded (w_num_rounds w) d) data →
  new_manager w init (Some data) = Ret m → replaying (w_num_rounds w) m.
Proof.
  intros Hu Hq Hi Hd. unfold new_manager, mbind, outcome_bind. do 2 (destruct (true_div _ _); [|done]).
  intros [= <-]. split; simpl; try done. eexists. split; [done|].
  apply Forall_forall. intros d [Hl Hin]%list_elem_of_filter. rewrite Forall_forall in Hd. by apply Hd.
Qed.

(** What the script writes is a part of what it read, without the item 260. *)
Lemma preprocess_from tokens parse raw l d :
  preprocess tokens parse raw = Ret l → d ∈ l →
  ∃ i x, raw !! i = Some x ∧ i ≠ 260%nat ∧ d = prepare tokens x.
Proof.
  unfold preprocess, del_item. case_decide; [|done]. intros [= <-] [j Hj]%list_elem_of_lookup.
  rewrite list_lookup_delete in Hj. set (i := if decide (j < 260)%nat then j else S j) in Hj.
  assert (i ≠ 260%nat) as Hi by (unfold i; case_decide; lia). clearbody i.
  rewrite list_lookup_fmap in Hj. apply fmap_Some in Hj as (x & Hx & ->). exists i, x.
  split; [|done]. unfold slice_to in Hx. by apply lookup_take_Some in Hx as [? _].
Qed.

(** Every recorded conversation but the item 260 alternates. *)
Definition dialogues (raw : list (list raw_turn)) : Prop :=
  ∀ i x, raw !! i = Some x → i ≠ 260%nat → dialogue x.

Lemma prepared_recorded tokens parse raw l rounds :
  preprocess tokens parse raw = Ret l → dialogues raw →
  Forall (λ d, 2 * rounds < g_num_round d → recorded rounds d) (d_share <$> l).
Proof.
  intros Hp Hraw. apply Forall_fmap, Forall_forall. intros d Hd Hlong.
  destruct (preprocess_from _ _ _ _ _ Hp Hd) as (i & x & Hx & Hi & ->). apply prepare_recorded; [|done].
  by eapply Hraw.
Qed.


(** ** A run on recorded conversations *)
Definition wit_dialogue : list raw_turn :=
  [mkRaw "human" "a"; mkRaw "gpt" "b"; mkRaw "human" "c"; mkRaw "gpt" "d"; mkRaw "human" "e"; mkRaw "gpt" "f"]%string.

(** Two rounds of the user in a row *)
Definition wit_broken : list raw_turn :=
  [mkRaw "human" "a"; mkRaw "human" "b"; mkRaw "human" "c"; mkRaw "gpt" "d"; mkRaw "human" "e"; mkRaw "gpt" "f"]%string.
Definition wit_raw : list (list raw_turn) := replicate 260 wit_dialogue ++ [wit_broken; wit_dialogue].
Definition wit_tokens (s : string) : Z := Z.of_nat (String.length s).
Definition wit_replay : manager :=
  match new_manager wit_workload 0 (Some (replicate 261 (d_share (prepare wit_tokens wit_dialogue)))) with
  | Ret m => m
  | Raise _ => mkManager wit_workload [] 0 0 0 0 [] None true None
  end.

Lemma wit_dialogue_ok : dialogue wit_dialogue.
Proof.
  intros i x Hx. do 6 (destruct i as [|i]; [injection Hx as <-; vm_compute; done|]). done.
Qed.


(** With fewer than 261 conversations the script itself fails. *)
Lemma short_data_fails tokens raw :
  (length raw ≤ 260)%nat → preprocess tokens 1 raw = Raise IndexError.
Proof.
  intros Hl. unfold preprocess, del_item. rewrite decide_False; [done|]. rewrite length_fmap. unfold slice_to.
  rewrite length_take. lia.
Qed.
