(* ===== verification/VerifyInstall.v ===== *)
(** * The installation check: [docker/mooncake/scripts/verify-install.py]

    The script refuses an image whose Mooncake distribution does not fit the CUDA
    version of its torch.  What it asks the system for (files, installed
    packages, [ldd]) is the record [host]; a refusal is a [RuntimeError] with
    the constant part of its message. *)
From stdpp Require Import base list strings gmap.
From Stdlib Require Import Ascii.
From S2P Require Import Prelude PyDict PyStr Json JsonText Files Decide Regex Backtrack NvLog.

Local Open Scope Z_scope.

Definition runtime_error (what : string) : exn := OtherError ("RuntimeError: " +:+ what).

Definition package_names : list string := ["mooncake-transfer-engine"; "mooncake-transfer-engine-cuda13"]%string.
Definition expected_tokens : list string := ["nvlink_intra"; "nvlink"]%string.
Definition allowed_missing : list string := ["libcuda.so.1"; "libnvidia-ml.so.1"]%string.

Record host := mkHost {
  h_lock : option string;                       (* the text of the lock file *)
  h_torch : option (option string);             (* [torch.version.cuda], if torch can be imported *)
  h_version : string → option string;           (* [importlib.metadata.version] *)
  h_find_spec : string → outcome bool;          (* is there a module of this name? *)
  h_locations : option (list string);           (* where the package mooncake is *)
  h_engines : string → list string;             (* [engine*.so] in a directory *)
  h_bytes : string → outcome string;
  h_ldd : string → outcome string;
  h_load : outcome unit                         (* [import mooncake.engine] *)
}.

(** ** Strings *)
(** [sub in s] *)
Fixpoint str_in (sub s : string) : bool :=
  String.prefix sub s || match s with EmptyString => false | String _ s => str_in sub s end.

(** [s.strip(c)] *)
Fixpoint lstrip_char (c : ascii) (s : string) : string :=
  match s with
  | EmptyString => EmptyString
  | String a s' => if Ascii.eqb a c then lstrip_char c s' else s
  end.

Fixpoint rstrip_char (c : ascii) (s : string) : string :=
  match s with
  | EmptyString => EmptyString
  | String a s' =>
      match rstrip_char c s' with
      | EmptyString => if Ascii.eqb a c then EmptyString else String a EmptyString
      | r => String a r
      end
  end.
Definition strip_char (c : ascii) (s : string) : string := rstrip_char c (lstrip_char c s).

(** [s.split()]: the words between white space *)
Fixpoint words_from (s word : string) : list string :=
  match s with
  | EmptyString => if str_empty word then [] else [word]
  | String a s => if is_space a then (if str_empty word then [] else [word]) ++ words_from s EmptyString
                  else words_from s (word +:+ String a EmptyString)
  end.
Definition words (s : string) : list string := words_from s EmptyString.

(** ** [read_shell_env]; a later line wins *)
Definition quote_char : ascii := ascii_of_nat 34.
Definition apostrophe : ascii := ascii_of_nat 39.

Definition read_env_line (values : list (string * string)) (raw_line : string) : list (string * string) :=
  let line := strip raw_line in
  match line with
  | EmptyString => values
  | String a _ =>
      if Ascii.eqb a "#" then values else
      match split_once "=" line with
      | None => values
      | Some (key, v) => dset (strip key) (strip_char apostrophe (strip_char quote_char (strip v))) values
      end
  end.

Definition read_shell_env (text : string) : list (string * string) := foldl read_env_line [] (splitlines text).

(** ** [cuda_contract] *)
Definition cuda_contract (h : host) : outcome (string * Z * string) :=
  torch ← or_raise (runtime_error "torch is required") (h_torch h);
  cuda_version ← or_raise (runtime_error "torch.version.cuda is empty") torch;
  if str_empty cuda_version then Raise (runtime_error "torch.version.cuda is empty") else
  cuda_major ← or_raise (runtime_error "cannot parse torch CUDA version") (py_int (hd EmptyString (split_on "." cuda_version)));
  if cuda_major =? 12 then Ret (cuda_version, cuda_major, "mooncake-transfer-engine"%string)
  else if cuda_major =? 13 then Ret (cuda_version, cuda_major, "mooncake-transfer-engine-cuda13"%string)
  else Raise (runtime_error "unsupported CUDA major").

(** ** [installed_distribution] *)
Definition installed_distribution (h : host) : outcome (string * string) :=
  match omap (λ n, pair n <$> h_version h n) package_names with
  | [p] => Ret p
  | _ => Raise (runtime_error "expected exactly one Mooncake distribution")
  end.

(** ** [engine_path] *)
Definition engine_path (h : host) : outcome string :=
  match h_locations h with
  | None | Some [] => Raise (runtime_error "cannot locate the mooncake package")
  | Some (dir :: _) =>
      match h_engines h dir with
      | [path] => Ret path
      | _ => Raise (runtime_error "expected one Mooncake engine shared object")
      end
  end.

(** ** [verify_runtime_dependencies] *)
Fixpoint missing_modules (h : host) (deps : list string) : outcome (list string) :=
  match deps with
  | [] => Ret []
  | d :: deps =>
      found ← h_find_spec h d;
      missing ← missing_modules h deps;
      Ret (if (found : bool) then missing else d :: missing)
  end.

Definition verify_runtime_dependencies (h : host) (lock : list (string * string)) : outcome unit :=
  missing ← missing_modules h (words (default EmptyString (dget "MOONCAKE_RUNTIME_DEPS"%string lock)));
  match missing with [] => Ret tt | _ => Raise (runtime_error "missing Mooncake runtime dependencies") end.

(** ** [verify_linkage] *)
Definition missing_library (line : string) : option string :=
  if str_in "=> not found" line then head (words line) else None.

Fixpoint take_digits (s : string) : string :=
  match s with
  | String a s => if is_digit a then String a (take_digits s) else EmptyString
  | EmptyString => EmptyString
  end.

(** [re.findall(r"libcudart\.so\.(\d+)", s)]; [skip] characters belong to the last match. *)
Definition cudart : string := "libcudart.so.".

Definition cudart_here (s : string) : option string :=
  if String.prefix cudart s then
    let digits := take_digits (str_drop (String.length cudart) s) in
    if str_empty digits then None else Some digits
  else None.

Fixpoint find_cudart (skip : nat) (s : string) : list string :=
  match s with
  | EmptyString => []
  | String _ s' =>
      match skip with
      | S skip => find_cudart skip s'
      | O => match cudart_here s with
             | Some digits => digits :: find_cudart (String.length cudart + String.length digits - 1) s'
             | None => find_cudart 0 s'
             end
      end
  end.

(** [sorted(set(...))] of integers and of strings *)
Fixpoint insert_int (x : Z) (l : list Z) : list Z :=
  match l with
  | [] => [x]
  | y :: l' => if x <? y then x :: l else if x =? y then l else y :: insert_int x l'
  end.
Definition sorted_ints (l : list Z) : list Z := foldr insert_int [] l.
Definition sorted_strings (l : list string) : list string := sorted_by id (remove_dups l).

Fixpoint int_all (l : list string) : outcome (list Z) :=
  match l with
  | [] => Ret []
  | s :: l => x ← or_raise ValueError (py_int s); xs ← int_all l; Ret (x :: xs)
  end.

Definition verify_linkage (h : host) (path : string) (cuda_major : Z) : outcome (list string * string) :=
  stdout ← h_ldd h path;
  let missing := omap missing_library (splitlines stdout) in
  match sorted_strings (filter (λ m, m ∉ allowed_missing) missing) with
  | _ :: _ => Raise (runtime_error "unexpected unresolved libraries")
  | [] =>
      match find_cudart 0 stdout with
      | [] => Raise (runtime_error "libcudart dependency not found")
      | found =>
          majors ← int_all found;
          if bool_decide (sorted_ints majors = [cuda_major])
          then Ret (sorted_strings missing, cudart +:+ int_text cuda_major)
          else Raise (runtime_error "CUDA ABI mismatch")
      end
  end.

(** ** [main]: the lines it prints *)
Definition verify_main (h : host) (load_extension : bool) : outcome (list string) :=
  text ← or_raise (runtime_error "Mooncake source lock not found") (h_lock h);
  let lock := read_shell_env text in
  expected_version ← or_raise (runtime_error "MOONCAKE_VERSION missing") (dget "MOONCAKE_VERSION"%string lock);
  if str_empty expected_version then Raise (runtime_error "MOONCAKE_VERSION missing") else
  '(cuda_version, cuda_major, expected_package) ← cuda_contract h;
  '(package_name, version) ← installed_distribution h;
  if negb (String.eqb package_name expected_package) then Raise (runtime_error "expected distribution") else
  if negb (String.eqb version expected_version) then Raise (runtime_error "expected Mooncake") else
  _ ← verify_runtime_dependencies h lock;
  path ← engine_path h;
  payload ← h_bytes h path;
  match filter (λ t, str_in t payload = false) expected_tokens with
  | _ :: _ => Raise (runtime_error "transport markers missing")
  | [] =>
      '(missing, linked) ← verify_linkage h path cuda_major;
      _ ← (if load_extension then h_load h else Ret tt);
      Ret ["distribution=" +:+ package_name; "version=" +:+ version; "torch_cuda=" +:+ cuda_version;
           "linked_cudart=" +:+ linked; "engine=" +:+ path; "transports=nvlink,nvlink_intra";
           "build_time_missing_libraries=" +:+ (match missing with [] => "none" | _ => join "," missing end);
           "extension_loaded=" +:+ (if load_extension then "True" else "False")]%string
  end.

(** ** Lemmas *)
Lemma prefix_trans a b s : String.prefix a b = true → String.prefix b s = true → String.prefix a s = true.
Proof.
  revert b s. induction a as [|x a IH]; intros b s Ha Hb; [by destruct s|]. destruct b as [|y b]; [done|].
  destruct s as [|z s]; [done|]. simpl in *. destruct (ascii_dec x y) as [->|]; [|done].
  destruct (ascii_dec y z); [|done]. by eapply IH.
Qed.

Lemma str_in_prefix a b s : String.prefix a b = true → str_in b s = true → str_in a s = true.
Proof.
  intros Ha. induction s as [|z s IH]; cbn [str_in]; rewrite !orb_true_iff; intros [H|H]; try done;
    [left; by eapply prefix_trans|left; by eapply prefix_trans|right; by apply IH].
Qed.

(** The second marker is contained in the first: it can never be what is missing. *)
Lemma nvlink_marker_redundant payload : str_in "nvlink_intra" payload = true → str_in "nvlink" payload = true.
Proof. by apply str_in_prefix. Qed.

Lemma markers_spec payload :
  filter (λ t, str_in t payload = false) expected_tokens = [] ↔ str_in "nvlink_intra" payload = true.
Proof.
  unfold expected_tokens. rewrite !filter_cons, filter_nil. pose proof (nvlink_marker_redundant payload).
  repeat case_decide; destruct (str_in "nvlink_intra" payload), (str_in "nvlink" payload); naive_solver.
Qed.

Lemma insert_int_nonempty x l : insert_int x l ≠ [].
Proof. destruct l as [|y l]; simpl; [done|]. by repeat case_match. Qed.

Lemma sorted_ints_singleton l x : sorted_ints l = [x] ↔ l ≠ [] ∧ ∀ y, y ∈ l → y = x.
Proof.
  induction l as [|y l IH]; [by split; [|intros [? _]]|]. cbn [sorted_ints foldr]. fold (sorted_ints l).
  destruct l as [|z l]; [simpl; split|].
  - intros [= ->]. split; [done|]. by intros u ->%list_elem_of_singleton.
  - intros [_ H]. f_equal. apply H. left.
  - split.
    + intros H. split; [done|]. assert (sorted_ints (z :: l) = [x] ∧ y = x) as [H1 ->].
      { destruct (sorted_ints (z :: l)) as [|u r] eqn:E; [by apply insert_int_nonempty in E|]. simpl in H.
        destruct (Z.ltb_spec y u); [done|]. destruct (Z.eqb_spec y u) as [->|]; [by injection H as -> ->|].
        injection H as _ H. by apply insert_int_nonempty in H. }
      apply IH in H1 as [_ H1]. intros u [->|Hu]%elem_of_cons; [done|by apply H1].
    + intros [_ H]. rewrite (proj2 IH); [|split; [done|]; intros u Hu; apply H; by right].
      rewrite (H y) by left. simpl. by rewrite Z.ltb_irrefl, Z.eqb_refl.
Qed.

Lemma sorted_strings_nil l : sorted_strings l = [] ↔ l = [].
Proof.
  unfold sorted_strings. split; [|by intros ->]. intros H. pose proof (sorted_by_perm id (remove_dups l)) as P.
  rewrite H in P. apply Permutation_nil_l in P. destruct l as [|x l]; [done|].
  assert (x ∈ remove_dups (x :: l)) as Hx by (apply elem_of_remove_dups; left). rewrite <- P in Hx. by apply elem_of_nil in Hx.
Qed.

Lemma missing_modules_nil h deps : missing_modules h deps = Ret [] ↔ ∀ d, d ∈ deps → h_find_spec h d = Ret true.
Proof.
  induction deps as [|d deps IH]; simpl; [split; [intros _ d Hd; by apply elem_of_nil in Hd|done]|].
  unfold mbind, outcome_bind. split.
  - destruct (h_find_spec h d) as [[]|] eqn:E; try done; destruct (missing_modules h deps); try done.
    intros [= ->]. intros d' [->|Hd']%elem_of_cons; [done|]. by apply IH.
  - intros H. rewrite (H d) by left. rewrite (proj2 IH); [done|]. intros d' Hd'. apply H. by right.
Qed.

Lemma int_all_const l x : (∃ xs, int_all l = Ret xs ∧ ∀ y, y ∈ xs → y = x) ↔ ∀ s, s ∈ l → py_int s = Some x.
Proof.
  induction l as [|s l IH]; simpl.
  { split; [intros _ s Hs; by apply elem_of_nil in Hs|]. intros _. exists []. split; [done|]. intros y Hy. by apply elem_of_nil in Hy. }
  unfold mbind, outcome_bind, or_raise. split.
  - intros (xs & E & H). destruct (py_int s) as [y|] eqn:Es; [|done]. destruct (int_all l) as [ys|]; [|done].
    injection E as <-. rewrite (H y) in Es by left. intros s' [->|Hs']%elem_of_cons; [done|].
    apply IH; [|done]. exists ys. split; [done|]. intros u Hu. apply H. by right.
  - intros H. rewrite (H s) by left. destruct (proj2 IH) as (xs & -> & Hx); [intros s' Hs'; apply H; by right|].
    exists (x :: xs). split; [done|]. intros y [->|Hy]%elem_of_cons; [done|by apply Hx].
Qed.

Lemma int_all_length l xs : int_all l = Ret xs → length xs = length l.
Proof.
  revert xs. induction l as [|s l IH]; intros xs; simpl; [by intros [= <-]|]. unfold mbind, outcome_bind, or_raise.
  destruct (py_int s); [|done]. destruct (int_all l) as [ys|]; [|done]. intros [= <-]. simpl. by rewrite (IH ys).
Qed.

(** ** What is accepted *)
(** The engine is linked against the CUDA runtime of the given version only, and
    lacks at most libraries of the driver. *)
Definition linked_to (major : Z) (stdout : string) : Prop :=
  (∀ line lib, line ∈ splitlines stdout → missing_library line = Some lib → lib ∈ allowed_missing) ∧
  find_cudart 0 stdout ≠ [] ∧ ∀ s, s ∈ find_cudart 0 stdout → py_int s = Some major.

Lemma linkage_spec h path major :
  (∃ r, verify_linkage h path major = Ret r) ↔ ∃ stdout, h_ldd h path = Ret stdout ∧ linked_to major stdout.
Proof.
  unfold verify_linkage, mbind, outcome_bind. destruct (h_ldd h path) as [stdout|];
    [|split; [by intros [? ?]|by intros (? & ? & _)]].
  set (missing := omap missing_library (splitlines stdout)).
  assert (sorted_strings (filter (λ m, m ∉ allowed_missing) missing) = [] ↔
          ∀ line lib, line ∈ splitlines stdout → missing_library line = Some lib → lib ∈ allowed_missing) as Hmiss.
  { rewrite sorted_strings_nil. split.
    - intros H line lib Hl Hm. destruct (decide (lib ∈ allowed_missing)); [done|exfalso].
      eapply (filter_nil_not_elem_of _ _ lib H); [done|]. apply list_elem_of_omap. by exists line.
    - intros H. apply list_filter_none. intros lib Hl Hn. apply list_elem_of_omap in Hl as (line & Hl & Hm). by eapply Hn, H. }
  assert ((∃ xs, int_all (find_cudart 0 stdout) = Ret xs ∧ sorted_ints xs = [major]) ↔
          find_cudart 0 stdout ≠ [] ∧ ∀ s, s ∈ find_cudart 0 stdout → py_int s = Some major) as Hmaj.
  { rewrite <- int_all_const. split.
    - intros (xs & E & H). apply sorted_ints_singleton in H as [Hn H]. split; [|by exists xs].
      intros E0. apply int_all_length in E. rewrite E0 in E. by destruct xs.
    - intros (Hn & xs & E & H). exists xs. split; [done|]. apply sorted_ints_singleton. split; [|done].
      intros ->. apply int_all_length in E. by destruct (find_cudart 0 stdout). }
  split.
  - intros [r Hr]. exists stdout. split; [done|]. destruct (sorted_strings _) eqn:E; [|done]. split; [by apply Hmiss|].
    apply Hmaj. destruct (find_cudart 0 stdout); [done|]. destruct (int_all _) as [xs|]; [|done].
    exists xs. split; [done|]. by case_bool_decide.
  - intros (? & [= <-] & Hm & Hf). rewrite (proj2 Hmiss Hm). apply Hmaj in Hf as (xs & E & Hs).
    destruct (find_cudart 0 stdout); [by injection E as <-|]. rewrite E, bool_decide_true by done. by eexists.
Qed.

(** One distribution is installed, the one for the CUDA version. *)
Definition fits (h : host) (major : Z) (version : string) : Prop :=
  major = 12 ∧ h_version h "mooncake-transfer-engine" = Some version ∧ h_version h "mooncake-transfer-engine-cuda13" = None ∨
  major = 13 ∧ h_version h "mooncake-transfer-engine" = None ∧ h_version h "mooncake-transfer-engine-cuda13" = Some version.

Lemma contract_spec h cuda major pkg :
  cuda_contract h = Ret (cuda, major, pkg) ↔
  h_torch h = Some (Some cuda) ∧ str_empty cuda = false ∧ py_int (hd EmptyString (split_on "." cuda)) = Some major ∧
  (major = 12 ∧ pkg = "mooncake-transfer-engine"%string ∨ major = 13 ∧ pkg = "mooncake-transfer-engine-cuda13"%string).
Proof.
  unfold cuda_contract, mbind, outcome_bind, or_raise. split.
  - destruct (h_torch h) as [[c|]|]; try done. destruct (str_empty c) eqn:Ec; [done|].
    destruct (py_int _) as [z|] eqn:Ez; [|done].
    destruct (Z.eqb_spec z 12); [|destruct (Z.eqb_spec z 13); [|done]]; intros [= <- <- <-]; split_and!; auto.
  - intros (-> & -> & -> & [[-> ->]|[-> ->]]); done.
Qed.

Lemma distribution_spec h pkg v :
  installed_distribution h = Ret (pkg, v) ↔
  pkg = "mooncake-transfer-engine"%string ∧ h_version h "mooncake-transfer-engine" = Some v ∧
    h_version h "mooncake-transfer-engine-cuda13" = None ∨
  pkg = "mooncake-transfer-engine-cuda13"%string ∧ h_version h "mooncake-transfer-engine" = None ∧
    h_version h "mooncake-transfer-engine-cuda13" = Some v.
Proof.
  unfold installed_distribution, package_names. cbn [omap list_omap].
  destruct (h_version h "mooncake-transfer-engine"), (h_version h "mooncake-transfer-engine-cuda13"); simpl; naive_solver.
Qed.

Lemma engine_path_spec h path :
  engine_path h = Ret path ↔ ∃ dir rest, h_locations h = Some (dir :: rest) ∧ h_engines h dir = [path].
Proof.
  unfold engine_path. split.
  - destruct (h_locations h) as [[|dir rest]|]; try done. intros H. exists dir, rest. split; [done|].
    destruct (h_engines h dir) as [|e [|]]; try done. by injection H as ->.
  - by intros (dir & rest & -> & ->).
Qed.

Lemma dependencies_spec h lock :
  verify_runtime_dependencies h lock = Ret tt ↔
  ∀ d, d ∈ words (default EmptyString (dget "MOONCAKE_RUNTIME_DEPS"%string lock)) → h_find_spec h d = Ret true.
Proof.
  rewrite <- missing_modules_nil. unfold verify_runtime_dependencies, mbind, outcome_bind.
  destruct (missing_modules h _) as [[|]|]; naive_solver.
Qed.

Record acceptable (h : host) (load_extension : bool) (text version cuda path payload stdout : string) (major : Z) : Prop := {
  ok_lock : h_lock h = Some text;
  ok_version : dget "MOONCAKE_VERSION"%string (read_shell_env text) = Some version ∧ str_empty version = false;
  ok_cuda : h_torch h = Some (Some cuda) ∧ str_empty cuda = false ∧
            py_int (hd EmptyString (split_on "." cuda)) = Some major;
  ok_fits : fits h major version;
  ok_dependencies : ∀ d, d ∈ words (default EmptyString (dget "MOONCAKE_RUNTIME_DEPS"%string (read_shell_env text))) →
                    h_find_spec h d = Ret true;
  ok_engine : ∃ dir rest, h_locations h = Some (dir :: rest) ∧ h_engines h dir = [path];
  ok_payload : h_bytes h path = Ret payload ∧ str_in "nvlink_intra" payload = true;
  ok_linked : h_ldd h path = Ret stdout ∧ linked_to major stdout;
  ok_load : load_extension = true → h_load h = Ret tt
}.

(** C39. The installation check passes exactly when the lock file names a
    version, exactly one Mooncake distribution is installed, it has that version
    and is the one for the major CUDA version of torch, every dependency the
    lock file lists can be found, there is one engine, it contains the marker
    [nvlink_intra], the only libraries it lacks are those of the driver, every
    CUDA runtime it is linked to has torch's major version, and it can be
    loaded if that is asked for.  The other marker never matters. *)
Theorem install_accepted h load_extension :
  (∃ out, verify_main h load_extension = Ret out) ↔
  ∃ text version cuda path payload stdout major,
    acceptable h load_extension text version cuda path payload stdout major.
Proof.
  unfold verify_main, mbind, outcome_bind, or_raise. split.
  - intros [out H]. destruct (h_lock h) as [text|] eqn:E1; [|done].
    destruct (dget "MOONCAKE_VERSION"%string _) as [version|] eqn:E2; [|done]. destruct (str_empty version) eqn:E3; [done|].
    destruct (cuda_contract h) as [[[cuda major] pkg]|] eqn:E4; [|done]. apply contract_spec in E4 as (C1 & C2 & C3 & C4).
    destruct (installed_distribution h) as [[pkg' version']|] eqn:E5; [|done].
    destruct (String.eqb_spec pkg' pkg) as [->|]; [|done]. destruct (String.eqb_spec version' version) as [->|]; [|done].
    simpl in H. destruct (verify_runtime_dependencies h _) as [[]|] eqn:E6; [|done].
    destruct (engine_path h) as [path|] eqn:E7; [|done]. destruct (h_bytes h path) as [payload|] eqn:E8; [|done].
    destruct (filter _ expected_tokens) eqn:E9; [|done].
    destruct (verify_linkage h path major) as [r|] eqn:E10; [|done].
    destruct (proj1 (linkage_spec h path major) (ex_intro _ r E10)) as (stdout & L1 & L2).
    exists text, version, cuda, path, payload, stdout, major. apply distribution_spec in E5.
    split; [done|by split|by split_and!|unfold fits; naive_solver|by apply dependencies_spec|by apply engine_path_spec| |by split|].
    + split; [done|]. by apply markers_spec.
    + intros ->. destruct r. by destruct (h_load h) as [[]|].
  - intros (text & version & cuda & path & payload & stdout & major & [-> [-> ->] (C1 & C2 & C3) Hf Hd He [Hb Hm] Hl Hload]).
    assert (∃ pkg, cuda_contract h = Ret (cuda, major, pkg) ∧ installed_distribution h = Ret (pkg, version)) as (pkg & -> & ->).
    { destruct Hf as [(-> & ? & ?)|(-> & ? & ?)]; eexists; rewrite contract_spec, distribution_spec; naive_solver. }
    rewrite !String.eqb_refl. simpl. rewrite (proj2 (dependencies_spec _ _) Hd), (proj2 (engine_path_spec _ _) He), Hb.
    rewrite (proj2 (markers_spec payload) Hm). destruct (proj2 (linkage_spec h path major)) as [[missing linked] ->]; [by exists stdout|].
    destruct load_extension; [rewrite Hload by done|]; by eexists.
Qed.

(** ** An image for CUDA 13 *)
Definition nl : string := String (ascii_of_nat 10) EmptyString.
Definition toy_host (payload : string) : host :=
  mkHost (Some (join nl ["# source"; "MOONCAKE_VERSION='0.3.7'"; "MOONCAKE_RUNTIME_DEPS=aiohttp requests"; ""]))
    (Some (Some "13.0"))
    (λ n, if String.eqb n "mooncake-transfer-engine-cuda13" then Some "0.3.7" else None)
    (λ _, Ret true) (Some ["/lib/mooncake"]) (λ _, ["/lib/mooncake/engine.so"]) (λ _, Ret payload)
    (λ _, Ret (join nl ["  libcudart.so.13 => /lib/libcudart.so.13"; "  libcuda.so.1 => not found"; "  libc.so.6 => /lib/libc.so.6"]))
    (Ret tt)%string.

Example toy_host_accepted :
  verify_main (toy_host "..nvlink_intra..") false =
  Ret ["distribution=mooncake-transfer-engine-cuda13"; "version=0.3.7"; "torch_cuda=13.0"; "linked_cudart=libcudart.so.13";
       "engine=/lib/mooncake/engine.so"; "transports=nvlink,nvlink_intra"; "build_time_missing_libraries=libcuda.so.1";
       "extension_loaded=False"]%string.
Proof. vm_compute. reflexivity. Qed.

Example toy_host_refused :
  verify_main (toy_host "..nvlink..") false = Raise (runtime_error "transport markers missing").
Proof. vm_compute. reflexivity. Qed.
