(* ===== verification/Downloader.v ===== *)
(** * The model downloader: [scripts/huggingface_downloader.py]

    A small web service that downloads a model into a directory below a base
    directory.  [os.path.abspath] is modelled with its normalisation; creating
    directories and downloading are parameters, and the calls made are recorded. *)
From stdpp Require Import base list strings gmap.
From Stdlib Require Import Ascii.
From S2P Require Import Prelude PyDict PyStr Json Request RequestOther Files.

(** ** [os.path.normpath] and [os.path.abspath] *)
(** One slash, or two when the path starts with exactly two. *)
Definition initial_slashes (path : string) : nat :=
  match path with
  | String a s =>
      if negb (Ascii.eqb a "/") then 0 else
      match s with
      | String b s => if negb (Ascii.eqb b "/") then 1 else
                      match s with
                      | String c _ => if Ascii.eqb c "/" then 1 else 2
                      | EmptyString => 2
                      end
      | EmptyString => 1
      end
  | EmptyString => 0
  end.

Definition here_dir : string := ".".
Definition up_dir : string := "..".

(** The body of the loop over the components *)
Definition push (initial : nat) (new_comps : list string) (comp : string) : list string :=
  if decide (comp = EmptyString ∨ comp = here_dir) then new_comps
  else if decide (comp ≠ up_dir ∨ initial = 0 ∧ new_comps = [] ∨ last new_comps = Some up_dir) then new_comps ++ [comp]
  else take (length new_comps - 1) new_comps.

Definition components (initial : nat) (path : string) : list string := foldl (push initial) [] (split_on "/" path).

Definition slashes (n : nat) : string := join EmptyString (replicate n "/"%string).

Definition normpath (path : string) : string :=
  if str_empty path then here_dir else
  let initial := initial_slashes path in
  let path := slashes initial +:+ join "/" (components initial path) in
  if str_empty path then here_dir else path.

Definition abspath (cwd path : string) : string :=
  normpath (if starts_with_slash path then path else path_join cwd path).

(** ** The handler *)
Record DownloadRequest := mkDownload { dl_model_id : string; dl_local_dir : string; dl_token : option string }.

Inductive dl_call : Type :=
| MakeDirs (path : string)
| Snapshot (model_id path : string) (token : option string).

Section Download.
Context (environ : option string) (cwd : string).   (* LORA_DOWNLOAD_BASE_DIR, [os.getcwd()] *)
Context (makedirs : string → outcome unit) (snapshot_download : string → string → option string → outcome unit).

Definition base_dir : string := abspath cwd (default "/data/lora-adapters"%string environ).
Definition target_dir (local_dir : string) : string := abspath cwd (path_join base_dir local_dir).

(** The body of [try]: message and path *)
Definition download_body (r : DownloadRequest) : M (list dl_call) (string * string) :=
  let target := target_dir (dl_local_dir r) in
  if negb (String.prefix base_dir target) then raise (HTTPException 400) else
  _ ← modify (λ calls, calls ++ [MakeDirs target]);
  _ ← lift (makedirs target);
  _ ← modify (λ calls, calls ++ [Snapshot (dl_model_id r) target (dl_token r)]);
  _ ← lift (snapshot_download (dl_model_id r) target (dl_token r));
  mret (join EmptyString ["Successfully downloaded "; dl_model_id r; " to "; target], target)%string.

(** Every exception, the refusal included, becomes a reply with status 500. *)
Definition download (r : DownloadRequest) : M (list dl_call) (string * string) := λ calls,
  match download_body r calls with
  | (Raise _, calls) => (Raise (HTTPException 500), calls)
  | res => res
  end.
End Download.

Example abspath_example : abspath "/srv/x" "../a//./b/.." = "/srv/a"%string.
Proof. vm_compute. reflexivity. Qed.

(** ** Normal paths *)
Definition proper (c : string) : Prop := c ≠ EmptyString ∧ c ≠ here_dir ∧ c ≠ up_dir ∧ no_char "/" c.

(** The components that count *)
Definition counted (l : list string) : list string := filter (λ c, ¬ (c = EmptyString ∨ c = here_dir)) l.

Lemma push_all k acc l : up_dir ∉ l → foldl (push k) acc l = acc ++ counted l.
Proof.
  revert acc. induction l as [|c l IH]; intros acc Hl; [by rewrite app_nil_r|]. apply not_elem_of_cons in Hl as [Hc Hl].
  cbn [foldl]. rewrite IH by done. unfold counted, push. rewrite filter_cons.
  destruct (decide (c = EmptyString ∨ c = here_dir)) as [E|E].
  - by rewrite decide_False by tauto.
  - rewrite (decide_True (P := c ≠ up_dir ∨ _)) by (left; congruence). rewrite decide_True by done. by rewrite <- app_assoc.
Qed.

Lemma counted_proper l : Forall proper l → counted l = l.
Proof. intros Hl. apply list_filter_all. intros c Hc. eapply Forall_forall in Hl as (? & ? & _); [|done]. tauto. Qed.

Lemma proper_no_parent l : Forall proper l → up_dir ∉ l.
Proof. intros Hl Hd. by eapply Forall_forall in Hl as (_ & _ & ? & _). Qed.

Lemma push_proper k acc l : 0 < k → Forall proper acc → Forall (no_char "/") l → Forall proper (foldl (push k) acc l).
Proof.
  intros Hk. revert acc. induction l as [|c l IH]; intros acc Ha Hl; [done|]. apply Forall_cons in Hl as [Hc Hl].
  cbn [foldl]. apply IH; [|done]. unfold push. case_decide as E; [done|]. case_decide as E'; [|by apply Forall_take].
  apply Forall_app. split; [done|]. apply Forall_singleton. split_and!; try tauto. intros ->.
  destruct E' as [?|[[? _]|Hlast]]; [done|lia|]. apply last_Some_elem_of in Hlast. by apply (proper_no_parent acc).
Qed.

Lemma components_proper k path : 0 < k → Forall proper (components k path).
Proof. intros Hk. apply push_proper; [done|done|]. apply split_pieces_no_char. Qed.

Lemma split_on_append c x s : split_on c (x +:+ String c s) = split_on c x ++ split_on c s.
Proof.
  induction x as [|a x IH]; simpl; [by rewrite decide_True|]. rewrite IH. case_decide; [done|].
  pose proof (split_on_nonempty c x). by destruct (split_on c x).
Qed.

(** A path that [abspath] returns *)
Definition normal (k : nat) (l : list string) : string := slashes k +:+ join "/" l.

Lemma split_normal k l : (k = 1 ∨ k = 2) → Forall proper l → counted (split_on "/" (normal k l)) = l ∧ up_dir ∉ split_on "/" (normal k l).
Proof.
  intros Hk Hl. assert (split_on "/" (normal k l) = replicate k EmptyString ++ split_on "/" (join "/" l)) as ->.
  { by destruct Hk as [-> | ->]. }
  assert (counted (split_on "/" (join "/" l)) = l ∧ up_dir ∉ split_on "/" (join "/" l)) as [H1 H2].
  { destruct l as [|c l]; [split; [done|by intros ?%list_elem_of_singleton]|].
    rewrite split_join; [|done|eapply Forall_impl; [exact Hl|by intros x (? & ? & ? & ?)]].
    split; [by apply counted_proper|by apply proper_no_parent]. }
  unfold counted in *. rewrite filter_app, H1. split.
  - by destruct Hk as [-> | ->].
  - intros [H|H]%elem_of_app; [|done]. by apply elem_of_replicate in H as [? _].
Qed.

Lemma initial_normal k l rest :
  (k = 1 ∨ k = 2) → Forall proper l → l ≠ [] ∨ starts_with_slash rest = false → initial_slashes (normal k l +:+ rest) = k.
Proof.
  intros Hk Hl Hr. assert (∃ t, normal k l +:+ rest = slashes k +:+ t ∧ starts_with_slash t = false) as (t & -> & Ht).
  { unfold normal. rewrite str_app_assoc. eexists. split; [done|]. destruct l as [|c l].
    - destruct Hr as [?|Hr]; [done|]. done.
    - apply Forall_cons in Hl as [(Hne & _ & _ & Hc) _]. destruct c as [|a c]; [done|].
      unfold no_char in Hc. simpl in Hc. case_decide as E; [done|]. destruct l; simpl; by apply Ascii.eqb_neq. }
  destruct Hk as [-> | ->]; destruct t as [|a t]; try done; simpl in *; by rewrite Ht.
Qed.

Lemma normpath_normal path :
  starts_with_slash path = true →
  normpath path = normal (initial_slashes path) (components (initial_slashes path) path) ∧
  (initial_slashes path = 1 ∨ initial_slashes path = 2).
Proof.
  intros Hs. assert (initial_slashes path = 1 ∨ initial_slashes path = 2) as Hk.
  { destruct path as [|a p]; [done|]. simpl in *. rewrite Hs. simpl. destruct p as [|b p]; [by left|].
    destruct (negb _); [by left|]. destruct p as [|c p]; [by right|]. destruct (Ascii.eqb c "/"); auto. }
  split; [|done]. unfold normpath, normal. destruct path as [|a p]; [done|]. cbn [str_empty].
  destruct Hk as [-> | ->]; done.
Qed.

Lemma abspath_normal cwd path :
  starts_with_slash cwd = true → ∃ k l, abspath cwd path = normal k l ∧ (k = 1 ∨ k = 2) ∧ Forall proper l.
Proof.
  intros Hc. unfold abspath. set (p := if starts_with_slash path then path else path_join cwd path).
  assert (starts_with_slash p = true) as Hp.
  { subst p. destruct (starts_with_slash path) eqn:E; [done|]. unfold path_join. rewrite E.
    destruct cwd as [|a cwd]; [done|]. by destruct (str_empty _ || ends_with_slash _). }
  destruct (normpath_normal p Hp) as [-> Hk]. eexists _, _. split; [done|]. split; [done|].
  apply components_proper. destruct Hk as [-> | ->]; lia.
Qed.

(** Joining a relative path without [..] to a normal path *)
Lemma ends_with_slash_inv s : ends_with_slash s = true → ∃ s', s = s' +:+ "/".
Proof.
  induction s as [|a s IH]; [done|]. destruct s as [|b s].
  - simpl. intros ->%Ascii.eqb_eq. by exists EmptyString.
  - intros H. destruct (IH H) as [s' E]. exists (String a s'). by rewrite E.
Qed.

Lemma join_normal k l dir :
  (k = 1 ∨ k = 2) → Forall proper l → starts_with_slash dir = false → up_dir ∉ split_on "/" dir →
  initial_slashes (path_join (normal k l) dir) = k ∧
  components k (path_join (normal k l) dir) = l ++ counted (split_on "/" dir).
Proof.
  intros Hk Hl Hd Hn. destruct (split_normal k l Hk Hl) as [H1 H2].
  assert (str_empty (normal k l) = false) as He by (by destruct Hk as [-> | ->]).
  unfold path_join. rewrite Hd, He. cbn [orb]. destruct (ends_with_slash (normal k l)) eqn:E.
  - split; [apply initial_normal; auto|]. destruct (ends_with_slash_inv _ E) as [s' Es].
    rewrite Es in H1, H2 |- *. rewrite str_app_assoc. change ("/" +:+ dir) with (String "/" dir).
    change (s' +:+ "/") with (s' +:+ String "/" EmptyString) in H1, H2. rewrite split_on_append in H1, H2.
    unfold components. rewrite split_on_append, push_all by (rewrite elem_of_app in *; tauto).
    unfold counted in *. rewrite filter_app in *. cbn in H1. rewrite app_nil_r in H1. by rewrite H1.
  - split.
    + apply initial_normal; try done. left. intros ->. by destruct Hk as [-> | ->].
    + change ("/" +:+ dir) with (String "/" dir). unfold components. rewrite split_on_append, push_all by (rewrite elem_of_app; tauto).
      unfold counted in *. by rewrite filter_app, H1.
Qed.

Lemma join_app sep l l' : ∃ rest, join sep (l ++ l') = join sep l +:+ rest.
Proof.
  induction l as [|x l [rest IH]]; [by eexists|]. destruct l as [|y l].
  - destruct l' as [|z l']; [exists EmptyString; simpl; by rewrite str_app_nil_r|]. by eexists.
  - exists rest. change (x +:+ sep +:+ join sep ((y :: l) ++ l') = (x +:+ sep +:+ join sep (y :: l)) +:+ rest).
    by rewrite IH, !str_app_assoc.
Qed.

(** The components of an absolute path *)
Definition parts (path : string) : list string := components 1 path.

Lemma parts_normal k l : (k = 1 ∨ k = 2) → Forall proper l → parts (normal k l) = l.
Proof. intros Hk Hl. destruct (split_normal k l Hk Hl) as [H1 H2]. unfold parts, components. by rewrite push_all. Qed.

Definition call_path (c : dl_call) : string := match c with MakeDirs p | Snapshot _ p _ => p end.

(** ** What the service promises *)
Lemma target_below environ cwd dir :
  starts_with_slash cwd = true → starts_with_slash dir = false → up_dir ∉ split_on "/" dir →
  String.prefix (base_dir environ cwd) (target_dir environ cwd dir) = true ∧
  parts (target_dir environ cwd dir) = parts (base_dir environ cwd) ++ counted (split_on "/" dir).
Proof.
  intros Hc Hd Hn. unfold target_dir. destruct (abspath_normal cwd (default "/data/lora-adapters"%string environ) Hc) as (k & l & E & Hk & Hl).
  unfold base_dir. rewrite E. destruct (join_normal k l dir Hk Hl Hd Hn) as [Hi Hcomp].
  set (p := path_join (normal k l) dir) in *.
  assert (starts_with_slash p = true) as Hp.
  { subst p. unfold path_join. rewrite Hd. by destruct Hk as [-> | ->]; destruct (str_empty _ || ends_with_slash _). }
  unfold abspath. rewrite Hp. destruct (normpath_normal p Hp) as [-> _]. rewrite Hi, Hcomp. split.
  - unfold normal. destruct (join_app "/" l (counted (split_on "/" dir))) as [rest ->]. rewrite <- str_app_assoc.
    apply Files.prefix_app.
  - rewrite !parts_normal; try done. apply Forall_app. split; [done|]. unfold counted. apply Forall_forall.
    intros c [H1 H2]%list_elem_of_filter. pose proof (split_pieces_no_char "/" dir) as H3. rewrite Forall_forall in H3.
    split_and!; [tauto|tauto|intros ->; done|by apply H3].
Qed.

(** C40. Where the downloader writes: it only touches the directory the request
    names below the base directory, and only if its path starts with the text of
    the base directory's path; every failure, a refused directory included, is
    answered with status 500.  A relative directory without [..] is accepted
    and lies below the base directory. *)
Theorem download_confined environ cwd makedirs snapshot r calls :
  starts_with_slash cwd = true →
  let base := base_dir environ cwd in
  let target := target_dir environ cwd (dl_local_dir r) in
  let '(result, calls') := download environ cwd makedirs snapshot r calls in
  (∃ new, calls' = calls ++ new ∧ ∀ c, c ∈ new → call_path c = target ∧ String.prefix base target = true) ∧
  match result with Ret (_, path) => path = target | Raise e => e = HTTPException 500 end ∧
  (starts_with_slash (dl_local_dir r) = false → up_dir ∉ split_on "/" (dl_local_dir r) →
   MakeDirs target ∈ calls' ∧ parts target = parts base ++ counted (split_on "/" (dl_local_dir r))).
Proof.
  intros Hc. cbv zeta. pose proof (target_below environ cwd (dl_local_dir r) Hc) as Hb.
  unfold download, download_body. set (target := target_dir environ cwd (dl_local_dir r)) in *.
  destruct (String.prefix (base_dir environ cwd) target) eqn:Ep; cbn [negb].
  - unfold mbind, M_bind, modify, lift. destruct (makedirs target) as [[]|e].
    + destruct (snapshot _ target _) as [[]|e]; (split; [|split; [done|]]).
      1,3: eexists; rewrite <- app_assoc; split; [reflexivity|];
        by intros c [->|[->|?%elem_of_nil]%elem_of_cons]%elem_of_cons.
      all: intros H1 H2; split; [rewrite !elem_of_app; left; right; left|by apply Hb].
    + split; [|split; [done|]].
      * eexists. split; [reflexivity|]. by intros c ->%list_elem_of_singleton.
      * intros H1 H2. split; [rewrite elem_of_app; right; left|by apply Hb].
  - simpl. split; [exists []; rewrite app_nil_r; split; [done|by intros c ?%elem_of_nil]|]. split; [done|].
    intros H1 H2. by destruct (Hb H1 H2).
Qed.

Lemma download_confined_witness :
  let '(result, calls) := download None "/srv" (λ _, Ret tt) (λ _ _ _, Ret tt) (mkDownload "m" "adapters//v1" None) [] in
  result = Ret ("Successfully downloaded m to /data/lora-adapters/adapters/v1", "/data/lora-adapters/adapters/v1")%string ∧
  parts (target_dir None "/srv" "adapters//v1") = parts (base_dir None "/srv") ++ ["adapters"; "v1"]%string.
Proof.
  pose proof (download_confined None "/srv" (λ _, Ret tt) (λ _ _ _, Ret tt) (mkDownload "m" "adapters//v1" None) [] eq_refl) as H.
  destruct (download _ _ _ _ _ _) as [result calls] eqn:E. destruct H as (_ & _ & H). split.
  - vm_compute in E. injection E as <- _. reflexivity.
  - destruct H as [_ H]; [reflexivity| |exact H]. apply (bool_decide_unpack _). reflexivity.
Defined.

(** The test compares texts, not components: a directory beside the base
    directory whose name starts like it is accepted. *)
Lemma sibling_accepted :
  (download None "/srv" (λ _, Ret tt) (λ _ _ _, Ret tt) (mkDownload "m" "../lora-adapters-other" None) []).2 =
    [MakeDirs "/data/lora-adapters-other"; Snapshot "m" "/data/lora-adapters-other" None]%string ∧
  ¬ parts (base_dir None "/srv") `prefix_of` parts "/data/lora-adapters-other".
Proof. split; [vm_compute; reflexivity|]. by apply (bool_decide_unpack _). Qed.
